(* ===== verification/_CoqProject ===== *)
-Q . S2P
Prelude.v
Header.v
Result.v
Wire.v
Entry.v
ServerInfo.v
Conn.v
ConnSafety.v
ConnLive.v
Transport.v
Session.v
SessionSpec.v
Errgroup.v
Fork.v
ForkSpec.v
Ops.v
OpsSpec.v
Hash.v
Login.v
Reports.v
LoginSpec.v
LoginSafety.v
Manager.v
ManagerSpec.v
Path.v
Bridge.v
Serve.v
Breaks.v
BridgeSpec.v
FsSpec.v
Url.v
UrlSpec.v
Keeps.v
Command.v
Tracked.v
ServeSpec.v
CommandSpec.v
SignOn.v
Net.v
NetSpec.v
Linear.v
EndToEnd.v
Mount.v
Hostile.v
HostileDsi.v
Dsi.v
Tame.v
Sturdy.v
Typed.v
