(* ===== verification/Prelude.v ===== *)
(** * goafp: an Apple Filing Protocol client, verified

    goafp (src/, Go) is a client of file servers that speak the Apple Filing
    Protocol: a command line (src/cmd/goafp), over the protocol layer
    (src/internal/afp), over a multiplexed connection (src/internal/dsi), and
    a bridge (src/internal/nfsfs) that shows a volume to an NFS server.  Each
    function of the program is a function here, by the name it has there; what
    is proved is about these functions.

    ** How the program is modelled

    - A Go integer is a [Z] with its conversions written out ([u16], [i64], ...);
      byte slices and strings are [list byte]; an out-of-range index or slice
      is a panic.
    - Code runs in the monad [M S]: it takes a state [S] and returns a value
      with the new state ([Ret]), panics ([Panics]), or has used up the fuel
      of the model ([NoFuel], never a behaviour of the program).
    - A Go pair (value, error) is a [result], or a pair where both are used.
    - Code that is not under src/ is a class whose methods are what the
      program calls and whose laws, where a theorem needs any, are documented
      behaviour: [Errgroup] and [ErrgroupLaw] (golang.org/x/sync), [Norm]
      (golang.org/x/text), [Cast5] and [Cast5Law] (golang.org/x/crypto),
      [Entropy] (the random source), [NetIP] (net/netip), [Network] and
      [Machine] (dialling and the state of sockets), [Local] (files, terminal,
      listener, time zone, the operating system's name), [session] (what the NFS
      library does with its handler).
    - Concurrency is explicit where state is shared: the connection ([Sys] of
      Conn.v) and the manager ([MSys] of Manager.v) are machines whose steps are
      the critical sections, channel operations and socket operations of their
      goroutines, and theorems hold for every interleaving.  The lock of the
      manager is part of its machine: the goroutine that reconnects holds it
      while it dials, and the others wait.  Some steps of the connection are
      coarser than the code: [Close], a tick and the answer to the server's
      CloseSession are one step each, where the code takes an id, sends and
      fails the connection one after the other; a call made while all 2^16 ids
      are pending is not enabled, where the code searches on and on.  The groups
      of goroutines that transfer chunks run in an order that the law of
      errgroup leaves open, and theorems hold for every order; that requests
      made at the same time can be taken for requests one after the other is
      proved of the connection in Linear.v.
    - Above these machines calls are made one at a time: [do], the files and the
      filesystem of Bridge.v and the sessions of Serve.v are the code of one
      goroutine.  For [do] a refinement to the machine of the manager is proved;
      handlers that run at the same time are in that machine alone, and what can
      go wrong there with a failed dial is shown at the end of FsSpec.v.
    - Layers meet at interfaces: [Transport] with [Served] (one connection that
      answers), [Network] with [Flaky] (links that may drop), [Machine] with
      [Nas], [Tracked] and [Lossy] (the commands' network: it answers, it counts
      its connections, it loses them).  Clients are proved against the
      interface; the connections of Conn.v, assembled in Net.v, implement all of
      them, and Dsi.v puts the two together.  [Breakable] (requests that may be
      lost with their connection) and [Hostile] (requests and dials that may fail
      in any way) are the weaker promises, kept when connections break.

    ** The files

    - Prelude.v: bytes, integers, slices, errors, the monad, contexts and lists.
    - Header.v (dsi/header.go): the packet header and its codec.
    - Conn.v (dsi/conn.go): the connection; ConnSafety.v: its invariants (ids,
      routing of replies, framing, shutdown); ConnLive.v: that replies in any
      order are delivered, and how a server can block the read loop for good.
    - Transport.v: what the protocol layer needs of the connection, as the
      interface [Transport] and its promise [Served]; the connection of Conn.v
      is proved to implement it.
    - Wire.v (afp/wire.go), Result.v (result.go), Entry.v (entry.go),
      ServerInfo.v (serverinfo.go): payloads, codes, directory entries, server
      information.  Decoders invert the layout that servers send and never panic.
    - Session.v (session.go, without the logins), SessionSpec.v: volumes,
      directories, attributes; errors are reported, enumerations complete.
    - Errgroup.v; Fork.v (fork.go, write.go), ForkSpec.v: reads, writes and
      streams cut into concurrent chunks transfer exactly the bytes they name.
    - Ops.v (ops.go, setparams.go, symlink.go), OpsSpec.v: operations on names,
      parameters and symbolic links.
    - Hash.v (crypto/sha1, crypto/md5); Login.v (uam.go, srp.go, Login of
      session.go); LoginSpec.v: agreement with a server that computes its own
      half; LoginSafety.v: what holds, and what fails, against any server.
    - Reports.v: no operation of a session, a volume or a fork that is not a
      transfer swallows the failure of a request, a login included.
    - Manager.v (nfsfs/conn.go), ManagerSpec.v: reconnecting, for one goroutine
      and for many, with a refinement between the two; deadlock freedom.
    - Path.v (what is used of package path); Bridge.v (nfsfs/file.go, fs.go);
      Breaks.v, BridgeSpec.v: opening, reading and writing over a link that
      drops; FsSpec.v: names, directories, privileges, writing and reading back,
      and the nil volume.
    - Serve.v (nfsfs/serve.go): the handler given to the NFS library and the
      sessions of calls that the library may make.
    - Url.v (parseTarget of main.go, the address of Dial), UrlSpec.v: URLs are
      parsed back to the target they were written from.
    - Keeps.v: operations that leave an observation of their state alone.
    - Command.v (main.go); Tracked.v, ServeSpec.v, CommandSpec.v: every command
      closes the connections that it has opened, a mount included.
    - SignOn.v: signing on and off as a guest, on a network that answers;
      EndToEnd.v: an upload and a download by two runs of the program on it;
      Mount.v: a mount's dialer on a network that loses connections.
    - Net.v: the network made of the connections of Conn.v, with keepalives,
      messages of the server and failures between and during requests; NetSpec.v:
      it keeps the promises above.  Hostile.v: a mount on which anything may
      fail, dials included, reads and writes rightly or reports an error;
      HostileDsi.v: so does one over the connections of Net.v.  Dsi.v: the
      program over them.
    - Linear.v: any number of goroutines on one connection with a server that
      executes and answers in any order; linearizability, and its limit.
    - Tame.v: programs that never panic, and those of package afp that do not
      whatever the replies; Sturdy.v: nor does a mount, in any session of calls.
    - Typed.v: entries are well-typed and listings show them exactly.

    The claims about the program are the theorems whose comments carry a number
    (C1 is the most important); those with hypotheses are applied to a concrete
    instance by the lemma named after them with [_witness].

    ** Fuel and bounds

    Loops that Go runs until a condition holds take fuel.  [id_fuel] is 2^16, the
    number of request ids, so that the search for a free one always ends.  The
    loop of [ReadDir] needs one unit per entry, the streams of fork.go and
    write.go one per byte, and the theorems show that this is enough;
    [parse_options] gets one unit per byte of the payload and [digits] one per
    bit of a 64-bit number.  File offsets stay below 2^63, pathnames below
    2^16 bytes and directories below 2^32 entries where a theorem says so:
    past these bounds the program's conversions wrap, as the definitions do.

    ** Schedules of Net.v

    A network of Net.v carries a list of events for each of its connections,
    one for each request to come, and theorems quantify over the lists.  An event
    puts ticks and frames of the server before its request, and may make it fail:
    a write or a read fails, or the server closes the session, and the read loop
    ends (with the request executed or not, or before it was sent); a write
    fails, and nobody but the caller notices, so that the connection still looks
    alive while every later write on it fails; or the caller's time is up, with
    the request executed or not, and a reply that comes late.  Two orders are
    fixed: requests on one connection come one after another, and a request that
    has been given up is executed, and its reply arrives, before the next one.

    ** What is not modelled

    - The TCP dial and socket errors in their detail: the connection machine
      takes any bytes, failures and closures from its network; [Machine] and
      [Network] are parameters.
    - The NFS library and its caches: Serve.v lets them make any calls, one after
      another.  The form of a printed error, the quoting of %q, signals.
    - Time: a context may expire at any request, keepalive tickles may be sent
      at any moment, and no interval is measured.
    - Memory: goroutines see each other's writes in some order of the steps
      above; allocation does not fail.
    - src/test/integration/mkbig, which writes a file for a test.

    ** What could follow

    The bridge's files used by several goroutines at once (the mutex of a file
    around its steps, over the machine of the manager); the other operations of
    the filesystem over links that drop, of which those that are not idempotent
    report a wrong error.

    ** This file

    The vocabulary that all files share. *)

From Stdlib Require Export Strings.Byte Strings.String ZArith Lia.
From stdpp Require Export base strings numbers list gmap.

Open Scope Z_scope.

(** ** Bytes and byte strings

    Go's [byte] is [Byte.byte]; a [[]byte] and a Go [string] (which is an
    immutable byte sequence) are both [list byte]. *)

Abbreviation byte := Byte.byte.
Abbreviation bytes := (list Byte.byte).

(** [str "..."] is the byte string of a Go string literal. *)
Definition str (s : string) : bytes := String.list_byte_of_string s.

Definition bZ (b : byte) : Z := Z.of_N (Byte.to_N b).

(** Go's conversion [byte(z)]: the low eight bits. *)
Definition byte_of_Z (z : Z) : byte :=
  default x00 (Byte.of_N (Z.to_N (z mod 256))).

#[global] Instance byte_eq_dec : EqDecision byte := λ x y,
  match decide (Byte.eqb x y = true) with
  | left e => left (Byte.byte_dec_bl x y e)
  | right n => right (λ e, n (Byte.byte_dec_lb e))
  end.

#[global] Program Instance byte_countable : Countable byte :=
  inj_countable' Byte.to_N (λ n, default x00 (Byte.of_N n)) _.
Next Obligation. intros b. cbn. by rewrite Byte.of_to_N. Qed.

Lemma bZ_range b : 0 ≤ bZ b < 256.
Proof. unfold bZ. pose proof (Byte.to_N_bounded b). lia. Qed.

Lemma bZ_byte_of_Z z : bZ (byte_of_Z z) = z mod 256.
Proof.
  unfold bZ, byte_of_Z. pose proof (Z.mod_pos_bound z 256 ltac:(lia)).
  destruct (Byte.of_N (Z.to_N (z mod 256))) as [b|] eqn:E; simpl.
  - apply Byte.to_of_N in E. rewrite E. lia.
  - apply Byte.of_N_None_iff in E. lia.
Qed.

Lemma bZ_inj b1 b2 : bZ b1 = bZ b2 → b1 = b2.
Proof.
  unfold bZ. intros H%N2Z.inj.
  pose proof (Byte.of_to_N b1) as E1. pose proof (Byte.of_to_N b2) as E2. congruence.
Qed.

Lemma byte_of_Z_bZ b : byte_of_Z (bZ b) = b.
Proof. apply bZ_inj. rewrite bZ_byte_of_Z, Z.mod_small; [done | apply bZ_range]. Qed.

(** ** Machine integers

    A Go integer is a [Z]; [wrap w] is the conversion to the unsigned type of
    [w] bits and [swrap w] the conversion to the signed one. *)

Definition wrap (w z : Z) : Z := z mod 2 ^ w.
Definition swrap (w z : Z) : Z := (z + 2 ^ (w - 1)) mod 2 ^ w - 2 ^ (w - 1).

Abbreviation u8 := (wrap 8).
Abbreviation u16 := (wrap 16).
Abbreviation u32 := (wrap 32).
Abbreviation u64 := (wrap 64).
Abbreviation i32 := (swrap 32).
Abbreviation i64 := (swrap 64).

Lemma wrap_small w z : 0 ≤ z < 2 ^ w → wrap w z = z.
Proof. apply Z.mod_small. Qed.

Lemma wrap_range w z : 0 ≤ w → 0 ≤ wrap w z < 2 ^ w.
Proof. intros. apply Z.mod_pos_bound. apply Z.pow_pos_nonneg; lia. Qed.

Lemma swrap_small w z : 0 < w → - 2 ^ (w - 1) ≤ z < 2 ^ (w - 1) → swrap w z = z.
Proof.
  intros Hw Hz. unfold swrap.
  assert (2 ^ w = 2 * 2 ^ (w - 1)) as E by (rewrite <- Z.pow_succ_r by lia; f_equal; lia).
  rewrite Z.mod_small; lia.
Qed.

Lemma swrap_range w z : 0 < w → - 2 ^ (w - 1) ≤ swrap w z < 2 ^ (w - 1).
Proof.
  intros Hw. unfold swrap.
  assert (2 ^ w = 2 * 2 ^ (w - 1)) as E by (rewrite <- Z.pow_succ_r by lia; f_equal; lia).
  pose proof (Z.mod_pos_bound (z + 2 ^ (w - 1)) (2 ^ w)
                ltac:(apply Z.pow_pos_nonneg; lia)). lia.
Qed.

(** Converting to the signed type forgets exactly what converting to the
    unsigned one forgets. *)
Lemma swrap_wrap w z : swrap w (wrap w z) = swrap w z.
Proof. unfold swrap, wrap. by rewrite Zplus_mod_idemp_l. Qed.

Lemma wrap_swrap w z : wrap w (swrap w z) = wrap w z.
Proof.
  unfold swrap, wrap. rewrite Zminus_mod_idemp_l. f_equal. lia.
Qed.

(** ** Big-endian integers: [encoding/binary]'s [BigEndian] *)

(** [PutUint16/32/64], [AppendUint16/32/64]: most significant byte first. *)
Fixpoint be_bytes (n : nat) (v : Z) : bytes :=
  match n with
  | O => []
  | S n' => byte_of_Z (Z.shiftr v (8 * Z.of_nat n')) :: be_bytes n' v
  end.

(** [Uint16/32/64]: shift and or. *)
Definition be_Z (b : bytes) : Z :=
  foldl (λ acc x, Z.lor (Z.shiftl acc 8) (bZ x)) 0 b.

Lemma lor_shift8 a b : 0 ≤ b < 256 → Z.lor (Z.shiftl a 8) b = a * 256 + b.
Proof.
  intros Hb. rewrite Z.shiftl_mul_pow2 by lia. change (2 ^ 8) with 256.
  rewrite <- Z.add_lor_land.
  assert (Z.land (a * 256) b = 0) as ->; [|lia].
  apply Z.bits_inj_0. intros n. rewrite Z.land_spec.
  destruct (Z.ltb_spec n 0); [by rewrite !Z.testbit_neg_r by lia|].
  destruct (Z.ltb_spec n 8).
  - change 256 with (2 ^ 8). rewrite Z.mul_pow2_bits_low by lia. done.
  - rewrite <- (Z.mod_small b (2 ^ 8)) by lia.
    rewrite Z.mod_pow2_bits_high by lia. apply andb_false_r.
Qed.

Lemma be_Z_foldl b acc :
  foldl (λ acc x, Z.lor (Z.shiftl acc 8) (bZ x)) acc b
  = acc * 256 ^ Z.of_nat (length b) + be_Z b.
Proof.
  unfold be_Z. revert acc. induction b as [|x b IH]; intros acc; [simpl; lia|].
  cbn [foldl length]. rewrite IH. rewrite (IH (Z.lor _ _)).
  rewrite !lor_shift8 by apply bZ_range.
  rewrite Nat2Z.inj_succ, Z.pow_succ_r by lia. lia.
Qed.

Lemma be_Z_nil : be_Z [] = 0.
Proof. done. Qed.

Lemma be_Z_cons x b : be_Z (x :: b) = bZ x * 256 ^ Z.of_nat (length b) + be_Z b.
Proof.
  unfold be_Z at 1. cbn [foldl]. rewrite be_Z_foldl.
  rewrite lor_shift8 by apply bZ_range. lia.
Qed.

Lemma be_Z_range b : 0 ≤ be_Z b < 256 ^ Z.of_nat (length b).
Proof.
  induction b as [|x b IH]; [rewrite be_Z_nil; simpl; lia|].
  rewrite be_Z_cons. cbn [length]. rewrite Nat2Z.inj_succ, Z.pow_succ_r by lia.
  pose proof (bZ_range x). nia.
Qed.

Lemma length_be_bytes n v : length (be_bytes n v) = n.
Proof. induction n; simpl; congruence. Qed.

Lemma be_Z_be_bytes_mod n v : be_Z (be_bytes n v) = v mod 256 ^ Z.of_nat n.
Proof.
  induction n as [|n IH]; [simpl; by rewrite Z.mod_1_r|].
  cbn [be_bytes]. rewrite be_Z_cons, length_be_bytes, IH, bZ_byte_of_Z.
  rewrite Z.shiftr_div_pow2 by lia.
  replace (2 ^ (8 * Z.of_nat n)) with (256 ^ Z.of_nat n)
    by (rewrite Z.pow_mul_r by lia; done).
  rewrite Nat2Z.inj_succ, Z.pow_succ_r by lia.
  rewrite (Z.mul_comm 256). rewrite Z.rem_mul_r by (try apply Z.pow_nonzero; lia). lia.
Qed.

Lemma be_Z_be_bytes n v : 0 ≤ v < 256 ^ Z.of_nat n → be_Z (be_bytes n v) = v.
Proof. intros. rewrite be_Z_be_bytes_mod. by apply Z.mod_small. Qed.

Lemma be_Z_inj b1 b2 : length b1 = length b2 → be_Z b1 = be_Z b2 → b1 = b2.
Proof.
  revert b2. induction b1 as [|x b1 IH]; intros [|y b2] Hl; try done.
  injection Hl as Hl. rewrite !be_Z_cons, Hl. intros E.
  pose proof (be_Z_range b1) as R1. pose proof (be_Z_range b2) as R2. rewrite Hl in R1.
  assert (bZ x = bZ y) as Exy by nia. apply bZ_inj in Exy as ->.
  f_equal. apply IH; [done | lia].
Qed.

Lemma be_bytes_be_Z n b : length b = n → be_bytes n (be_Z b) = b.
Proof.
  intros <-. apply be_Z_inj; [apply length_be_bytes|].
  apply be_Z_be_bytes, be_Z_range.
Qed.

Lemma be_bytes_mod n v : be_bytes n (v mod 256 ^ Z.of_nat n) = be_bytes n v.
Proof.
  apply be_Z_inj; [by rewrite !length_be_bytes|].
  rewrite !be_Z_be_bytes_mod. rewrite Z.mod_mod; [done|]. apply Z.pow_nonzero; lia.
Qed.

(** ** Slices *)

Definition len {A} (l : list A) : Z := Z.of_nat (length l).

(** The elements of [l] at the positions [lo, hi). *)
Definition sub {A} (l : list A) (lo hi : Z) : list A :=
  take (Z.to_nat (hi - lo)) (drop (Z.to_nat lo) l).

Lemma len_nonneg {A} (l : list A) : 0 ≤ len l.
Proof. unfold len. lia. Qed.

Lemma len_nil {A} : len (@nil A) = 0.
Proof. done. Qed.

Lemma len_cons {A} (x : A) l : len (x :: l) = 1 + len l.
Proof. unfold len. cbn [length]. lia. Qed.

Lemma len_app {A} (l k : list A) : len (l ++ k) = len l + len k.
Proof. unfold len. rewrite length_app. lia. Qed.

Lemma len_be_bytes n v : len (be_bytes n v) = Z.of_nat n.
Proof. unfold len. by rewrite length_be_bytes. Qed.

Lemma len_sub {A} (l : list A) lo hi :
  0 ≤ lo ≤ hi → hi ≤ len l → len (sub l lo hi) = hi - lo.
Proof. unfold len, sub. intros. rewrite length_take, length_drop. lia. Qed.

Lemma len_take {A} (n : nat) (l : list A) : len (take n l) = Z.min (Z.of_nat n) (len l).
Proof. unfold len. rewrite length_take. lia. Qed.

Lemma len_drop {A} (n : nat) (l : list A) : len (drop n l) = Z.max 0 (len l - Z.of_nat n).
Proof. unfold len. rewrite length_drop. lia. Qed.

(** A slice that starts at the end of a known prefix. *)
Lemma sub_app_mid {A} (a b c : list A) lo hi :
  lo = len a → hi = len a + len b → sub (a ++ b ++ c) lo hi = b.
Proof.
  intros -> ->. unfold sub, len.
  rewrite Nat2Z.id, drop_app_length.
  replace (Z.to_nat _) with (length b) by lia. apply take_app_length.
Qed.

(** ** Outcomes

    [Ret a] is a normal return, [Panics] a Go run-time panic (an index or a
    slice out of range, a nil dereference, a negative [make]), and [NoFuel]
    says that the iteration bound given to a loop was too small. *)

Inductive outcome (A : Type) : Type :=
| Ret (a : A)
| Panics
| NoFuel.
Arguments Ret {A} a.
Arguments Panics {A}.
Arguments NoFuel {A}.

#[global] Instance outcome_ret : MRet outcome := @Ret.
#[global] Instance outcome_bind : MBind outcome := λ A B f m,
  match m with Ret a => f a | Panics => Panics | NoFuel => NoFuel end.

(** The state-passing monad of effectful code over a state [S]. *)
Definition M (S A : Type) : Type := S → outcome (A * S).

#[global] Instance M_ret S : MRet (M S) := λ A a s, Ret (a, s).
#[global] Instance M_bind S : MBind (M S) := λ A B f m s,
  match m s with Ret (a, s') => f a s' | Panics => Panics | NoFuel => NoFuel end.

Definition get {S} : M S S := λ s, Ret (s, s).
Definition put {S} (s : S) : M S unit := λ _, Ret (tt, s).
Definition modify {S} (f : S → S) : M S unit := λ s, Ret (tt, f s).
Definition lift {S A} (o : outcome A) : M S A := λ s,
  match o with Ret a => Ret (a, s) | Panics => Panics | NoFuel => NoFuel end.
Definition no_fuel {S A} : M S A := λ _, NoFuel.

Lemma M_bind_ret {S A B} (m : M S A) (f : A → M S B) s a s' :
  m s = Ret (a, s') → (m ≫= f) s = f a s'.
Proof. unfold mbind, M_bind. by intros ->. Qed.

Lemma M_bind_inv {S A B} (m : M S A) (f : A → M S B) s b s'' :
  (m ≫= f) s = Ret (b, s'') → ∃ a s', m s = Ret (a, s') ∧ f a s' = Ret (b, s'').
Proof. unfold mbind, M_bind. destruct (m s) as [[a s']| |] eqn:E; intros; eauto; done. Qed.

(** [b[lo:hi]] and [b[i]]: out of range is a panic. *)
Definition slice {A} (l : list A) (lo hi : Z) : outcome (list A) :=
  if bool_decide (0 ≤ lo ∧ lo ≤ hi ∧ hi ≤ len l) then Ret (sub l lo hi) else Panics.

Definition index {A} (l : list A) (i : Z) : outcome A :=
  if bool_decide (0 ≤ i) then
    match l !! Z.to_nat i with Some x => Ret x | None => Panics end
  else Panics.

Lemma slice_ok {A} (l : list A) lo hi :
  0 ≤ lo → lo ≤ hi → hi ≤ len l → slice l lo hi = Ret (sub l lo hi).
Proof. intros. unfold slice. by rewrite bool_decide_eq_true_2. Qed.

Lemma index_ok {A} (l : list A) i : 0 ≤ i < len l → ∃ x, index l i = Ret x ∧ l !! Z.to_nat i = Some x.
Proof.
  intros [H1 H2]. unfold index. rewrite bool_decide_eq_true_2 by done.
  destruct (lookup_lt_is_Some_2 l (Z.to_nat i)) as [x E]; [unfold len in H2; lia|].
  rewrite E. eauto.
Qed.

(** ** Errors

    Go's [error] values, by the way they are made: [fmt.Errorf] without and
    with a wrapped cause, [*afp.Error], [*os.PathError], the sentinels the
    program compares with, and [EIO], an error made outside the program (by
    the operating system or the network), told apart by a number. *)

Inductive farg : Type :=
| FZ (z : Z)
| FS (s : bytes)
| FL (l : list bytes).

Inductive error : Type :=
| EAfp (op : bytes) (code : Z)
| EErrorf (format : string) (args : list farg)
| EWrapf (format : string) (args : list farg) (cause : error)
| EPath (op : string) (path : bytes) (cause : error)
| EEOF
| EUnexpectedEOF
| ENetClosed
| ENotExist
| EPermission
| EExist
| ECanceled
| EDeadlineExceeded
| EIO (n : nat).

(** Go's [(T, error)] result where the value is only used without an error. *)
Inductive result (A : Type) : Type :=
| Ok (a : A)
| Err (e : error).
Arguments Ok {A} a.
Arguments Err {A} e.

#[global] Instance result_ret : MRet result := @Ok.
#[global] Instance result_bind : MBind result := λ A B f m,
  match m with Ok a => f a | Err e => Err e end.

(** [x, err := m; if err != nil { return ..., err }]. *)
Definition try_bind {S A B} (m : M S (result A)) (f : A → M S (result B)) : M S (result B) :=
  r ← m; match r with Ok a => f a | Err e => mret (Err e) end.

Declare Scope go_scope.
Delimit Scope go_scope with go.
Notation "x ←? y ; z" := (try_bind y (λ x, z))
  (at level 20, y at level 100, z at level 200, only parsing) : go_scope.
Notation "' x ←? y ; z" := (try_bind y (λ x, z))
  (at level 20, x pattern, y at level 100, z at level 200, only parsing) : go_scope.

(** [errors.As(err, &ae)] for an [*afp.Error]: the first one of the chain. *)
Fixpoint errors_as_afp (e : error) : option (bytes * Z) :=
  match e with
  | EAfp op code => Some (op, code)
  | EWrapf _ _ c | EPath _ _ c => errors_as_afp c
  | _ => None
  end.

#[global] Instance farg_eq_dec : EqDecision farg.
Proof. solve_decision. Defined.
#[global] Instance error_eq_dec : EqDecision error.
Proof. unfold EqDecision, Decision. decide equality; try apply (decide_rel (=)). Defined.

(** [errors.Is(err, target)] for a sentinel [target]. *)
Fixpoint errors_is (e target : error) : bool :=
  bool_decide (e = target) ||
  match e with
  | EWrapf _ _ c | EPath _ _ c => errors_is c target
  | _ => false
  end.

Lemma try_bind_ok {S A B} (m : M S (result A)) (f : A → M S (result B)) s a s' :
  m s = Ret (Ok a, s') → try_bind m f s = f a s'.
Proof. intros H. unfold try_bind. by rewrite (M_bind_ret _ _ _ _ _ H). Qed.

Lemma try_bind_err {S A B} (m : M S (result A)) (f : A → M S (result B)) s e s' :
  m s = Ret (Err e, s') → try_bind m f s = Ret (Err e, s').
Proof. intros H. unfold try_bind. by rewrite (M_bind_ret _ _ _ _ _ H). Qed.

(** An integer read from a slice is in the range of the slice's width. *)
Lemma be_Z_sub_range (b : bytes) lo hi : 0 ≤ lo ≤ hi → 0 ≤ be_Z (sub b lo hi) < 256 ^ (hi - lo).
Proof.
  intros H. pose proof (be_Z_range (sub b lo hi)) as [? Hlt]. split; [done|].
  eapply Z.lt_le_trans; [exact Hlt|]. apply Z.pow_le_mono_r; [lia|].
  unfold sub. rewrite length_take. lia.
Qed.

(** What follows a position is the slice that starts there and the rest. *)
Lemma drop_sub {A} (l : list A) lo hi :
  0 ≤ lo → lo ≤ hi → drop (Z.to_nat lo) l = sub l lo hi ++ drop (Z.to_nat hi) l.
Proof.
  intros. unfold sub.
  rewrite <- (take_drop (Z.to_nat (hi - lo)) (drop (Z.to_nat lo) l)) at 1. f_equal.
  rewrite drop_drop. f_equal. lia.
Qed.

(** A list is what precedes a slice, the slice, and what follows it. *)
Lemma sub_decompose {A} (l : list A) lo hi :
  0 ≤ lo → lo ≤ hi → l = take (Z.to_nat lo) l ++ sub l lo hi ++ drop (Z.to_nat hi) l.
Proof. intros. rewrite <- drop_sub by lia. by rewrite take_drop. Qed.

Lemma len_take_le {A} (l : list A) n : 0 ≤ n ≤ len l → len (take (Z.to_nat n) l) = n.
Proof. intros. rewrite len_take. lia. Qed.

Lemma index_app_mid {A} (a : list A) x c i : i = len a → index (a ++ x :: c) i = Ret x.
Proof.
  intros ->. unfold index, len. rewrite bool_decide_eq_true_2 by lia.
  by rewrite Nat2Z.id, list_lookup_middle.
Qed.

Lemma index_inv {A} (l : list A) i x :
  index l i = Ret x → 0 ≤ i ∧ l = take (Z.to_nat i) l ++ x :: drop (Z.to_nat (i + 1)) l.
Proof.
  unfold index. case_bool_decide; [|done].
  destruct (l !! Z.to_nat i) as [y|] eqn:E; [|done]. intros [= ->]. split; [done|].
  replace (Z.to_nat (i + 1)) with (S (Z.to_nat i)) by lia.
  symmetry. by apply take_drop_middle.
Qed.

(** ** Splitting at a separator: [strings.Split] with a one-byte separator *)

Fixpoint Split (sep : byte) (s : bytes) : list bytes :=
  match s with
  | [] => [[]]
  | x :: s' =>
    if bool_decide (x = sep) then [] :: Split sep s'
    else match Split sep s' with
         | [] => [[x]]
         | w :: ws => (x :: w) :: ws
         end
  end.

(** [strings.Join(l, sep)] with a one-byte separator. *)
Fixpoint Join (sep : byte) (l : list bytes) : bytes :=
  match l with
  | [] => []
  | [w] => w
  | w :: ws => w ++ sep :: Join sep ws
  end.

Lemma Split_nonempty sep s : Split sep s ≠ [].
Proof. destruct s; simpl; [done|]. case_bool_decide; [done|]. by destruct (Split _ _). Qed.

Lemma Join_Split sep s : Join sep (Split sep s) = s.
Proof.
  induction s as [|x s IH]; [done|]. simpl. pose proof (Split_nonempty sep s).
  case_bool_decide as E; destruct (Split sep s) as [|w ws] eqn:Es; try done.
  - simpl in *. by rewrite IH, E.
  - destruct ws; simpl in *; by rewrite IH.
Qed.

#[global] Arguments be_bytes : simpl never.
#[global] Arguments be_Z : simpl never.
#[global] Arguments byte_of_Z : simpl never.
#[global] Arguments bZ : simpl never.
#[global] Arguments len : simpl never.
#[global] Arguments sub : simpl never.
#[global] Arguments slice : simpl never.
#[global] Arguments index : simpl never.
#[global] Arguments wrap : simpl never.
#[global] Arguments swrap : simpl never.
