(* ===== verification/Header.v ===== *)
(** * The DSI packet header (src/internal/dsi/header.go)

    The header record, its sixteen-byte encoding and decoding, and the proof
    that the two are inverse to each other. *)

From S2P Require Import Prelude.

(** ** Command codes and flags *)

Definition CmdCloseSession : Z := 1.
Definition CmdCommand : Z := 2.
Definition CmdGetStatus : Z := 3.
Definition CmdOpenSession : Z := 4.
Definition CmdTickle : Z := 5.
Definition CmdWrite : Z := 6.
Definition CmdAttention : Z := 8.

Definition flagRequest : Z := 0.
Definition flagReply : Z := 1.

Definition HeaderSize : Z := 16.

(** ** The header *)

Record Header : Type := MkHeader {
  Flags : Z;      (* uint8 *)
  Command : Z;    (* uint8 *)
  RequestID : Z;  (* uint16 *)
  ErrCode : Z;    (* uint32 *)
  Length : Z;     (* uint32 *)
  Reserved : Z;   (* uint32 *)
}.

#[global] Instance header_eq_dec : EqDecision Header.
Proof. solve_decision. Defined.

(** The fields are in the range of their Go types. *)
Definition header_ok (h : Header) : Prop :=
  0 ≤ Flags h < 2 ^ 8 ∧ 0 ≤ Command h < 2 ^ 8 ∧ 0 ≤ RequestID h < 2 ^ 16 ∧
  0 ≤ ErrCode h < 2 ^ 32 ∧ 0 ≤ Length h < 2 ^ 32 ∧ 0 ≤ Reserved h < 2 ^ 32.

Definition encode (h : Header) : bytes :=
  [byte_of_Z (Flags h); byte_of_Z (Command h)] ++
  be_bytes 2 (RequestID h) ++
  be_bytes 4 (ErrCode h) ++
  be_bytes 4 (Length h) ++
  be_bytes 4 (Reserved h).

(** The argument is Go's array [[HeaderSize]byte]: sixteen bytes. *)
Definition decodeHeader (b : bytes) : Header := {|
  Flags := bZ (nth 0 b x00);
  Command := bZ (nth 1 b x00);
  RequestID := be_Z (sub b 2 4);
  ErrCode := be_Z (sub b 4 8);
  Length := be_Z (sub b 8 12);
  Reserved := be_Z (sub b 12 16);
|}.

Lemma length_encode h : length (encode h) = 16%nat.
Proof. done. Qed.

Lemma len_encode h : len (encode h) = HeaderSize.
Proof. done. Qed.

(** The decoder sees the fields the encoder wrote, reduced to their width. *)
Lemma decode_encode_mod h :
  decodeHeader (encode h) = {|
    Flags := u8 (Flags h); Command := u8 (Command h);
    RequestID := u16 (RequestID h); ErrCode := u32 (ErrCode h);
    Length := u32 (Length h); Reserved := u32 (Reserved h) |}.
Proof.
  unfold decodeHeader. f_equal.
  - apply bZ_byte_of_Z.
  - apply bZ_byte_of_Z.
  - exact (be_Z_be_bytes_mod 2 _).
  - exact (be_Z_be_bytes_mod 4 _).
  - exact (be_Z_be_bytes_mod 4 _).
  - exact (be_Z_be_bytes_mod 4 _).
Qed.

Lemma decode_encode h : header_ok h → decodeHeader (encode h) = h.
Proof.
  intros (?&?&?&?&?&?). rewrite decode_encode_mod.
  destruct h; simpl in *. by rewrite !wrap_small by done.
Qed.

(** Sixteen bytes, one by one. *)
Lemma length_16 (b : bytes) : length b = 16%nat →
  ∃ b0 b1 b2 b3 b4 b5 b6 b7 b8 b9 b10 b11 b12 b13 b14 b15,
    b = [b0;b1;b2;b3;b4;b5;b6;b7;b8;b9;b10;b11;b12;b13;b14;b15].
Proof.
  intros H. do 16 (destruct b as [|? b]; [done|]). destruct b; [|done].
  by repeat eexists.
Qed.

Lemma decodeHeader_ok b : header_ok (decodeHeader b).
Proof.
  unfold header_ok, decodeHeader; cbn [Flags Command RequestID ErrCode Length Reserved].
  split_and!; try apply bZ_range; apply be_Z_sub_range; lia.
Qed.

Lemma encode_decode b : length b = 16%nat → encode (decodeHeader b) = b.
Proof.
  intros (b0&b1&b2&b3&b4&b5&b6&b7&b8&b9&b10&b11&b12&b13&b14&b15&->)%length_16.
  unfold encode, decodeHeader. cbn [Flags Command RequestID ErrCode Length Reserved nth].
  rewrite !byte_of_Z_bZ.
  by rewrite !be_bytes_be_Z by done.
Qed.
