(* ===== verification/Result.v ===== *)
(** * AFP command and result codes (src/internal/afp/result.go)

    The command codes, the result codes of the DSI reply header's error field
    with their messages, and [resultErr], which turns a code into an error. *)

From stdpp Require Import pretty.
From S2P Require Import Prelude.

(** ** Command codes *)

Definition cmdCloseVol : Z := 2.
Definition cmdCloseFork : Z := 4.
Definition cmdCreateDir : Z := 6.
Definition cmdCreateFile : Z := 7.
Definition cmdDelete : Z := 8.
Definition cmdFlush : Z := 10.
Definition cmdFlushFork : Z := 11.
Definition cmdGetSrvrParms : Z := 16.
Definition cmdGetVolParms : Z := 17.
Definition cmdLogin : Z := 18.
Definition cmdLoginCont : Z := 19.
Definition cmdLogout : Z := 20.
Definition cmdMoveAndRename : Z := 23.
Definition cmdOpenVol : Z := 24.
Definition cmdOpenFork : Z := 26.
Definition cmdRename : Z := 28.
Definition cmdSetForkParms : Z := 31.
Definition cmdGetFileDirParms : Z := 34.
Definition cmdSetFileDirParms : Z := 35.
Definition cmdReadExt : Z := 60.
Definition cmdWriteExt : Z := 61.
Definition cmdEnumerateExt2 : Z := 68.

(** ** Result codes

    [Result] is Go's [int32]. *)

Definition ResNoErr : Z := 0.
Definition ResAccessDenied : Z := -5000.
Definition ResAuthContinue : Z := -5001.
Definition ResBadUAM : Z := -5002.
Definition ResBadVersNum : Z := -5003.
Definition ResBitmapErr : Z := -5004.
Definition ResDenyConflict : Z := -5006.
Definition ResDirNotEmpty : Z := -5007.
Definition ResDiskFull : Z := -5008.
Definition ResEOF : Z := -5009.
Definition ResFileBusy : Z := -5010.
Definition ResItemNotFound : Z := -5012.
Definition ResLockErr : Z := -5013.
Definition ResMiscErr : Z := -5014.
Definition ResNoServer : Z := -5016.
Definition ResObjectExists : Z := -5017.
Definition ResObjectNotFound : Z := -5018.
Definition ResParamErr : Z := -5019.
Definition ResSessClosed : Z := -5022.
Definition ResUserNotAuth : Z := -5023.
Definition ResCallNotSupported : Z := -5024.
Definition ResObjectTypeErr : Z := -5025.
Definition ResTooManyFilesOpen : Z := -5026.
Definition ResServerGoingDown : Z := -5027.
Definition ResDirNotFound : Z := -5029.
Definition ResVolLocked : Z := -5031.
Definition ResObjectLocked : Z := -5032.
Definition ResPwdExpiredErr : Z := -5042.
Definition ResPwdNeedsChangeErr : Z := -5045.

Definition resultNames : gmap Z string := list_to_map [
  (ResNoErr, "no error");
  (ResAccessDenied, "access denied");
  (ResAuthContinue, "authentication continues");
  (ResBadUAM, "bad UAM");
  (ResBadVersNum, "bad AFP version");
  (ResBitmapErr, "bitmap error");
  (ResDenyConflict, "deny conflict");
  (ResDirNotEmpty, "directory not empty");
  (ResDiskFull, "disk full");
  (ResEOF, "end of file");
  (ResFileBusy, "file busy");
  (ResItemNotFound, "item not found");
  (ResLockErr, "lock error");
  (ResMiscErr, "miscellaneous error");
  (ResNoServer, "no server");
  (ResObjectExists, "object exists");
  (ResObjectNotFound, "object not found");
  (ResParamErr, "parameter error");
  (ResSessClosed, "session closed");
  (ResUserNotAuth, "user not authenticated");
  (ResCallNotSupported, "call not supported");
  (ResObjectTypeErr, "object type error");
  (ResTooManyFilesOpen, "too many files open");
  (ResServerGoingDown, "server going down");
  (ResDirNotFound, "directory not found");
  (ResVolLocked, "volume locked");
  (ResObjectLocked, "object locked");
  (ResPwdExpiredErr, "password expired");
  (ResPwdNeedsChangeErr, "password needs change")].

(** The message of an [*afp.Error] ([(e *Error) Error()]). *)
Definition Error_Error (op : bytes) (code : Z) : bytes :=
  let name := match resultNames !! code with
              | Some n => n
              | None => ("AFP error " +:+ pretty code)%string
              end in
  str "afp: " ++ op ++ str ": " ++ str name.

(** [resultErr] converts a result code into an error (nil for [ResNoErr]). *)
Definition resultErr (op : bytes) (code : Z) : result unit :=
  if bool_decide (code = ResNoErr) then Ok tt else Err (EAfp op code).

Lemma resultErr_ok op code : resultErr op code = Ok tt ↔ code = ResNoErr.
Proof. unfold resultErr. by case_bool_decide. Qed.

Lemma resultErr_err op code : code ≠ ResNoErr → resultErr op code = Err (EAfp op code).
Proof. intros. unfold resultErr. by rewrite bool_decide_eq_false_2. Qed.

Lemma resultErr_zero op : resultErr op 0 = Ok tt.
Proof. done. Qed.
