(* ===== verification/Wire.v ===== *)
(** * Wire encoding of AFP payloads (src/internal/afp/wire.go)

    The [builder] that request payloads are written with, the [reader] that
    reply payloads are read with, and the two functions that read a
    length-prefixed string at an absolute offset.  The builder is a byte
    string that every operation extends; the reader is a state with a sticky
    error, run in the monad [M reader]. *)

From S2P Require Import Prelude.

Open Scope go_scope.

(** ** Dates *)

Definition afpEpochDelta : Z := 946684800.

(** [afpDate]: an AFP date as Unix seconds (the [time.Time] of [time.Unix]). *)
Definition afpDate (v : Z) : Z := i64 (i32 v + afpEpochDelta).

(** ** Unicode normalisation

    [golang.org/x/text/unicode/norm] is outside the program: its two
    normalisation forms are parameters. *)
Class Norm : Type := {
  NFD : bytes → bytes;
  NFC : bytes → bytes;
}.

(** ** The builder *)

Definition w_u8 (v : Z) (w : bytes) : bytes := w ++ [byte_of_Z v].
Definition w_u16 (v : Z) (w : bytes) : bytes := w ++ be_bytes 2 v.
Definition w_u32 (v : Z) (w : bytes) : bytes := w ++ be_bytes 4 v.
Definition w_u64 (v : Z) (w : bytes) : bytes := w ++ be_bytes 8 v.
Definition w_bytes (v : bytes) (w : bytes) : bytes := w ++ v.

(** [var w builder; w.f(x); w.g(y)] reads [[] |> w_f x |> w_g y]. *)
Notation "w |> f" := (f w) (at level 67, left associativity, only parsing) : go_scope.

(** [pascal] appends a 1-byte-length-prefixed string, cut to 255 bytes. *)
Definition w_pascal (s : bytes) (w : bytes) : bytes :=
  let s := if bool_decide (255 < len s) then take 255 s else s in
  w |> w_u8 (u8 (len s)) |> w_bytes s.

(** [evenPad] pads with a zero byte if the payload length so far is odd. *)
Definition w_evenPad (w : bytes) : bytes :=
  if bool_decide (len w mod 2 = 1) then w |> w_u8 0 else w.

Definition utf8PathHint : Z := 0x08000103.
Definition kFPUTF8Name : Z := 3.

Definition slash : byte := x2f.

(** [strings.Trim(p, "/")]. *)
Fixpoint TrimLeft (c : byte) (s : bytes) : bytes :=
  match s with
  | [] => []
  | x :: s' => if bool_decide (x = c) then TrimLeft c s' else s
  end.
Definition TrimRight (c : byte) (s : bytes) : bytes := reverse (TrimLeft c (reverse s)).
Definition Trim (c : byte) (s : bytes) : bytes := TrimRight c (TrimLeft c s).

(** [strings.ReplaceAll(s, old, new)] for one-byte strings. *)
Definition ReplaceAll (old new : byte) (s : bytes) : bytes :=
  (λ x, if bool_decide (x = old) then new else x) <$> s.

(** [path] appends an AFP type-3 (UTF-8) pathname. *)
Definition w_path `{Norm} (p : bytes) (w : bytes) : bytes :=
  let p := NFD (Trim slash p) in
  let wire := ReplaceAll slash x00 p in
  w |> w_u8 kFPUTF8Name
    |> w_u32 utf8PathHint
    |> w_u16 (u16 (len wire))
    |> w_bytes wire.

(** ** The reader *)

Record reader : Type := MkReader {
  rb : bytes;
  pos : Z;
  rerr : option error;
}.

(** [&reader{b: payload}]. *)
Definition new_reader (b : bytes) : reader := MkReader b 0 None.

Definition truncated (what : string) (p n : Z) : error :=
  EErrorf "afp: truncated reply: %s at offset %d of %d" [FS (str what); FZ p; FZ n].

Definition r_fail (what : string) : M reader unit := modify (λ r,
  match rerr r with
  | None => MkReader (rb r) (pos r) (Some (truncated what (pos r) (len (rb r))))
  | Some _ => r
  end).

(** [take] returns [None] for Go's nil slice. *)
Definition r_take (n : Z) (what : string) : M reader (option bytes) :=
  r ← get;
  match rerr r with
  | Some _ => mret None
  | None =>
    if bool_decide (len (rb r) < pos r + n) then
      _ ← r_fail what; mret None
    else
      v ← lift (slice (rb r) (pos r) (pos r + n));
      _ ← put (MkReader (rb r) (pos r + n) (rerr r));
      mret (Some v)
  end.

Definition r_u8 (what : string) : M reader Z :=
  v ← r_take 1 what;
  match v with
  | None => mret 0
  | Some v => x ← lift (index v 0); mret (bZ x)
  end.

(** The fixed-width integers: [take] the width, decode it big-endian. *)
Definition r_be (n : nat) (what : string) : M reader Z :=
  v ← r_take (Z.of_nat n) what;
  match v with None => mret 0 | Some v => mret (be_Z v) end.

Definition r_u16 (what : string) : M reader Z := r_be 2 what.
Definition r_u32 (what : string) : M reader Z := r_be 4 what.
Definition r_u64 (what : string) : M reader Z := r_be 8 what.

Definition r_pascal (what : string) : M reader bytes :=
  n ← r_u8 what;
  v ← r_take n what;
  mret (default [] v).

(** [pascalAt] reads a 1-byte-length-prefixed string at an absolute offset. *)
Definition pascalAt (b : bytes) (off : Z) : outcome (result bytes) :=
  if bool_decide (off < 0 ∨ len b ≤ off) then
    mret (Err (EErrorf "afp: string offset %d outside %d-byte block" [FZ off; FZ (len b)]))
  else
    x ← index b off;
    let n := bZ x in
    if bool_decide (len b < off + 1 + n) then
      mret (Err (EErrorf "afp: string at %d overruns block" [FZ off]))
    else
      s ← slice b (off + 1) (off + 1 + n);
      mret (Ok s).

(** [pascal2At] reads a 2-byte-length-prefixed string at an absolute offset. *)
Definition pascal2At (b : bytes) (off : Z) : outcome (result bytes) :=
  if bool_decide (off < 0 ∨ len b < off + 2) then
    mret (Err (EErrorf "afp: string offset %d outside %d-byte block" [FZ off; FZ (len b)]))
  else
    v ← slice b off (off + 2);
    let n := be_Z v in
    if bool_decide (len b < off + 2 + n) then
      mret (Err (EErrorf "afp: string at %d overruns block" [FZ off]))
    else
      s ← slice b (off + 2) (off + 2 + n);
      mret (Ok s).

(** ** Reading what was written

    [rd_at pre rest] is the reader of the payload [pre ++ rest] that has read
    [pre] and has not failed. *)

Definition rd_at (pre rest : bytes) : reader := MkReader (pre ++ rest) (len pre) None.

Lemma new_reader_at b : new_reader b = rd_at [] b.
Proof. done. Qed.

Lemma r_take_at what n v pre rest :
  n = len v → r_take n what (rd_at pre (v ++ rest)) = Ret (Some v, rd_at (pre ++ v) rest).
Proof.
  intros ->. unfold r_take, rd_at, mbind, M_bind, get. cbn [rerr rb pos].
  pose proof (len_nonneg v). pose proof (len_nonneg pre). pose proof (len_nonneg rest).
  rewrite bool_decide_eq_false_2 by (rewrite !len_app; lia).
  rewrite slice_ok by (rewrite ?len_app; lia).
  unfold lift, put. cbn. rewrite sub_app_mid by lia.
  by rewrite <- app_assoc, len_app.
Qed.

Lemma r_be_at n what v pre rest :
  r_be n what (rd_at pre (be_bytes n v ++ rest))
  = Ret (v mod 256 ^ Z.of_nat n, rd_at (pre ++ be_bytes n v) rest).
Proof.
  unfold r_be. erewrite M_bind_ret by (apply r_take_at; by rewrite len_be_bytes).
  cbn. by rewrite be_Z_be_bytes_mod.
Qed.

Lemma r_u8_at what x pre rest :
  r_u8 what (rd_at pre (x :: rest)) = Ret (bZ x, rd_at (pre ++ [x]) rest).
Proof.
  unfold r_u8. erewrite M_bind_ret by (apply (r_take_at what 1 [x]); done).
  done.
Qed.

Lemma r_u16_at what v pre rest :
  r_u16 what (rd_at pre (be_bytes 2 v ++ rest)) = Ret (u16 v, rd_at (pre ++ be_bytes 2 v) rest).
Proof. apply r_be_at. Qed.
Lemma r_u32_at what v pre rest :
  r_u32 what (rd_at pre (be_bytes 4 v ++ rest)) = Ret (u32 v, rd_at (pre ++ be_bytes 4 v) rest).
Proof. apply r_be_at. Qed.
Lemma r_u64_at what v pre rest :
  r_u64 what (rd_at pre (be_bytes 8 v ++ rest)) = Ret (u64 v, rd_at (pre ++ be_bytes 8 v) rest).
Proof. apply r_be_at. Qed.

Lemma r_pascal_at what s pre rest :
  len s ≤ 255 →
  r_pascal what (rd_at pre (byte_of_Z (len s) :: s ++ rest))
  = Ret (s, rd_at (pre ++ byte_of_Z (len s) :: s) rest).
Proof.
  intros Hs. pose proof (len_nonneg s). unfold r_pascal.
  erewrite M_bind_ret by apply r_u8_at.
  erewrite M_bind_ret by (apply r_take_at; rewrite bZ_byte_of_Z, Z.mod_small; lia).
  cbn. by rewrite <- app_assoc.
Qed.

(** One step of a reader whose next field is in sight. *)
Ltac rd_step :=
  erewrite M_bind_ret by
    (first [ apply r_u8_at | apply r_u16_at | apply r_u32_at | apply r_u64_at
           | apply r_take_at; by rewrite ?len_be_bytes
           | apply r_pascal_at; done ]).

(** ** The sticky error *)

Lemma r_take_sticky n what r e : rerr r = Some e → r_take n what r = Ret (None, r).
Proof. intros H. unfold r_take, mbind, M_bind, get. by rewrite H. Qed.

Lemma r_be_sticky n what r e : rerr r = Some e → r_be n what r = Ret (0, r).
Proof. intros H. unfold r_be. by erewrite M_bind_ret by (by eapply r_take_sticky). Qed.

Lemma r_u8_sticky what r e : rerr r = Some e → r_u8 what r = Ret (0, r).
Proof. intros H. unfold r_u8. by erewrite M_bind_ret by (by eapply r_take_sticky). Qed.

Lemma r_pascal_sticky what r e : rerr r = Some e → r_pascal what r = Ret ([], r).
Proof.
  intros H. unfold r_pascal. erewrite M_bind_ret by (by eapply r_u8_sticky).
  by erewrite M_bind_ret by (by eapply r_take_sticky).
Qed.

(** ** Reading never panics

    [rsafe P m]: started on a reader whose cursor is inside its buffer, [m]
    returns, leaves the cursor inside the same buffer, keeps an error that was
    there, and its value satisfies [P]. *)

Definition reader_ok (r : reader) : Prop := 0 ≤ pos r ≤ len (rb r).

Definition rsafe {A} (P : A → Prop) (m : M reader A) : Prop :=
  ∀ r, reader_ok r → ∃ a r',
    m r = Ret (a, r') ∧ reader_ok r' ∧ rb r' = rb r ∧ pos r ≤ pos r' ∧
    (rerr r ≠ None → rerr r' = rerr r) ∧ P a.

Lemma rsafe_ret {A} (P : A → Prop) a : P a → rsafe P (mret a).
Proof. intros HP r Hr. exists a, r. by split_and!. Qed.

Lemma rsafe_bind {A B} (P : A → Prop) (Q : B → Prop) m f :
  rsafe P m → (∀ a, P a → rsafe Q (f a)) → rsafe Q (m ≫= f).
Proof.
  intros Hm Hf r Hr. destruct (Hm r Hr) as (a&r'&E&Hr'&Eb&Hp&He&Ha).
  destruct (Hf a Ha r' Hr') as (b&r''&E'&Hr''&Eb'&Hp'&He'&Hb).
  exists b, r''. rewrite (M_bind_ret _ _ _ _ _ E). split_and!; try done; [congruence|lia|].
  intros Hne. rewrite He'; rewrite He; done.
Qed.

Lemma rsafe_mono {A} (P Q : A → Prop) m : (∀ a, P a → Q a) → rsafe P m → rsafe Q m.
Proof. intros HPQ Hm r Hr. destruct (Hm r Hr) as (a&r'&?&?&?&?&?&?). naive_solver. Qed.

(** What a nonnegative [take] does, on both branches. *)
Lemma r_take_spec n what b p :
  0 ≤ n → 0 ≤ p ≤ len b →
  r_take n what (MkReader b p None) =
    if bool_decide (p + n ≤ len b)
    then Ret (Some (sub b p (p + n)), MkReader b (p + n) None)
    else Ret (None, MkReader b p (Some (truncated what p (len b)))).
Proof.
  intros Hn Hp. unfold r_take, mbind, M_bind, get. cbn [rerr rb pos].
  case_bool_decide as H1; [by rewrite bool_decide_eq_false_2 by lia|].
  rewrite bool_decide_eq_true_2 by lia. by rewrite slice_ok by lia.
Qed.

Lemma rsafe_take n what :
  0 ≤ n → rsafe (λ v, ∀ b, v = Some b → len b = n) (r_take n what).
Proof.
  intros Hn [b p [e|]] Hr; unfold reader_ok in Hr; cbn [rb pos] in Hr.
  - exists None, (MkReader b p (Some e)). erewrite r_take_sticky by done. by split_and!.
  - rewrite r_take_spec by done. case_bool_decide as H.
    + exists (Some (sub b p (p + n))), (MkReader b (p + n) None). unfold reader_ok. cbn [rb pos].
      split_and!; try done; try lia. intros ? [= <-]. rewrite len_sub by lia. lia.
    + exists None, (MkReader b p (Some (truncated what p (len b)))).
      unfold reader_ok. split_and!; try done; cbn; lia.
Qed.

Lemma rsafe_be n what : rsafe (λ v, 0 ≤ v < 256 ^ Z.of_nat n) (r_be n what).
Proof.
  unfold r_be. eapply rsafe_bind; [apply rsafe_take; lia|].
  intros [v|] Hv; apply rsafe_ret; [|split; [lia|apply Z.pow_pos_nonneg; lia]].
  specialize (Hv v eq_refl). pose proof (be_Z_range v). unfold len in Hv. by rewrite Hv in *.
Qed.

Lemma rsafe_u8 what : rsafe (λ v, 0 ≤ v < 2 ^ 8) (r_u8 what).
Proof.
  unfold r_u8. eapply rsafe_bind; [apply rsafe_take; lia|].
  intros [v|] Hv; [|by apply rsafe_ret]. specialize (Hv v eq_refl).
  destruct v as [|x v]; [done|]. unfold index. cbn.
  intros r Hr. exists (bZ x), r. split_and!; try done; apply bZ_range.
Qed.

Lemma rsafe_u16 what : rsafe (λ v, 0 ≤ v < 2 ^ 16) (r_u16 what).
Proof. apply rsafe_be. Qed.
Lemma rsafe_u32 what : rsafe (λ v, 0 ≤ v < 2 ^ 32) (r_u32 what).
Proof. apply rsafe_be. Qed.
Lemma rsafe_u64 what : rsafe (λ v, 0 ≤ v < 2 ^ 64) (r_u64 what).
Proof. apply rsafe_be. Qed.

Lemma rsafe_pascal what : rsafe (λ v, len v ≤ 255) (r_pascal what).
Proof.
  unfold r_pascal. eapply rsafe_bind; [apply rsafe_u8|]. intros n Hn; cbv beta in Hn.
  eapply rsafe_bind; [apply rsafe_take; lia|].
  intros [v|] Hv; apply rsafe_ret; [|done]. cbn. rewrite (Hv v eq_refl). lia.
Qed.

Lemma rsafe_get : rsafe (λ _, True) get.
Proof. intros r Hr. exists r, r. by split_and!. Qed.

Create HintDb rsafe.
#[export] Hint Resolve rsafe_u8 rsafe_u16 rsafe_u32 rsafe_u64 rsafe_pascal rsafe_get
  rsafe_take rsafe_ret : rsafe.

(** ** Strings at an absolute offset *)

Lemma bZ_len (x : byte) (s : bytes) : len s = bZ x → x = byte_of_Z (len s).
Proof. intros ->. by rewrite byte_of_Z_bZ. Qed.

Lemma pascalAt_at pre s post off :
  len s ≤ 255 → off = len pre →
  pascalAt (pre ++ byte_of_Z (len s) :: s ++ post) off = Ret (Ok s).
Proof.
  intros Hs ->. pose proof (len_nonneg s). pose proof (len_nonneg pre). pose proof (len_nonneg post).
  unfold pascalAt. rewrite bool_decide_eq_false_2 by (rewrite len_app, len_cons, len_app; lia).
  rewrite index_app_mid by done. cbn. rewrite bZ_byte_of_Z, Z.mod_small by lia.
  rewrite bool_decide_eq_false_2 by (rewrite len_app, len_cons, len_app; lia).
  rewrite slice_ok by (rewrite ?len_app, ?len_cons, ?len_app; lia). cbn.
  rewrite cons_middle, app_assoc.
  rewrite sub_app_mid by (rewrite ?len_app, ?len_cons, ?len_nil; lia). done.
Qed.

Lemma pascal2At_at pre s post off :
  len s < 2 ^ 16 → off = len pre →
  pascal2At (pre ++ be_bytes 2 (len s) ++ s ++ post) off = Ret (Ok s).
Proof.
  intros Hs ->. pose proof (len_nonneg s). pose proof (len_nonneg pre). pose proof (len_nonneg post).
  unfold pascal2At.
  rewrite bool_decide_eq_false_2 by (rewrite !len_app, len_be_bytes; lia).
  rewrite slice_ok by (rewrite ?len_app, ?len_be_bytes; lia). cbn -[be_bytes].
  rewrite sub_app_mid by (rewrite ?len_be_bytes; lia).
  rewrite be_Z_be_bytes by (change (256 ^ Z.of_nat 2) with (2 ^ 16); lia).
  rewrite bool_decide_eq_false_2 by (rewrite !len_app, len_be_bytes; lia).
  rewrite slice_ok by (rewrite ?len_app, ?len_be_bytes; lia). cbn -[be_bytes].
  rewrite app_assoc.
  rewrite sub_app_mid by (rewrite ?len_app, ?len_be_bytes; lia). done.
Qed.

Lemma pascalAt_inv b off s :
  pascalAt b off = Ret (Ok s) →
  ∃ pre post, b = pre ++ byte_of_Z (len s) :: s ++ post ∧ off = len pre ∧ len s ≤ 255.
Proof.
  unfold pascalAt. case_bool_decide as H1; [done|].
  destruct (index_ok b off) as (x&Ex&_); [lia|]. rewrite Ex. cbn.
  case_bool_decide as H3; [done|]. pose proof (bZ_range x).
  rewrite slice_ok by lia. cbn. intros [= <-].
  assert (len (sub b (off + 1) (off + 1 + bZ x)) = bZ x) as El by (rewrite len_sub; lia).
  exists (take (Z.to_nat off) b), (drop (Z.to_nat (off + 1 + bZ x)) b).
  rewrite El, byte_of_Z_bZ. split_and!; [|by rewrite len_take_le by lia|lia].
  destruct (index_inv _ _ _ Ex) as [_ Eb]. rewrite Eb at 1. do 2 f_equal.
  apply drop_sub; lia.
Qed.

Lemma pascal2At_inv b off s :
  pascal2At b off = Ret (Ok s) →
  ∃ pre post, b = pre ++ be_bytes 2 (len s) ++ s ++ post ∧ off = len pre ∧ len s < 2 ^ 16.
Proof.
  unfold pascal2At. case_bool_decide as H1; [done|].
  rewrite slice_ok by lia. cbn. pose proof (be_Z_sub_range b off (off + 2) ltac:(lia)) as R.
  replace (off + 2 - off) with 2 in R by lia. change (256 ^ 2) with (2 ^ 16) in R.
  set (n := be_Z (sub b off (off + 2))) in *.
  case_bool_decide as H3; [done|]. rewrite slice_ok by lia. cbn. intros [= <-].
  assert (len (sub b (off + 2) (off + 2 + n)) = n) as El by (rewrite len_sub; lia).
  exists (take (Z.to_nat off) b), (drop (Z.to_nat (off + 2 + n)) b).
  rewrite El. split_and!; [|by rewrite len_take_le by lia|lia].
  rewrite <- drop_sub by lia. subst n. rewrite be_bytes_be_Z.
  - apply sub_decompose; lia.
  - apply Nat2Z.inj. fold (len (sub b off (off + 2))). rewrite len_sub; lia.
Qed.

Lemma pascalAt_total b off : ∃ r, pascalAt b off = Ret r.
Proof.
  unfold pascalAt. case_bool_decide as H1; [by eexists|].
  destruct (index_ok b off) as (x&Ex&_); [lia|]. rewrite Ex. cbn.
  case_bool_decide as H3; [by eexists|]. pose proof (bZ_range x).
  rewrite slice_ok by lia. by eexists.
Qed.

Lemma pascal2At_total b off : ∃ r, pascal2At b off = Ret r.
Proof.
  unfold pascal2At. case_bool_decide as H1; [by eexists|].
  rewrite slice_ok by lia. cbn. pose proof (be_Z_sub_range b off (off + 2) ltac:(lia)) as R.
  case_bool_decide as H3; [by eexists|]. rewrite slice_ok by lia. by eexists.
Qed.

(** ** The builder's layouts *)

Lemma w_pascal_layout s w :
  w_pascal s w = w ++ byte_of_Z (len (take 255 s)) :: take 255 s.
Proof.
  unfold w_pascal, w_u8, w_bytes.
  assert ((if bool_decide (255 < len s) then take 255 s else s) = take 255 s) as ->.
  { case_bool_decide as H; [done|]. rewrite take_ge; [done|]. unfold len in H. lia. }
  pose proof (len_take 255 s). pose proof (len_nonneg (take 255 s)).
  rewrite wrap_small by lia. by rewrite <- app_assoc.
Qed.

Lemma w_path_layout `{Norm} p w :
  w_path p w = w ++ x03 :: be_bytes 4 utf8PathHint ++
    be_bytes 2 (len (NFD (Trim slash p))) ++ ReplaceAll slash x00 (NFD (Trim slash p)).
Proof.
  unfold w_path, w_u8, w_u16, w_u32, w_bytes. rewrite <- !app_assoc. cbn [app].
  unfold ReplaceAll at 1. unfold len. rewrite length_fmap.
  do 4 f_equal. exact (be_bytes_mod 2 _).
Qed.

Lemma w_evenPad_even w : len (w_evenPad w) mod 2 = 0.
Proof.
  unfold w_evenPad, w_u8. pose proof (Z.mod_pos_bound (len w) 2 ltac:(lia)).
  case_bool_decide; [|lia]. rewrite len_app. change (len [byte_of_Z 0]) with 1.
  rewrite Z.add_mod, H0 by lia. done.
Qed.

(** ** Paths *)

Lemma TrimLeft_spec c s :
  ∃ k, s = replicate k c ++ TrimLeft c s ∧ head (TrimLeft c s) ≠ Some c.
Proof.
  induction s as [|x s (k&E&Hd)]; [by exists 0%nat|]. simpl. case_bool_decide as Hx.
  - exists (S k). simpl. by rewrite Hx, <- E.
  - exists 0%nat. split; [done|]. simpl. congruence.
Qed.

Lemma TrimRight_spec c s :
  ∃ k, s = TrimRight c s ++ replicate k c ∧ last (TrimRight c s) ≠ Some c.
Proof.
  unfold TrimRight. destruct (TrimLeft_spec c (reverse s)) as (k&E&Hd). exists k. split.
  - rewrite <- (reverse_involutive s) at 1. rewrite E at 1.
    by rewrite reverse_app, reverse_replicate.
  - by rewrite last_reverse.
Qed.

(** [Trim] removes a run of separators on each side, and nothing else. *)
Lemma Trim_spec c s :
  ∃ i j, s = replicate i c ++ Trim c s ++ replicate j c ∧
    head (Trim c s) ≠ Some c ∧ last (Trim c s) ≠ Some c.
Proof.
  destruct (TrimLeft_spec c s) as (i&E1&H1).
  destruct (TrimRight_spec c (TrimLeft c s)) as (j&E2&H2).
  exists i, j. fold (Trim c s) in *. rewrite <- E2. split_and!; try done.
  unfold Trim in *. rewrite E2 in H1. by destruct (TrimRight c (TrimLeft c s)).
Qed.

Lemma Split_ReplaceAll old new s :
  new ∉ s → Split new (ReplaceAll old new s) = Split old s.
Proof.
  induction s as [|x s IH]; intros Hn; [done|].
  apply not_elem_of_cons in Hn as [Hx Hn]. specialize (IH Hn). simpl. fold (ReplaceAll old new s).
  destruct (bool_decide (x = old)) eqn:E; simpl.
  - by rewrite bool_decide_eq_true_2, IH.
  - by rewrite bool_decide_eq_false_2, IH.
Qed.

(** The server's reading of a type-3 pathname: type, hint, name. *)
Definition read_path : M reader (Z * Z * option bytes) :=
  t ← r_u8 "path type";
  h ← r_u32 "text encoding hint";
  n ← r_u16 "path length";
  v ← r_take n "path";
  mret (t, h, v).

Lemma read_path_at `{Norm} p w rest :
  len (NFD (Trim slash p)) < 2 ^ 16 →
  read_path (MkReader (w_path p w ++ rest) (len w) None) =
    Ret ((kFPUTF8Name, utf8PathHint, Some (ReplaceAll slash x00 (NFD (Trim slash p)))),
         MkReader (w_path p w ++ rest) (len (w_path p w)) None).
Proof.
  intros Hl. pose proof (len_nonneg (NFD (Trim slash p))). rewrite w_path_layout.
  set (name := ReplaceAll _ _ _).
  assert (len name = len (NFD (Trim slash p))) as En
    by (unfold name, len, ReplaceAll; by rewrite length_fmap).
  rewrite <- En. rewrite <- En in Hl.
  unfold read_path. repeat (rewrite <- app_assoc; cbn [app]).
  change (MkReader (w ++ ?r) (len w) None) with (rd_at w r).
  rd_step. rd_step. rd_step.
  rewrite (wrap_small 16) by (split; [apply len_nonneg|done]). rd_step.
  unfold mret, M_ret, rd_at. repeat (rewrite <- app_assoc; cbn [app]). done.
Qed.

(** ** Properties *)

(** After any failure the reader is inert: every accessor returns its zero
    value (nil for [take]), does not move, and keeps the first error. *)
Theorem reader_sticky r e n what :
  rerr r = Some e →
  r_take n what r = Ret (None, r) ∧ r_u8 what r = Ret (0, r) ∧
  r_u16 what r = Ret (0, r) ∧ r_u32 what r = Ret (0, r) ∧ r_u64 what r = Ret (0, r) ∧
  r_pascal what r = Ret ([], r) ∧ r_fail what r = Ret (tt, r).
Proof.
  intros H. split_and!.
  - by eapply r_take_sticky.
  - by eapply r_u8_sticky.
  - by eapply r_be_sticky.
  - by eapply r_be_sticky.
  - by eapply r_be_sticky.
  - by eapply r_pascal_sticky.
  - unfold r_fail, modify. by rewrite H.
Qed.

Lemma reader_sticky_witness :
  r_u32 "x" (MkReader [x01; x02] 2 (Some EEOF)) = Ret (0, MkReader [x01; x02] 2 (Some EEOF)).
Proof. apply (reader_sticky (MkReader [x01; x02] 2 (Some EEOF)) EEOF 0 "x"). reflexivity. Defined.

(** What the builder writes, the reader reads back: at the position where
    an integer of 8, 16, 32 or 64 bits, or a Pascal string, was appended, the
    accessor returns the value reduced to its width (the string cut to 255
    bytes) and stops exactly after it, whatever precedes and follows. *)
Theorem builder_reader_roundtrip w rest v s what :
  r_u8 what (MkReader (w_u8 v w ++ rest) (len w) None)
    = Ret (u8 v, MkReader (w_u8 v w ++ rest) (len (w_u8 v w)) None) ∧
  r_u16 what (MkReader (w_u16 v w ++ rest) (len w) None)
    = Ret (u16 v, MkReader (w_u16 v w ++ rest) (len (w_u16 v w)) None) ∧
  r_u32 what (MkReader (w_u32 v w ++ rest) (len w) None)
    = Ret (u32 v, MkReader (w_u32 v w ++ rest) (len (w_u32 v w)) None) ∧
  r_u64 what (MkReader (w_u64 v w ++ rest) (len w) None)
    = Ret (u64 v, MkReader (w_u64 v w ++ rest) (len (w_u64 v w)) None) ∧
  r_pascal what (MkReader (w_pascal s w ++ rest) (len w) None)
    = Ret (take 255 s, MkReader (w_pascal s w ++ rest) (len (w_pascal s w)) None).
Proof.
  rewrite w_pascal_layout. unfold w_u8, w_u16, w_u32, w_u64.
  split_and!; rewrite <- app_assoc; cbn [app];
    change (MkReader (w ++ ?r) (len w) None) with (rd_at w r).
  - rewrite r_u8_at, bZ_byte_of_Z. unfold rd_at. by rewrite <- app_assoc.
  - rewrite r_u16_at. unfold rd_at. by rewrite <- app_assoc.
  - rewrite r_u32_at. unfold rd_at. by rewrite <- app_assoc.
  - rewrite r_u64_at. unfold rd_at. by rewrite <- app_assoc.
  - rewrite r_pascal_at by (rewrite len_take; lia). unfold rd_at.
    rewrite <- app_assoc. by cbn [app].
Qed.

(** The absolute-offset string readers are exact: they never panic, and
    they return a string precisely when the block holds, at that offset, the
    string's length prefix followed by the string; any other offset or length
    is an error. *)
Theorem pascalAt_exact b off s :
  (∃ r, pascalAt b off = Ret r) ∧ (∃ r, pascal2At b off = Ret r) ∧
  (pascalAt b off = Ret (Ok s) ↔
     ∃ pre post, b = pre ++ byte_of_Z (len s) :: s ++ post ∧ off = len pre ∧ len s ≤ 255) ∧
  (pascal2At b off = Ret (Ok s) ↔
     ∃ pre post, b = pre ++ be_bytes 2 (len s) ++ s ++ post ∧ off = len pre ∧ len s < 2 ^ 16).
Proof.
  split_and!; auto using pascalAt_total, pascal2At_total.
  - split; [apply pascalAt_inv|]. intros (pre&post&->&->&?). by apply pascalAt_at.
  - split; [apply pascal2At_inv|]. intros (pre&post&->&->&?). by apply pascal2At_at.
Qed.

(** A pathname survives the wire: for a path whose normalised form has no
    NUL byte and is shorter than 64 KiB, the server reads the UTF-8 path type,
    the encoding hint and a name whose NUL-separated components are the
    slash-separated components of the trimmed, decomposed path, and it stops
    exactly where the pathname ends. *)
Theorem path_roundtrip `{Norm} p w rest :
  x00 ∉ NFD (Trim slash p) → len (NFD (Trim slash p)) < 2 ^ 16 →
  ∃ name,
    read_path (MkReader (w_path p w ++ rest) (len w) None)
      = Ret ((3, 0x08000103, Some name),
             MkReader (w_path p w ++ rest) (len (w_path p w)) None) ∧
    Split x00 name = Split slash (NFD (Trim slash p)).
Proof.
  intros H0 Hl. eexists. split; [by apply read_path_at|]. by apply Split_ReplaceAll.
Qed.

Lemma path_roundtrip_witness :
  let N := {| NFD := id; NFC := id |} in
  ∃ name,
    read_path (MkReader (w_path (str "/Docs/2026/") [x01] ++ [x02]) 1 None)
      = Ret ((3, 0x08000103, Some name),
             MkReader (w_path (str "/Docs/2026/") [x01] ++ [x02])
               (len (w_path (str "/Docs/2026/") [x01])) None) ∧
    Split x00 name = [str "Docs"; str "2026"].
Proof.
  intros N. destruct (path_roundtrip (str "/Docs/2026/") [x01] [x02]) as (name&E&Es).
  - apply (bool_decide_unpack _). vm_compute. exact I.
  - reflexivity.
  - exists name. split; [exact E|]. rewrite Es. vm_compute. reflexivity.
Defined.
