(* ===== verification/Entry.v ===== *)
(** * Directory entries and their parameter blocks (src/internal/afp/entry.go)

    [parseEntryParams] decodes one bitmapped parameter block; the rest of the
    file is the layout that servers send, as an encoder, and the proofs that
    the decoder inverts it for every bitmap and never panics. *)

From S2P Require Import Prelude Wire.

Open Scope go_scope.

(** ** Bitmap bits *)

Definition kFPAttributeBit : Z := 0x0001.
Definition kFPParentDirIDBit : Z := 0x0002.
Definition kFPCreateDateBit : Z := 0x0004.
Definition kFPModDateBit : Z := 0x0008.
Definition kFPBackupDateBit : Z := 0x0010.
Definition kFPFinderInfoBit : Z := 0x0020.
Definition kFPLongNameBit : Z := 0x0040.
Definition kFPShortNameBit : Z := 0x0080.
Definition kFPNodeIDBit : Z := 0x0100.
Definition kFPUTF8NameBit : Z := 0x2000.
Definition kFPUnixPrivsBit : Z := 0x8000.
(* Directory-only bits. *)
Definition kFPOffspringCountBit : Z := 0x0200.
Definition kFPOwnerIDBit : Z := 0x0400.
Definition kFPGroupIDBit : Z := 0x0800.
Definition kFPAccessRightsBit : Z := 0x1000.
(* File-only bits. *)
Definition kFPDataForkLenBit : Z := 0x0200.
Definition kFPRsrcForkLenBit : Z := 0x0400.
Definition kFPExtDataForkLenBit : Z := 0x0800.
Definition kFPLaunchLimitBit : Z := 0x1000.
Definition kFPExtRsrcForkLenBit : Z := 0x4000.

Definition RootDirID : Z := 2.

(** [bitmap&bit != 0]. *)
Definition has (bitmap bit : Z) : bool := negb (Z.land bitmap bit =? 0).

(** ** Entries *)

Record UnixPrivs : Type := MkUnixPrivs {
  UID : Z;          (* uint32 *)
  GID : Z;          (* uint32 *)
  Permissions : Z;  (* uint32 *)
}.

(** A [time.Time] is [None] when it is the zero time and otherwise the Unix
    seconds it was made from. *)
Record DirEntry : Type := MkDirEntry {
  e_Name : bytes;
  e_IsDir : bool;
  e_Size : Z;         (* uint64 *)
  e_NodeID : Z;       (* uint32 *)
  e_ParentDirID : Z;  (* uint32 *)
  e_Offspring : Z;    (* uint16 *)
  e_CreateTime : option Z;
  e_ModTime : option Z;
  e_UnixPrivs : UnixPrivs;
  e_HasUnix : bool;
  e_IsSymlink : bool;
}.

(** [DirEntry{IsDir: isDir}]. *)
Definition zeroEntry (isDir : bool) : DirEntry :=
  MkDirEntry [] isDir 0 0 0 0 None None (MkUnixPrivs 0 0 0) false false.

(** Assignments to the fields of an entry. *)
Definition set_Name v e := MkDirEntry v (e_IsDir e) (e_Size e) (e_NodeID e) (e_ParentDirID e)
  (e_Offspring e) (e_CreateTime e) (e_ModTime e) (e_UnixPrivs e) (e_HasUnix e) (e_IsSymlink e).
Definition set_Size v e := MkDirEntry (e_Name e) (e_IsDir e) v (e_NodeID e) (e_ParentDirID e)
  (e_Offspring e) (e_CreateTime e) (e_ModTime e) (e_UnixPrivs e) (e_HasUnix e) (e_IsSymlink e).
Definition set_NodeID v e := MkDirEntry (e_Name e) (e_IsDir e) (e_Size e) v (e_ParentDirID e)
  (e_Offspring e) (e_CreateTime e) (e_ModTime e) (e_UnixPrivs e) (e_HasUnix e) (e_IsSymlink e).
Definition set_ParentDirID v e := MkDirEntry (e_Name e) (e_IsDir e) (e_Size e) (e_NodeID e) v
  (e_Offspring e) (e_CreateTime e) (e_ModTime e) (e_UnixPrivs e) (e_HasUnix e) (e_IsSymlink e).
Definition set_Offspring v e := MkDirEntry (e_Name e) (e_IsDir e) (e_Size e) (e_NodeID e)
  (e_ParentDirID e) v (e_CreateTime e) (e_ModTime e) (e_UnixPrivs e) (e_HasUnix e) (e_IsSymlink e).
Definition set_CreateTime v e := MkDirEntry (e_Name e) (e_IsDir e) (e_Size e) (e_NodeID e)
  (e_ParentDirID e) (e_Offspring e) v (e_ModTime e) (e_UnixPrivs e) (e_HasUnix e) (e_IsSymlink e).
Definition set_ModTime v e := MkDirEntry (e_Name e) (e_IsDir e) (e_Size e) (e_NodeID e)
  (e_ParentDirID e) (e_Offspring e) (e_CreateTime e) v (e_UnixPrivs e) (e_HasUnix e) (e_IsSymlink e).
Definition set_UnixPrivs v e := MkDirEntry (e_Name e) (e_IsDir e) (e_Size e) (e_NodeID e)
  (e_ParentDirID e) (e_Offspring e) (e_CreateTime e) (e_ModTime e) v (e_HasUnix e) (e_IsSymlink e).
Definition set_HasUnix v e := MkDirEntry (e_Name e) (e_IsDir e) (e_Size e) (e_NodeID e)
  (e_ParentDirID e) (e_Offspring e) (e_CreateTime e) (e_ModTime e) (e_UnixPrivs e) v (e_IsSymlink e).
Definition set_IsSymlink v e := MkDirEntry (e_Name e) (e_IsDir e) (e_Size e) (e_NodeID e)
  (e_ParentDirID e) (e_Offspring e) (e_CreateTime e) (e_ModTime e) (e_UnixPrivs e) (e_HasUnix e) v.
Definition set_UID v e :=
  set_UnixPrivs (MkUnixPrivs v (GID (e_UnixPrivs e)) (Permissions (e_UnixPrivs e))) e.
Definition set_GID v e :=
  set_UnixPrivs (MkUnixPrivs (UID (e_UnixPrivs e)) v (Permissions (e_UnixPrivs e))) e.
Definition set_Permissions v e :=
  set_UnixPrivs (MkUnixPrivs (UID (e_UnixPrivs e)) (GID (e_UnixPrivs e)) v) e.

(** ** The decoder *)

(** [if c { e.F = r.m() }]: read a field when its bit is set. *)
Definition on {A} (c : bool) (m : M reader A) (set : A → DirEntry → DirEntry) (e : DirEntry)
  : M reader DirEntry :=
  if c then v ← m; mret (set v e) else mret e.

(** [if c { r.m() }]: read a field and drop it. *)
Definition skip {A} (c : bool) (m : M reader A) (e : DirEntry) : M reader DirEntry :=
  on c m (λ _ e, e) e.

(** A name field: an offset into the block, dereferenced unless the reader has
    failed; a bad offset returns from the function with the entry so far. *)
Definition name_at (find : Z → outcome (result bytes)) (norm : bytes → bytes) (off : Z)
    (e : DirEntry) : M reader (DirEntry * option error) :=
  r ← get;
  match rerr r with
  | None =>
    name ← lift (find off);
    match name with
    | Ok n => mret (set_Name (norm n) e, None)
    | Err er => mret (e, Some er)
    end
  | Some _ => mret (e, None)
  end.

(** The Finder type of a symbolic link. *)
Definition is_slnk (fi : option bytes) : bool :=
  bool_decide (4 ≤ len (default [] fi)) && bool_decide (take 4 (default [] fi) = str "slnk").

(** entry.go lines 70 to 91: the fields before the long name. *)
Definition parse_fixed (bitmap : Z) (e : DirEntry) : M reader DirEntry :=
  e ← skip (has bitmap kFPAttributeBit) (r_u16 "attributes") e;
  e ← on (has bitmap kFPParentDirIDBit) (r_u32 "parent dir id") set_ParentDirID e;
  e ← on (has bitmap kFPCreateDateBit) (r_u32 "create date") (λ v, set_CreateTime (Some (afpDate v))) e;
  e ← on (has bitmap kFPModDateBit) (r_u32 "mod date") (λ v, set_ModTime (Some (afpDate v))) e;
  e ← skip (has bitmap kFPBackupDateBit) (r_u32 "backup date") e;
  on (has bitmap kFPFinderInfoBit) (r_take 32 "finder info")
     (λ fi e, if is_slnk fi then set_IsSymlink true e else e) e.

(** Lines 92 to 101: the long name. *)
Definition parse_longname (block : bytes) (bitmap : Z) (e : DirEntry)
  : M reader (DirEntry * option error) :=
  if has bitmap kFPLongNameBit then
    off ← r_u16 "long name offset";
    name_at (pascalAt block) id off e
  else mret (e, None).

(** Lines 102 to 134: short name, node id, the directory or file fields. *)
Definition parse_middle (isDir : bool) (bitmap : Z) (e : DirEntry) : M reader DirEntry :=
  e ← skip (has bitmap kFPShortNameBit) (r_u16 "short name offset") e;
  e ← on (has bitmap kFPNodeIDBit) (r_u32 "node id") set_NodeID e;
  if isDir then
    e ← on (has bitmap kFPOffspringCountBit) (r_u16 "offspring count") set_Offspring e;
    e ← on (has bitmap kFPOwnerIDBit) (r_u32 "owner id") set_UID e;
    e ← on (has bitmap kFPGroupIDBit) (r_u32 "group id") set_GID e;
    skip (has bitmap kFPAccessRightsBit) (r_u32 "access rights") e
  else
    e ← on (has bitmap kFPDataForkLenBit) (r_u32 "data fork len") set_Size e;
    e ← skip (has bitmap kFPRsrcForkLenBit) (r_u32 "rsrc fork len") e;
    e ← on (has bitmap kFPExtDataForkLenBit) (r_u64 "ext data fork len") set_Size e;
    skip (has bitmap kFPLaunchLimitBit) (r_u16 "launch limit") e.

(** Lines 135 to 148: the UTF-8 name, behind a 4-byte encoding hint. *)
Definition parse_utf8name `{Norm} (block : bytes) (bitmap : Z) (e : DirEntry)
  : M reader (DirEntry * option error) :=
  if has bitmap kFPUTF8NameBit then
    off ← r_u16 "utf8 name offset";
    _ ← r_u32 "utf8 name pad";
    name_at (λ off, pascal2At block (off + 4)) NFC off e
  else mret (e, None).

(** Lines 149 to 158: the trailing fields. *)
Definition parse_tail (isDir : bool) (bitmap : Z) (e : DirEntry) : M reader DirEntry :=
  e ← skip (has bitmap kFPExtRsrcForkLenBit && negb isDir) (r_u64 "ext rsrc fork len") e;
  if has bitmap kFPUnixPrivsBit then
    uid ← r_u32 "unix uid";
    let e := set_UID uid e in
    gid ← r_u32 "unix gid";
    let e := set_GID gid e in
    perm ← r_u32 "unix permissions";
    let e := set_Permissions perm e in
    _ ← r_u32 "unix ua_permissions";
    r ← get;
    mret (set_HasUnix (bool_decide (rerr r = None)) e)
  else mret e.

(** [parseEntryParams], run on [&reader{b: block}]. *)
Definition parse_body `{Norm} (block : bytes) (isDir : bool) (bitmap : Z)
  : M reader (DirEntry * option error) :=
  e ← parse_fixed bitmap (zeroEntry isDir);
  '(e, er) ← parse_longname block bitmap e;
  if er is Some _ then mret (e, er) else
  e ← parse_middle isDir bitmap e;
  '(e, er) ← parse_utf8name block bitmap e;
  if er is Some _ then mret (e, er) else
  e ← parse_tail isDir bitmap e;
  r ← get;
  mret (e, rerr r).

Definition parseEntryParams `{Norm} (block : bytes) (isDir : bool) (bitmap : Z)
  : outcome (DirEntry * option error) :=
  '(res, _) ← parse_body block isDir bitmap (new_reader block); mret res.

(** ** The decoder never panics *)

Lemma rsafe_on {A} (P : A → Prop) c m set e :
  rsafe P m → rsafe (λ _, True) (on c m set e).
Proof.
  intros Hm. unfold on. destruct c; [|by apply rsafe_ret].
  eapply rsafe_bind; [exact Hm|]. intros v _. by apply rsafe_ret.
Qed.

Lemma rsafe_skip {A} (P : A → Prop) c m e : rsafe P m → rsafe (λ _, True) (@skip A c m e).
Proof. apply rsafe_on. Qed.

Lemma rsafe_name_at find norm off e :
  (∀ o, ∃ r, find o = Ret r) → rsafe (λ _, True) (name_at find norm off e).
Proof.
  intros Hf. unfold name_at. eapply rsafe_bind; [apply rsafe_get|]. intros r _.
  destruct (rerr r); [by apply rsafe_ret|].
  destruct (Hf off) as [[n|er] E]; rewrite E; intros r' Hr'.
  - by exists (set_Name (norm n) e, None), r'.
  - by exists (e, Some er), r'.
Qed.

Lemma rsafe_take_32 what : rsafe (λ _, True) (r_take 32 what).
Proof. eapply rsafe_mono; [done|]. by apply rsafe_take. Qed.

#[export] Hint Resolve rsafe_on rsafe_skip rsafe_name_at rsafe_take_32 : rsafe.
#[export] Hint Resolve pascalAt_total pascal2At_total : rsafe.

(** Peels one monadic step of a safety goal whose value does not matter. *)
Ltac rsafe_step :=
  first
    [ solve [eauto with rsafe]
    | eapply rsafe_bind; [solve [eauto with rsafe] | intros ? _]
    | match goal with |- rsafe _ (if ?c then _ else _) => destruct c end
    | match goal with |- rsafe _ (let '(_, _) := ?p in _) => destruct p end ].

Lemma rsafe_parse_fixed bitmap e : rsafe (λ _, True) (parse_fixed bitmap e).
Proof. unfold parse_fixed. repeat rsafe_step. Qed.

Lemma rsafe_parse_middle isDir bitmap e : rsafe (λ _, True) (parse_middle isDir bitmap e).
Proof. unfold parse_middle. repeat rsafe_step. Qed.

Lemma rsafe_parse_tail isDir bitmap e : rsafe (λ _, True) (parse_tail isDir bitmap e).
Proof. unfold parse_tail. repeat rsafe_step. Qed.

Lemma rsafe_parse_longname block bitmap e : rsafe (λ _, True) (parse_longname block bitmap e).
Proof. unfold parse_longname. repeat rsafe_step. Qed.

Lemma rsafe_parse_utf8name `{Norm} block bitmap e :
  rsafe (λ _, True) (parse_utf8name block bitmap e).
Proof. unfold parse_utf8name. repeat rsafe_step. Qed.

#[export] Hint Resolve rsafe_parse_fixed rsafe_parse_middle rsafe_parse_tail
  rsafe_parse_longname rsafe_parse_utf8name : rsafe.

Lemma rsafe_parse_body `{Norm} block isDir bitmap :
  rsafe (λ _, True) (parse_body block isDir bitmap).
Proof.
  unfold parse_body. rsafe_step. rsafe_step. rsafe_step. destruct o; [by repeat rsafe_step|].
  rsafe_step. rsafe_step. rsafe_step. destruct o; by repeat rsafe_step.
Qed.

Lemma parseEntryParams_total `{Norm} block isDir bitmap :
  ∃ e er, parseEntryParams block isDir bitmap = Ret (e, er).
Proof.
  unfold parseEntryParams.
  destruct (rsafe_parse_body block isDir bitmap (new_reader block)) as ([e er]&r'&E&_).
  - unfold reader_ok, new_reader. cbn. pose proof (len_nonneg block). lia.
  - rewrite E. cbn. eauto.
Qed.

(** ** The layout servers send

    The values of every parameter that a block can carry.  [layout] puts those
    that the bitmap names in ascending bit order, with the two names behind
    the fixed part and their offsets in it. *)

Record params : Type := MkParams {
  p_attr : Z; p_parent : Z; p_create : Z; p_mod : Z; p_backup : Z; p_finder : bytes;
  p_longname : bytes; p_shortoff : Z; p_node : Z;
  p_offspring : Z; p_owner : Z; p_group : Z; p_access : Z;
  p_datalen : Z; p_rsrclen : Z; p_extdatalen : Z; p_launch : Z;
  p_hint : Z; p_utf8name : bytes; p_extrsrclen : Z;
  p_uid : Z; p_gid : Z; p_perm : Z; p_uaperm : Z;
}.

(** A field that is present when its bit is set. *)
Definition opt (c : bool) (b : bytes) : bytes := if c then b else [].

Definition lay_fixed (bm : Z) (x : params) : bytes :=
  opt (has bm kFPAttributeBit) (be_bytes 2 (p_attr x)) ++
  opt (has bm kFPParentDirIDBit) (be_bytes 4 (p_parent x)) ++
  opt (has bm kFPCreateDateBit) (be_bytes 4 (p_create x)) ++
  opt (has bm kFPModDateBit) (be_bytes 4 (p_mod x)) ++
  opt (has bm kFPBackupDateBit) (be_bytes 4 (p_backup x)) ++
  opt (has bm kFPFinderInfoBit) (p_finder x).

Definition lay_middle (isDir : bool) (bm : Z) (x : params) : bytes :=
  opt (has bm kFPShortNameBit) (be_bytes 2 (p_shortoff x)) ++
  opt (has bm kFPNodeIDBit) (be_bytes 4 (p_node x)) ++
  if isDir then
    opt (has bm kFPOffspringCountBit) (be_bytes 2 (p_offspring x)) ++
    opt (has bm kFPOwnerIDBit) (be_bytes 4 (p_owner x)) ++
    opt (has bm kFPGroupIDBit) (be_bytes 4 (p_group x)) ++
    opt (has bm kFPAccessRightsBit) (be_bytes 4 (p_access x))
  else
    opt (has bm kFPDataForkLenBit) (be_bytes 4 (p_datalen x)) ++
    opt (has bm kFPRsrcForkLenBit) (be_bytes 4 (p_rsrclen x)) ++
    opt (has bm kFPExtDataForkLenBit) (be_bytes 8 (p_extdatalen x)) ++
    opt (has bm kFPLaunchLimitBit) (be_bytes 2 (p_launch x)).

Definition lay_tail (isDir : bool) (bm : Z) (x : params) : bytes :=
  opt (has bm kFPExtRsrcForkLenBit && negb isDir) (be_bytes 8 (p_extrsrclen x)) ++
  opt (has bm kFPUnixPrivsBit)
    (be_bytes 4 (p_uid x) ++ be_bytes 4 (p_gid x) ++ be_bytes 4 (p_perm x) ++ be_bytes 4 (p_uaperm x)).

Definition lay_longname (bm : Z) (x : params) : bytes :=
  opt (has bm kFPLongNameBit) (byte_of_Z (len (p_longname x)) :: p_longname x).

Definition lay_utf8name (bm : Z) (x : params) : bytes :=
  opt (has bm kFPUTF8NameBit)
    (be_bytes 4 (p_hint x) ++ be_bytes 2 (len (p_utf8name x)) ++ p_utf8name x).

(** The size of the part that precedes the names. *)
Definition head_len (isDir : bool) (bm : Z) (x : params) : Z :=
  len (lay_fixed bm x) + (if has bm kFPLongNameBit then 2 else 0) +
  len (lay_middle isDir bm x) + (if has bm kFPUTF8NameBit then 6 else 0) +
  len (lay_tail isDir bm x).

Definition utf8_off (isDir : bool) (bm : Z) (x : params) : Z :=
  head_len isDir bm x + len (lay_longname bm x).

Definition layout (isDir : bool) (bm : Z) (x : params) (pad : bytes) : bytes :=
  lay_fixed bm x ++
  opt (has bm kFPLongNameBit) (be_bytes 2 (head_len isDir bm x)) ++
  lay_middle isDir bm x ++
  opt (has bm kFPUTF8NameBit) (be_bytes 2 (utf8_off isDir bm x) ++ be_bytes 4 0) ++
  lay_tail isDir bm x ++
  lay_longname bm x ++ lay_utf8name bm x ++ pad.

(** The values fit their places: a 32-byte Finder info, names within the reach
    of their length prefixes, offsets of sixteen bits. *)
Definition params_ok (isDir : bool) (bm : Z) (x : params) : Prop :=
  len (p_finder x) = 32 ∧ len (p_longname x) ≤ 255 ∧ len (p_utf8name x) < 2 ^ 16 ∧
  utf8_off isDir bm x < 2 ^ 16.

(** The entry that a block with the given bitmap stands for. *)
Definition entry_of `{Norm} (isDir : bool) (bm : Z) (x : params) : DirEntry := {|
  e_Name := if has bm kFPUTF8NameBit then NFC (p_utf8name x)
            else if has bm kFPLongNameBit then p_longname x else [];
  e_IsDir := isDir;
  e_Size := if isDir then 0
            else if has bm kFPExtDataForkLenBit then u64 (p_extdatalen x)
            else if has bm kFPDataForkLenBit then u32 (p_datalen x) else 0;
  e_NodeID := if has bm kFPNodeIDBit then u32 (p_node x) else 0;
  e_ParentDirID := if has bm kFPParentDirIDBit then u32 (p_parent x) else 0;
  e_Offspring := if isDir && has bm kFPOffspringCountBit then u16 (p_offspring x) else 0;
  e_CreateTime := if has bm kFPCreateDateBit then Some (afpDate (u32 (p_create x))) else None;
  e_ModTime := if has bm kFPModDateBit then Some (afpDate (u32 (p_mod x))) else None;
  e_UnixPrivs := {|
    UID := if has bm kFPUnixPrivsBit then u32 (p_uid x)
           else if isDir && has bm kFPOwnerIDBit then u32 (p_owner x) else 0;
    GID := if has bm kFPUnixPrivsBit then u32 (p_gid x)
           else if isDir && has bm kFPGroupIDBit then u32 (p_group x) else 0;
    Permissions := if has bm kFPUnixPrivsBit then u32 (p_perm x) else 0 |};
  e_HasUnix := has bm kFPUnixPrivsBit;
  e_IsSymlink := has bm kFPFinderInfoBit && bool_decide (take 4 (p_finder x) = str "slnk");
|}.

(** ** Decoding a layout *)

Section steps.
Context {A : Type} (m : M reader A) (b : bytes) (v : A).
Context (Hm : ∀ pre rest, m (rd_at pre (b ++ rest)) = Ret (v, rd_at (pre ++ b) rest)).

Lemma on_at c set e pre rest :
  on c m set e (rd_at pre (opt c b ++ rest))
  = Ret (if c then set v e else e, rd_at (pre ++ opt c b) rest).
Proof.
  unfold on, opt. destruct c; [|by rewrite app_nil_r].
  by erewrite M_bind_ret by apply Hm.
Qed.

Lemma skip_at c e pre rest :
  skip c m e (rd_at pre (opt c b ++ rest)) = Ret (e, rd_at (pre ++ opt c b) rest).
Proof. unfold skip. rewrite on_at. by destruct c. Qed.
End steps.

(** A conditional assignment is an unconditional one of a conditional value. *)
Lemma if_set_ParentDirID (c : bool) v e :
  (if c then set_ParentDirID v e else e) = set_ParentDirID (if c then v else e_ParentDirID e) e.
Proof. by destruct c, e. Qed.
Lemma if_set_CreateTime (c : bool) v e :
  (if c then set_CreateTime v e else e) = set_CreateTime (if c then v else e_CreateTime e) e.
Proof. by destruct c, e. Qed.
Lemma if_set_ModTime (c : bool) v e :
  (if c then set_ModTime v e else e) = set_ModTime (if c then v else e_ModTime e) e.
Proof. by destruct c, e. Qed.
Lemma if_set_IsSymlink (c d : bool) e :
  (if c then if d then set_IsSymlink true e else e else e)
  = set_IsSymlink (if c && d then true else e_IsSymlink e) e.
Proof. by destruct c, d, e. Qed.
Lemma if_set_NodeID (c : bool) v e :
  (if c then set_NodeID v e else e) = set_NodeID (if c then v else e_NodeID e) e.
Proof. by destruct c, e. Qed.
Lemma if_set_Offspring (c : bool) v e :
  (if c then set_Offspring v e else e) = set_Offspring (if c then v else e_Offspring e) e.
Proof. by destruct c, e. Qed.
Lemma if_set_Size (c : bool) v e :
  (if c then set_Size v e else e) = set_Size (if c then v else e_Size e) e.
Proof. by destruct c, e. Qed.
Lemma if_set_UID (c : bool) v e :
  (if c then set_UID v e else e) = set_UID (if c then v else UID (e_UnixPrivs e)) e.
Proof. by destruct c, e as [? ? ? ? ? ? ? ? [? ? ?]]. Qed.
Lemma if_set_GID (c : bool) v e :
  (if c then set_GID v e else e) = set_GID (if c then v else GID (e_UnixPrivs e)) e.
Proof. by destruct c, e as [? ? ? ? ? ? ? ? [? ? ?]]. Qed.
Lemma if_set_Name (c : bool) v e :
  (if c then set_Name v e else e) = set_Name (if c then v else e_Name e) e.
Proof. by destruct c, e. Qed.

(** Runs the optional fields in sight, one after the other. *)
Ltac fld_step :=
  erewrite M_bind_ret by
    (first [ eapply skip_at | eapply on_at ];
     intros; first [ apply r_u16_at | apply r_u32_at | apply r_u64_at | apply r_take_at; done ]).
Ltac fld_last :=
  erewrite skip_at || erewrite on_at;
  [| intros; first [ apply r_u16_at | apply r_u32_at | apply r_u64_at | apply r_take_at; done ]].

Lemma parse_fixed_at bm x e pre rest :
  len (p_finder x) = 32 →
  parse_fixed bm e (rd_at pre (lay_fixed bm x ++ rest)) = Ret (
    set_IsSymlink (if has bm kFPFinderInfoBit && is_slnk (Some (p_finder x)) then true else e_IsSymlink e)
      (set_ModTime (if has bm kFPModDateBit then Some (afpDate (u32 (p_mod x))) else e_ModTime e)
        (set_CreateTime (if has bm kFPCreateDateBit then Some (afpDate (u32 (p_create x))) else e_CreateTime e)
          (set_ParentDirID (if has bm kFPParentDirIDBit then u32 (p_parent x) else e_ParentDirID e) e))),
    rd_at (pre ++ lay_fixed bm x) rest).
Proof.
  intros Hf. unfold parse_fixed, lay_fixed. rewrite <- !app_assoc.
  do 5 fld_step. fld_last.
  rewrite if_set_ParentDirID, if_set_CreateTime, if_set_ModTime, if_set_IsSymlink.
  by rewrite <- !app_assoc.
Qed.

Lemma parse_middle_at isDir bm x e pre rest :
  parse_middle isDir bm e (rd_at pre (lay_middle isDir bm x ++ rest)) = Ret (
    let e1 := set_NodeID (if has bm kFPNodeIDBit then u32 (p_node x) else e_NodeID e) e in
    if isDir then
      set_GID (if has bm kFPGroupIDBit then u32 (p_group x) else GID (e_UnixPrivs e))
        (set_UID (if has bm kFPOwnerIDBit then u32 (p_owner x) else UID (e_UnixPrivs e))
          (set_Offspring (if has bm kFPOffspringCountBit then u16 (p_offspring x) else e_Offspring e) e1))
    else
      set_Size (if has bm kFPExtDataForkLenBit then u64 (p_extdatalen x)
                else if has bm kFPDataForkLenBit then u32 (p_datalen x) else e_Size e) e1,
    rd_at (pre ++ lay_middle isDir bm x) rest).
Proof.
  unfold parse_middle, lay_middle. rewrite <- !app_assoc. destruct isDir; rewrite <- !app_assoc.
  - do 5 fld_step. fld_last.
    rewrite if_set_NodeID, if_set_Offspring, if_set_UID, if_set_GID. by rewrite <- !app_assoc.
  - do 5 fld_step. fld_last.
    rewrite if_set_NodeID, !if_set_Size. by rewrite <- !app_assoc.
Qed.

Lemma parse_tail_at isDir bm x e pre rest :
  parse_tail isDir bm e (rd_at pre (lay_tail isDir bm x ++ rest)) = Ret (
    if has bm kFPUnixPrivsBit then
      set_HasUnix true (set_Permissions (u32 (p_perm x)) (set_GID (u32 (p_gid x)) (set_UID (u32 (p_uid x)) e)))
    else e,
    rd_at (pre ++ lay_tail isDir bm x) rest).
Proof.
  unfold parse_tail, lay_tail. rewrite <- !app_assoc. fld_step.
  destruct (has bm kFPUnixPrivsBit); cbn [opt].
  - rewrite <- !app_assoc. do 4 rd_step. rewrite <- !app_assoc. done.
  - by rewrite !app_nil_r.
Qed.

Lemma parse_longname_at block bm e off name pre rest :
  0 ≤ off < 2 ^ 16 →
  (has bm kFPLongNameBit = true → pascalAt block off = Ret (Ok name)) →
  parse_longname block bm e (rd_at pre (opt (has bm kFPLongNameBit) (be_bytes 2 off) ++ rest)) = Ret (
    (set_Name (if has bm kFPLongNameBit then name else e_Name e) e, None),
    rd_at (pre ++ opt (has bm kFPLongNameBit) (be_bytes 2 off)) rest).
Proof.
  intros Ho Hn. unfold parse_longname. destruct (has bm kFPLongNameBit); cbn [opt].
  - rd_step. rewrite wrap_small by done. unfold name_at.
    erewrite M_bind_ret by done. cbn [rerr rd_at].
    erewrite M_bind_ret by (by rewrite Hn). done.
  - rewrite app_nil_r. by destruct e.
Qed.

Lemma parse_utf8name_at `{Norm} block bm e off name pre rest :
  0 ≤ off < 2 ^ 16 →
  (has bm kFPUTF8NameBit = true → pascal2At block (off + 4) = Ret (Ok name)) →
  parse_utf8name block bm e
    (rd_at pre (opt (has bm kFPUTF8NameBit) (be_bytes 2 off ++ be_bytes 4 0) ++ rest)) = Ret (
    (set_Name (if has bm kFPUTF8NameBit then NFC name else e_Name e) e, None),
    rd_at (pre ++ opt (has bm kFPUTF8NameBit) (be_bytes 2 off ++ be_bytes 4 0)) rest).
Proof.
  intros Ho Hn. unfold parse_utf8name. destruct (has bm kFPUTF8NameBit); cbn [opt].
  - rewrite <- app_assoc. rd_step. rd_step. rewrite wrap_small by done. unfold name_at.
    erewrite M_bind_ret by done. cbn [rerr rd_at].
    erewrite M_bind_ret by (by rewrite Hn). by rewrite <- app_assoc.
  - rewrite app_nil_r. by destruct e.
Qed.

(** The part of a layout that precedes the names. *)
Definition lay_head (isDir : bool) (bm : Z) (x : params) : bytes :=
  lay_fixed bm x ++
  opt (has bm kFPLongNameBit) (be_bytes 2 (head_len isDir bm x)) ++
  lay_middle isDir bm x ++
  opt (has bm kFPUTF8NameBit) (be_bytes 2 (utf8_off isDir bm x) ++ be_bytes 4 0) ++
  lay_tail isDir bm x.

Lemma layout_head isDir bm x pad :
  layout isDir bm x pad = lay_head isDir bm x ++ lay_longname bm x ++ lay_utf8name bm x ++ pad.
Proof. unfold layout, lay_head. by rewrite <- !app_assoc. Qed.

Lemma len_opt c b : len (opt c b) = if c then len b else 0.
Proof. by destruct c. Qed.

Lemma len_lay_head isDir bm x : len (lay_head isDir bm x) = head_len isDir bm x.
Proof.
  unfold lay_head, head_len. rewrite !len_app, !len_opt, !len_app, !len_be_bytes.
  destruct (has bm kFPLongNameBit), (has bm kFPUTF8NameBit); lia.
Qed.

Lemma longname_found isDir bm x pad :
  len (p_longname x) ≤ 255 → has bm kFPLongNameBit = true →
  pascalAt (layout isDir bm x pad) (head_len isDir bm x) = Ret (Ok (p_longname x)).
Proof.
  intros Hl Hb. rewrite layout_head. unfold lay_longname at 1. rewrite Hb. cbn [opt app].
  apply pascalAt_at; [done|]. by rewrite len_lay_head.
Qed.

Lemma utf8name_found isDir bm x pad :
  len (p_utf8name x) < 2 ^ 16 → has bm kFPUTF8NameBit = true →
  pascal2At (layout isDir bm x pad) (utf8_off isDir bm x + 4) = Ret (Ok (p_utf8name x)).
Proof.
  intros Hl Hb. rewrite layout_head. unfold lay_utf8name at 1. rewrite Hb. cbn [opt].
  rewrite <- !app_assoc.
  rewrite (app_assoc (lay_head _ _ _)), (app_assoc _ (be_bytes 4 _)).
  apply pascal2At_at; [done|]. unfold utf8_off.
  by rewrite !len_app, len_lay_head, len_be_bytes.
Qed.

Lemma is_slnk_32 fi : len fi = 32 → is_slnk (Some fi) = bool_decide (take 4 fi = str "slnk").
Proof. intros H. unfold is_slnk. cbn [default]. by rewrite bool_decide_eq_true_2 by (cbn; lia). Qed.

Lemma parseEntryParams_layout `{Norm} isDir bm x pad :
  params_ok isDir bm x →
  parseEntryParams (layout isDir bm x pad) isDir bm = Ret (entry_of isDir bm x, None).
Proof.
  intros (Hf&Hl&Hu&Ho). pose proof (len_nonneg (lay_longname bm x)).
  assert (0 ≤ head_len isDir bm x) by (rewrite <- len_lay_head; apply len_nonneg).
  assert (0 ≤ utf8_off isDir bm x) by (unfold utf8_off; lia).
  unfold parseEntryParams, parse_body. rewrite new_reader_at.
  set (blk := layout isDir bm x pad) at 1 2. unfold layout.
  erewrite M_bind_ret by (by apply parse_fixed_at).
  erewrite M_bind_ret by (apply parse_longname_at; [unfold utf8_off in *; lia | by apply longname_found]).
  cbn beta iota.
  erewrite M_bind_ret by apply parse_middle_at.
  erewrite M_bind_ret by (apply parse_utf8name_at; [lia | by apply utf8name_found]).
  cbn beta iota.
  erewrite M_bind_ret by apply parse_tail_at.
  erewrite M_bind_ret by done. rewrite is_slnk_32 by done.
  unfold mbind, outcome_bind, mret, M_ret, outcome_ret. cbn [rerr rd_at].
  unfold entry_of. do 2 f_equal.
  destruct isDir, (has bm kFPUnixPrivsBit); cbn; f_equal; by destruct (_ && _).
Qed.

(** ** Properties *)

(** C19: for every bitmap, directory or file, decoding the block a server lays
    out for it (the named fields in ascending bit order, the long and UTF-8
    names behind them, any padding) yields exactly the entry the values stand
    for, without an error: the UTF-8 name recomposed and preferred to the long
    one, the extended length preferred to the 32-bit one, the unix privileges
    preferred to the owner and group ids, symlinks recognised by their Finder
    type, and absent fields zero. *)
Theorem parseEntryParams_roundtrip `{Norm} isDir bm x pad :
  params_ok isDir bm x →
  parseEntryParams (layout isDir bm x pad) isDir bm = Ret (entry_of isDir bm x, None).
Proof. apply parseEntryParams_layout. Qed.

(** A file named notes.txt and a symbolic link, with what a client asks for. *)
Definition sample_params (finder name : bytes) : params :=
  MkParams 0 7 0x2bf0a3c0 0x2bf0a3c1 0 finder [] 0 101 0 0 0 0 0 0 4096 0
    utf8PathHint name 0 501 20 33188 0.

Lemma parseEntryParams_roundtrip_witness :
  let N := {| NFD := id; NFC := id |} in
  parseEntryParams
    (layout false 0xA92E (sample_params (str "slnkrhap" ++ replicate 24 x00) (str "notes.txt")) [x00])
    false 0xA92E
  = Ret (entry_of false 0xA92E (sample_params (str "slnkrhap" ++ replicate 24 x00) (str "notes.txt")), None).
Proof.
  intros N. apply parseEntryParams_roundtrip. repeat split; vm_compute; congruence.
Defined.
