(* ===== verification/ServerInfo.v ===== *)
(** * The server information block (src/internal/afp/serverinfo.go)

    [ParseServerInfo] and its helpers, the layout servers send, and the proofs
    that parsing inverts it and never panics. *)

From S2P Require Import Prelude Wire.

Open Scope go_scope.

Definition FlagSupportsCopyFile : Z := Z.shiftl 1 0.
Definition FlagSupportsChgPwd : Z := Z.shiftl 1 1.
Definition FlagDontAllowSavePwd : Z := Z.shiftl 1 2.
Definition FlagSupportsSrvrMsg : Z := Z.shiftl 1 3.
Definition FlagSupportsSrvrSig : Z := Z.shiftl 1 4.
Definition FlagSupportsTCP : Z := Z.shiftl 1 5.
Definition FlagSupportsSrvrNotify : Z := Z.shiftl 1 6.
Definition FlagSupportsReconnect : Z := Z.shiftl 1 7.
Definition FlagSupportsDirServices : Z := Z.shiftl 1 8.
Definition FlagSupportsUTF8SrvrName : Z := Z.shiftl 1 9.
Definition FlagSupportsUUIDs : Z := Z.shiftl 1 10.
Definition FlagSupportsExtSleep : Z := Z.shiftl 1 11.
Definition FlagSupportsSuperClient : Z := Z.shiftl 1 15.

Record ServerInfo : Type := MkServerInfo {
  ServerName : bytes;
  MachineType : bytes;
  AFPVersions : list bytes;
  UAMs : list bytes;
  si_Flags : Z;  (* uint16 *)
}.

(** [pascalString] reads a length-prefixed string at [off] and returns it with
    the offset of the first byte past it. *)
Definition pascalString (b : bytes) (off : Z) : outcome (result (bytes * Z)) :=
  if bool_decide (off < 0 ∨ len b ≤ off) then
    mret (Err (EErrorf "offset %d outside %d-byte block" [FZ off; FZ (len b)]))
  else
    x ← index b off;
    let n := bZ x in
    let end_ := off + 1 + n in
    if bool_decide (len b < end_) then
      mret (Err (EErrorf "string at %d overruns block (%d+%d > %d)"
                   [FZ off; FZ (off + 1); FZ n; FZ (len b)]))
    else
      s ← slice b (off + 1) end_;
      mret (Ok (s, end_)).

(** The loop of [pascalList]: [n] iterations are left, [i] are done. *)
Fixpoint pascalList_loop (b : bytes) (n : nat) (i p : Z) (items : list bytes)
  : outcome (result (list bytes)) :=
  match n with
  | O => mret (Ok items)
  | S n' =>
    r ← pascalString b p;
    match r with
    | Err e => mret (Err (EWrapf "list item %d: %w" [FZ i] e))
    | Ok (s, next) => pascalList_loop b n' (i + 1) next (items ++ [s])
    end
  end.

(** [pascalList] reads a count byte at [off] and that many Pascal strings. *)
Definition pascalList (b : bytes) (off : Z) : outcome (result (list bytes)) :=
  if bool_decide (off ≤ 0) then mret (Ok [])
  else if bool_decide (len b ≤ off) then
    mret (Err (EErrorf "list offset %d outside %d-byte block" [FZ off; FZ (len b)]))
  else
    x ← index b off;
    pascalList_loop b (Z.to_nat (bZ x)) 0 (off + 1) [].

(** A step of the parser: on an error, return it wrapped. *)
Definition or_wrap {A B} (format : string) (m : outcome (result A))
    (k : A → outcome (result B)) : outcome (result B) :=
  r ← m;
  match r with
  | Err e => mret (Err (EWrapf format [] e))
  | Ok a => k a
  end.

Definition ParseServerInfo (b : bytes) : outcome (result ServerInfo) :=
  if bool_decide (len b < 11) then
    mret (Err (EErrorf "afp: server info block too short (%d bytes)" [FZ (len b)]))
  else
    flags ← slice b 8 10;
    or_wrap "afp: server name: %w" (pascalString b 10) (λ '(name, _),
    o1 ← slice b 0 2;
    or_wrap "afp: machine type: %w" (pascalString b (be_Z o1)) (λ '(machine, _),
    o2 ← slice b 2 4;
    or_wrap "afp: version list: %w" (pascalList b (be_Z o2)) (λ versions,
    o3 ← slice b 4 6;
    or_wrap "afp: UAM list: %w" (pascalList b (be_Z o3)) (λ uams,
    mret (Ok (MkServerInfo name machine versions uams (be_Z flags))))))).

(** ** Totality *)

Lemma pascalString_total b off :
  ∃ r, pascalString b off = Ret r ∧ ∀ s next, r = Ok (s, next) → off < next ≤ len b.
Proof.
  unfold pascalString. case_bool_decide as H1; [by eexists|].
  destruct (index_ok b off) as (x&Ex&_); [lia|]. rewrite Ex. cbn.
  pose proof (bZ_range x). case_bool_decide as H3; [by eexists|].
  rewrite slice_ok by lia. cbn. eexists; split; [done|]. intros ?? [= <- <-]. lia.
Qed.

Lemma pascalList_loop_total b n i p items : ∃ r, pascalList_loop b n i p items = Ret r.
Proof.
  revert i p items. induction n as [|n IH]; intros i p items; [by eexists|]. cbn.
  destruct (pascalString_total b p) as ([[s next]|e]&->&_); cbn; [apply IH|by eexists].
Qed.

Lemma pascalList_total b off : ∃ r, pascalList b off = Ret r.
Proof.
  unfold pascalList. case_bool_decide; [by eexists|]. case_bool_decide; [by eexists|].
  destruct (index_ok b off) as (x&->&_); [lia|]. apply pascalList_loop_total.
Qed.

Lemma or_wrap_total {A B} format (m : outcome (result A)) (k : A → outcome (result B)) :
  (∃ r, m = Ret r) → (∀ a, ∃ r, k a = Ret r) → ∃ r, or_wrap format m k = Ret r.
Proof. intros [[a|e] ->] Hk; cbn; [apply Hk | by eexists]. Qed.

(** ** Reading what servers lay out *)

Definition pascal (s : bytes) : bytes := byte_of_Z (len s) :: s.
Definition pascals (l : list bytes) : bytes := byte_of_Z (len l) :: concat (pascal <$> l).

Definition pascal_ok (s : bytes) : Prop := len s ≤ 255.

Lemma pascalString_at pre s post off :
  pascal_ok s → off = len pre →
  pascalString (pre ++ pascal s ++ post) off = Ret (Ok (s, len (pre ++ pascal s))).
Proof.
  intros Hs ->. unfold pascal_ok in Hs. unfold pascal.
  pose proof (len_nonneg s). pose proof (len_nonneg pre). pose proof (len_nonneg post).
  unfold pascalString. cbn [app].
  rewrite bool_decide_eq_false_2 by (rewrite len_app, len_cons, len_app; lia).
  rewrite index_app_mid by done. cbn. rewrite bZ_byte_of_Z, Z.mod_small by lia.
  rewrite bool_decide_eq_false_2 by (rewrite len_app, len_cons, len_app; lia).
  rewrite slice_ok by (rewrite ?len_app, ?len_cons, ?len_app; lia). cbn.
  rewrite cons_middle, app_assoc.
  rewrite sub_app_mid by (rewrite ?len_app, ?len_cons, ?len_nil; lia).
  repeat f_equal. rewrite len_app, len_cons. lia.
Qed.

Lemma pascalList_loop_at l i pre post items p :
  Forall pascal_ok l → p = len pre →
  pascalList_loop (pre ++ concat (pascal <$> l) ++ post) (length l) i p items
  = Ret (Ok (items ++ l)).
Proof.
  intros Hl. revert i pre items p. induction Hl as [|s l Hs Hl IH]; intros i pre items p ->.
  - cbn. by rewrite app_nil_r.
  - rewrite fmap_cons. cbn [length pascalList_loop concat]. rewrite <- app_assoc.
    rewrite pascalString_at by done. cbn beta iota delta [mbind outcome_bind].
    rewrite app_assoc, IH by done.
    by rewrite <- app_assoc.
Qed.

Lemma pascalList_at pre l post off :
  Forall pascal_ok l → len l ≤ 255 → off = len pre → 0 < off →
  pascalList (pre ++ pascals l ++ post) off = Ret (Ok l).
Proof.
  intros Hl Hn -> Hp. unfold pascalList, pascals.
  pose proof (len_nonneg l). pose proof (len_nonneg post).
  rewrite bool_decide_eq_false_2 by lia. cbn [app].
  rewrite bool_decide_eq_false_2
    by (rewrite len_app, len_cons, len_app; pose proof (len_nonneg (concat (pascal <$> l))); lia).
  rewrite index_app_mid by done. cbn. rewrite bZ_byte_of_Z, Z.mod_small by lia.
  replace (Z.to_nat (len l)) with (length l) by (unfold len; lia).
  rewrite cons_middle, app_assoc.
  rewrite pascalList_loop_at; [done|done|]. rewrite len_app. done.
Qed.

(** The block of a server: the four offsets, the flags, the name, and then the
    machine type, the versions and the UAMs, each behind any gap. *)
Record info_layout : Type := {
  l_name : bytes; l_machine : bytes; l_versions : list bytes; l_uams : list bytes;
  l_flags : Z; l_icon : Z; l_gap1 : bytes; l_gap2 : bytes; l_gap3 : bytes; l_rest : bytes;
}.

Definition machine_off (x : info_layout) : Z := 10 + len (pascal (l_name x)) + len (l_gap1 x).
Definition versions_off (x : info_layout) : Z :=
  machine_off x + len (pascal (l_machine x)) + len (l_gap2 x).
Definition uams_off (x : info_layout) : Z :=
  versions_off x + len (pascals (l_versions x)) + len (l_gap3 x).

Definition info_block (x : info_layout) : bytes :=
  be_bytes 2 (machine_off x) ++ be_bytes 2 (versions_off x) ++ be_bytes 2 (uams_off x) ++
  be_bytes 2 (l_icon x) ++ be_bytes 2 (l_flags x) ++
  pascal (l_name x) ++ l_gap1 x ++ pascal (l_machine x) ++ l_gap2 x ++
  pascals (l_versions x) ++ l_gap3 x ++ pascals (l_uams x) ++ l_rest x.

Definition info_ok (x : info_layout) : Prop :=
  pascal_ok (l_name x) ∧ pascal_ok (l_machine x) ∧
  Forall pascal_ok (l_versions x) ∧ Forall pascal_ok (l_uams x) ∧
  len (l_versions x) ≤ 255 ∧ len (l_uams x) ≤ 255 ∧
  0 ≤ l_flags x < 2 ^ 16 ∧ uams_off x < 2 ^ 16.

Lemma info_offsets x :
  info_ok x →
  0 ≤ machine_off x < 2 ^ 16 ∧ 0 < versions_off x < 2 ^ 16 ∧ 0 < uams_off x < 2 ^ 16.
Proof.
  intros (?&?&?&?&?&?&?&Hu). unfold uams_off, versions_off, machine_off in *.
  pose proof (len_nonneg (pascal (l_name x))). pose proof (len_nonneg (l_gap1 x)).
  pose proof (len_nonneg (pascal (l_machine x))). pose proof (len_nonneg (l_gap2 x)).
  pose proof (len_nonneg (pascals (l_versions x))). pose proof (len_nonneg (l_gap3 x)). lia.
Qed.

(** The i-th of the five leading 16-bit fields. *)
Lemma info_field a b c d e rest (i : nat) :
  (i < 5)%nat →
  slice (be_bytes 2 a ++ be_bytes 2 b ++ be_bytes 2 c ++ be_bytes 2 d ++ be_bytes 2 e ++ rest)
    (2 * Z.of_nat i) (2 * Z.of_nat i + 2)
  = Ret (be_bytes 2 (nth i [a; b; c; d; e] 0)).
Proof.
  intros Hi. rewrite slice_ok; try lia.
  - do 5 (destruct i as [|i]; [done|]). lia.
  - rewrite !len_app, !len_be_bytes. pose proof (len_nonneg rest). lia.
Qed.

Lemma info_fields x : info_ok x →
  slice (info_block x) 0 2 = Ret (be_bytes 2 (machine_off x)) ∧
  slice (info_block x) 2 4 = Ret (be_bytes 2 (versions_off x)) ∧
  slice (info_block x) 4 6 = Ret (be_bytes 2 (uams_off x)) ∧
  slice (info_block x) 8 10 = Ret (be_bytes 2 (l_flags x)).
Proof.
  intros _. unfold info_block. split_and!.
  - apply (info_field _ _ _ _ _ _ 0). lia.
  - apply (info_field _ _ _ _ _ _ 1). lia.
  - apply (info_field _ _ _ _ _ _ 2). lia.
  - apply (info_field _ _ _ _ _ _ 4). lia.
Qed.

Lemma info_name x : info_ok x → ∃ n, pascalString (info_block x) 10 = Ret (Ok (l_name x, n)).
Proof.
  intros (?&_). eexists. unfold info_block. do 4 rewrite app_assoc.
  by rewrite pascalString_at by done.
Qed.

Lemma info_machine x :
  info_ok x → ∃ n, pascalString (info_block x) (machine_off x) = Ret (Ok (l_machine x, n)).
Proof.
  intros (?&?&_). eexists. unfold info_block. do 6 rewrite app_assoc.
  rewrite pascalString_at; [done|done|]. by rewrite !len_app, !len_be_bytes.
Qed.

Lemma info_versions x :
  info_ok x → pascalList (info_block x) (versions_off x) = Ret (Ok (l_versions x)).
Proof.
  intros Hok. pose proof (info_offsets _ Hok). destruct Hok as (?&?&?&?&?&?&?&?).
  unfold info_block. do 8 rewrite app_assoc.
  rewrite pascalList_at; [done|done|done| |lia].
  rewrite !len_app, !len_be_bytes. unfold versions_off, machine_off. lia.
Qed.

Lemma info_uams x :
  info_ok x → pascalList (info_block x) (uams_off x) = Ret (Ok (l_uams x)).
Proof.
  intros Hok. pose proof (info_offsets _ Hok). destruct Hok as (?&?&?&?&?&?&?&?).
  unfold info_block. do 10 rewrite app_assoc.
  rewrite pascalList_at; [done|done|done| |lia].
  rewrite !len_app, !len_be_bytes. unfold uams_off, versions_off, machine_off. lia.
Qed.

Lemma len_info_block x : 11 ≤ len (info_block x).
Proof.
  unfold info_block. rewrite !len_app, !len_be_bytes. unfold pascal at 1. rewrite len_cons.
  pose proof (len_nonneg (l_name x)). pose proof (len_nonneg (l_gap1 x)).
  pose proof (len_nonneg (pascal (l_machine x))). pose proof (len_nonneg (l_gap2 x)).
  pose proof (len_nonneg (pascals (l_versions x))). pose proof (len_nonneg (l_gap3 x)).
  pose proof (len_nonneg (pascals (l_uams x))). pose proof (len_nonneg (l_rest x)). lia.
Qed.

(** ** Properties *)

(** C22: parsing the block of a server, with its tables anywhere a 16-bit
    offset reaches, yields its name, machine type, version list, UAM list and
    flags. *)
Theorem ParseServerInfo_roundtrip x :
  info_ok x →
  ParseServerInfo (info_block x)
  = Ret (Ok (MkServerInfo (l_name x) (l_machine x) (l_versions x) (l_uams x) (l_flags x))).
Proof.
  intros Hok. pose proof (info_offsets _ Hok) as (?&?&?). pose proof (len_info_block x).
  destruct (info_fields _ Hok) as (E1&E2&E3&E4).
  destruct (info_name _ Hok) as [n1 En]. destruct (info_machine _ Hok) as [n2 Em].
  pose proof (info_versions _ Hok) as Ev. pose proof (info_uams _ Hok) as Eu.
  destruct Hok as (_&_&_&_&_&_&Hf&_).
  assert (∀ z, 0 ≤ z < 2 ^ 16 → be_Z (be_bytes 2 z) = z) as Hz by (intros; by apply be_Z_be_bytes).
  unfold ParseServerInfo, or_wrap. rewrite bool_decide_eq_false_2 by lia.
  rewrite E4. cbn. rewrite En. cbn. rewrite E1. cbn. rewrite (Hz (machine_off x)) by lia. rewrite Em. cbn.
  rewrite E2. cbn. rewrite (Hz (versions_off x)) by lia. rewrite Ev. cbn. rewrite E3. cbn.
  rewrite (Hz (uams_off x)) by lia. rewrite Eu. cbn. by rewrite Hz.
Qed.

Lemma ParseServerInfo_roundtrip_witness :
  ParseServerInfo (info_block (Build_info_layout (str "TimeCapsule") (str "Netatalk")
      [str "AFP3.3"; str "AFP3.4"] [str "No User Authent"; str "DHX2"] 0x220 0 [x00] [] [] [xff]))
  = Ret (Ok (MkServerInfo (str "TimeCapsule") (str "Netatalk")
      [str "AFP3.3"; str "AFP3.4"] [str "No User Authent"; str "DHX2"] 0x220)).
Proof.
  apply (ParseServerInfo_roundtrip (Build_info_layout (str "TimeCapsule") (str "Netatalk")
      [str "AFP3.3"; str "AFP3.4"] [str "No User Authent"; str "DHX2"] 0x220 0 [x00] [] [] [xff])).
  repeat split; try (vm_compute; congruence); repeat constructor; vm_compute; congruence.
Defined.

(** A malformed block yields an error, never a panic. *)
Lemma ParseServerInfo_total b : ∃ r, ParseServerInfo b = Ret r.
Proof.
  unfold ParseServerInfo. case_bool_decide; [by eexists|].
  assert (∀ o, ∃ r, pascalString b o = Ret r) as Hs
    by (intros o; destruct (pascalString_total b o) as (r&?&_); eauto).
  rewrite (slice_ok b 8 10) by lia. cbn. apply or_wrap_total; [done|]. intros [name ?].
  rewrite (slice_ok b 0 2) by lia. cbn. apply or_wrap_total; [done|]. intros [machine ?].
  rewrite (slice_ok b 2 4) by lia. cbn. apply or_wrap_total; [apply pascalList_total|]. intros versions.
  rewrite (slice_ok b 4 6) by lia. cbn. apply or_wrap_total; [apply pascalList_total|]. intros uams.
  by eexists.
Qed.
