(* ===== verification/Conn.v ===== *)
(** * The multiplexed DSI connection (src/internal/dsi/conn.go)

    [Conn] is the state that the mutex of a connection guards, with one
    definition per method.  [Sys] is the running program around it: the
    goroutines inside [request], their reply channels, the read loop and the
    two directions of the network connection.  An [action] is one atomic step
    of one of them (a critical section, a channel operation, a socket
    operation, or something the peer or the caller's context does); [exec]
    runs it, and is [None] where the goroutine cannot take that step. *)

From S2P Require Import Prelude Header.

Open Scope go_scope.

Definition maxPayload : Z := Z.shiftl 16 20.
Definition attentionQuantum : Z := 1024.
Definition optServerQuantum : Z := 0x00.
Definition optAttentionQuantum : Z := 0x01.

Record Reply : Type := MkReply {
  rp_Header : Header;
  rp_Payload : bytes;
}.

(** ** The guarded state

    A reply channel is named by a number; [pending] maps the request ids in
    flight to the channels their replies go to. *)

Record Conn : Type := MkConn {
  nextID : Z;             (* uint16 *)
  pending : gmap Z nat;   (* map[uint16]chan Reply *)
  closeErr : option error;
  done : bool;            (* the channel [done] is closed *)
  ServerQuantum : Z;      (* uint32 *)
}.

Definition NewConn : Conn := MkConn 0 ∅ None false 0.

Definition set_nextID (id : Z) (c : Conn) : Conn :=
  MkConn id (pending c) (closeErr c) (done c) (ServerQuantum c).
Definition set_pending (p : gmap Z nat) (c : Conn) : Conn :=
  MkConn (nextID c) p (closeErr c) (done c) (ServerQuantum c).
Definition set_ServerQuantum (q : Z) (c : Conn) : Conn :=
  MkConn (nextID c) (pending c) (closeErr c) (done c) q.

(** The loop of [register]: the next id that is not pending, at most [fuel]
    increments away.  [None] is a loop that has not ended. *)
Fixpoint free_id (fuel : nat) (p : gmap Z nat) (id : Z) : option Z :=
  match fuel with
  | O => None
  | S fuel' =>
    let id := u16 (id + 1) in
    match p !! id with
    | None => Some id
    | Some _ => free_id fuel' p id
    end
  end.

(** All 2^16 ids: after that many increments the loop repeats itself. *)
Definition id_fuel : nat := Z.to_nat (2 ^ 16).

Definition register (ch : nat) : M Conn (result Z) :=
  c ← get;
  match closeErr c with
  | Some e => mret (Err e)
  | None =>
    match free_id id_fuel (pending c) (nextID c) with
    | None => no_fuel
    | Some id =>
      _ ← put (set_pending (<[id := ch]> (pending c)) (set_nextID id c));
      mret (Ok id)
    end
  end.

Definition unregister (id : Z) (c : Conn) : Conn := set_pending (delete id (pending c)) c.

Definition newID : M Conn Z :=
  c ← get;
  let id := u16 (nextID c + 1) in
  _ ← put (set_nextID id c);
  mret id.

Definition IsAlive (c : Conn) : bool := bool_decide (closeErr c = None).

(** [fail] marks the connection dead and closes [done]; closing a closed
    channel panics. *)
Definition fail (e : error) : M Conn unit :=
  c ← get;
  match closeErr c with
  | Some _ => mret tt
  | None =>
    if done c then lift Panics
    else put (MkConn (nextID c) (pending c) (Some e) true (ServerQuantum c))
  end.

(** ** Frames *)

(** The buffer that [send] writes. *)
Definition frame (h : Header) (payload : bytes) : bytes := encode h ++ payload.

(** The request header of [request]. *)
Definition request_header (cmd id errOrOffset : Z) (payload : bytes) : Header :=
  MkHeader flagRequest cmd id errOrOffset (u32 (len payload)) 0.

(** The header of a tickle or of [Close]'s DSICloseSession. *)
Definition bare_header (cmd id : Z) : Header := MkHeader flagRequest cmd id 0 0 0.

(** What the two [io.ReadFull] calls of the read loop get from the bytes that
    have arrived: not enough, a header that claims too much, or a frame. *)
Inductive incoming : Type :=
| Short
| TooLong (h : Header)
| Frame (h : Header) (payload rest : bytes).

Definition read_frame (b : bytes) : incoming :=
  if bool_decide (len b < HeaderSize) then Short
  else
    let h := decodeHeader (take 16 b) in
    if bool_decide (maxPayload < Length h) then TooLong h
    else if bool_decide (len b < HeaderSize + Length h) then Short
    else Frame h (sub b HeaderSize (HeaderSize + Length h)) (drop (Z.to_nat (HeaderSize + Length h)) b).

(** ** Goroutines *)

(** Where a goroutine inside [request] is. *)
Inductive caller : Type :=
| PSend (id : Z) (h : Header) (payload : bytes)  (* registered, before [send] *)
| PWait (id : Z)                                 (* in the select *)
| PRet (id : Z) (r : result Reply)               (* returning, [unregister] deferred *)
| PDone (id : Z) (r : result Reply)              (* returned *)
| PRefused (e : error).                          (* [register] failed *)

(** Where the read loop is: before a frame, at [ch <- reply], or gone. *)
Inductive loop : Type :=
| LRead
| LDeliver (ch : nat) (r : Reply)
| LExit.

(** The channel of goroutine [k] is channel [k].  [s_frames], [s_input] and
    [s_sent] are history: the frames the loop has read, all bytes that have
    arrived, and the frames that [send] has written. *)
Record Sys : Type := MkSys {
  s_conn : Conn;
  s_callers : gmap nat caller;
  s_chans : gmap nat (list Reply);
  s_loop : loop;
  s_in : bytes;
  s_out : bytes;
  s_wfail : bool;      (* a write has failed *)
  s_ncClosed : bool;   (* nc.Close has been called *)
  s_panic : bool;      (* a goroutine has panicked *)
  s_frames : list (Header * bytes);
  s_input : bytes;
  s_sent : list (Header * bytes);
  s_tickles : nat;     (* running [tickleLoop]s *)
}.

Definition init_sys : Sys :=
  MkSys NewConn ∅ ∅ LRead [] [] false false false [] [] [] 0.

(** Assignments to parts of the system state. *)
Definition set_conn v s := MkSys v (s_callers s) (s_chans s) (s_loop s) (s_in s) (s_out s)
  (s_wfail s) (s_ncClosed s) (s_panic s) (s_frames s) (s_input s) (s_sent s) (s_tickles s).
Definition set_caller k v s := MkSys (s_conn s) (<[k := v]> (s_callers s)) (s_chans s) (s_loop s)
  (s_in s) (s_out s) (s_wfail s) (s_ncClosed s) (s_panic s) (s_frames s) (s_input s) (s_sent s) (s_tickles s).
Definition set_chan k v s := MkSys (s_conn s) (s_callers s) (<[k := v]> (s_chans s)) (s_loop s)
  (s_in s) (s_out s) (s_wfail s) (s_ncClosed s) (s_panic s) (s_frames s) (s_input s) (s_sent s) (s_tickles s).
Definition set_loop v s := MkSys (s_conn s) (s_callers s) (s_chans s) v (s_in s) (s_out s)
  (s_wfail s) (s_ncClosed s) (s_panic s) (s_frames s) (s_input s) (s_sent s) (s_tickles s).
Definition arrive b s := MkSys (s_conn s) (s_callers s) (s_chans s) (s_loop s) (s_in s ++ b)
  (s_out s) (s_wfail s) (s_ncClosed s) (s_panic s) (s_frames s) (s_input s ++ b) (s_sent s) (s_tickles s).
Definition consume f rest s := MkSys (s_conn s) (s_callers s) (s_chans s) (s_loop s) rest (s_out s)
  (s_wfail s) (s_ncClosed s) (s_panic s) (s_frames s ++ [f]) (s_input s) (s_sent s) (s_tickles s).
Definition close_nc s := MkSys (s_conn s) (s_callers s) (s_chans s) (s_loop s) (s_in s) (s_out s)
  (s_wfail s) true (s_panic s) (s_frames s) (s_input s) (s_sent s) (s_tickles s).
Definition set_tickles n s := MkSys (s_conn s) (s_callers s) (s_chans s) (s_loop s) (s_in s) (s_out s)
  (s_wfail s) (s_ncClosed s) (s_panic s) (s_frames s) (s_input s) (s_sent s) n.
Definition panic s := MkSys (s_conn s) (s_callers s) (s_chans s) (s_loop s) (s_in s) (s_out s)
  (s_wfail s) (s_ncClosed s) true (s_frames s) (s_input s) (s_sent s) (s_tickles s).

(** [send]: the whole frame is written under [writeMu], or the write fails
    after a part of it. *)
Definition send_ok (h : Header) (payload : bytes) s := MkSys (s_conn s) (s_callers s) (s_chans s)
  (s_loop s) (s_in s) (s_out s ++ frame h payload) (s_wfail s) (s_ncClosed s) (s_panic s)
  (s_frames s) (s_input s) (s_sent s ++ [(h, payload)]) (s_tickles s).
Definition send_err (h : Header) (payload : bytes) (n : nat) s := MkSys (s_conn s) (s_callers s)
  (s_chans s) (s_loop s) (s_in s) (s_out s ++ take n (frame h payload)) true (s_ncClosed s)
  (s_panic s) (s_frames s) (s_input s) (s_sent s) (s_tickles s).

(** [fail] inside the system. *)
Definition sys_fail (e : error) (s : Sys) : Sys :=
  match fail e (s_conn s) with
  | Ret (_, c) => set_conn c s
  | _ => panic s
  end.

Definition sys_newID (s : Sys) : Z * Sys :=
  match newID (s_conn s) with
  | Ret (id, c) => (id, set_conn c s)
  | _ => (0, panic s)
  end.

Inductive action : Type :=
| ACall (k : nat) (cmd errOrOffset : Z) (payload : bytes)  (* enter [request]: make the channel, register *)
| ASend (k : nat)                          (* [send] succeeds *)
| ASendErr (k : nat) (e : error) (n : nat) (* [send] fails after [n] bytes *)
| ARecv (k : nat)                          (* select: a reply *)
| ADone (k : nat)                          (* select: [done] is closed *)
| ACtx (k : nat) (e : error)               (* select: the context is done *)
| AUnreg (k : nat)                         (* the deferred [unregister] *)
| ANet (b : bytes)                         (* bytes arrive from the server *)
| AFrame                                   (* the read loop reads a frame and dispatches it *)
| ADeliver                                 (* the read loop's channel send completes *)
| AReadErr (e : error)                     (* a read fails *)
| ATickleStart                             (* [OpenSession] starts a [tickleLoop] *)
| ATickle (ok : bool)                      (* its ticker fires; the send works or not *)
| ATickleStop                              (* it sees that [done] is closed *)
| AClose (ok : bool).                      (* [Close]; its best-effort send works or not *)

Definition zeroReply : Reply := MkReply (MkHeader 0 0 0 0 0 0) [].

(** The read loop's [switch] once a frame is complete. *)
Definition dispatch (h : Header) (payload : bytes) (s : Sys) : Sys :=
  if bool_decide (Flags h = flagReply) then
    match pending (s_conn s) !! RequestID h with
    | Some ch => set_loop (LDeliver ch (MkReply h payload)) s
    | None => s
    end
  else if bool_decide (Command h = CmdCloseSession) then
    set_loop LExit (close_nc (sys_fail (EErrorf "dsi: server closed the session" []) s))
  else s.

Definition exec (a : action) (s : Sys) : option Sys :=
  match a with
  | ACall k cmd off payload =>
    match s_callers s !! k with
    | Some _ => None
    | None =>
      match register k (s_conn s) with
      | Ret (Ok id, c) =>
        Some (set_caller k (PSend id (request_header cmd id off payload) payload)
                (set_chan k [] (set_conn c s)))
      | Ret (Err e, _) => Some (set_caller k (PRefused e) (set_chan k [] s))
      | _ => None
      end
    end
  | ASend k =>
    match s_callers s !! k with
    | Some (PSend id h payload) => Some (set_caller k (PWait id) (send_ok h payload s))
    | _ => None
    end
  | ASendErr k e n =>
    match s_callers s !! k with
    | Some (PSend id h payload) => Some (set_caller k (PRet id (Err e)) (send_err h payload n s))
    | _ => None
    end
  | ARecv k =>
    match s_callers s !! k, s_chans s !! k with
    | Some (PWait id), Some (r :: rest) => Some (set_caller k (PRet id (Ok r)) (set_chan k rest s))
    | _, _ => None
    end
  | ADone k =>
    match s_callers s !! k with
    | Some (PWait id) =>
      if done (s_conn s) then
        let r := match closeErr (s_conn s) with Some e => Err e | None => Ok zeroReply end in
        Some (set_caller k (PRet id r) s)
      else None
    | _ => None
    end
  | ACtx k e =>
    match s_callers s !! k with
    | Some (PWait id) => Some (set_caller k (PRet id (Err e)) s)
    | _ => None
    end
  | AUnreg k =>
    match s_callers s !! k with
    | Some (PRet id r) => Some (set_caller k (PDone id r) (set_conn (unregister id (s_conn s)) s))
    | _ => None
    end
  | ANet b => Some (arrive b s)
  | AFrame =>
    match s_loop s, read_frame (s_in s) with
    | LRead, TooLong h =>
      Some (set_loop LExit (close_nc
        (sys_fail (EErrorf "dsi: server claims %d byte payload" [FZ (Length h)]) s)))
    | LRead, Frame h payload rest => Some (dispatch h payload (consume (h, payload) rest s))
    | _, _ => None
    end
  | ADeliver =>
    match s_loop s with
    | LDeliver ch r =>
      match s_chans s !! ch with
      | Some [] => Some (set_loop LRead (set_chan ch [r] s))
      | _ => None
      end
    | _ => None
    end
  | AReadErr e =>
    match s_loop s with
    | LRead => Some (set_loop LExit (sys_fail e s))
    | _ => None
    end
  | ATickleStart => Some (set_tickles (S (s_tickles s)) s)
  | ATickle ok =>
    match s_tickles s with
    | O => None
    | S n =>
      let '(id, s) := sys_newID s in
      let h := bare_header CmdTickle id in
      Some (if ok then send_ok h [] s else set_tickles n (send_err h [] 0 s))
    end
  | ATickleStop =>
    match s_tickles s with
    | O => None
    | S n => if done (s_conn s) then Some (set_tickles n s) else None
    end
  | AClose ok =>
    let '(id, s) := sys_newID s in
    let h := bare_header CmdCloseSession id in
    let s := if ok then send_ok h [] s else send_err h [] 0 s in
    Some (sys_fail ENetClosed (close_nc s))
  end.

(** The step relation, and the states that a connection can reach. *)
Definition step (s s' : Sys) : Prop := ∃ a, exec a s = Some s'.
Definition reachable (s : Sys) : Prop := rtc step init_sys s.

(** Runs a sequence of actions. *)
Fixpoint run (l : list action) (s : Sys) : option Sys :=
  match l with
  | [] => Some s
  | a :: l' => s' ← exec a s; run l' s'
  end.

Lemma run_rtc l s s' : run l s = Some s' → rtc step s s'.
Proof.
  revert s. induction l as [|a l IH]; simpl; intros s H; [by simplify_eq|].
  apply bind_Some in H as (s1&Ha&Hl). eapply rtc_l; [by exists a|]. by apply IH.
Qed.

(** ** DSIOpenSession *)

(** The request payload. *)
Definition open_session_payload : bytes :=
  [byte_of_Z optAttentionQuantum; byte_of_Z 4] ++ be_bytes 4 attentionQuantum.

(** The loop over the reply's options: the remaining position [i] and the
    quantum so far; the result is the error and the quantum at the end. *)
Fixpoint parse_options (fuel : nat) (p : bytes) (i q : Z) : outcome (result unit * Z) :=
  match fuel with
  | O => NoFuel
  | S fuel' =>
    if bool_decide (i + 2 ≤ len p) then
      typ ← index p i;
      n ← index p (i + 1);
      let n := bZ n in
      let i := i + 2 in
      if bool_decide (len p < i + n) then
        mret (Err (EErrorf "dsi: malformed OpenSession option %#x" [FZ (bZ typ)]), q)
      else
        q ← (if bool_decide (bZ typ = optServerQuantum ∧ n = 4)
             then v ← slice p i (i + 4); mret (be_Z v)
             else mret q);
        parse_options fuel' p (i + n) q
    else mret (Ok tt, q)
  end.

(** What [OpenSession] does with the reply. *)
Definition open_session_reply (r : Reply) : M Conn (result unit) :=
  c ← get;
  '(res, q) ← lift (parse_options (S (length (rp_Payload r))) (rp_Payload r) 0 (ServerQuantum c));
  _ ← put (set_ServerQuantum q c);
  mret res.
