(* ===== verification/ConnSafety.v ===== *)
(** * Safety of the multiplexed connection

    Invariants of every reachable state of the connection machine of [Conn],
    by induction on its steps, and the theorems about request ids, reply
    routing, framing and shutdown that follow from them. *)

From S2P Require Import Prelude Header Conn.

Open Scope go_scope.
#[local] Set Warnings "-clear-no-such-hyp".

(** ** The id search *)

Lemma free_id_Some fuel p id id' :
  free_id fuel p id = Some id' → p !! id' = None ∧ 0 ≤ id' < 2 ^ 16.
Proof.
  revert id. induction fuel as [|fuel IH]; intros id; [done|]. cbn.
  destruct (p !! u16 (id + 1)) eqn:E; [apply IH|]. intros [= <-].
  split; [done|]. by apply wrap_range.
Qed.

Lemma free_id_None fuel p id :
  free_id fuel p id = None →
  ∀ i, 0 < i ≤ Z.of_nat fuel → is_Some (p !! u16 (id + i)).
Proof.
  revert id. induction fuel as [|fuel IH]; intros id; [lia|]. cbn.
  destruct (p !! u16 (id + 1)) eqn:E; [|done]. intros Hn i Hi.
  destruct (decide (i = 1)) as [->|Hi1]; [by rewrite E|].
  specialize (IH _ Hn (i - 1) ltac:(lia)). unfold wrap in *.
  rewrite Zplus_mod_idemp_l in IH. by replace (id + 1 + (i - 1)) with (id + i) in IH by lia.
Qed.

(** After a full turn every id has been tried. *)
Lemma free_id_None_all p id :
  free_id id_fuel p id = None → ∀ x, 0 ≤ x < 2 ^ 16 → is_Some (p !! x).
Proof.
  intros Hn x Hx. pose proof (Z.mod_pos_bound (x - id - 1) (2 ^ 16) ltac:(lia)) as Hi.
  specialize (free_id_None _ _ _ Hn ((x - id - 1) mod 2 ^ 16 + 1)) as H.
  replace (u16 (id + ((x - id - 1) mod 2 ^ 16 + 1))) with x in H.
  - apply H. unfold id_fuel. rewrite Z2Nat.id by lia. lia.
  - unfold wrap. replace (id + ((x - id - 1) mod 2 ^ 16 + 1)) with ((x - id - 1) mod 2 ^ 16 + (id + 1)) by lia.
    rewrite Zplus_mod_idemp_l. replace (x - id - 1 + (id + 1)) with x by lia.
    by rewrite Z.mod_small.
Qed.

Lemma free_id_full fuel p id :
  (∀ x, 0 ≤ x < 2 ^ 16 → is_Some (p !! x)) → free_id fuel p id = None.
Proof.
  intros Hf. revert id. induction fuel as [|fuel IH]; intros id; [done|]. cbn.
  destruct (Hf (u16 (id + 1))) as [ch ->]; [by apply wrap_range|]. apply IH.
Qed.

(** The ids of fewer than 2^16 requests leave one free. *)
Lemma free_id_size p id :
  (size p < id_fuel)%nat → ∃ id', free_id id_fuel p id = Some id'.
Proof.
  intros Hs. destruct (free_id id_fuel p id) as [id'|] eqn:E; [by eexists|].
  pose proof (free_id_None_all _ _ E) as Hall. exfalso.
  assert (list_to_set (seqZ 0 (2 ^ 16)) ⊆ dom p) as Hsub.
  { intros x Hx. apply elem_of_list_to_set, elem_of_seqZ in Hx.
    apply elem_of_dom, Hall. lia. }
  apply subseteq_size in Hsub. rewrite size_dom in Hsub.
  rewrite size_list_to_set in Hsub by apply NoDup_seqZ.
  rewrite length_seqZ in Hsub. unfold id_fuel in Hs. lia.
Qed.

Lemma register_Ok ch c id c' :
  register ch c = Ret (Ok id, c') →
  closeErr c = None ∧ pending c !! id = None ∧ 0 ≤ id < 2 ^ 16 ∧
  c' = set_pending (<[id := ch]> (pending c)) (set_nextID id c).
Proof.
  unfold register, mbind, M_bind, get. destruct (closeErr c) eqn:Ec; [done|].
  destruct (free_id _ _ _) as [id0|] eqn:Ef; [|done]. cbn. intros [= <- <-].
  apply free_id_Some in Ef as [??]. done.
Qed.

(** ** Life and death *)

Record alive_inv (s : Sys) : Prop := {
  ai_done : done (s_conn s) = true ↔ is_Some (closeErr (s_conn s));
  ai_next : 0 ≤ nextID (s_conn s) < 2 ^ 16;
  ai_panic : s_panic s = false;
}.

(** What [fail] does to a connection in a consistent state. *)
Lemma fail_spec e c :
  (done c = true ↔ is_Some (closeErr c)) →
  ∃ c', fail e c = Ret (tt, c') ∧ done c' = true ∧ is_Some (closeErr c') ∧
    (closeErr c = None → closeErr c' = Some e) ∧
    (is_Some (closeErr c) → closeErr c' = closeErr c) ∧
    pending c' = pending c ∧ nextID c' = nextID c ∧ ServerQuantum c' = ServerQuantum c.
Proof.
  intros H. unfold fail, mbind, M_bind, get. destruct (closeErr c) as [e0|] eqn:Ec.
  - exists c. rewrite Ec. split_and!; try done. apply H. by eexists.
  - destruct (done c) eqn:Ed; [by destruct (proj1 H eq_refl)|].
    eexists. split; [done|]. cbn. by split_and!.
Qed.

Lemma sys_fail_spec e s :
  (done (s_conn s) = true ↔ is_Some (closeErr (s_conn s))) →
  ∃ c', sys_fail e s = set_conn c' s ∧ done c' = true ∧ is_Some (closeErr c') ∧
    (closeErr (s_conn s) = None → closeErr c' = Some e) ∧
    (is_Some (closeErr (s_conn s)) → closeErr c' = closeErr (s_conn s)) ∧
    pending c' = pending (s_conn s) ∧ nextID c' = nextID (s_conn s).
Proof.
  intros H. destruct (fail_spec e _ H) as (c'&E&?&?&?&?&?&?&?).
  exists c'. unfold sys_fail. rewrite E. by split_and!.
Qed.

Lemma sys_newID_eq s :
  sys_newID s = (u16 (nextID (s_conn s) + 1), set_conn (set_nextID (u16 (nextID (s_conn s) + 1)) (s_conn s)) s).
Proof. done. Qed.

(** Case analysis of a step: one goal for every way an action can succeed. *)
Ltac exec_cases H :=
  match type of H with
  | exec ?a _ = Some _ => destruct a; cbn [exec] in H
  end;
  unfold dispatch in H; rewrite ?sys_newID_eq in H;
  repeat case_match; simplify_eq; try discriminate;
  repeat match goal with
    | H : register _ _ = Ret (Ok _, _) |- _ => apply register_Ok in H as (?&?&?&->)
    | H : bool_decide _ = true |- _ => apply bool_decide_eq_true in H
    | H : bool_decide _ = false |- _ => apply bool_decide_eq_false in H
  end.

(** Replaces a call of [sys_fail] in the goal by what it does. *)
Ltac fail_cases :=
  match goal with
  | |- context [sys_fail ?e ?s0] =>
    let c := fresh "c'" in
    destruct (sys_fail_spec e s0) as (c&->&?&?&?&?&?&?); [done|]
  end.

Lemma alive_inv_step a s s' : alive_inv s → exec a s = Some s' → alive_inv s'.
Proof.
  intros [Hd Hn Hp] H. exec_cases H; try fail_cases; split; cbn in *; try done;
    repeat match goal with E : nextID _ = _ |- _ => rewrite E end;
    first [done | by apply wrap_range | congruence].
Qed.

(** ** Request ids *)

(** The id under which a goroutine is registered. *)
Definition holds (p : caller) : option Z :=
  match p with
  | PSend id _ _ | PWait id | PRet id _ => Some id
  | PDone _ _ | PRefused _ => None
  end.

(** The pending table is exactly the registered goroutines. *)
Definition pend_ok (pd : gmap Z nat) (cs : gmap nat caller) : Prop :=
  (∀ id k, pd !! id = Some k ↔ ∃ p, cs !! k = Some p ∧ holds p = Some id) ∧
  (∀ id k, pd !! id = Some k → 0 ≤ id < 2 ^ 16).

Definition pend_inv (s : Sys) : Prop := pend_ok (pending (s_conn s)) (s_callers s).

Lemma pend_ok_same pd cs k p p' :
  pend_ok pd cs → cs !! k = Some p → holds p' = holds p → pend_ok pd (<[k := p']> cs).
Proof.
  intros [H1 H2] Hk Hh. split; [|done]. intros id k'. rewrite H1.
  destruct (decide (k = k')) as [->|Hne].
  - rewrite lookup_insert_eq. naive_solver congruence.
  - by rewrite lookup_insert_ne.
Qed.

Lemma pend_ok_refused pd cs k p :
  pend_ok pd cs → cs !! k = None → holds p = None → pend_ok pd (<[k := p]> cs).
Proof.
  intros [H1 H2] Hk Hh. split; [|done]. intros id k'. rewrite H1.
  destruct (decide (k = k')) as [->|Hne].
  - rewrite lookup_insert_eq. naive_solver congruence.
  - by rewrite lookup_insert_ne.
Qed.

Lemma pend_ok_new pd cs k p id :
  pend_ok pd cs → cs !! k = None → pd !! id = None → 0 ≤ id < 2 ^ 16 → holds p = Some id →
  pend_ok (<[id := k]> pd) (<[k := p]> cs).
Proof.
  intros [H1 H2] Hk Hid Hr Hh. split; intros id' k'.
  - destruct (decide (id = id')) as [->|Hi], (decide (k = k')) as [->|Hk'].
    + rewrite !lookup_insert_eq. naive_solver.
    + rewrite lookup_insert_eq, lookup_insert_ne by done.
      split; [congruence|]. intros (p'&?&?). by rewrite (proj2 (H1 id' k')) in Hid by eauto.
    + rewrite lookup_insert_ne, lookup_insert_eq by done. rewrite H1. naive_solver congruence.
    + rewrite !lookup_insert_ne by done. apply H1.
  - destruct (decide (id = id')) as [->|Hi]; [done|]. rewrite lookup_insert_ne by done. apply H2.
Qed.

Lemma pend_ok_release pd cs k p p' id :
  pend_ok pd cs → cs !! k = Some p → holds p = Some id → holds p' = None →
  pend_ok (delete id pd) (<[k := p']> cs).
Proof.
  intros [H1 H2] Hk Hh Hh'. assert (pd !! id = Some k) as Hp by (apply H1; eauto).
  split; intros id' k'.
  - destruct (decide (id = id')) as [->|Hi], (decide (k = k')) as [->|Hk'].
    + rewrite lookup_delete_eq, lookup_insert_eq. naive_solver congruence.
    + rewrite lookup_delete_eq, lookup_insert_ne by done. split; [done|].
      intros (q&?&?). assert (pd !! id' = Some k') by (apply H1; eauto). congruence.
    + rewrite lookup_delete_ne, lookup_insert_eq by done. rewrite H1. naive_solver congruence.
    + rewrite lookup_delete_ne, lookup_insert_ne by done. apply H1.
  - intros [_ Hl]%lookup_delete_Some. by eapply H2.
Qed.

Create HintDb pend.
#[export] Hint Resolve pend_ok_same pend_ok_refused pend_ok_new pend_ok_release : pend.

Lemma pend_inv_step a s s' : alive_inv s → pend_inv s → exec a s = Some s' → pend_inv s'.
Proof.
  intros [Hd _ _] Hp H. unfold pend_inv in *.
  exec_cases H; try fail_cases; cbn in *;
    repeat match goal with E : pending _ = _ |- _ => rewrite E end;
    first [done | by eauto 2 with pend | eapply pend_ok_release; eauto].
Qed.

(** ** Reply routing *)

(** The id that a goroutine was given, also after it has returned. *)
Definition ident (p : caller) : option Z :=
  match p with
  | PSend id _ _ | PWait id | PRet id _ | PDone id _ => Some id
  | PRefused _ => None
  end.

(** The reply a goroutine has taken. *)
Definition taken (p : caller) : option Reply :=
  match p with
  | PRet _ (Ok r) | PDone _ (Ok r) => Some r
  | _ => None
  end.

(** [r] is a reply the server has sent to the request with id [id]. *)
Definition answers (fs : list (Header * bytes)) (id : Z) (r : Reply) : Prop :=
  Flags (rp_Header r) = flagReply ∧ RequestID (rp_Header r) = id ∧
  (rp_Header r, rp_Payload r) ∈ fs.

Definition routed (cs : gmap nat caller) (fs : list (Header * bytes)) (k : nat) (r : Reply) : Prop :=
  ∃ p id, cs !! k = Some p ∧ ident p = Some id ∧ answers fs id r.

(** Everything in a channel, on its way into one, or taken from one answers
    the request of the goroutine it belongs to. *)
Record route_inv (s : Sys) : Prop := {
  ri_chan : ∀ k l r, s_chans s !! k = Some l → r ∈ l → routed (s_callers s) (s_frames s) k r;
  ri_loop : ∀ k r, s_loop s = LDeliver k r → routed (s_callers s) (s_frames s) k r;
  ri_taken : ∀ k p r, s_callers s !! k = Some p → taken p = Some r →
    routed (s_callers s) (s_frames s) k r;
}.

Lemma routed_update cs fs k0 p0 p' k r :
  cs !! k0 = Some p0 → ident p' = ident p0 → routed cs fs k r → routed (<[k0 := p']> cs) fs k r.
Proof.
  intros H0 Hi (p&id&Hk&Hp&Ha). destruct (decide (k0 = k)) as [->|Hne].
  - exists p', id. rewrite lookup_insert_eq. split_and!; try done. congruence.
  - exists p, id. by rewrite lookup_insert_ne.
Qed.

Lemma routed_new cs fs k0 p' k r :
  cs !! k0 = None → routed cs fs k r → routed (<[k0 := p']> cs) fs k r.
Proof.
  intros H0 (p&id&Hk&Hp&Ha). exists p, id. rewrite lookup_insert_ne by congruence. done.
Qed.

Lemma routed_frames cs fs f k r : routed cs fs k r → routed cs (fs ++ [f]) k r.
Proof.
  intros (p&id&?&?&?&?&?). exists p, id. unfold answers. set_solver.
Qed.

Create HintDb route.
#[export] Hint Resolve routed_update routed_new routed_frames : route.

(** A goroutine moves on: it keeps its id, and a reply it takes is its own. *)
Lemma route_inv_caller s s' k p p' :
  route_inv s → s_callers s !! k = Some p →
  s_callers s' = <[k := p']> (s_callers s) → ident p' = ident p → s_frames s' = s_frames s → s_loop s' = s_loop s →
  (∀ k l r, s_chans s' !! k = Some l → r ∈ l → ∃ l', s_chans s !! k = Some l' ∧ r ∈ l') →
  (∀ r, taken p' = Some r → routed (s_callers s) (s_frames s) k r) →
  route_inv s'.
Proof.
  intros [R1 R2 R3] Hk Ec Hi Ef El Hch Ht. split; rewrite ?Ec, ?Ef, ?El.
  - intros k' l r Hl Hr. destruct (Hch _ _ _ Hl Hr) as (l'&?&?). eauto with route.
  - eauto with route.
  - intros k' q r. destruct (decide (k = k')) as [->|Hne].
    + rewrite lookup_insert_eq. intros [= <-] Hq. eauto with route.
    + rewrite lookup_insert_ne by done. eauto with route.
Qed.

(** Nothing about goroutines, channels or the loop changes. *)
Lemma route_inv_same s s' :
  route_inv s → s_callers s' = s_callers s → s_chans s' = s_chans s →
  s_frames s' = s_frames s → (∀ k r, s_loop s' = LDeliver k r → s_loop s = LDeliver k r) →
  route_inv s'.
Proof. intros [R1 R2 R3] Ec Eh Ef El. split; rewrite ?Ec, ?Eh, ?Ef; eauto. Qed.

(** A new goroutine with an empty channel. *)
Lemma route_inv_new s s' k p :
  route_inv s → s_callers s !! k = None →
  s_callers s' = <[k := p]> (s_callers s) → taken p = None → s_chans s' = <[k := []]> (s_chans s) →
  s_frames s' = s_frames s → s_loop s' = s_loop s → route_inv s'.
Proof.
  intros [R1 R2 R3] Hk Ec Ht Eh Ef El. split; rewrite ?Ec, ?Eh, ?Ef, ?El.
  - intros k' l r. destruct (decide (k = k')) as [->|Hne].
    + rewrite lookup_insert_eq. intros [= <-]. set_solver.
    + rewrite lookup_insert_ne by done. eauto with route.
  - eauto with route.
  - intros k' q r. destruct (decide (k = k')) as [->|Hne].
    + rewrite lookup_insert_eq. congruence.
    + rewrite lookup_insert_ne by done. eauto with route.
Qed.

Lemma route_inv_consume s f rest : route_inv s → route_inv (consume f rest s).
Proof. intros [R1 R2 R3]. split; cbn; eauto with route. Qed.

(** The loop picks the goroutine that is registered under the reply's id. *)
Lemma route_inv_dispatch s h payload ch :
  pend_inv s → route_inv s → (h, payload) ∈ s_frames s → Flags h = flagReply →
  pending (s_conn s) !! RequestID h = Some ch →
  route_inv (set_loop (LDeliver ch (MkReply h payload)) s).
Proof.
  intros [Hp _] [R1 R2 R3] Hf Hfl Hpd. split; cbn; eauto.
  intros k r [= <- <-]. apply Hp in Hpd as (p&Hk&Hh).
  exists p, (RequestID h). split_and!; [done| |done]. by destruct p.
Qed.

Lemma route_inv_deliver s ch r :
  route_inv s → s_loop s = LDeliver ch r → route_inv (set_loop LRead (set_chan ch [r] s)).
Proof.
  intros [R1 R2 R3] El. split; cbn; [|done|eauto]. intros k l r'.
  destruct (decide (ch = k)) as [->|Hne].
  - rewrite lookup_insert_eq. intros [= <-] ->%list_elem_of_singleton. by apply R2.
  - rewrite lookup_insert_ne by done. eauto.
Qed.

Lemma route_inv_recv s k id r rest :
  route_inv s → s_callers s !! k = Some (PWait id) → s_chans s !! k = Some (r :: rest) →
  route_inv (set_caller k (PRet id (Ok r)) (set_chan k rest s)).
Proof.
  intros R Hk Hch. eapply route_inv_caller; [exact R|exact Hk|reflexivity|..]; try done; cbn.
  - intros k' l r'. destruct (decide (k = k')) as [->|Hne].
    + rewrite lookup_insert_eq. intros [= <-] ?. eexists. split; [done|]. by apply elem_of_cons; right.
    + rewrite lookup_insert_ne by done. eauto.
  - intros ? [= <-]. eapply ri_chan; [done|done|]. by apply elem_of_cons; left.
Qed.

Lemma route_inv_step a s s' :
  alive_inv s → pend_inv s → route_inv s → exec a s = Some s' → route_inv s'.
Proof.
  intros [Hd _ _] Hp R H.
  exec_cases H; try fail_cases;
    first [ solve [eapply route_inv_new; [exact R|eassumption|reflexivity|..]; done]
          | by apply route_inv_recv
          | solve [eapply route_inv_caller; [exact R|eassumption|reflexivity|..]; cbn; try done;
                   try (by eauto); intros; simplify_eq; by eapply (ri_taken s)]
          | solve [eapply route_inv_same; [exact R|..]; cbn; try done; congruence]
          | idtac ].
  - exfalso. destruct Hd as [Hd _]. destruct (Hd ltac:(done)). congruence.
  - apply route_inv_dispatch; cbn; try done; [by apply route_inv_consume|set_solver].
  - by apply route_inv_consume.
  - eapply route_inv_same; [by apply (route_inv_consume s (h, payload) rest)|done..].
  - by apply route_inv_consume.
  - by apply route_inv_deliver.
Qed.

(** ** Framing *)

Definition frames (l : list (Header * bytes)) : bytes := concat (uncurry frame <$> l).

Definition frame_ok (f : Header * bytes) : Prop :=
  header_ok f.1 ∧ Length f.1 = len f.2 ∧ len f.2 ≤ maxPayload.

Lemma frames_snoc l h p : frames (l ++ [(h, p)]) = frames l ++ frame h p.
Proof. unfold frames. rewrite fmap_app, concat_app. cbn. by rewrite app_nil_r. Qed.

Lemma len_frame h p : len (frame h p) = HeaderSize + len p.
Proof. unfold frame. by rewrite len_app, len_encode. Qed.

Lemma take_frame h p rest : take 16 (frame h p ++ rest) = encode h.
Proof. unfold frame. rewrite <- app_assoc. by apply (take_app_length' (encode h)). Qed.

(** A whole frame is read back, and nothing of what follows it. *)
Lemma read_frame_frame h p rest :
  frame_ok (h, p) → read_frame (frame h p ++ rest) = Frame h p rest.
Proof.
  intros (Hh&Hl&Hm). cbn [fst snd] in *. pose proof (len_nonneg p). pose proof (len_nonneg rest).
  unfold read_frame.
  rewrite (bool_decide_eq_false_2 (len _ < HeaderSize)) by (rewrite len_app, len_frame; lia).
  rewrite take_frame, decode_encode, Hl by done.
  rewrite (bool_decide_eq_false_2 (maxPayload < _)) by lia.
  rewrite bool_decide_eq_false_2 by (rewrite len_app, len_frame; lia). f_equal.
  - unfold frame. rewrite <- app_assoc. by rewrite sub_app_mid by (rewrite ?len_encode; lia).
  - rewrite drop_app_length'; [done|]. rewrite <- len_frame with (h := h). unfold len. lia.
Qed.

(** What is read is a whole well-formed frame at the front of the input. *)
Lemma read_frame_Frame b h p rest :
  read_frame b = Frame h p rest → b = frame h p ++ rest ∧ frame_ok (h, p).
Proof.
  unfold read_frame. pose proof (decodeHeader_ok (take 16 b)) as Hok.
  remember (decodeHeader (take 16 b)) as hd eqn:Ehd.
  repeat case_bool_decide; try done. intros [= <- <- <-].
  unfold HeaderSize in *. assert (0 ≤ Length hd) by apply Hok.
  assert (len (sub b 16 (16 + Length hd)) = Length hd) as El by (rewrite len_sub; lia).
  split; [|split; [exact Hok | split; cbn [fst snd]; lia]].
  unfold frame. rewrite Ehd at 1.
  rewrite encode_decode by (rewrite length_take; unfold len in *; lia).
  rewrite <- app_assoc. apply (sub_decompose b 16); lia.
Qed.

#[global] Arguments frames : simpl never.
#[global] Arguments frame : simpl never.

Record stream_inv (s : Sys) : Prop := {
  si_in : s_input s = frames (s_frames s) ++ s_in s;
  si_ok : Forall frame_ok (s_frames s);
  si_out : s_wfail s = false → s_out s = frames (s_sent s);
}.

Lemma stream_inv_caller k v s : stream_inv s → stream_inv (set_caller k v s).
Proof. by intros []. Qed.
Lemma stream_inv_chan k v s : stream_inv s → stream_inv (set_chan k v s).
Proof. by intros []. Qed.
Lemma stream_inv_conn v s : stream_inv s → stream_inv (set_conn v s).
Proof. by intros []. Qed.
Lemma stream_inv_loop v s : stream_inv s → stream_inv (set_loop v s).
Proof. by intros []. Qed.
Lemma stream_inv_tickles n s : stream_inv s → stream_inv (set_tickles n s).
Proof. by intros []. Qed.
Lemma stream_inv_close s : stream_inv s → stream_inv (close_nc s).
Proof. by intros []. Qed.

Lemma stream_inv_send s h p : stream_inv s → stream_inv (send_ok h p s).
Proof.
  intros [H1 H2 H3]. split; cbn; try done. intros Hw. by rewrite frames_snoc, H3.
Qed.

Lemma stream_inv_send_err s h p n : stream_inv s → stream_inv (send_err h p n s).
Proof. intros [H1 H2 H3]. by split. Qed.

Lemma stream_inv_arrive s b : stream_inv s → stream_inv (arrive b s).
Proof. intros [H1 H2 H3]. split; cbn; try done. by rewrite H1, app_assoc. Qed.

Lemma stream_inv_consume s h p rest :
  stream_inv s → read_frame (s_in s) = Frame h p rest → stream_inv (consume (h, p) rest s).
Proof.
  intros [H1 H2 H3] [E Hok]%read_frame_Frame. split; cbn; try done.
  - by rewrite frames_snoc, <- app_assoc, <- E.
  - apply Forall_app. split; [done|]. by apply Forall_singleton.
Qed.

Create HintDb stream.
#[export] Hint Resolve stream_inv_caller stream_inv_chan stream_inv_conn stream_inv_loop
  stream_inv_tickles stream_inv_close stream_inv_send stream_inv_send_err stream_inv_arrive stream_inv_consume : stream.

Lemma stream_inv_step a s s' : alive_inv s → stream_inv s → exec a s = Some s' → stream_inv s'.
Proof.
  intros [Hd _ _] R H.
  exec_cases H; try fail_cases; eauto 8 with stream.
Qed.

(** ** Requests precede replies *)

(** The frame of a request that has passed [send] is in the output history. *)
Definition sent_ok (l : list (Header * bytes)) (p : caller) : Prop :=
  match p with
  | PSend id h _ => RequestID h = id ∧ Flags h = flagRequest
  | PWait id | PRet id (Ok _) | PDone id (Ok _) =>
    ∃ h payload, (h, payload) ∈ l ∧ RequestID h = id ∧ Flags h = flagRequest
  | _ => True
  end.

Definition sent_inv (s : Sys) : Prop :=
  map_Forall (λ _, sent_ok (s_sent s)) (s_callers s).

Lemma sent_ok_mono l f p : sent_ok l p → sent_ok (l ++ [f]) p.
Proof.
  destruct p as [| |? []|? []|]; cbn; try done; intros (h&x&?&?&?); exists h, x; set_solver.
Qed.

Lemma sent_inv_mono (cs : gmap nat caller) l f :
  map_Forall (λ _, sent_ok l) cs → map_Forall (λ _, sent_ok (l ++ [f])) cs.
Proof. intros H k p Hk. apply sent_ok_mono. by eapply H. Qed.

Lemma sent_inv_step a s s' : alive_inv s → sent_inv s → exec a s = Some s' → sent_inv s'.
Proof.
  intros [Hd _ _] R H. unfold sent_inv in *.
  exec_cases H; try fail_cases; cbn; try done; auto using sent_inv_mono;
    try match goal with
      Hk : s_callers s !! _ = Some _ |- _ => pose proof (R _ _ Hk) as Hs; cbn in Hs
    end;
    try (by apply map_Forall_insert_2).
  - apply map_Forall_insert_2; [|by apply sent_inv_mono].
    destruct Hs. exists h, payload. set_solver.
Qed.

(** ** Channels *)

(** Every goroutine has a channel, with room for one reply. *)
Definition chan_inv (s : Sys) : Prop :=
  ∀ k, is_Some (s_callers s !! k) → ∃ l, s_chans s !! k = Some l ∧ (length l ≤ 1)%nat.

Lemma chan_inv_step a s s' : alive_inv s → chan_inv s → exec a s = Some s' → chan_inv s'.
Proof.
  intros [Hd _ _] R H. unfold chan_inv in *.
  exec_cases H; try fail_cases; cbn; try done; intros k0 Hk0;
    match goal with |- context [<[?k := _]> _] => destruct (decide (k = k0)) as [->|?]
                  | H : context [<[?k := _]> _] |- _ => destruct (decide (k = k0)) as [->|?] end;
    rewrite ?lookup_insert_eq, ?lookup_insert_ne in Hk0 by done;
    rewrite ?lookup_insert_eq, ?lookup_insert_ne by done; eauto.
  eexists. split; [done|]. destruct (R k0 ltac:(eauto)) as (l&?&?). simplify_eq. cbn in *. lia.
Qed.

(** ** All invariants together *)

Record conn_inv (s : Sys) : Prop := {
  ci_alive : alive_inv s;
  ci_pend : pend_inv s;
  ci_route : route_inv s;
  ci_stream : stream_inv s;
  ci_sent : sent_inv s;
  ci_chan : chan_inv s;
}.

Lemma conn_inv_init : conn_inv init_sys.
Proof.
  split; [split|split|split|split| |]; cbn; try done.
  - intros id k. split; [done|]. by intros (p&?&?).
  - intros k Hk. by destruct Hk.
Qed.

Lemma conn_inv_step s s' : conn_inv s → step s s' → conn_inv s'.
Proof.
  intros [] [a H]. split;
    eauto using alive_inv_step, pend_inv_step, route_inv_step, stream_inv_step,
      sent_inv_step, chan_inv_step.
Qed.

Lemma conn_inv_rtc s s' : conn_inv s → rtc step s s' → conn_inv s'.
Proof. induction 2; eauto using conn_inv_step. Qed.

Lemma reachable_inv s : reachable s → conn_inv s.
Proof. apply conn_inv_rtc, conn_inv_init. Qed.

(** The error of a dead connection never changes. *)
Lemma closeErr_step s s' e :
  alive_inv s → step s s' → closeErr (s_conn s) = Some e → closeErr (s_conn s') = Some e.
Proof.
  intros [Hd _ _] [a H] He. exec_cases H; try fail_cases; cbn in *; try done; try congruence;
    match goal with K : is_Some _ → closeErr ?c = _ |- closeErr ?c = _ => rewrite K; eauto end.
Qed.

Lemma closeErr_rtc s s' e :
  conn_inv s → rtc step s s' → closeErr (s_conn s) = Some e → closeErr (s_conn s') = Some e.
Proof.
  induction 2; [done|]. intros He. apply IHrtc; [by eapply conn_inv_step|].
  eapply closeErr_step; eauto. by apply ci_alive.
Qed.

(** ** A run with two requests answered out of order

    Goroutines 0 and 1 send a request each; the server answers the second one
    first, with a tickle in between. *)

Definition reply_frame (id : Z) (payload : bytes) : bytes :=
  frame (MkHeader flagReply CmdCommand id 0 (len payload) 0) payload.

Definition demo_actions : list action :=
  [ ACall 0 CmdCommand 0 (str "req-0"); ACall 1 CmdCommand 0 (str "req-1"); ASend 1; ASend 0;
    ANet (reply_frame 2 (str "re:req-1") ++ frame (bare_header CmdTickle 9) [] ++ take 5 (reply_frame 1 (str "re:req-0")));
    AFrame; ADeliver; AFrame; ANet (drop 5 (reply_frame 1 (str "re:req-0"))); AFrame;
    ARecv 1; ADeliver; ARecv 0; AUnreg 0; AUnreg 1 ].

Definition demo : Sys := default init_sys (run demo_actions init_sys).

Lemma demo_reachable : reachable demo.
Proof. apply (run_rtc demo_actions). vm_compute. reflexivity. Qed.

(** ** Properties *)

(** C1: replies reach the right caller: in every reachable state, whatever the
    interleaving of requests, replies, cancellations and failures, a request
    that has returned a reply was sent under some id, and the reply is a reply
    frame the server sent with that very id, unaltered. *)
Theorem reply_routing s k id r :
  reachable s → s_callers s !! k = Some (PDone id (Ok r)) →
  Flags (rp_Header r) = flagReply ∧ RequestID (rp_Header r) = id ∧
  (rp_Header r, rp_Payload r) ∈ s_frames s ∧
  s_input s = frames (s_frames s) ++ s_in s ∧
  ∃ h payload, (h, payload) ∈ s_sent s ∧ RequestID h = id ∧ Flags h = flagRequest.
Proof.
  intros [Ha Hp Hr Hs Hse _]%reachable_inv Hk.
  destruct (ri_taken _ Hr _ _ r Hk eq_refl) as (p&id'&Hk'&Hi&Hf&Hid&Hin). simplify_eq. cbn in *.
  split_and!; try done; try congruence.
  - by apply si_in.
  - destruct (Hse _ _ Hk) as (h&x&?&?&?). simplify_eq. eauto 6.
Qed.

Lemma reply_routing_witness :
  ∃ r, s_callers demo !! 1%nat = Some (PDone 2 (Ok r)) ∧ rp_Payload r = str "re:req-1" ∧
    RequestID (rp_Header r) = 2 ∧ (rp_Header r, rp_Payload r) ∈ s_frames demo.
Proof.
  eexists. split; [vm_compute; reflexivity|]. split; [vm_compute; reflexivity|].
  edestruct (reply_routing demo 1 2) as (_&H1&H2&_);
    [exact demo_reachable | vm_compute; reflexivity | split; [exact H1 | exact H2]].
Defined.

(** C3: request ids are exclusive: in every reachable state the pending table
    holds exactly the goroutines between registration and release, under ids
    of sixteen bits, and no two of them share an id. *)
Theorem ids_exclusive s :
  reachable s →
  (∀ id k, pending (s_conn s) !! id = Some k ↔ ∃ p, s_callers s !! k = Some p ∧ holds p = Some id) ∧
  (∀ id k, pending (s_conn s) !! id = Some k → 0 ≤ id < 2 ^ 16) ∧
  (∀ k1 k2 p1 p2 id, s_callers s !! k1 = Some p1 → s_callers s !! k2 = Some p2 →
     holds p1 = Some id → holds p2 = Some id → k1 = k2).
Proof.
  intros [_ [Hp Hr] _ _ _ _]%reachable_inv. split_and!; try done.
  intros k1 k2 p1 p2 id H1 H2 Hh1 Hh2.
  assert (pending (s_conn s) !! id = Some k1) by (apply Hp; eauto).
  assert (pending (s_conn s) !! id = Some k2) by (apply Hp; eauto). congruence.
Qed.

(** Two goroutines between registration and release. *)
Definition two_calls : Sys :=
  default init_sys (run [ACall 0 2 0 []; ACall 1 2 0 []] init_sys).

Lemma ids_exclusive_witness :
  pending (s_conn two_calls) !! 2 = Some 1%nat ∧
  ∃ p, s_callers two_calls !! 1%nat = Some p ∧ holds p = Some 2.
Proof.
  split; [vm_compute; reflexivity|].
  apply (ids_exclusive two_calls); [|vm_compute; reflexivity].
  apply (run_rtc [ACall 0 2 0 []; ACall 1 2 0 []]). vm_compute. reflexivity.
Defined.

(** [register] finds an id exactly when one is free: with fewer than 2^16
    requests pending on a live connection its loop ends within 2^16 increments
    and registers the channel under an id that was not pending; with all 2^16
    ids pending it never ends, however long it runs. *)
Theorem register_total ch c :
  closeErr c = None →
  ((size (pending c) < Z.to_nat (2 ^ 16))%nat →
   ∃ id, pending c !! id = None ∧ 0 ≤ id < 2 ^ 16 ∧
     register ch c = Ret (Ok id, set_pending (<[id := ch]> (pending c)) (set_nextID id c))) ∧
  ((∀ id, 0 ≤ id < 2 ^ 16 → is_Some (pending c !! id)) →
   (∀ fuel, free_id fuel (pending c) (nextID c) = None) ∧ register ch c = NoFuel).
Proof.
  intros Hc. unfold register, mbind, M_bind, get. rewrite Hc. split.
  - intros Hs. destruct (free_id_size (pending c) (nextID c) Hs) as [id Hid].
    exists id. destruct (free_id_Some _ _ _ _ Hid) as [??]. by rewrite Hid.
  - intros Hf. split; [intros; by apply free_id_full|]. by rewrite free_id_full.
Qed.

(** A connection with one request in flight, under the next id. *)
Definition busy_conn : Conn := MkConn 0 (<[1 := 7%nat]> ∅) None false 0.

Lemma register_total_witness :
  ∃ id, pending busy_conn !! id = None ∧ 0 ≤ id < 2 ^ 16 ∧
    register 8 busy_conn
    = Ret (Ok id, set_pending (<[id := 8%nat]> (pending busy_conn)) (set_nextID id busy_conn)).
Proof.
  apply (proj1 (register_total 8 busy_conn eq_refl)). apply Nat.ltb_lt. vm_compute. reflexivity.
Defined.

(** C4: the connection dies once and cleanly: in every reachable state no
    goroutine has panicked (in particular [done] is not closed twice), [done]
    is closed exactly when the close error is set, and then the error stays
    the same ever after, every goroutine in the select can return with it, and
    a new request is refused with it. *)
Theorem shutdown s :
  reachable s →
  s_panic s = false ∧
  (done (s_conn s) = true ↔ is_Some (closeErr (s_conn s))) ∧
  (∀ e, closeErr (s_conn s) = Some e →
     (∀ s', rtc step s s' → closeErr (s_conn s') = Some e ∧ IsAlive (s_conn s') = false) ∧
     (∀ k id, s_callers s !! k = Some (PWait id) →
        exec (ADone k) s = Some (set_caller k (PRet id (Err e)) s)) ∧
     (∀ k cmd off payload, s_callers s !! k = None →
        exec (ACall k cmd off payload) s = Some (set_caller k (PRefused e) (set_chan k [] s)))).
Proof.
  intros Hs%reachable_inv. destruct (ci_alive _ Hs) as [Hd Hn Hp].
  split; [done|]. split; [done|]. intros e He. split_and!.
  - intros s' Hs'. assert (closeErr (s_conn s') = Some e) as He' by (by eapply closeErr_rtc).
    split; [done|]. unfold IsAlive. by rewrite He'.
  - intros k id Hk. cbn. rewrite Hk, (proj2 Hd) by eauto. by rewrite He.
  - intros k cmd off payload Hk. cbn. rewrite Hk. unfold register, mbind, M_bind, get. by rewrite He.
Qed.

Lemma shutdown_witness :
  s_panic (default init_sys (run [ACall 0 2 0 []; ASend 0; AReadErr EEOF; AClose true; ADone 0] init_sys)) = false.
Proof.
  apply (shutdown (default init_sys (run [ACall 0 2 0 []; ASend 0; AReadErr EEOF; AClose true; ADone 0] init_sys))).
  apply (run_rtc [ACall 0 2 0 []; ASend 0; AReadErr EEOF; AClose true; ADone 0]).
  vm_compute. reflexivity.
Defined.

(** Both directions of the stream are whole frames: what arrives is the
    frames read so far followed by the unread rest, every frame read is well
    formed and within the payload limit, and, unless a write has failed, what
    was written is the frames of [send] one after the other, never
    interleaved, however many goroutines send. *)
Theorem stream_framing s :
  reachable s →
  s_input s = frames (s_frames s) ++ s_in s ∧
  Forall frame_ok (s_frames s) ∧
  (s_wfail s = false → s_out s = frames (s_sent s)).
Proof. intros [_ _ _ [] _ _]%reachable_inv. by split_and!. Qed.

Lemma stream_framing_witness : s_out demo = frames (s_sent demo).
Proof. apply (stream_framing demo); [exact demo_reachable | vm_compute; reflexivity]. Defined.

(** The frame reader is exact: it returns a frame precisely when the input
    starts with the encoding of a header whose length is at most the limit and
    is the size of the payload that follows, and it leaves exactly the rest. *)
Theorem read_frame_exact b h p rest :
  read_frame b = Frame h p rest ↔ b = frame h p ++ rest ∧ frame_ok (h, p).
Proof.
  split; [apply read_frame_Frame|]. intros [-> Hok]. by apply read_frame_frame.
Qed.
