(* ===== verification/ConnLive.v ===== *)
(** * Progress of the multiplexed connection

    What the connection machine of [Conn] delivers when the server answers:
    replies in any order reach all waiting goroutines, a request on a quiet
    connection completes, and the options of DSIOpenSession are decoded.  Also
    the one way the read loop can stop for good. *)

From S2P Require Import Prelude Header Conn ConnSafety.

Open Scope go_scope.

(** ** Replies in any order *)

(** The read loop handles [n] reply frames. *)
Fixpoint pump (n : nat) : list action :=
  match n with
  | O => []
  | S n' => AFrame :: ADeliver :: pump n'
  end.

Lemma run_app l1 l2 s s1 : run l1 s = Some s1 → run (l1 ++ l2) s = run l2 s1.
Proof.
  revert s. induction l1 as [|a l1 IH]; cbn; intros s H; [by simplify_eq|].
  destruct (exec a s) as [s2|]; [|done]. cbn in *. by apply IH.
Qed.

Lemma frames_cons h p l : frames ((h, p) :: l) = frame h p ++ frames l.
Proof. done. Qed.

(** One reply frame for a goroutine whose channel is empty. *)
Lemma run_frame s h p k rest :
  s_loop s = LRead → s_in s = frame h p ++ rest → frame_ok (h, p) → Flags h = flagReply →
  pending (s_conn s) !! RequestID h = Some k → s_chans s !! k = Some [] →
  run [AFrame; ADeliver] s
  = Some (set_loop LRead (set_chan k [MkReply h p]
      (set_loop (LDeliver k (MkReply h p)) (consume (h, p) rest s)))).
Proof.
  intros Hl Hi Hok Hf Hp Hc. cbn. rewrite Hl, Hi, read_frame_frame by done.
  unfold dispatch. rewrite bool_decide_eq_true_2 by done. cbn. rewrite Hp. cbn. by rewrite Hc.
Qed.

(** [k] waits under the id of [f], with room in its channel. *)
Definition awaits (s : Sys) (f : Header * bytes) (k : nat) : Prop :=
  pending (s_conn s) !! RequestID f.1 = Some k ∧ s_chans s !! k = Some [].

Lemma pump_spec fs s rest :
  s_loop s = LRead → s_in s = frames fs ++ rest → Forall frame_ok fs →
  Forall (λ f, Flags f.1 = flagReply) fs →
  (∀ id1 id2 k, pending (s_conn s) !! id1 = Some k → pending (s_conn s) !! id2 = Some k → id1 = id2) →
  NoDup ((λ f, RequestID f.1) <$> fs) →
  (∀ f, f ∈ fs → ∃ k, awaits s f k) →
  ∃ s', run (pump (length fs)) s = Some s' ∧ s_loop s' = LRead ∧ s_in s' = rest ∧
    s_conn s' = s_conn s ∧ s_callers s' = s_callers s ∧
    (∀ f k, f ∈ fs → pending (s_conn s) !! RequestID f.1 = Some k →
       s_chans s' !! k = Some [MkReply f.1 f.2]) ∧
    (∀ k, (∀ f, f ∈ fs → pending (s_conn s) !! RequestID f.1 ≠ Some k) →
       s_chans s' !! k = s_chans s !! k).
Proof.
  revert s. induction fs as [|[h p] fs IH]; intros s Hl Hi Hok Hfl Hinj Hnd Haw.
  { exists s. cbn. split_and!; try done. by intros ?? []%not_elem_of_nil. }
  inversion Hok as [|? ? Hok1 Hok2]; inversion Hfl as [|? ? Hfl1 Hfl2]; subst.
  apply NoDup_cons in Hnd as [Hni Hnd]. rewrite frames_cons, <- app_assoc in Hi.
  destruct (Haw (h, p)) as (k&Hk&Hch); [by left|]. cbn in Hk.
  assert (∀ f k', f ∈ fs → pending (s_conn s) !! RequestID f.1 = Some k' → k ≠ k') as Hne.
  { intros f k' Hf Hk' <-. apply Hni, list_elem_of_fmap. exists f. split; [|done]. by eapply Hinj. }
  edestruct (IH (set_loop LRead (set_chan k [MkReply h p]
    (set_loop (LDeliver k (MkReply h p)) (consume (h, p) (frames fs ++ rest) s)))))
    as (s'&Hr&?&?&Ec&Ecs&Hd&Ho); cbn; try done.
  { intros f Hf. destruct (Haw f) as (k'&?&?); [by right|]. exists k'. split; cbn; [done|].
    rewrite lookup_insert_ne; [done|]. by eapply Hne. }
  exists s'. split.
  { transitivity (run ([AFrame; ADeliver] ++ pump (length fs)) s); [done|].
    erewrite run_app by (by eapply run_frame). done. }
  split_and!; try done.
  - intros f k' [->|Hf]%elem_of_cons Hk'; [|by apply Hd]. cbn in Hk'. simplify_eq.
    rewrite Ho; cbn; [by rewrite lookup_insert_eq|]. intros f Hf Hk'. by eapply Hne.
  - intros k' Hk'. rewrite Ho; cbn.
    + rewrite lookup_insert_ne; [done|]. intros <-. apply (Hk' (h, p)); [by left|done].
    + intros f Hf. apply Hk'. by right.
Qed.

Lemma pending_inj s id1 id2 k :
  pend_inv s → pending (s_conn s) !! id1 = Some k → pending (s_conn s) !! id2 = Some k → id1 = id2.
Proof. intros [Hp _] H1 H2. apply Hp in H1 as (p&?&?), H2 as (q&?&?). congruence. Qed.

(** ** A request on a quiet connection *)

(** Nothing is in flight and the connection is alive. *)
Definition quiet (s : Sys) : Prop :=
  conn_inv s ∧ s_loop s = LRead ∧ s_in s = [] ∧ closeErr (s_conn s) = None ∧
  pending (s_conn s) = ∅.

(** The schedule of one whole request: register, send, the server's reply
    arrives and is delivered, the goroutine takes it and unregisters. *)
Definition exchange_actions (k : nat) (cmd off : Z) (payload reply : bytes) : list action :=
  [ACall k cmd off payload; ASend k; ANet reply; AFrame; ADeliver; ARecv k; AUnreg k].

(** The id that a quiet connection gives to its next request. *)
Definition next_id (s : Sys) : Z := u16 (nextID (s_conn s) + 1).

Lemma free_id_empty n id : free_id (S n) ∅ id = Some (u16 (id + 1)).
Proof. done. Qed.

Lemma register_quiet s k :
  quiet s → register k (s_conn s)
  = Ret (Ok (next_id s), set_pending {[next_id s := k]} (set_nextID (next_id s) (s_conn s))).
Proof.
  intros (_&_&_&Hc&Hp). unfold register, mbind, M_bind, get. rewrite Hc, Hp.
  assert (id_fuel = S (pred id_fuel)) as -> by (unfold id_fuel; lia).
  by rewrite free_id_empty.
Qed.

Lemma exec_call_quiet s k cmd off payload :
  quiet s → s_callers s !! k = None →
  exec (ACall k cmd off payload) s
  = Some (set_caller k (PSend (next_id s) (request_header cmd (next_id s) off payload) payload)
      (set_chan k [] (set_conn (set_pending {[next_id s := k]} (set_nextID (next_id s) (s_conn s))) s))).
Proof. intros Hq Hk. unfold exec. rewrite Hk, (register_quiet s k Hq). done. Qed.

(** The parts of the state that the schedule depends on. *)
Definition view (s : Sys) :=
  (s_callers s, s_chans s, s_loop s, s_in s, s_conn s, s_sent s).

Section schedule.
Context (cs : gmap nat caller) (chs : gmap nat (list Reply)) (c : Conn)
  (sent : list (Header * bytes)) (k : nat) (id : Z) (h rpl : Header) (payload rp : bytes).

Lemma exec_send s b lp :
  view s = (<[k := PSend id h payload]> cs, chs, lp, b, c, sent) →
  ∃ s', exec (ASend k) s = Some s' ∧
    view s' = (<[k := PWait id]> cs, chs, lp, b, c, sent ++ [(h, payload)]).
Proof.
  intros [= Hcs ?????]. subst. unfold exec. rewrite Hcs, lookup_insert_eq.
  eexists. split; [done|]. unfold view; cbn. by rewrite Hcs, insert_insert_eq.
Qed.

Lemma exec_net s lp :
  view s = (cs, chs, lp, [], c, sent) →
  ∃ s', exec (ANet (frame rpl rp)) s = Some s' ∧ view s' = (cs, chs, lp, frame rpl rp, c, sent).
Proof. intros [= ??? E ??]. subst. eexists. split; [done|]. unfold view; cbn. by rewrite E. Qed.

Lemma exec_frame s :
  view s = (cs, chs, LRead, frame rpl rp, c, sent) → frame_ok (rpl, rp) →
  Flags rpl = flagReply → pending c !! RequestID rpl = Some k →
  ∃ s', exec AFrame s = Some s' ∧ view s' = (cs, chs, LDeliver k (MkReply rpl rp), [], c, sent).
Proof.
  intros [= ?? Hl Hi ??] Hok Hf Hp. subst. unfold exec.
  pose proof (read_frame_frame rpl rp [] Hok) as Hrf. rewrite app_nil_r in Hrf.
  rewrite Hl, Hi, Hrf. unfold dispatch. rewrite bool_decide_eq_true_2 by done.
  cbn [s_conn consume]. rewrite Hp. by eexists.
Qed.

Lemma exec_deliver s b :
  view s = (cs, <[k := []]> chs, LDeliver k (MkReply rpl rp), b, c, sent) →
  ∃ s', exec ADeliver s = Some s' ∧
    view s' = (cs, <[k := [MkReply rpl rp]]> chs, LRead, b, c, sent).
Proof.
  intros [= ? Hch Hl ???]. subst. unfold exec. rewrite Hl, Hch, lookup_insert_eq.
  eexists. split; [done|]. unfold view; cbn. by rewrite Hch, insert_insert_eq.
Qed.

Lemma exec_recv s b lp r :
  view s = (<[k := PWait id]> cs, <[k := [r]]> chs, lp, b, c, sent) →
  ∃ s', exec (ARecv k) s = Some s' ∧
    view s' = (<[k := PRet id (Ok r)]> cs, <[k := []]> chs, lp, b, c, sent).
Proof.
  intros [= Hcs Hch ????]. subst. unfold exec. rewrite Hcs, Hch, !lookup_insert_eq.
  eexists. split; [done|]. unfold view; cbn. by rewrite Hcs, Hch, !insert_insert_eq.
Qed.

Lemma exec_unreg s b lp r :
  view s = (<[k := PRet id r]> cs, chs, lp, b, c, sent) →
  ∃ s', exec (AUnreg k) s = Some s' ∧
    view s' = (<[k := PDone id r]> cs, chs, lp, b, unregister id c, sent).
Proof.
  intros [= Hcs ?????]. subst. unfold exec. rewrite Hcs, lookup_insert_eq.
  eexists. split; [done|]. unfold view; cbn. by rewrite Hcs, insert_insert_eq.
Qed.
End schedule.

Lemma run_cons a l s s1 : exec a s = Some s1 → run (a :: l) s = run l s1.
Proof. cbn. by intros ->. Qed.

(** The rest of the schedule, once the goroutine is registered. *)
Lemma run_registered cs chs c sent k id h payload rpl rp s :
  view s = (<[k := PSend id h payload]> cs, <[k := []]> chs, LRead, [], c, sent) →
  pending c !! id = Some k → Flags rpl = flagReply → RequestID rpl = id → frame_ok (rpl, rp) →
  ∃ s', run [ASend k; ANet (frame rpl rp); AFrame; ADeliver; ARecv k; AUnreg k] s = Some s' ∧
    view s' = (<[k := PDone id (Ok (MkReply rpl rp))]> cs, <[k := []]> chs, LRead, [],
               unregister id c, sent ++ [(h, payload)]).
Proof.
  intros V Hp Hf Hid Hok.
  destruct (exec_send _ _ _ _ _ _ _ _ _ _ _ V) as (s1&E1&V1). rewrite (run_cons _ _ _ _ E1).
  destruct (exec_net _ _ _ _ rpl rp _ _ V1) as (s2&E2&V2). rewrite (run_cons _ _ _ _ E2).
  destruct (exec_frame _ _ _ _ k rpl rp _ V2) as (s3&E3&V3); try done; [by rewrite Hid|].
  rewrite (run_cons _ _ _ _ E3).
  destruct (exec_deliver _ _ _ _ _ _ _ _ _ V3) as (s4&E4&V4). rewrite (run_cons _ _ _ _ E4).
  destruct (exec_recv _ _ _ _ _ _ _ _ _ _ V4) as (s5&E5&V5). rewrite (run_cons _ _ _ _ E5).
  destruct (exec_unreg _ _ _ _ _ _ _ _ _ _ V5) as (s6&E6&V6). rewrite (run_cons _ _ _ _ E6).
  by exists s6.
Qed.

(** The schedule runs to the end: the goroutine returns the server's reply and
    the connection is quiet again. *)
Lemma exchange_spec s k cmd off payload code rpl rp :
  quiet s → s_callers s !! k = None →
  rpl = MkHeader flagReply cmd (next_id s) code (len rp) 0 → frame_ok (rpl, rp) →
  ∃ s', run (exchange_actions k cmd off payload (frame rpl rp)) s = Some s' ∧
    quiet s' ∧ s_callers s' = <[k := PDone (next_id s) (Ok (MkReply rpl rp))]> (s_callers s) ∧
    s_sent s' = s_sent s ++ [(request_header cmd (next_id s) off payload, payload)] ∧
    ServerQuantum (s_conn s') = ServerQuantum (s_conn s).
Proof.
  intros Hq Hk Erpl Hok. pose proof Hq as (Hinv&Hl&Hi&Hc&Hp).
  pose proof (exec_call_quiet s k cmd off payload Hq Hk) as Hcall.
  set (c1 := set_pending {[next_id s := k]} (set_nextID (next_id s) (s_conn s))) in *.
  edestruct (run_registered (s_callers s) (s_chans s) c1 (s_sent s) k (next_id s)
    (request_header cmd (next_id s) off payload) payload rpl rp) as (s'&Hr&V'); last first.
  - assert (run (exchange_actions k cmd off payload (frame rpl rp)) s = Some s') as Hrun.
    { unfold exchange_actions. rewrite (run_cons _ _ _ _ Hcall). exact Hr. }
    injection V' as Ecs Ech El Ei Ec Es. exists s'. split; [done|]. rewrite Ec. split; [|done].
    split; [by eapply conn_inv_rtc, run_rtc|]. rewrite Ec. split_and!; try done.
    apply delete_singleton_eq.
  - exact Hok.
  - by rewrite Erpl.
  - by rewrite Erpl.
  - apply lookup_singleton_eq.
  - unfold view; cbn. by rewrite Hl, Hi.
Qed.

(** ** A read loop that never moves again

    The loop sends to a channel with room for one reply.  If the channel is
    full and its goroutine has left, nobody makes room: the send blocks for
    ever. *)

Definition wedged (k : nat) (s : Sys) : Prop :=
  (∃ r, s_loop s = LDeliver k r) ∧
  (∃ r l, s_chans s !! k = Some (r :: l)) ∧
  (∃ id r, s_callers s !! k = Some (PDone id r)).

(** No goroutine of [K] has, or can get, a reply. *)
Definition starved (K : nat → Prop) (s : Sys) : Prop :=
  ∀ k, K k →
    (∀ r l, s_chans s !! k ≠ Some (r :: l)) ∧
    (∀ p, s_callers s !! k = Some p → taken p = None).

Lemma wedged_step k s s' : alive_inv s → wedged k s → step s s' →
  wedged k s' ∧ s_loop s' = s_loop s ∧ s_frames s' = s_frames s.
Proof.
  intros [Hd _ _] ((r&Hl)&(r0&l&Hc)&(id&q&Hk)) [a H].
  exec_cases H; try fail_cases; cbn; unfold wedged; cbn;
    repeat match goal with
      | K : s_callers s !! ?k1 = _ |- context [<[?k1 := _]> _ !! ?k2] =>
        assert (k1 ≠ k2) by congruence; clear K
      end;
    rewrite ?lookup_insert_ne by done; eauto 10.
Qed.

Lemma starved_step k K s s' :
  alive_inv s → wedged k s → starved K s → step s s' → starved K s'.
Proof.
  intros [Hd _ _] ((r&Hl)&(r0&l&Hc)&_) Hs [a H]. unfold starved in *.
  exec_cases H; try fail_cases; cbn; try done; try congruence;
    intros k' HK; destruct (Hs k' HK) as [Hch Hca];
    match goal with |- context [<[?k := _]> _] => destruct (decide (k = k')) as [->|?] end;
    rewrite ?lookup_insert_eq, ?lookup_insert_ne by done; try done;
    try (by exfalso; eapply Hch; eauto);
    (split; [try done; by intros ??|]); intros p [= <-]; try done.
  - exfalso. destruct Hd as [Hd _]. destruct (Hd ltac:(done)). congruence.
  - by apply (Hca (PRet id r1)).
Qed.

Lemma wedged_rtc k K s s' :
  conn_inv s → wedged k s → starved K s → rtc step s s' →
  s_loop s' = s_loop s ∧ s_frames s' = s_frames s ∧ starved K s'.
Proof.
  intros Hi Hw Hs Hr. revert Hi Hw Hs. induction Hr as [s|s s1 s' Hst Hr IH]; [done|].
  intros Hi Hw Hs. pose proof (ci_alive _ Hi) as Ha.
  destruct (wedged_step _ _ _ Ha Hw Hst) as (Hw1&El&Ef).
  destruct IH as (E1&E2&?); [by eapply conn_inv_step|done|by eapply starved_step|].
  split_and!; congruence || done.
Qed.

(** A request is answered twice, and its context expires before the goroutine
    has taken the first answer. *)
Definition wedge_actions : list action :=
  [ ACall 0 CmdCommand 0 []; ASend 0; ANet (reply_frame 1 [] ++ reply_frame 1 []);
    AFrame; ADeliver; AFrame; ACtx 0 EDeadlineExceeded; AUnreg 0 ].

Definition wedge : Sys := default init_sys (run wedge_actions init_sys).

Lemma wedge_reachable : reachable wedge.
Proof. apply (run_rtc wedge_actions). vm_compute. reflexivity. Qed.

Lemma wedge_wedged : wedged 0 wedge.
Proof. split_and!; repeat eexists; vm_compute; reflexivity. Qed.

Lemma wedge_callers k p : s_callers wedge !! k = Some p → k = 0%nat.
Proof.
  replace (s_callers wedge) with ({[0%nat := PDone 1 (Err EDeadlineExceeded)]} : gmap nat caller)
    by (vm_compute; reflexivity).
  by intros [-> _]%lookup_singleton_Some.
Qed.

Lemma wedge_chans k l : s_chans wedge !! k = Some l → k = 0%nat.
Proof.
  replace (s_chans wedge) with
    ({[0%nat := [MkReply (MkHeader flagReply CmdCommand 1 0 0 0) []]]} : gmap nat (list Reply))
    by (vm_compute; reflexivity).
  by intros [-> _]%lookup_singleton_Some.
Qed.

(** ** The options of DSIOpenSession *)

(** The loop ends and stays inside the payload: every round moves on by at
    least two bytes. *)
Lemma parse_options_total fuel p i q :
  0 ≤ i → (0 < fuel)%nat → len p - i < Z.of_nat fuel →
  ∃ r q', parse_options fuel p i q = Ret (r, q').
Proof.
  revert i q. induction fuel as [|fuel IH]; intros i q Hi Hp Hf; [lia|]. cbn [parse_options].
  case_bool_decide as H1; [|by eauto].
  destruct (index_ok p i) as (t&Et&_); [lia|]. destruct (index_ok p (i + 1)) as (n&En&_); [lia|].
  rewrite Et, En. cbn. pose proof (bZ_range n). case_bool_decide as H2; [by eauto|].
  case_bool_decide as H3.
  - destruct H3 as [_ H3]. rewrite slice_ok by lia. cbn. apply IH; lia.
  - cbn. apply IH; lia.
Qed.

(** An option as servers send it: type, length, value. *)
Definition encode_option (o : byte * bytes) : bytes := o.1 :: byte_of_Z (len o.2) :: o.2.

(** The server quantum that a list of options announces: the last one counts. *)
Definition quantum_of (opts : list (byte * bytes)) (q : Z) : Z :=
  foldl (λ q o, if bool_decide (bZ o.1 = optServerQuantum ∧ len o.2 = 4) then be_Z o.2 else q) q opts.

Lemma parse_options_spec fuel opts pre tail q i :
  Forall (λ o, len o.2 ≤ 255) opts → (length opts < fuel)%nat → len tail ≤ 1 → i = len pre →
  parse_options fuel (pre ++ concat (encode_option <$> opts) ++ tail) i q
  = Ret (Ok tt, quantum_of opts q).
Proof.
  revert fuel pre q i. induction opts as [|[t v] opts IH]; intros fuel pre q i Ho Hf Ht ->.
  - destruct fuel as [|fuel]; [cbn in Hf; lia|]. cbn [parse_options].
    rewrite (bool_decide_eq_false_2 (_ + 2 ≤ _)); [done|]. rewrite len_app. cbn. lia.
  - apply Forall_cons in Ho as [Hv Ho]. cbn [fst snd] in Hv.
    destruct fuel as [|fuel]; [cbn in Hf; lia|]. cbn [length] in Hf.
    rewrite fmap_cons. cbn [concat]. unfold encode_option at 1. cbn [fst snd].
    rewrite <- app_assoc. cbn [app].
    set (rest := concat (encode_option <$> opts) ++ tail).
    assert (parse_options (S fuel) (pre ++ t :: byte_of_Z (len v) :: v ++ rest) (len pre) q
      = parse_options fuel (pre ++ t :: byte_of_Z (len v) :: v ++ rest) (len pre + 2 + len v)
          (if bool_decide (bZ t = optServerQuantum ∧ len v = 4) then be_Z v else q)) as ->.
    { pose proof (len_nonneg v). pose proof (len_nonneg pre). pose proof (len_nonneg rest).
      assert (len (pre ++ t :: byte_of_Z (len v) :: v ++ rest) = len pre + 2 + len v + len rest) as El
        by (rewrite len_app, !len_cons, len_app; lia).
      cbn [parse_options]. rewrite (bool_decide_eq_true_2 (_ + 2 ≤ _)) by lia.
      rewrite (index_app_mid pre t _ (len pre)) by done. cbn [mbind outcome_bind].
      rewrite (cons_middle t), app_assoc.
      rewrite (index_app_mid _ (byte_of_Z (len v)) _ (len pre + 1)) by (rewrite len_app; done).
      cbn [mbind outcome_bind].
      rewrite bZ_byte_of_Z, Z.mod_small by lia.
      rewrite (bool_decide_eq_false_2 (len _ < _)) by (rewrite <- app_assoc; cbn [app]; lia).
      case_bool_decide as Hq; [|done]. destruct Hq as [_ Hq].
      rewrite (cons_middle (byte_of_Z _)), app_assoc.
      rewrite slice_ok by (rewrite ?len_app, ?len_cons, ?len_nil; lia).
      by rewrite sub_app_mid by (rewrite ?len_app, ?len_cons, ?len_nil; lia). }
    replace (pre ++ t :: byte_of_Z (len v) :: v ++ rest)
      with ((pre ++ t :: byte_of_Z (len v) :: v) ++ rest) by (by rewrite <- app_assoc).
    subst rest. rewrite IH; [done|done|lia|done|]. rewrite len_app, !len_cons. lia.
Qed.

(** ** Properties *)

(** C8: pipelining: when the server answers any number of requests in flight,
    in whatever order, the read loop hands every reply to the goroutine that
    waits under its id; all of them can then take their own reply. *)
Theorem pipelined_delivery s fs :
  reachable s → s_loop s = LRead → s_in s = [] →
  Forall frame_ok fs → Forall (λ f, Flags f.1 = flagReply) fs →
  NoDup ((λ f, RequestID f.1) <$> fs) →
  (∀ f, f ∈ fs → ∃ k, s_callers s !! k = Some (PWait (RequestID f.1)) ∧ s_chans s !! k = Some []) →
  ∃ s', run (ANet (frames fs) :: pump (length fs)) s = Some s' ∧ s_in s' = [] ∧ s_loop s' = LRead ∧
    ∀ f k, f ∈ fs → s_callers s !! k = Some (PWait (RequestID f.1)) →
      exec (ARecv k) s'
      = Some (set_caller k (PRet (RequestID f.1) (Ok (MkReply f.1 f.2))) (set_chan k [] s')).
Proof.
  intros [_ Hp _ _ _ _]%reachable_inv Hl Hi Hok Hfl Hnd Haw. pose proof Hp as [Hp' _].
  destruct (pump_spec fs (arrive (frames fs) s) []) as (s'&Hr&?&?&Ec&Ecs&Hd&_); cbn; try done.
  - by rewrite Hi, app_nil_r.
  - intros ???. by apply pending_inj.
  - intros f Hf. destruct (Haw f Hf) as (k&Hk&Hc). exists k. split; [|done].
    cbn. apply Hp'. eauto.
  - exists s'. split_and!; try done. intros f k Hf Hk.
    rewrite Ecs; cbn [s_callers arrive]. rewrite Hk.
    by rewrite (Hd f k Hf) by (cbn; apply Hp'; eauto).
Qed.

(** Three requests in flight, answered in the order 2, 3, 1. *)
Definition burst_actions : list action :=
  [ACall 0 2 0 (str "a"); ACall 1 2 0 (str "b"); ACall 2 2 0 (str "c"); ASend 0; ASend 1; ASend 2].
Definition burst : Sys := default init_sys (run burst_actions init_sys).
Definition burst_replies : list (Header * bytes) :=
  [ (MkHeader flagReply 2 2 0 1 0, str "B"); (MkHeader flagReply 2 3 0 1 0, str "C");
    (MkHeader flagReply 2 1 0 1 0, str "A") ].

Lemma pipelined_delivery_witness :
  ∃ s', run (ANet (frames burst_replies) :: pump 3) burst = Some s' ∧
    exec (ARecv 2) s'
    = Some (set_caller 2 (PRet 3 (Ok (MkReply (MkHeader flagReply 2 3 0 1 0) (str "C")))) (set_chan 2 [] s')).
Proof.
  destruct (pipelined_delivery burst burst_replies) as (s'&Hr&_&_&Hd).
  - apply (run_rtc burst_actions). vm_compute. reflexivity.
  - vm_compute. reflexivity.
  - vm_compute. reflexivity.
  - repeat constructor; vm_compute; congruence.
  - repeat constructor.
  - apply (bool_decide_unpack _). vm_compute. exact I.
  - intros f Hf. unfold burst_replies in Hf. rewrite !elem_of_cons, elem_of_nil in Hf.
    destruct Hf as [->|[->|[->|[]]]];
      [exists 1%nat | exists 2%nat | exists 0%nat]; split; vm_compute; reflexivity.
  - exists s'. split; [exact Hr|].
    apply (Hd (MkHeader flagReply 2 3 0 1 0, str "C") 2%nat).
    + apply (bool_decide_unpack _). vm_compute. exact I.
    + vm_compute. reflexivity.
Defined.

(** A request on a quiet connection completes: for every request and every
    reply within the limits there is a schedule in which the frame that is
    sent carries the request, the goroutine returns exactly the server's reply
    and the connection is quiet again, ready for the next one. *)
Theorem request_completes s k cmd off payload code rp :
  quiet s → s_callers s !! k = None →
  0 ≤ cmd < 2 ^ 8 → 0 ≤ code < 2 ^ 32 → len rp ≤ maxPayload →
  let rpl := MkHeader flagReply cmd (next_id s) code (len rp) 0 in
  ∃ s', run (exchange_actions k cmd off payload (frame rpl rp)) s = Some s' ∧ quiet s' ∧
    s_callers s' = <[k := PDone (next_id s) (Ok (MkReply rpl rp))]> (s_callers s) ∧
    s_sent s' = s_sent s ++ [(MkHeader flagRequest cmd (next_id s) off (u32 (len payload)) 0, payload)].
Proof.
  intros Hq Hk Hc Hcode Hl rpl.
  destruct (exchange_spec s k cmd off payload code rpl rp) as (s'&?&?&?&?&_); try done; [|by eauto].
  split; [|done]. pose proof (len_nonneg rp). change maxPayload with 16777216 in Hl.
  assert (0 ≤ next_id s < 2 ^ 16) by by apply wrap_range.
  unfold rpl, header_ok, flagReply. cbn. lia.
Qed.

Lemma quiet_init : quiet init_sys.
Proof. split; [exact conn_inv_init|]. by split_and!. Qed.

Definition yes_header : Header := MkHeader flagReply 2 1 0 3 0.

Lemma request_completes_witness :
  ∃ s', run (exchange_actions 0 2 0 (str "ping") (frame yes_header (str "yes"))) init_sys = Some s' ∧
    quiet s' ∧ s_callers s' = {[0%nat := PDone 1 (Ok (MkReply yes_header (str "yes")))]}.
Proof.
  destruct (request_completes init_sys 0 2 0 (str "ping") 0 (str "yes") quiet_init eq_refl)
    as (s'&Hr&Hq&Hc&_); [split; reflexivity || (vm_compute; congruence)..|vm_compute; congruence|].
  exists s'. split; [exact Hr|]. split; [exact Hq|exact Hc].
Defined.

(** C36: the read loop can be stopped for good by one misbehaving peer: there
    is a reachable state, on a connection that still reports itself alive and
    through a server that answers one request twice while its caller gives up,
    after which the read loop never reads another frame and no later request
    is ever answered, whatever happens next. *)
Theorem reader_can_wedge :
  reachable wedge ∧ IsAlive (s_conn wedge) = true ∧ s_panic wedge = false ∧
  ∀ s', rtc step wedge s' →
    s_loop s' = s_loop wedge ∧ s_frames s' = s_frames wedge ∧
    ∀ k id r, k ≠ 0%nat → s_callers s' !! k ≠ Some (PDone id (Ok r)).
Proof.
  split; [apply wedge_reachable|]. split; [vm_compute; reflexivity|].
  split; [vm_compute; reflexivity|]. intros s' Hs'.
  destruct (wedged_rtc 0 (λ k, k ≠ 0%nat) wedge s') as (?&?&Hst); try done.
  - apply reachable_inv, wedge_reachable.
  - apply wedge_wedged.
  - intros k Hk. split; [by intros r l ?%wedge_chans | by intros p ?%wedge_callers].
  - split_and!; try done. intros k id r Hk Hc. destruct (Hst k Hk) as [_ Ht]. by apply Ht in Hc.
Qed.

(** The option loop of DSIOpenSession always ends without reading outside
    the reply, and for a well-formed reply (any options with any values, at
    most one stray byte at the end) it succeeds and the connection's quantum
    becomes the last four-byte server quantum announced, or stays as it was. *)
Theorem open_session_options r c :
  (∃ res q, open_session_reply r c = Ret (res, set_ServerQuantum q c)) ∧
  (∀ opts tail,
     rp_Payload r = concat (encode_option <$> opts) ++ tail →
     Forall (λ o, len o.2 ≤ 255) opts → len tail ≤ 1 →
     open_session_reply r c
     = Ret (Ok tt, set_ServerQuantum (quantum_of opts (ServerQuantum c)) c)).
Proof.
  unfold open_session_reply, mbind, M_bind, get. split.
  - destruct (parse_options_total (S (length (rp_Payload r))) (rp_Payload r) 0 (ServerQuantum c))
      as (res&q&E); [lia|lia|unfold len; lia|]. rewrite E. cbn. by eauto.
  - intros opts tail Ep Ho Ht. rewrite Ep.
    assert (length opts ≤ length (concat (encode_option <$> opts)))%nat.
    { clear. induction opts as [|o opts IH]; [done|]. rewrite fmap_cons. cbn. rewrite length_app. lia. }
    rewrite (parse_options_spec _ opts [] tail _ 0); try done. rewrite length_app. lia.
Qed.
