(* ===== verification/Transport.v ===== *)
(** * What the AFP layer needs from the connection

    The AFP client (package afp) talks to the server through two methods of
    [*dsi.Conn], [Request] and [RequestWrite] (both are [request]), and reads
    the field [ServerQuantum].  [Transport] is that interface; [Served] is the
    promise behind it: a request with a live context is answered by the
    server's state transformer.  The client's theorems are proved against
    [Served].  Two instances discharge it: the server called directly, and the
    connection of Conn.v with a server at its other end. *)

From S2P Require Import Prelude Header Conn ConnSafety ConnLive.

Open Scope go_scope.

(** ** Contexts

    A context is the background one, one that a caller supplied, or the child
    that an error group derives, cancelled or not. *)
Inductive Ctx : Type :=
| Background
| Given (n : nat)
| WithCancel (parent : Ctx) (cancelled : bool).

Fixpoint live (ctx : Ctx) : bool :=
  match ctx with
  | Background | Given _ => true
  | WithCancel parent cancelled => negb cancelled && live parent
  end.

(** ** The interface

    [W] is the world of a client: the connection and what is behind it. *)
Class Transport (W : Type) : Type := {
  t_request : Ctx → Z → Z → bytes → M W (result Reply);
  t_quantum : W → Z;
}.

(** A server: command, offset field and payload of a request, and the server's
    state, to the result code and payload of the reply and the new state. *)
Definition server (St : Type) : Type := Z → Z → bytes → St → Z * bytes * St.

Class Served (W St : Type) `{Transport W} (serve : server St) : Type := {
  sv_state : W → St;
  sv_ready : W → Prop;
  sv_request ctx cmd off payload w code rp st :
    sv_ready w → live ctx = true → 0 ≤ cmd < 2 ^ 8 →
    serve cmd off payload (sv_state w) = (code, rp, st) →
    ∃ w' h, t_request ctx cmd off payload w = Ret (Ok (MkReply h rp), w') ∧
      ErrCode h = code ∧ sv_ready w' ∧ sv_state w' = st ∧ t_quantum w' = t_quantum w;
}.

(** ** The server called directly *)

Definition direct_transport {St} (serve : server St) (q : Z) : Transport St := {|
  t_request ctx cmd off payload st :=
    if live ctx then
      let '(code, rp, st') := serve cmd off payload st in
      Ret (Ok (MkReply (MkHeader flagReply cmd 0 code (len rp) 0) rp), st')
    else Ret (Err ECanceled, st);
  t_quantum _ := q;
|}.

Definition direct_served {St} (serve : server St) (q : Z) :
  @Served St St (direct_transport serve q) serve.
Proof.
  refine (@Build_Served St St (direct_transport serve q) serve (λ w, w) (λ _, True) _).
  intros ctx cmd off payload w code rp st _ Hl _ E. cbn. rewrite Hl, E. by repeat eexists.
Defined.

(** ** The connection, with a server at its other end

    The world is the connection's system state, a number that no goroutine has
    had yet, and the server's state. *)
Record ConnWorld (St : Type) : Type := MkConnWorld {
  cw_sys : Sys;
  cw_next : nat;
  cw_server : St;
}.
Arguments MkConnWorld {St}.
Arguments cw_sys {St}.
Arguments cw_next {St}.
Arguments cw_server {St}.

Section conn.
Context {St : Type} (serve : server St).

(** The reply frame of the server to the last frame that was sent. *)
Definition answer (s : Sys) (st : St) : option (bytes * St) :=
  match last (s_sent s) with
  | Some (h, payload) =>
    let '(code, rp, st') := serve (Command h) (ErrCode h) payload st in
    Some (frame (MkHeader flagReply (Command h) (RequestID h) code (len rp) 0) rp, st')
  | None => None
  end.

(** One request by a new goroutine, scheduled to the end: it registers and
    sends, the server answers what it received, the read loop delivers, the
    goroutine takes the reply and unregisters.  With a cancelled context the
    goroutine leaves first and the late reply finds nobody. *)
Definition conn_run (ctx : Ctx) (cmd off : Z) (payload : bytes) (w : ConnWorld St)
  : option (result Reply * ConnWorld St) :=
  let k := cw_next w in
  s1 ← run [ACall k cmd off payload; ASend k] (cw_sys w);
  '(reply, st) ← answer s1 (cw_server w);
  s2 ← run (if live ctx then [ANet reply; AFrame; ADeliver; ARecv k; AUnreg k]
            else [ACtx k ECanceled; AUnreg k; ANet reply; AFrame]) s1;
  match s_callers s2 !! k with
  | Some (PDone _ r) => Some (r, MkConnWorld s2 (S k) st)
  | _ => None
  end.

#[global] Arguments conn_run : simpl never.

Definition conn_transport : Transport (ConnWorld St) := {|
  t_request ctx cmd off payload w :=
    match conn_run ctx cmd off payload w with
    | Some (r, w') => Ret (r, w')
    | None => NoFuel
    end;
  t_quantum w := ServerQuantum (s_conn (cw_sys w));
|}.

(** Nothing is in flight and the goroutine numbers from [cw_next] on are new. *)
Definition conn_ready (w : ConnWorld St) : Prop :=
  quiet (cw_sys w) ∧ ∀ k, (cw_next w ≤ k)%nat → s_callers (cw_sys w) !! k = None.

(** What the server must keep to for its replies to fit into frames. *)
Definition fits_frames : Prop :=
  ∀ cmd off payload st code rp st', serve cmd off payload st = (code, rp, st') →
    0 ≤ code < 2 ^ 32 ∧ len rp ≤ maxPayload.

(** ** The connection keeps the promise *)

Lemma run_split l1 l2 s s' :
  run (l1 ++ l2) s = Some s' → ∃ s1, run l1 s = Some s1 ∧ run l2 s1 = Some s'.
Proof.
  revert s. induction l1 as [|a l1 IH]; cbn; intros s H; [by eauto|].
  destruct (exec a s) as [s2|]; [|done]. cbn in *. by apply IH.
Qed.

(** The first half of a request leaves its frame as the last one sent. *)
Lemma run_sent s s1 k cmd off payload :
  quiet s → s_callers s !! k = None → run [ACall k cmd off payload; ASend k] s = Some s1 →
  last (s_sent s1) = Some (request_header cmd (next_id s) off payload, payload).
Proof.
  intros Hq Hk. rewrite (run_cons _ _ _ _ (exec_call_quiet s k cmd off payload Hq Hk)).
  match goal with |- run _ ?s0 = _ → _ =>
    edestruct (exec_send (s_callers s) (<[k := []]> (s_chans s)) (s_conn s0) (s_sent s) k
      (next_id s) (request_header cmd (next_id s) off payload) payload s0 (s_in s) (s_loop s))
      as (s2&E&V); [reflexivity|] end.
  rewrite (run_cons _ _ _ _ E). intros [= ->]. injection V as _ _ _ _ _ ->. by rewrite last_snoc.
Qed.

Lemma conn_run_spec ctx cmd off payload w code rp st :
  fits_frames → conn_ready w → live ctx = true → 0 ≤ cmd < 2 ^ 8 →
  serve cmd off payload (cw_server w) = (code, rp, st) →
  ∃ w' h, conn_run ctx cmd off payload w = Some (Ok (MkReply h rp), w') ∧
    ErrCode h = code ∧ conn_ready w' ∧ cw_server w' = st ∧
    ServerQuantum (s_conn (cw_sys w')) = ServerQuantum (s_conn (cw_sys w)).
Proof.
  intros Hfit [Hq Hn] Hl Hc E. destruct (Hfit _ _ _ _ _ _ _ E) as [Hcode Hrp].
  set (s := cw_sys w) in *. set (k := cw_next w) in *.
  assert (0 ≤ next_id s < 2 ^ 16) by by apply wrap_range.
  set (rpl := MkHeader flagReply cmd (next_id s) code (len rp) 0).
  assert (s_callers s !! k = None) as Hk by (by apply Hn).
  destruct (exchange_spec s k cmd off payload code rpl rp) as (s'&Hr&Hq'&Hcs&_&Hsq); try done.
  { split; [|done]. pose proof (len_nonneg rp). change maxPayload with 16777216 in Hrp.
    unfold rpl, header_ok, flagReply. cbn. lia. }
  destruct (run_split [ACall k cmd off payload; ASend k] _ _ _ Hr) as (s1&H1&H2).
  pose proof (run_sent _ _ _ _ _ _ Hq Hk H1) as Hs.
  exists (MkConnWorld s' (S k) st), rpl.
  split; [|split; [done|split; [split; [exact Hq'|]|split; [done|exact Hsq]]]].
  - unfold conn_run. fold s k. rewrite H1. cbn [mbind option_bind]. unfold answer. rewrite Hs.
    cbn [Command ErrCode RequestID request_header]. rewrite E. cbn [mbind option_bind].
    rewrite Hl. fold rpl. rewrite H2. cbn [mbind option_bind]. by rewrite Hcs, lookup_insert_eq.
  - cbn. intros k' Hk'. rewrite Hcs, lookup_insert_ne by lia. apply Hn. unfold k in *. lia.
Qed.

Definition conn_served (Hfit : fits_frames) : @Served (ConnWorld St) St conn_transport serve.
Proof.
  refine (@Build_Served (ConnWorld St) St conn_transport serve cw_server conn_ready _).
  intros ctx cmd off payload w code rp st Hr Hl Hc E.
  destruct (conn_run_spec ctx cmd off payload w code rp st Hfit Hr Hl Hc E) as (w'&h&Hrun&?).
  exists w', h. cbn. by rewrite Hrun.
Defined.

End conn.

(** ** Properties *)

(** C5: the multiplexed connection implements a remote call: with a server
    whose replies fit into frames at its other end and nothing in flight, a
    request through registration, framing, the read loop, delivery and release
    returns exactly the reply that the server's state transformer gives for
    the command, offset and payload of the call, advances the server's state
    once, keeps the quantum, and leaves the connection ready for the next. *)
Theorem connection_implements_call {St} (serve : server St) ctx cmd off payload w code rp st :
  fits_frames serve → conn_ready w → live ctx = true → 0 ≤ cmd < 2 ^ 8 →
  serve cmd off payload (cw_server w) = (code, rp, st) →
  ∃ w' h,
    @t_request _ (conn_transport serve) ctx cmd off payload w = Ret (Ok (MkReply h rp), w') ∧
    ErrCode h = code ∧ conn_ready w' ∧ cw_server w' = st ∧
    @t_quantum _ (conn_transport serve) w' = @t_quantum _ (conn_transport serve) w.
Proof.
  intros Hfit Hr Hl Hc E.
  destruct (conn_run_spec serve ctx cmd off payload w code rp st Hfit Hr Hl Hc E) as (w'&h&Hrun&?).
  exists w', h. cbn. by rewrite Hrun.
Qed.

(** A server that counts the requests and echoes their payload. *)
Definition echo_server : server nat := λ _ _ payload n, (0, take 1000 payload, S n).

Lemma connection_implements_call_witness :
  ∃ w' h,
    @t_request _ (conn_transport echo_server) Background 2 0 (str "ping") (MkConnWorld init_sys 0 7%nat)
      = Ret (Ok (MkReply h (str "ping")), w') ∧
    ErrCode h = 0 ∧ conn_ready w' ∧ cw_server w' = 8%nat.
Proof.
  destruct (connection_implements_call echo_server Background 2 0 (str "ping")
    (MkConnWorld init_sys 0 7%nat) 0 (str "ping") 8%nat) as (w'&h&?&?&?&?&_).
  - intros cmd off payload st code rp st' [= <- <- <-]. split; [split; reflexivity || (cbv; congruence)|].
    rewrite len_take. change maxPayload with 16777216. lia.
  - split; [exact quiet_init | reflexivity].
  - reflexivity.
  - split; [cbv; congruence | reflexivity].
  - reflexivity.
  - exists w', h. split; [assumption|]. split; [assumption|]. split; assumption.
Defined.
