(* ===== verification/Session.v ===== *)
(** * Sessions and volumes (src/internal/afp/session.go, without the logins)

    Every operation is a program over the [Transport] of the session's
    connection, in the state-passing monad of the client's world.  The logins
    are in Login.v. *)

From stdpp Require Import sorting.
From S2P Require Import Prelude Header Result Wire Entry Conn Transport.

Open Scope go_scope.

(** Runs the accessors of [&reader{b: payload}]. *)
Definition reading {W A} (payload : bytes) (m : M reader A) : M W A :=
  '(a, _) ← lift (m (new_reader payload)); mret a.

(** [if r.err != nil { return nil, r.err }], with [v] to return otherwise. *)
Definition r_check {A} (v : A) : M reader (result A) :=
  r ← get; mret (match rerr r with Some e => Err e | None => Ok v end).

(** ** Volumes *)

Definition kFPVolAttributeBit : Z := 0x0001.
Definition kFPVolIDBit : Z := 0x0020.
Definition kFPVolExtBytesFreeBit : Z := 0x0200.
Definition kFPVolExtBytesTotalBit : Z := 0x0400.
Definition kFPVolBlockSizeBit : Z := 0x0800.

Definition volAttrReadOnly : Z := 0x01.
Definition volAttrSupportsUnix : Z := 0x20.
Definition volAttrSupportsUTF8 : Z := 0x40.

Record VolumeInfo : Type := MkVolumeInfo {
  vi_Name : bytes;
  vi_HasPassword : bool;
}.

(** An open volume; its session is the world's. *)
Record Volume : Type := MkVolume {
  v_ID : Z;          (* uint16 *)
  v_Name : bytes;
  v_Attributes : Z;  (* uint16 *)
}.

Definition SupportsUnixPrivs (v : Volume) : bool := has (v_Attributes v) volAttrSupportsUnix.

(** The bitmaps of the parameters to ask for, of files and of directories. *)
Definition entryBitmaps (v : Volume) : Z * Z :=
  let fileBitmap := foldl Z.lor kFPParentDirIDBit [kFPCreateDateBit; kFPModDateBit;
    kFPNodeIDBit; kFPUTF8NameBit; kFPExtDataForkLenBit; kFPFinderInfoBit] in
  let dirBitmap := foldl Z.lor kFPParentDirIDBit [kFPCreateDateBit; kFPModDateBit;
    kFPNodeIDBit; kFPUTF8NameBit; kFPOffspringCountBit] in
  if SupportsUnixPrivs v
  then (Z.lor fileBitmap kFPUnixPrivsBit, Z.lor dirBitmap kFPUnixPrivsBit)
  else (fileBitmap, dirBitmap).

Definition enumerateBatch : Z := 512.
Definition enumerateReplySize : Z := 256 * 1024.

(** ** Versions *)

Definition versionPreference : list bytes :=
  [str "AFP3.4"; str "AFP3.3"; str "AFP3.2"; str "AFP3.1"].

(** [have] is Go's [map[string]bool] of the offered names. *)
Definition pickVersion (offered : list bytes) : result bytes :=
  let have : gset bytes := foldl (λ h v, {[ v ]} ∪ h) ∅ offered in
  match find (λ v, bool_decide (v ∈ have)) versionPreference with
  | Some v => Ok v
  | None => Err (EErrorf "afp: no supported AFP version (server offers %v; AFP 3.1+ required)" [FL offered])
  end.

(** ** Replies *)

(** The reply of FPGetSrvrParms: [n] volumes are left. *)
Fixpoint volume_list (n : nat) (vols : list VolumeInfo) : M reader (result (list VolumeInfo)) :=
  match n with
  | O => mret (Ok vols)
  | S n' =>
    flags ← r_u8 "volume flags";
    name ← r_pascal "volume name";
    r ← get;
    match rerr r with
    | Some e => mret (Err e)
    | None => volume_list n' (vols ++ [MkVolumeInfo name (has flags 0x80)])
    end
  end.

(** [a < b] on Go strings is bytewise and lexicographic. *)
Fixpoint string_le (a b : bytes) : bool :=
  match a, b with
  | [], _ => true
  | _ :: _, [] => false
  | x :: a', y :: b' =>
    bool_decide (bZ x < bZ y) || (bool_decide (bZ x = bZ y) && string_le a' b')
  end.

Definition vol_le (a b : VolumeInfo) : Prop := string_le (vi_Name a) (vi_Name b) = true.

#[global] Instance vol_le_dec : RelDecision vol_le.
Proof. intros a b. unfold vol_le. apply _. Defined.

Definition parse_volumes (payload : bytes) : outcome (result (list VolumeInfo)) :=
  '(vols, _) ← (_ ← r_u32 "server time";
                n ← r_u8 "volume count";
                volume_list (Z.to_nat n) []) (new_reader payload);
  mret (match vols with Ok l => Ok (merge_sort vol_le l) | Err e => Err e end).

(** The reply of FPOpenVol. *)
Definition parse_open_vol (name : bytes) : M reader (result Volume) :=
  bitmap ← r_u16 "volume bitmap";
  attributes ← (if has bitmap kFPVolAttributeBit then r_u16 "volume attributes" else mret 0);
  id ← (if has bitmap kFPVolIDBit then r_u16 "volume id" else mret 0);
  r_check (MkVolume id name attributes).

Section replies.
Context `{Norm}.

(** The loop of [parseEnumerateReply]: [n] entries are left, [i] are done. *)
Fixpoint enumerate_entries (fileBitmap dirBitmap : Z) (n : nat) (i : Z) (entries : list DirEntry)
  : M reader (result (list DirEntry)) :=
  match n with
  | O => mret (Ok entries)
  | S n' =>
    length ← r_u16 "entry length";
    d ← r_u8 "entry isdir";
    let isDir := negb (d =? 0) in
    _ ← r_u8 "entry pad";
    r ← get;
    if rerr r is Some e then mret (Err e) else
    if bool_decide (length < 4) then
      mret (Err (EErrorf "afp: enumerate entry %d has bogus length %d" [FZ i; FZ length]))
    else
    block ← r_take (length - 4) "entry parameters";
    r ← get;
    if rerr r is Some e then mret (Err e) else
    '(e, er) ← lift (parseEntryParams (default [] block) isDir (if isDir then dirBitmap else fileBitmap));
    match er with
    | Some er => mret (Err (EWrapf "afp: enumerate entry %d: %w" [FZ i] er))
    | None => enumerate_entries fileBitmap dirBitmap n' (i + 1) (entries ++ [e])
    end
  end.

Definition enumerate_reply : M reader (result (list DirEntry)) :=
  fileBitmap ← r_u16 "file bitmap";
  dirBitmap ← r_u16 "dir bitmap";
  count ← r_u16 "entry count";
  r ← get;
  if rerr r is Some e then mret (Err e)
  else enumerate_entries fileBitmap dirBitmap (Z.to_nat count) 0 [].

Definition parseEnumerateReply (payload : bytes) : outcome (result (list DirEntry)) :=
  '(res, _) ← enumerate_reply (new_reader payload); mret res.

(** The reply of FPGetFileDirParms. *)
Definition parse_stat (payload : bytes) : outcome (result DirEntry) :=
  '(hd, r) ← (replyFileBitmap ← r_u16 "file bitmap";
              replyDirBitmap ← r_u16 "dir bitmap";
              d ← r_u8 "isdir";
              _ ← r_u8 "pad";
              r_check (replyFileBitmap, replyDirBitmap, negb (d =? 0))) (new_reader payload);
  match hd with
  | Err e => mret (Err e)
  | Ok (replyFileBitmap, replyDirBitmap, isDir) =>
    block ← slice payload (pos r) (len payload);
    '(e, er) ← parseEntryParams block isDir (if isDir then replyDirBitmap else replyFileBitmap);
    mret (match er with None => Ok e | Some er => Err er end)
  end.

End replies.

(** ** Operations *)

Section operations.
Context {W : Type} `{Transport W} `{Norm}.

(** [command] and [commandWrite]: reply payload and AFP result code. *)
Definition command (ctx : Ctx) (payload : bytes) : M W (result (bytes * Z)) :=
  r ←? t_request ctx CmdCommand 0 payload;
  mret (Ok (rp_Payload r, i32 (ErrCode (rp_Header r)))).

Definition commandWrite (ctx : Ctx) (dataOffset : Z) (payload : bytes) : M W (result (bytes * Z)) :=
  r ←? t_request ctx CmdWrite dataOffset payload;
  mret (Ok (rp_Payload r, i32 (ErrCode (rp_Header r)))).

Definition serverQuantum : M W Z := w ← get; mret (t_quantum w).

(** The two shapes that almost every operation ends with: send, and return the
    result code as an error; or send, check the code, and go on with the reply. *)
Definition invoke (ctx : Ctx) (op : bytes) (payload : bytes) : M W (result unit) :=
  '(_, code) ←? command ctx payload;
  mret (resultErr op code).

Definition query (ctx : Ctx) (op : bytes) (payload : bytes) : M W (result bytes) :=
  '(reply, code) ←? command ctx payload;
  _ ←? mret (resultErr op code);
  mret (Ok reply).

Definition Logout (ctx : Ctx) : M W (result unit) :=
  invoke ctx (str "logout") [byte_of_Z cmdLogout; x00].

Definition ListVolumes (ctx : Ctx) : M W (result (list VolumeInfo)) :=
  payload ←? query ctx (str "list volumes") [byte_of_Z cmdGetSrvrParms; x00];
  lift (parse_volumes payload).

Definition open_vol_request (name : bytes) : bytes :=
  [] |> w_u8 cmdOpenVol
     |> w_u8 0
     |> w_u16 (Z.lor kFPVolAttributeBit kFPVolIDBit)
     |> w_pascal name.

Definition OpenVolume (ctx : Ctx) (name : bytes) : M W (result Volume) :=
  payload ←? query ctx (str "open volume " ++ name) (open_vol_request name);
  reading payload (parse_open_vol name).

Definition Volume_Close (v : Volume) (ctx : Ctx) : M W (result unit) :=
  invoke ctx (str "close volume") ([] |> w_u8 cmdCloseVol |> w_u8 0 |> w_u16 (v_ID v)).

Definition enumerate_request (v : Volume) (dirID start : Z) (path : bytes) : bytes :=
  let '(fileBitmap, dirBitmap) := entryBitmaps v in
  [] |> w_u8 cmdEnumerateExt2
     |> w_u8 0
     |> w_u16 (v_ID v)
     |> w_u32 dirID
     |> w_u16 fileBitmap
     |> w_u16 dirBitmap
     |> w_u16 enumerateBatch
     |> w_u32 start
     |> w_u32 enumerateReplySize
     |> w_path path.

(** The loop of [ReadDir]: one round per reply, [fuel] rounds at most. *)
Fixpoint ReadDir_loop (fuel : nat) (v : Volume) (ctx : Ctx) (dirID : Z) (path : bytes)
    (start : Z) (all : list DirEntry) : M W (result (list DirEntry)) :=
  match fuel with
  | O => no_fuel
  | S fuel' =>
    '(payload, code) ←? command ctx (enumerate_request v dirID start path);
    if bool_decide (code = ResObjectNotFound) then mret (Ok all) else
    _ ←? mret (resultErr (str "enumerate " ++ path) code);
    entries ←? lift (parseEnumerateReply payload);
    if bool_decide (len entries = 0) then mret (Ok all) else
    ReadDir_loop fuel' v ctx dirID path (u32 (start + u32 (len entries))) (all ++ entries)
  end.

Definition ReadDir (fuel : nat) (v : Volume) (ctx : Ctx) (dirID : Z) (path : bytes)
  : M W (result (list DirEntry)) :=
  ReadDir_loop fuel v ctx dirID path 1 [].

Definition stat_request (v : Volume) (dirID : Z) (path : bytes) : bytes :=
  let '(fileBitmap, dirBitmap) := entryBitmaps v in
  [] |> w_u8 cmdGetFileDirParms
     |> w_u8 0
     |> w_u16 (v_ID v)
     |> w_u32 dirID
     |> w_u16 fileBitmap
     |> w_u16 dirBitmap
     |> w_path path.

Definition Stat (v : Volume) (ctx : Ctx) (dirID : Z) (path : bytes) : M W (result DirEntry) :=
  payload ←? query ctx (str "stat " ++ path) (stat_request v dirID path);
  lift (parse_stat payload).

End operations.

(** ** No reply makes a parser panic *)

Lemma rsafe_lift {A} (o : outcome A) : (∃ a, o = Ret a) → rsafe (λ _, True) (lift o).
Proof. intros [a ->] r Hr. by exists a, r. Qed.

Lemma rsafe_check {A} (v : A) : rsafe (λ _, True) (r_check v).
Proof. unfold r_check. repeat rsafe_step. Qed.

Lemma rsafe_parseEntryParams `{Norm} block isDir bm :
  rsafe (λ _, True) (lift (parseEntryParams block isDir bm)).
Proof. apply rsafe_lift. destruct (parseEntryParams_total block isDir bm) as (e&er&E). eauto. Qed.

Lemma rsafe_ret_any {A} (a : A) : rsafe (λ _, True) (mret a).
Proof. by apply rsafe_ret. Qed.

#[export] Hint Resolve rsafe_check rsafe_parseEntryParams rsafe_ret_any : rsafe.

(** A safe parser run on a whole payload returns. *)
Lemma rsafe_run {A} (P : A → Prop) m payload :
  rsafe P m → ∃ a r, m (new_reader payload) = Ret (a, r) ∧ reader_ok r ∧ rb r = payload ∧ P a.
Proof.
  intros Hm. destruct (Hm (new_reader payload)) as (a&r&?&?&?&_&_&?); [|by eauto 6].
  unfold reader_ok. cbn. pose proof (len_nonneg payload). lia.
Qed.

Lemma rsafe_volume_list n vols : rsafe (λ _, True) (volume_list n vols).
Proof.
  revert vols. induction n as [|n IH]; intros vols; cbn [volume_list]; [rsafe_step|].
  do 3 rsafe_step. destruct (rerr _); [rsafe_step | apply IH].
Qed.

Lemma parse_volumes_total payload : ∃ res, parse_volumes payload = Ret res.
Proof.
  unfold parse_volumes.
  match goal with |- ∃ _, (?m ≫= _) = _ => match m with ?p ?r => destruct (rsafe_run (λ _, True) p payload) as (a&r'&E&_) end end.
  { do 2 rsafe_step. apply rsafe_volume_list. }
  rewrite E. cbn. by eauto.
Qed.

Lemma rsafe_parse_open_vol name : rsafe (λ _, True) (parse_open_vol name).
Proof.
  unfold parse_open_vol. rsafe_step.
  destruct (has _ kFPVolAttributeBit), (has _ kFPVolIDBit); repeat rsafe_step.
Qed.

Section totality.
Context `{Norm}.

Lemma rsafe_enumerate_entries fbm dbm n i entries :
  rsafe (λ _, True) (enumerate_entries fbm dbm n i entries).
Proof.
  revert i entries. induction n as [|n IH]; intros i entries; cbn [enumerate_entries]; [rsafe_step|].
  do 4 rsafe_step. destruct (rerr _); [rsafe_step|]. case_bool_decide; [rsafe_step|].
  eapply rsafe_bind; [eapply rsafe_take; lia|]. intros block _.
  rsafe_step. destruct (rerr _); [rsafe_step|].
  rsafe_step. rsafe_step. destruct o; [rsafe_step | apply IH].
Qed.

Lemma parseEnumerateReply_total payload : ∃ res, parseEnumerateReply payload = Ret res.
Proof.
  unfold parseEnumerateReply.
  destruct (rsafe_run (λ _, True) enumerate_reply payload) as (a&r&->&_); [|cbn; by eauto].
  unfold enumerate_reply. do 4 rsafe_step.
  destruct (rerr _); [rsafe_step | apply rsafe_enumerate_entries].
Qed.

Lemma parse_stat_total payload : ∃ res, parse_stat payload = Ret res.
Proof.
  unfold parse_stat.
  match goal with |- ∃ _, (?m ≫= _) = _ => match m with ?p ?r => destruct (rsafe_run (λ _, True) p payload) as (a&r'&E&Hr&Hb&_) end end.
  { repeat rsafe_step. }
  rewrite E. cbn [mbind outcome_bind]. destruct a as [[[fb db] d]|]; [|by eexists].
  unfold reader_ok in Hr. rewrite Hb in Hr. rewrite slice_ok by lia. cbn [mbind outcome_bind].
  destruct (parseEntryParams_total (sub payload (pos r') (len payload)) d (if d then db else fb))
    as (e&er&->). by eexists.
Qed.

End totality.

(** ** The replies that servers send *)

(** FPGetSrvrParms: the server's time, and per volume its flags and name. *)
Definition volume_wire (v : Z * bytes) : bytes :=
  byte_of_Z v.1 :: byte_of_Z (len v.2) :: v.2.

Definition volumes_payload (time : Z) (l : list (Z * bytes)) : bytes :=
  be_bytes 4 time ++ byte_of_Z (len l) :: concat (volume_wire <$> l).

Definition volume_of (v : Z * bytes) : VolumeInfo := MkVolumeInfo v.2 (has (u8 v.1) 0x80).

Lemma volume_list_at l vols pre rest :
  Forall (λ v, len v.2 ≤ 255) l →
  volume_list (length l) vols (rd_at pre (concat (volume_wire <$> l) ++ rest))
  = Ret (Ok (vols ++ (volume_of <$> l)), rd_at (pre ++ concat (volume_wire <$> l)) rest).
Proof.
  revert vols pre. induction l as [|[fl name] l IH]; intros vols pre Hl; cbn [length volume_list].
  { by rewrite fmap_nil, !app_nil_r. }
  apply Forall_cons in Hl as [Hn Hl]. cbn [snd] in Hn.
  rewrite !fmap_cons. cbn [concat]. unfold volume_wire at 1 3. cbn [fst snd].
  repeat (rewrite <- app_assoc; cbn [app]). rd_step. rd_step. erewrite M_bind_ret by done.
  cbn [rerr rd_at]. rewrite IH, bZ_byte_of_Z by done.
  repeat (rewrite <- app_assoc; cbn [app]). done.
Qed.

Lemma parse_volumes_payload time l :
  Forall (λ v, len v.2 ≤ 255) l → len l ≤ 255 →
  parse_volumes (volumes_payload time l) = Ret (Ok (merge_sort vol_le (volume_of <$> l))).
Proof.
  intros Hl Hn. unfold parse_volumes, volumes_payload. rewrite new_reader_at.
  rewrite <- (app_nil_r (concat _)). erewrite M_bind_ret by apply r_u32_at.
  erewrite M_bind_ret by apply r_u8_at. rewrite bZ_byte_of_Z.
  rewrite Z.mod_small by (split; [apply len_nonneg | lia]).
  unfold len. rewrite Nat2Z.id, volume_list_at by done. done.
Qed.

Lemma string_le_total a b : string_le a b = true ∨ string_le b a = true.
Proof.
  revert b. induction a as [|x a IH]; intros [|y b]; cbn; auto.
  repeat case_bool_decide; cbn; auto; lia.
Qed.

#[global] Instance vol_le_total : Total vol_le.
Proof. intros a b. apply string_le_total. Qed.

(** FPEnumerateExt2: one item per entry, each with the byte that tells files
    from directories, a padding byte, and a parameter block with a fill. *)
Record item : Type := MkItem {
  it_kind : byte;
  it_pad : byte;
  it_params : params;
  it_fill : bytes;
}.

Definition it_isDir (x : item) : bool := negb (bZ (it_kind x) =? 0).

Section enumerate.
Context `{Norm} (fbm dbm : Z).

Definition it_bitmap (x : item) : Z := if it_isDir x then dbm else fbm.

Definition it_block (x : item) : bytes :=
  layout (it_isDir x) (it_bitmap x) (it_params x) (it_fill x).

Definition item_wire (x : item) : bytes :=
  be_bytes 2 (4 + len (it_block x)) ++ it_kind x :: it_pad x :: it_block x.

Definition enumerate_payload (l : list item) (tail : bytes) : bytes :=
  be_bytes 2 fbm ++ be_bytes 2 dbm ++ be_bytes 2 (len l) ++ concat (item_wire <$> l) ++ tail.

Definition item_ok (x : item) : Prop :=
  params_ok (it_isDir x) (it_bitmap x) (it_params x) ∧ 4 + len (it_block x) < 2 ^ 16.

Definition item_entry (x : item) : DirEntry := entry_of (it_isDir x) (it_bitmap x) (it_params x).

Lemma it_block_parse x :
  params_ok (it_isDir x) (it_bitmap x) (it_params x) →
  parseEntryParams (it_block x) (it_isDir x) (it_bitmap x) = Ret (item_entry x, None).
Proof. apply parseEntryParams_layout. Qed.

Lemma enumerate_entries_at l i entries pre rest :
  Forall item_ok l →
  enumerate_entries fbm dbm (length l) i entries (rd_at pre (concat (item_wire <$> l) ++ rest))
  = Ret (Ok (entries ++ (item_entry <$> l)), rd_at (pre ++ concat (item_wire <$> l)) rest).
Proof.
  revert i entries pre. induction l as [|x l IH]; intros i entries pre Hl.
  { cbn. by rewrite !app_nil_r. }
  apply Forall_cons in Hl as [[Hp Hlen] Hl]. cbn [length enumerate_entries].
  pose proof (len_nonneg (it_block x)).
  rewrite !fmap_cons. cbn [concat]. unfold item_wire at 1 3.
  repeat (rewrite <- app_assoc; cbn [app]).
  rd_step. rd_step. rd_step. erewrite M_bind_ret by done. cbn [rerr rd_at].
  rewrite wrap_small by lia. rewrite bool_decide_eq_false_2 by lia.
  erewrite M_bind_ret by (apply r_take_at; lia). erewrite M_bind_ret by done. cbn [rerr rd_at default id].
  fold (it_isDir x). fold (it_bitmap x).
  erewrite M_bind_ret by (unfold lift, id; by rewrite it_block_parse by done).
  cbn beta iota. rewrite IH by done. repeat (rewrite <- app_assoc; cbn [app]). done.
Qed.

Lemma parseEnumerateReply_payload l tail :
  0 ≤ fbm < 2 ^ 16 → 0 ≤ dbm < 2 ^ 16 → len l < 2 ^ 16 → Forall item_ok l →
  parseEnumerateReply (enumerate_payload l tail) = Ret (Ok (item_entry <$> l)).
Proof.
  intros Hf Hd Hn Hl. pose proof (len_nonneg l).
  unfold parseEnumerateReply, enumerate_reply, enumerate_payload. rewrite new_reader_at.
  rd_step. rd_step. rd_step. erewrite M_bind_ret by done. cbn [rerr rd_at].
  rewrite !wrap_small by lia. unfold len at 1. rewrite Nat2Z.id.
  rewrite enumerate_entries_at by done. done.
Qed.

(** FPGetFileDirParms. *)
Definition stat_payload (x : item) : bytes :=
  be_bytes 2 fbm ++ be_bytes 2 dbm ++ it_kind x :: it_pad x :: it_block x.

Lemma parse_stat_payload x :
  0 ≤ fbm < 2 ^ 16 → 0 ≤ dbm < 2 ^ 16 → params_ok (it_isDir x) (it_bitmap x) (it_params x) →
  parse_stat (stat_payload x) = Ret (Ok (item_entry x)).
Proof.
  intros Hf Hd Hp. unfold parse_stat.
  change (new_reader (stat_payload x)) with
    (rd_at [] (be_bytes 2 fbm ++ be_bytes 2 dbm ++ it_kind x :: it_pad x :: it_block x)).
  erewrite M_bind_ret by apply r_u16_at. erewrite M_bind_ret by apply r_u16_at.
  erewrite M_bind_ret by apply r_u8_at. erewrite M_bind_ret by apply r_u8_at.
  unfold r_check. erewrite M_bind_ret by done. cbn [mret M_ret rerr rd_at mbind outcome_bind pos].
  rewrite !wrap_small by lia. fold (it_isDir x). fold (it_bitmap x).
  set (pre := (([] ++ be_bytes 2 fbm) ++ be_bytes 2 dbm) ++ [it_kind x]).
  assert (stat_payload x = (pre ++ [it_pad x]) ++ it_block x ++ []) as E
    by (unfold pre, stat_payload; repeat (rewrite <- app_assoc; cbn [app]); by rewrite app_nil_r).
  rewrite E. pose proof (len_nonneg (pre ++ [it_pad x])). pose proof (len_nonneg (it_block x)).
  rewrite slice_ok by (rewrite ?(len_app _ (_ ++ [])), ?(len_app _ []), ?len_nil; lia).
  cbn [mbind outcome_bind].
  rewrite sub_app_mid by (rewrite ?(len_app _ (_ ++ [])), ?(len_app _ []), ?len_nil; lia).
  by rewrite it_block_parse by done.
Qed.

End enumerate.
