(* ===== verification/SessionSpec.v ===== *)
(** * Sessions and volumes: what the operations guarantee

    The theorems on session.go: version choice, the operations against any
    server that the connection answers for ([Served]), their errors, and the
    enumeration of a whole directory in batches. *)

From stdpp Require Import sorting.
From S2P Require Import Prelude Header Result Wire Entry ServerInfo Conn Transport Session.

Open Scope go_scope.

(** ** Operations on a served connection *)

Section served.
Context {W St : Type} `{Transport W} {serve : server St} `{!Served W St serve}.

(** The connection is ready, with the server in state [st] and quantum [q]. *)
Definition at_state (st : St) (q : Z) (w : W) : Prop :=
  sv_ready w ∧ sv_state w = st ∧ t_quantum w = q.

Lemma command_served ctx payload w st q code rp st' :
  at_state st q w → live ctx = true →
  serve CmdCommand 0 payload st = (code, rp, st') →
  ∃ w', command ctx payload w = Ret (Ok (rp, i32 code), w') ∧ at_state st' q w'.
Proof.
  intros (Hr&<-&<-) Hl E.
  destruct (sv_request ctx CmdCommand 0 payload w code rp st' Hr Hl) as (w'&h&Eq&<-&?&?&?); [by cbv| done|].
  exists w'. split; [|done]. unfold command. by erewrite try_bind_ok by exact Eq.
Qed.

Lemma commandWrite_served ctx off payload w st q code rp st' :
  at_state st q w → live ctx = true →
  serve CmdWrite off payload st = (code, rp, st') →
  ∃ w', commandWrite ctx off payload w = Ret (Ok (rp, i32 code), w') ∧ at_state st' q w'.
Proof.
  intros (Hr&<-&<-) Hl E.
  destruct (sv_request ctx CmdWrite off payload w code rp st' Hr Hl) as (w'&h&Eq&<-&?&?&?); [by cbv| done|].
  exists w'. split; [|done]. unfold commandWrite. by erewrite try_bind_ok by exact Eq.
Qed.

Lemma invoke_served ctx op payload w st q code rp st' :
  at_state st q w → live ctx = true →
  serve CmdCommand 0 payload st = (code, rp, st') →
  ∃ w', invoke ctx op payload w = Ret (resultErr op (i32 code), w') ∧ at_state st' q w'.
Proof.
  intros Hw Hl E. destruct (command_served _ _ _ _ _ _ _ _ Hw Hl E) as (w'&Eq&?).
  exists w'. split; [|done]. unfold invoke. by erewrite try_bind_ok by exact Eq.
Qed.

Lemma query_served ctx op payload w st q code rp st' :
  at_state st q w → live ctx = true →
  serve CmdCommand 0 payload st = (code, rp, st') →
  ∃ w', query ctx op payload w
    = Ret (if bool_decide (i32 code = ResNoErr) then Ok rp else Err (EAfp op (i32 code)), w')
    ∧ at_state st' q w'.
Proof.
  intros Hw Hl E. destruct (command_served _ _ _ _ _ _ _ _ Hw Hl E) as (w'&Eq&?).
  exists w'. split; [|done]. unfold query. erewrite try_bind_ok by exact Eq.
  unfold resultErr. by case_bool_decide.
Qed.

Lemma query_served_ok ctx op payload w st q rp st' :
  at_state st q w → live ctx = true →
  serve CmdCommand 0 payload st = (0, rp, st') →
  ∃ w', query ctx op payload w = Ret (Ok rp, w') ∧ at_state st' q w'.
Proof.
  intros Hw Hl E. destruct (query_served ctx op _ _ _ _ _ _ _ Hw Hl E) as (w'&Eq&?).
  rewrite bool_decide_eq_true_2 in Eq by done. by eauto.
Qed.

End served.

(** The server laws of this file are about one transport and its server. *)
Arguments at_state {W St _ serve _} st q w.

(** ** Enumeration

    A directory as the server shows it: the entries from [start] on, in
    batches of one entry or more, and the end past the last one. *)

Section directory.
Context {W St : Type} `{Transport W} {serve : server St} `{!Served W St serve} `{Norm}.
Context (v : Volume) (dirID : Z) (path : bytes).

Definition end_of_dir (code : Z) (rp : bytes) : Prop :=
  i32 code = ResObjectNotFound ∨
  code = 0 ∧ ∃ tail, rp = enumerate_payload (entryBitmaps v).1 (entryBitmaps v).2 [] tail.

Definition some_batch (dir : list item) (start : Z) (code : Z) (rp : bytes) : Prop :=
  code = 0 ∧ ∃ n tail, 1 ≤ n < 2 ^ 16 ∧ start - 1 + n ≤ len dir ∧
    rp = enumerate_payload (entryBitmaps v).1 (entryBitmaps v).2
           (sub dir (start - 1) (start - 1 + n)) tail.

Definition serves_dir (dir : list item) (st : St) : Prop :=
  ∀ start, 1 ≤ start < 2 ^ 32 → ∃ code rp,
    serve CmdCommand 0 (enumerate_request v dirID start path) st = (code, rp, st) ∧
    if bool_decide (start ≤ len dir) then some_batch dir start code rp else end_of_dir code rp.

Definition dir_ok (dir : list item) : Prop :=
  Forall (item_ok (entryBitmaps v).1 (entryBitmaps v).2) dir ∧ len dir < 2 ^ 32 - 1.

Lemma entryBitmaps_range :
  0 ≤ (entryBitmaps v).1 < 2 ^ 16 ∧ 0 ≤ (entryBitmaps v).2 < 2 ^ 16.
Proof. unfold entryBitmaps. destruct (SupportsUnixPrivs v); by cbv. Qed.

Definition dir_entries (dir : list item) : list DirEntry :=
  item_entry (entryBitmaps v).1 (entryBitmaps v).2 <$> dir.

Lemma parse_batch items tail :
  Forall (item_ok (entryBitmaps v).1 (entryBitmaps v).2) items → len items < 2 ^ 16 →
  parseEnumerateReply (enumerate_payload (entryBitmaps v).1 (entryBitmaps v).2 items tail)
  = Ret (Ok (dir_entries items)).
Proof.
  intros. destruct entryBitmaps_range. by apply parseEnumerateReply_payload.
Qed.

Lemma ReadDir_loop_complete fuel ctx w st q dir (n : nat) :
  at_state st q w → live ctx = true → serves_dir dir st → dir_ok dir →
  (n ≤ length dir)%nat → (length dir - n < fuel)%nat →
  ∃ w', ReadDir_loop fuel v ctx dirID path (Z.of_nat n + 1) (dir_entries (take n dir)) w
    = Ret (Ok (dir_entries dir), w') ∧ at_state st q w'.
Proof.
  intros Hw Hl Hd [Hok Hlen]. revert n w Hw. induction fuel as [|fuel IH]; intros n w Hw Hn Hf; [lia|].
  destruct (Hd (Z.of_nat n + 1)) as (code&rp&E&Hc); [unfold len in Hlen; lia|].
  destruct (command_served _ _ _ _ _ _ _ _ Hw Hl E) as (w'&Eq&Hw').
  cbn [ReadDir_loop]. erewrite try_bind_ok by exact Eq. cbn beta iota.
  case_bool_decide as Hs.
  - destruct Hc as (->&k&tail&Hk&Hb&->). unfold len in Hs, Hb.
    set (items := sub dir _ _).
    assert (len items = k) as Hi by (unfold items; rewrite len_sub; unfold len; lia).
    rewrite bool_decide_eq_false_2 by done.
    assert (take n dir ++ items = take (n + Z.to_nat k) dir) as Ht.
    { unfold items, sub. rewrite <- take_take_drop. f_equal. f_equal; [lia|]. f_equal. lia. }
    erewrite try_bind_ok by done.
    erewrite try_bind_ok by (unfold lift; rewrite parse_batch; [done| |lia];
      apply Forall_take, Forall_drop, Hok).
    assert (len (dir_entries items) = k) as Hl' by (unfold dir_entries, len; by rewrite length_fmap).
    rewrite bool_decide_eq_false_2 by lia. rewrite Hl', (wrap_small 32 k) by lia.
    rewrite wrap_small by (unfold len in Hlen; lia).
    unfold dir_entries at 1 2. rewrite <- fmap_app, Ht.
    replace (Z.of_nat n + 1 + k) with (Z.of_nat (n + Z.to_nat k) + 1) by lia.
    apply IH; [done|lia|lia].
  - unfold len in Hs. assert (n = length dir) as -> by lia. rewrite take_ge by done.
    destruct Hc as [->|(->&tail&->)]; [by rewrite bool_decide_eq_true_2; eauto|].
    rewrite bool_decide_eq_false_2 by done. erewrite try_bind_ok by done.
    erewrite try_bind_ok by (unfold lift; by rewrite parse_batch). cbn. by eauto.
Qed.

End directory.

(** ** Versions *)

Lemma offered_set (offered : list bytes) h v :
  v ∈ foldl (λ (h : gset bytes) v, {[ v ]} ∪ h) h offered ↔ v ∈ offered ∨ v ∈ h.
Proof.
  revert h. induction offered as [|u offered IH]; intros h; cbn [foldl]; [set_solver|].
  rewrite IH. set_solver.
Qed.

(** The first element of a list that passes a test, by position. *)
Lemma find_first {A} (f : A → bool) l x :
  find f l = Some x ↔
  ∃ i, l !! i = Some x ∧ f x = true ∧ ∀ j y, (j < i)%nat → l !! j = Some y → f y = false.
Proof.
  induction l as [|a l IH]; cbn.
  { split; [done|]. by intros (i&?&_). }
  destruct (f a) eqn:Ea.
  - split.
    + intros [= <-]. exists 0%nat. split_and!; try done. intros; lia.
    + intros ([|i]&Hi&Hf&Hj); [done|]. specialize (Hj 0%nat a ltac:(lia) eq_refl). congruence.
  - rewrite IH. split.
    + intros (i&Hi&Hf&Hj). exists (S i). split_and!; try done.
      intros [|j] y Hlt Hy; cbn in Hy; [congruence|]. apply (Hj j); [lia|done].
    + intros ([|i]&Hi&Hf&Hj); cbn in Hi; [congruence|]. exists i. split_and!; try done.
      intros j y Hlt Hy. apply (Hj (S j)); [lia|done].
Qed.

(** ** A directory server for the examples

    It decodes the start index of the request and sends batches of two. *)
Definition dir_server (v : Volume) (dir : list item) : server unit := λ _ _ payload st,
  let start := be_Z (sub payload 14 18) in
  if bool_decide (start ≤ len dir) then
    (0, enumerate_payload (entryBitmaps v).1 (entryBitmaps v).2
          (sub dir (start - 1) (Z.min (start + 1) (len dir))) [], st)
  else (u32 ResObjectNotFound, [], st).

Lemma enumerate_request_start `{Norm} v dirID start path :
  0 ≤ start < 2 ^ 32 → be_Z (sub (enumerate_request v dirID start path) 14 18) = start.
Proof.
  intros Hs. unfold enumerate_request. destruct (entryBitmaps v) as [fb db].
  unfold w_u8, w_u16, w_u32 at 2 3. rewrite w_path_layout. unfold w_u32 at 1.
  rewrite <- (app_assoc _ (be_bytes 4 enumerateReplySize)).
  rewrite <- (app_assoc _ (be_bytes 4 start)).
  rewrite sub_app_mid; [by apply be_Z_be_bytes| |].
  all: rewrite ?len_app, ?len_be_bytes; unfold w_u32; rewrite ?len_app, ?len_be_bytes; done.
Qed.

Lemma dir_server_serves `{Norm} v dirID path dir :
  serves_dir (serve := dir_server v dir) v dirID path dir tt.
Proof.
  intros start Hs. unfold dir_server. rewrite enumerate_request_start by lia.
  case_bool_decide as Hb; do 2 eexists; (split; [done|]); [|by left].
  split; [done|]. exists (Z.min (start + 1) (len dir) - (start - 1)), [].
  split_and!; try lia. do 2 f_equal. lia.
Qed.

#[global] Instance plain_norm : Norm := {| NFD := id; NFC := id |}.

Definition sample_item (kind : byte) (name : bytes) : item :=
  MkItem kind x00 (sample_params (replicate 32 x00) name) [].

Definition sample_volume : Volume := MkVolume 1 (str "Data") 0x20.

Definition sample_dir : list item :=
  [sample_item x00 (str "a.txt"); sample_item x80 (str "sub"); sample_item x00 (str "z")].

(** ** Properties *)

(** C18: enumeration is complete and exact: against a server that shows a
    directory of up to 2^32 - 2 entries in batches of whatever sizes, and says
    that the object is not found (or sends an empty batch) past the last one,
    [ReadDir] ends within one round per entry and returns every entry once, in
    the server's order, decoded. *)
Theorem ReadDir_complete {W St : Type} `{Transport W} {serve : server St} `{!Served W St serve}
    `{Norm} v dirID path fuel ctx w st q dir :
  at_state (serve := serve) st q w → live ctx = true →
  serves_dir (serve := serve) v dirID path dir st → dir_ok v dir → (length dir < fuel)%nat →
  ∃ w', ReadDir fuel v ctx dirID path w = Ret (Ok (dir_entries v dir), w') ∧
    at_state (serve := serve) st q w'.
Proof.
  intros Hw Hl Hd Hok Hf.
  exact (ReadDir_loop_complete v dirID path fuel ctx w st q dir 0 Hw Hl Hd Hok
           (Nat.le_0_l _) ltac:(lia)).
Qed.

Lemma ReadDir_complete_witness :
  ∃ l w', @ReadDir unit (direct_transport (dir_server sample_volume sample_dir) 0) plain_norm
      4 sample_volume Background RootDirID (str "/docs") tt = Ret (Ok l, w') ∧
    (e_Name <$> l) = [str "a.txt"; str "sub"; str "z"] ∧ (e_IsDir <$> l) = [false; true; false].
Proof.
  pose (T := direct_transport (dir_server sample_volume sample_dir) 0).
  pose (S := direct_served (dir_server sample_volume sample_dir) 0).
  destruct (@ReadDir_complete unit unit T (dir_server sample_volume sample_dir) S plain_norm
    sample_volume RootDirID (str "/docs") 4 Background tt tt 0 sample_dir) as (w'&E&_).
  - split; [exact I|]. split; reflexivity.
  - reflexivity.
  - apply dir_server_serves.
  - split; [|reflexivity]. repeat constructor; vm_compute; congruence.
  - vm_compute. repeat constructor.
  - do 2 eexists. split; [exact E|]. split; vm_compute; reflexivity.
Defined.

(** A volume list is returned whole and sorted: when the server lists up to
    255 volumes, [ListVolumes] returns exactly them, with their password flags,
    in ascending byte order of their names. *)
Theorem ListVolumes_sorted {W St : Type} `{Transport W} {serve : server St} `{!Served W St serve}
    ctx w st q st' time l :
  at_state (serve := serve) st q w → live ctx = true →
  serve CmdCommand 0 [byte_of_Z cmdGetSrvrParms; x00] st = (0, volumes_payload time l, st') →
  Forall (λ v, len v.2 ≤ 255) l → len l ≤ 255 →
  ∃ vols w', ListVolumes ctx w = Ret (Ok vols, w') ∧ at_state (serve := serve) st' q w' ∧
    vols ≡ₚ (volume_of <$> l) ∧ Sorted vol_le vols.
Proof.
  intros Hw Hl E Hn Hlen.
  destruct (query_served_ok ctx (str "list volumes") _ _ _ _ _ _ Hw Hl E) as (w'&Eq&?).
  exists (merge_sort vol_le (volume_of <$> l)), w'. split_and!; try done.
  - unfold ListVolumes. erewrite try_bind_ok by exact Eq. unfold lift.
    by rewrite parse_volumes_payload.
  - apply merge_sort_Permutation.
  - apply Sorted_merge_sort. apply _.
Qed.

Definition volume_server : server unit := λ _ _ _ st,
  (0, volumes_payload 0 [(0, str "Music"); (0x80, str "Backup")], st).

Lemma ListVolumes_sorted_witness :
  ∃ vols w', @ListVolumes unit (direct_transport volume_server 0) Background tt = Ret (Ok vols, w') ∧
    Sorted vol_le vols ∧
    vols ≡ₚ [MkVolumeInfo (str "Music") false; MkVolumeInfo (str "Backup") true].
Proof.
  destruct (@ListVolumes_sorted unit unit (direct_transport volume_server 0) volume_server
    (direct_served volume_server 0) Background tt tt 0 tt 0 [(0, str "Music"); (0x80, str "Backup")])
    as (vols&w'&E&_&Hp&Hs).
  - split; [exact I|]. split; reflexivity.
  - reflexivity.
  - reflexivity.
  - repeat constructor; vm_compute; congruence.
  - vm_compute. congruence.
  - exists vols, w'. split; [exact E|]. split; [exact Hs|exact Hp].
Defined.

(** The reply of FPOpenVol: the bitmap, and the two parameters it names. *)
Definition open_vol_payload (bm attributes id : Z) (tail : bytes) : bytes :=
  be_bytes 2 bm ++ opt (has bm kFPVolAttributeBit) (be_bytes 2 attributes) ++
  opt (has bm kFPVolIDBit) (be_bytes 2 id) ++ tail.

Lemma parse_open_vol_at name bm attributes id tail :
  0 ≤ bm < 2 ^ 16 →
  ∃ r, parse_open_vol name (new_reader (open_vol_payload bm attributes id tail))
  = Ret (Ok (MkVolume (if has bm kFPVolIDBit then u16 id else 0) name
              (if has bm kFPVolAttributeBit then u16 attributes else 0)), r).
Proof.
  intros Hb. unfold parse_open_vol, open_vol_payload, opt. rewrite new_reader_at.
  rd_step. rewrite wrap_small by done.
  destruct (has bm kFPVolAttributeBit), (has bm kFPVolIDBit);
    repeat first [rd_step | erewrite M_bind_ret by done]; by eexists.
Qed.

Lemma Stat_served {W St : Type} `{Transport W} {serve : server St} `{!Served W St serve} `{Norm}
    ctx v dirID path fbm dbm x w st q st' :
  at_state (serve := serve) st q w → live ctx = true →
  0 ≤ fbm < 2 ^ 16 → 0 ≤ dbm < 2 ^ 16 → item_ok fbm dbm x →
  serve CmdCommand 0 (stat_request v dirID path) st = (0, stat_payload fbm dbm x, st') →
  ∃ w', Stat v ctx dirID path w = Ret (Ok (item_entry fbm dbm x), w') ∧ at_state (serve := serve) st' q w'.
Proof.
  intros Hw Hl Hf Hd [Hp _] E.
  destruct (query_served_ok ctx (str "stat " ++ path) _ _ _ _ _ _ Hw Hl E) as (w'&Eq&?).
  exists w'. split; [|done]. unfold Stat. erewrite try_bind_ok by exact Eq.
  unfold lift. by rewrite parse_stat_payload.
Qed.

(** Opening a volume and looking up an object return what the server holds:
    [OpenVolume] the attributes and id that the reply's bitmap announces (zero
    where it announces none), and [Stat] the entry that the reply's parameter
    block stands for, file or directory, for the bitmaps of the reply. *)
Theorem OpenVolume_Stat_exact {W St : Type} `{Transport W} {serve : server St}
    `{!Served W St serve} `{Norm} ctx w st q st' :
  at_state (serve := serve) st q w → live ctx = true →
  (∀ name bm attributes id tail,
     0 ≤ bm < 2 ^ 16 →
     serve CmdCommand 0 (open_vol_request name) st = (0, open_vol_payload bm attributes id tail, st') →
     ∃ w', OpenVolume ctx name w
       = Ret (Ok (MkVolume (if has bm kFPVolIDBit then u16 id else 0) name
                    (if has bm kFPVolAttributeBit then u16 attributes else 0)), w') ∧
       at_state (serve := serve) st' q w') ∧
  (∀ v dirID path fbm dbm x,
     0 ≤ fbm < 2 ^ 16 → 0 ≤ dbm < 2 ^ 16 → item_ok fbm dbm x →
     serve CmdCommand 0 (stat_request v dirID path) st = (0, stat_payload fbm dbm x, st') →
     ∃ w', Stat v ctx dirID path w = Ret (Ok (item_entry fbm dbm x), w') ∧
       at_state (serve := serve) st' q w').
Proof.
  intros Hw Hl. split.
  - intros name bm attributes id tail Hb E.
    destruct (query_served_ok ctx (str "open volume " ++ name) _ _ _ _ _ _ Hw Hl E) as (w'&Eq&?).
    exists w'. split; [|done]. unfold OpenVolume. erewrite try_bind_ok by exact Eq.
    destruct (parse_open_vol_at name bm attributes id tail Hb) as (r&Er).
    unfold reading. erewrite M_bind_ret by (unfold lift; by rewrite Er). done.
  - intros v dirID path fbm dbm x Hf Hd Hp E. by apply Stat_served with st.
Qed.

Definition open_server : server unit := λ _ _ _ st, (0, open_vol_payload 0x21 0x60 7 [], st).

Lemma OpenVolume_Stat_exact_witness :
  ∃ w', @OpenVolume unit (direct_transport open_server 0) Background (str "Data") tt
    = Ret (Ok (MkVolume 7 (str "Data") 0x60), w').
Proof.
  destruct (@OpenVolume_Stat_exact unit unit (direct_transport open_server 0) open_server
    (direct_served open_server 0) plain_norm Background tt tt 0 tt) as [H _].
  - split; [exact I|]. split; reflexivity.
  - reflexivity.
  - destruct (H (str "Data") 0x21 0x60 7 []) as (w'&E&_).
    + split; [vm_compute; congruence | reflexivity].
    + reflexivity.
    + exists w'. exact E.
Defined.

(** No reply can crash the client: for every payload the parsers of the
    server information, the volume list, the opened volume, the enumeration and
    the parameters of an object return a value or an error, never a panic. *)
Theorem session_replies_total `{Norm} payload name isDir bitmap :
  (∃ res, ParseServerInfo payload = Ret res) ∧
  (∃ e er, parseEntryParams payload isDir bitmap = Ret (e, er)) ∧
  (∃ res, parse_volumes payload = Ret res) ∧
  (∃ res r, parse_open_vol name (new_reader payload) = Ret (res, r)) ∧
  (∃ res, parseEnumerateReply payload = Ret res) ∧
  (∃ res, parse_stat payload = Ret res).
Proof.
  split; [apply ParseServerInfo_total|]. split; [apply parseEntryParams_total|].
  split; [apply parse_volumes_total|].
  split; [|split; [apply parseEnumerateReply_total | apply parse_stat_total]].
  destruct (rsafe_run _ _ payload (rsafe_parse_open_vol name)) as (a&r&E&_). by eauto.
Qed.

(** Version negotiation picks the best common version: [pickVersion]
    returns a version exactly when it is the first of the client's preference
    list that the server offers, and fails exactly when it offers none. *)
Theorem pickVersion_best offered :
  (∀ v, pickVersion offered = Ok v ↔
     ∃ i, versionPreference !! i = Some v ∧ v ∈ offered ∧
       ∀ j u, (j < i)%nat → versionPreference !! j = Some u → u ∉ offered) ∧
  ((∃ e, pickVersion offered = Err e) ↔ ∀ v, v ∈ versionPreference → v ∉ offered).
Proof.
  unfold pickVersion.
  set (have := foldl (λ (h : gset bytes) v, {[ v ]} ∪ h) ∅ offered).
  assert (∀ v, v ∈ have ↔ v ∈ offered) as Hh by (intros; unfold have; rewrite offered_set; set_solver).
  split.
  - intros v. transitivity (find (λ v, bool_decide (v ∈ have)) versionPreference = Some v).
    { destruct (find _ _); naive_solver. }
    rewrite find_first. split; intros (i&Hi&Hv&Hj); exists i.
    + rewrite bool_decide_eq_true, Hh in Hv. split_and!; try done. intros j u Hlt Hu.
      specialize (Hj j u Hlt Hu). by rewrite bool_decide_eq_false, Hh in Hj.
    + rewrite bool_decide_eq_true, Hh. split_and!; try done. intros j u Hlt Hu.
      rewrite bool_decide_eq_false, Hh. by eapply Hj.
  - split.
    + intros (e&He) v Hv Ho. destruct (find _ _) eqn:E; [done|].
      eapply List.find_none in E; [|by apply list_elem_of_In]. cbn in E.
      apply bool_decide_eq_false in E. by apply E, Hh.
    + intros Hn. destruct (find _ _) as [u|] eqn:E; [|by eauto].
      apply List.find_some in E as [Hu Hb]. apply bool_decide_eq_true in Hb.
      exfalso. by apply (Hn u); [apply list_elem_of_In | apply Hh].
Qed.

(** A volume list that is cut off before its count passes for an empty one:
    for a successful reply of at most four bytes, [ListVolumes] reports no
    volumes and no error, where any longer truncation is an error. *)
Theorem ListVolumes_truncated {W St : Type} `{Transport W} {serve : server St}
    `{!Served W St serve} ctx w st q st' rp :
  at_state (serve := serve) st q w → live ctx = true → len rp ≤ 4 →
  serve CmdCommand 0 [byte_of_Z cmdGetSrvrParms; x00] st = (0, rp, st') →
  ∃ w', ListVolumes ctx w = Ret (Ok [], w').
Proof.
  intros Hw Hl Hlen E.
  destruct (query_served_ok ctx (str "list volumes") _ _ _ _ _ _ Hw Hl E) as (w'&Eq&?).
  exists w'. unfold ListVolumes. erewrite try_bind_ok by exact Eq. unfold lift.
  do 5 (destruct rp as [|? rp]; [by vm_compute|]). rewrite !len_cons in Hlen.
  pose proof (len_nonneg rp). lia.
Qed.

Definition short_server : server unit := λ _ _ _ st, (0, str "1234", st).

Lemma ListVolumes_truncated_witness :
  ∃ w', @ListVolumes unit (direct_transport short_server 0) Background tt = Ret (Ok [], w').
Proof.
  apply (@ListVolumes_truncated unit unit (direct_transport short_server 0) short_server
    (direct_served short_server 0) Background tt tt 0 tt (str "1234")).
  - split; [exact I|]. split; reflexivity.
  - reflexivity.
  - vm_compute. congruence.
  - reflexivity.
Defined.
