(* ===== verification/Errgroup.v ===== *)
(** * Groups of goroutines (golang.org/x/sync/errgroup)

    The group is outside the program, so it is a parameter, [eg_wait], with its
    documented behaviour as a law.  A group runs every task; the first error
    cancels the derived context and is what [Wait] returns.  Every task of the
    program makes one request and then writes a variable that no other task
    uses, so the interleavings that matter are the orders of the requests:
    the law says that a group behaves like its tasks in some order, which is
    not known beforehand. *)

From S2P Require Import Prelude Transport.

Open Scope go_scope.

(** The function given to [Go], with the group's derived context. *)
Definition task (S : Type) : Type := Ctx → M S (option error).

(** [errgroup.WithContext(ctx)], [SetLimit], one [Go] per task, [Wait]. *)
Class Errgroup : Type := {
  eg_wait : ∀ {S : Type}, Ctx → Z → list (task S) → M S (option error);
}.

(** The tasks one after the other; [err] is the first error so far. *)
Fixpoint run_tasks {S} (ctx : Ctx) (ts : list (task S)) (err : option error) : M S (option error) :=
  match ts with
  | [] => mret err
  | t :: ts' =>
    e ← t (WithCancel ctx (bool_decide (is_Some err)));
    run_tasks ctx ts' (match err with Some _ => err | None => e end)
  end.

(** A group with a positive limit behaves like its tasks in some order.  (A
    limit of zero blocks the first [Go] for ever.) *)
Class ErrgroupLaw `{Errgroup} : Prop :=
  eg_law : ∀ (S : Type) ctx limit (tasks : list (task S)) s, 0 < limit →
    ∃ ts, ts ≡ₚ tasks ∧ eg_wait ctx limit tasks s = run_tasks ctx ts None s.

(** ** Two groups that keep the law, for the examples *)

#[global] Instance in_order : Errgroup := {| eg_wait S ctx _ ts := run_tasks ctx ts None |}.
#[global] Instance in_order_law : ErrgroupLaw (H := in_order).
Proof. intros S ctx limit tasks s _. by exists tasks. Qed.

Definition last_first : Errgroup := {| eg_wait S ctx _ ts := run_tasks ctx (reverse ts) None |}.
Lemma last_first_law : ErrgroupLaw (H := last_first).
Proof. intros S ctx limit tasks s _. exists (reverse tasks). split; [apply reverse_Permutation | done]. Qed.

(** ** Components of a state *)

Definition zoom1 {S T A} (m : M S A) : M (S * T) A := λ st,
  match m st.1 with
  | Ret (a, s') => Ret (a, (s', st.2))
  | Panics => Panics
  | NoFuel => NoFuel
  end.

Definition zoom2 {S T A} (m : M T A) : M (S * T) A := λ st,
  match m st.2 with
  | Ret (a, t') => Ret (a, (st.1, t'))
  | Panics => Panics
  | NoFuel => NoFuel
  end.

Lemma zoom1_ret {S T A} (m : M S A) s (t : T) a s' :
  m s = Ret (a, s') → zoom1 m (s, t) = Ret (a, (s', t)).
Proof. unfold zoom1. cbn. by intros ->. Qed.

Lemma zoom2_ret {S T A} (m : M T A) (s : S) t a t' :
  m t = Ret (a, t') → zoom2 m (s, t) = Ret (a, (s, t')).
Proof. unfold zoom2. cbn. by intros ->. Qed.

(** ** Tasks with a slot of their own

    [slot_task i m] runs [m] in the world and, when it yields a value, puts it
    into slot [i] of the variables that the tasks share. *)
Definition slot_task {W B} (i : nat) (m : Ctx → M W (option B * option error)) : task (W * list B) :=
  λ ctx,
    '(b, e) ← zoom1 (m ctx);
    _ ← zoom2 (modify (λ slots, match b with Some b => <[i := b]> slots | None => slots end));
    mret e.

Definition slot_tasks {W B} (ms : list (Ctx → M W (option B * option error))) : list (task (W * list B)) :=
  imap slot_task ms.

(** A group whose tasks have the variables [slots]: the error that [Wait]
    returns and the variables afterwards. *)
Definition group `{Errgroup} {W B} (ctx : Ctx) (limit : Z)
    (ms : list (Ctx → M W (option B * option error))) (slots : list B) : M W (option error * list B) :=
  λ w, match eg_wait ctx limit (slot_tasks ms) (w, slots) with
       | Ret (e, (w', slots')) => Ret ((e, slots'), w')
       | Panics => Panics
       | NoFuel => NoFuel
       end.

Section slots.
Context {W B St : Type} (I : St → W → Prop) (stepf : nat → St → St) (res : nat → B).

(** A task that succeeds in every world that [I] describes. *)
Definition succeeds (i : nat) (m : Ctx → M W (option B * option error)) : Prop :=
  ∀ ctx st w, live ctx = true → I st w →
    ∃ w', m ctx w = Ret ((Some (res i), None), w') ∧ I (stepf i st) w'.

Lemma run_slot_tasks ctx (l : list (nat * (Ctx → M W (option B * option error)))) st w slots :
  live ctx = true → Forall (λ p, succeeds p.1 p.2) l → I st w →
  ∃ w', run_tasks ctx (uncurry slot_task <$> l) None (w, slots)
    = Ret (None, (w', foldl (λ sl i, <[i := res i]> sl) slots l.*1)) ∧
    I (foldl (λ st i, stepf i st) st l.*1) w'.
Proof.
  intros Hc. revert st w slots. induction l as [|[i m] l IH]; intros st w slots Hl Hw; [by exists w|].
  apply Forall_cons in Hl as [Hm Hl]. cbn [fst snd] in Hm.
  destruct (Hm (WithCancel ctx false) st w) as (w1&E&Hw1); [by cbn|done|].
  destruct (IH (stepf i st) w1 (<[i := res i]> slots) Hl Hw1) as (w'&E'&Hw').
  exists w'. split; [|done]. rewrite fmap_cons. cbn [run_tasks].
  erewrite M_bind_ret; [exact E'|]. cbn [uncurry]. unfold slot_task.
  erewrite M_bind_ret by (by apply zoom1_ret). done.
Qed.

(** A task in a world where things can break: it succeeds and [I] still holds,
    or it fails and [D] holds; once that holds, it holds whatever the other
    tasks do. *)
Definition may_fail (D : W → Prop) (i : nat) (m : Ctx → M W (option B * option error)) : Prop :=
  (∀ ctx st w, live ctx = true → I st w →
     (∃ w', m ctx w = Ret ((Some (res i), None), w') ∧ I (stepf i st) w') ∨
     (∃ b e w', m ctx w = Ret ((b, Some e), w') ∧ D w')) ∧
  (∀ ctx w, D w → ∃ b e w', m ctx w = Ret ((b, e), w') ∧ D w').

Lemma slot_task_ret i (m : Ctx → M W (option B * option error)) ctx w slots b e w' :
  m ctx w = Ret ((b, e), w') →
  slot_task i m ctx (w, slots)
    = Ret (e, (w', match b with Some b => <[i := b]> slots | None => slots end)).
Proof.
  intros E. unfold slot_task. erewrite M_bind_ret by (by apply zoom1_ret). cbn beta iota. by destruct b.
Qed.

Lemma run_slot_tasks_broken (D : W → Prop) ctx (l : list (nat * (Ctx → M W (option B * option error)))) e0 w slots :
  Forall (λ p, may_fail D p.1 p.2) l → D w →
  ∃ w' slots', run_tasks ctx (uncurry slot_task <$> l) (Some e0) (w, slots) = Ret (Some e0, (w', slots')) ∧ D w'.
Proof.
  revert w slots. induction l as [|[i m] l IH]; intros w slots Hl Hw; [by exists w, slots|].
  apply Forall_cons in Hl as [[_ Hm] Hl]. cbn [fst snd] in Hm.
  rewrite fmap_cons. cbn [run_tasks]. cbn [uncurry].
  destruct (Hm (WithCancel ctx (bool_decide (is_Some (Some e0)))) w Hw) as (b&e&w1&E&Hw1).
  destruct (IH w1 (match b with Some b => <[i := b]> slots | None => slots end) Hl Hw1) as (w'&sl&E'&?).
  exists w', sl. split; [|done]. erewrite M_bind_ret by (by apply slot_task_ret). exact E'.
Qed.

Lemma run_slot_tasks_may_fail (D : W → Prop) ctx (l : list (nat * (Ctx → M W (option B * option error)))) st w slots :
  live ctx = true → Forall (λ p, may_fail D p.1 p.2) l → I st w →
  (∃ w', run_tasks ctx (uncurry slot_task <$> l) None (w, slots)
     = Ret (None, (w', foldl (λ sl i, <[i := res i]> sl) slots l.*1)) ∧
     I (foldl (λ st i, stepf i st) st l.*1) w') ∨
  (∃ e w' slots', run_tasks ctx (uncurry slot_task <$> l) None (w, slots) = Ret (Some e, (w', slots')) ∧ D w').
Proof.
  intros Hc. revert st w slots. induction l as [|[i m] l IH]; intros st w slots Hl Hw; [left; by exists w|].
  apply Forall_cons in Hl as [Hm Hl]. cbn [fst snd] in Hm.
  rewrite fmap_cons. cbn [run_tasks]. cbn [uncurry].
  destruct (proj1 Hm (WithCancel ctx false) st w) as [(w1&E&Hw1)|(b&e&w1&E&Hw1)]; [by cbn|done|..].
  - destruct (IH (stepf i st) w1 (<[i := res i]> slots) Hl Hw1) as [(w'&E'&?)|(e&w'&sl&E'&?)];
      [left; exists w'|right; exists e, w', sl]; (split; [|done]);
      (erewrite M_bind_ret by (apply slot_task_ret; exact E)); exact E'.
  - right. destruct (run_slot_tasks_broken D ctx l e w1
      (match b with Some b => <[i := b]> slots | None => slots end) Hl Hw1) as (w'&sl&E'&?).
    exists e, w', sl. split; [|done].
    erewrite M_bind_ret by (apply slot_task_ret; exact E). exact E'.
Qed.

Lemma foldl_slots_length (l : list nat) slots :
  length (foldl (λ sl i, <[i := res i]> sl) slots l) = length slots.
Proof. revert slots. induction l as [|i l IH]; intros slots; cbn; [done|]. by rewrite IH, length_insert. Qed.

Lemma foldl_slots_lookup (l : list nat) slots j :
  (j < length slots)%nat →
  foldl (λ sl i, <[i := res i]> sl) slots l !! j
  = if bool_decide (j ∈ l) then Some (res j) else slots !! j.
Proof.
  revert slots. induction l as [|i l IH]; intros slots Hj; cbn [foldl]; [done|].
  rewrite IH by (by rewrite length_insert).
  destruct (decide (j ∈ l)); [rewrite !bool_decide_eq_true_2; [done|by right|done]|].
  rewrite bool_decide_eq_false_2 by done. destruct (decide (j = i)) as [->|].
  - rewrite bool_decide_eq_true_2 by left. by rewrite list_lookup_insert_eq.
  - rewrite bool_decide_eq_false_2 by (by intros [->|]%elem_of_cons). by rewrite list_lookup_insert_ne.
Qed.

(** The tasks of a group, numbered, in the order that the group gives them. *)
Lemma group_order `{ErrgroupLaw} ctx limit (ms : list (Ctx → M W (option B * option error))) slots w :
  0 < limit →
  ∃ l, l.*1 ≡ₚ seq 0 (length ms) ∧ (∀ i m, (i, m) ∈ l → ms !! i = Some m) ∧
    eg_wait ctx limit (slot_tasks ms) (w, slots) = run_tasks ctx (uncurry slot_task <$> l) None (w, slots).
Proof.
  intros Hl. destruct (eg_law _ ctx limit (slot_tasks ms) (w, slots) Hl) as (ts&Hp&E).
  unfold slot_tasks in Hp.
  assert (imap slot_task ms = uncurry slot_task <$> imap pair ms) as Ei.
  { rewrite fmap_imap. apply imap_ext. done. }
  rewrite Ei in Hp. apply Permutation_map_inv in Hp as (l&->&Hp).
  assert ((imap pair ms).*1 = seq 0 (length ms)) as Es.
  { rewrite fmap_imap. clear. induction ms as [|m ms IH] using rev_ind; [done|].
    rewrite imap_app, length_app, seq_app, IH. cbn. by rewrite Nat.add_0_r. }
  exists l. split; [by rewrite <- Hp, Es|]. split; [|exact E].
  intros i m Hi. rewrite <- Hp in Hi.
  apply list_elem_of_lookup in Hi as (j&Hj). rewrite list_lookup_imap in Hj.
  destruct (ms !! j) as [m'|] eqn:Em; [|done]. cbn in Hj. by simplify_eq.
Qed.

(** When every slot has been written, its order does not matter. *)
Lemma foldl_slots_all (l : list nat) slots n :
  l ≡ₚ seq 0 n → length slots = n → foldl (λ sl i, <[i := res i]> sl) slots l = res <$> seq 0 n.
Proof.
  intros Hord Hlen.
  apply list_eq_same_length with n; [by rewrite length_fmap, length_seq|by rewrite foldl_slots_length|].
  intros j x y Hj Hx Hy. rewrite foldl_slots_lookup in Hx by lia.
  rewrite bool_decide_eq_true_2 in Hx by (rewrite Hord; apply elem_of_seq; lia).
  rewrite list_lookup_fmap, lookup_seq_lt in Hy by lia. cbn in Hy. congruence.
Qed.

(** All tasks of a group that succeed: every slot is filled, whatever the
    order was, and the state has taken the steps in that order. *)
Lemma group_slots `{ErrgroupLaw} ctx limit ms slots st w :
  live ctx = true → 0 < limit → I st w → length slots = length ms →
  (∀ i m, ms !! i = Some m → succeeds i m) →
  ∃ order w', order ≡ₚ seq 0 (length ms) ∧
    group ctx limit ms slots w = Ret ((None, res <$> seq 0 (length ms)), w') ∧
    I (foldl (λ st i, stepf i st) st order) w'.
Proof.
  intros Hc Hl Hw Hlen Hok. destruct (group_order ctx limit ms slots w Hl) as (l&Hord&Hin&E).
  destruct (run_slot_tasks ctx l st w slots Hc) as (w'&E'&Hw'); [|done|].
  { apply Forall_forall. intros [i m] Hi. by apply Hok, Hin. }
  exists l.*1, w'. split; [done|]. split; [|done]. unfold group. rewrite E, E'.
  by rewrite (foldl_slots_all _ _ _ Hord Hlen).
Qed.

(** A group whose tasks may fail: the slots are filled, or its error says that
    something broke. *)
Lemma group_may_fail `{ErrgroupLaw} (D : W → Prop) ctx limit ms slots st w :
  live ctx = true → 0 < limit → I st w → length slots = length ms →
  (∀ i m, ms !! i = Some m → may_fail D i m) →
  (∃ order w', order ≡ₚ seq 0 (length ms) ∧
    group ctx limit ms slots w = Ret ((None, res <$> seq 0 (length ms)), w') ∧
    I (foldl (λ st i, stepf i st) st order) w') ∨
  (∃ e slots' w', group ctx limit ms slots w = Ret ((Some e, slots'), w') ∧ D w').
Proof.
  intros Hc Hl Hw Hlen Hok. destruct (group_order ctx limit ms slots w Hl) as (l&Hord&Hin&E).
  destruct (run_slot_tasks_may_fail D ctx l st w slots Hc) as [(w'&E'&Hw')|(e&w'&sl&E'&Hw')]; [|done|..].
  { apply Forall_forall. intros [i m] Hi. by apply Hok, Hin. }
  - left. exists l.*1, w'. split; [done|]. split; [|done]. unfold group. rewrite E, E'.
    by rewrite (foldl_slots_all _ _ _ Hord Hlen).
  - right. exists e, sl, w'. split; [|done]. unfold group. by rewrite E, E'.
Qed.

End slots.

(** Tasks that succeed with values that are not known beforehand: every slot
    gets one that its task may yield. *)
Section yields.
Context {W B : Type} (I : W → Prop) (Q : nat → B → Prop).

Definition yields (i : nat) (m : Ctx → M W (option B * option error)) : Prop :=
  ∀ ctx w, live ctx = true → I w → ∃ b w', m ctx w = Ret ((Some b, None), w') ∧ Q i b ∧ I w'.

Lemma run_slot_tasks_yield ctx (l : list (nat * (Ctx → M W (option B * option error)))) w slots :
  live ctx = true → Forall (λ p, yields p.1 p.2) l → I w →
  ∃ w' slots', run_tasks ctx (uncurry slot_task <$> l) None (w, slots) = Ret (None, (w', slots')) ∧ I w' ∧
    length slots' = length slots ∧
    ∀ j b, slots' !! j = Some b → Q j b ∨ j ∉ l.*1 ∧ slots !! j = Some b.
Proof.
  intros Hc. revert w slots. induction l as [|[i m] l IH]; intros w slots Hl Hw.
  { exists w, slots. split_and!; try done. intros j b Hb. right. split; [apply not_elem_of_nil|done]. }
  apply Forall_cons in Hl as [Hm Hl]. cbn [fst snd] in Hm.
  destruct (Hm (WithCancel ctx false) w) as (b&w1&E&Hb&Hw1); [by cbn|done|].
  destruct (IH w1 (<[i := b]> slots) Hl Hw1) as (w'&slots'&E'&Hw'&Hlen&Hs).
  exists w', slots'. rewrite length_insert in Hlen. split; [|split_and!; try done].
  - rewrite fmap_cons. cbn [run_tasks uncurry]. erewrite M_bind_ret by (apply slot_task_ret; exact E). exact E'.
  - intros j c Hj. destruct (Hs j c Hj) as [?|[Hn Hi]]; [by left|]. rewrite fmap_cons. cbn [fst].
    apply list_lookup_insert_Some in Hi as [(<-&<-&_)|[Hne Hi]]; [by left|].
    right. split; [by apply not_elem_of_cons|done].
Qed.

Lemma group_yields `{ErrgroupLaw} ctx limit ms slots w :
  live ctx = true → 0 < limit → I w → length slots = length ms →
  (∀ i m, ms !! i = Some m → yields i m) →
  ∃ slots' w', group ctx limit ms slots w = Ret ((None, slots'), w') ∧ I w' ∧
    length slots' = length ms ∧ ∀ i b, slots' !! i = Some b → Q i b.
Proof.
  intros Hc Hl Hw Hlen Hok. destruct (group_order ctx limit ms slots w Hl) as (l&Hord&Hin&E).
  destruct (run_slot_tasks_yield ctx l w slots Hc) as (w'&slots'&E'&Hw'&Hn&Hs); [|done|].
  { apply Forall_forall. intros [i m] Hi. by apply Hok, Hin. }
  exists slots', w'. split; [unfold group; by rewrite E, E'|]. split_and!; [done|by rewrite Hn, Hlen|].
  intros i b Hi. destruct (Hs i b Hi) as [?|[Hni _]]; [done|]. destruct Hni. rewrite Hord. apply elem_of_seq.
  apply lookup_lt_Some in Hi. lia.
Qed.

End yields.
