(* ===== verification/Fork.v ===== *)
(** * Open forks (src/internal/afp/fork.go and write.go)

    Reading and writing a file through its data fork: single chunks, the
    concurrent [ReadAt] and [WriteAt], the streams [WriteTo] and [ReadFrom]
    built on them, [Truncate].  An [int] of the program is 64 bits wide; the
    positions inside a buffer stay below its length and are plain integers,
    the file offsets are reduced where the program converts them. *)

From S2P Require Import Prelude Header Result Wire Entry Conn Transport Session Errgroup.

Open Scope go_scope.

Definition forkRead : Z := 0x01.
Definition forkWrite : Z := 0x02.
Definition forkTypeData : Z := 0x00.
Definition forkTypeResource : Z := 0x80.

Definition readChunkSize : Z := 128 * 1024.
Definition maxConcurrentReads : Z := 8.

Record Fork : Type := MkFork {
  f_v : Volume;
  f_ID : Z;           (* uint16 *)
  f_Size : Z;         (* uint64 *)
  f_chunkSize : Z;    (* int *)
  f_maxParallel : Z;  (* int *)
}.

(** [copy(p[start:], data)]: the number of bytes copied and the new [p]. *)
Definition copy_at (p : bytes) (start : Z) (data : bytes) : outcome (Z * bytes) :=
  dst ← slice p start (len p);
  let n := Z.min (len dst) (len data) in
  mret (n, take (Z.to_nat start) p ++ take (Z.to_nat n) data ++ drop (Z.to_nat (start + n)) p).

(** [SetReadAhead]: non-positive values leave the current setting unchanged. *)
Definition SetReadAhead (chunkSize maxParallel : Z) (f : Fork) : Fork :=
  let f := if bool_decide (0 < chunkSize)
           then MkFork (f_v f) (f_ID f) (f_Size f) chunkSize (f_maxParallel f) else f in
  if bool_decide (0 < maxParallel)
  then MkFork (f_v f) (f_ID f) (f_Size f) (f_chunkSize f) maxParallel else f.

(** ** Splitting a buffer into chunks *)

(** The loop [for pos := 0; pos < n; pos += size] with the pieces it appends;
    [fuel] bounds the rounds (a [size] of zero or less would not end). *)
Fixpoint pieces_from (fuel : nat) (n size p : Z) : option (list (Z * Z)) :=
  match fuel with
  | O => None
  | S fuel' =>
    if bool_decide (p < n) then
      let want := if bool_decide (n < p + size) then n - p else size in
      rest ← pieces_from fuel' n size (p + size);
      Some ((p, want) :: rest)
    else Some []
  end.

(** The pieces of a buffer of [n] bytes: start and length of each. *)
Definition pieces (n size : Z) : outcome (list (Z * Z)) :=
  match pieces_from (S (Z.to_nat n)) n size 0 with Some l => Ret l | None => NoFuel end.

(** ** The fork's requests *)

Section requests.
Context `{Norm}.

Definition open_fork_request (v : Volume) (dirID : Z) (path : bytes) (mode : Z) : bytes :=
  [] |> w_u8 cmdOpenFork
     |> w_u8 forkTypeData
     |> w_u16 (v_ID v)
     |> w_u32 dirID
     |> w_u16 kFPExtDataForkLenBit
     |> w_u16 mode
     |> w_path path.

Definition close_fork_request (f : Fork) : bytes :=
  [] |> w_u8 cmdCloseFork |> w_u8 0 |> w_u16 (f_ID f).

Definition read_request (f : Fork) (offset count : Z) : bytes :=
  [] |> w_u8 cmdReadExt
     |> w_u8 0
     |> w_u16 (f_ID f)
     |> w_u64 (u64 offset)
     |> w_u64 (u64 count).

Definition writeChunkHeaderLen : Z := 1 + 1 + 2 + 8 + 8.

Definition write_header (f : Fork) (offset : Z) (data : bytes) : bytes :=
  [] |> w_u8 cmdWriteExt
     |> w_u8 0
     |> w_u16 (f_ID f)
     |> w_u64 (u64 offset)
     |> w_u64 (u64 (len data)).

Definition truncate_request (f : Fork) (size : Z) : bytes :=
  let w := [] |> w_u8 cmdSetForkParms |> w_u8 0 |> w_u16 (f_ID f) in
  if bool_decide (size ≤ 0xFFFFFFFF)
  then w |> w_u16 kFPDataForkLenBit |> w_u32 (u32 size)
  else w |> w_u16 kFPExtDataForkLenBit |> w_u64 (u64 size).

End requests.

(** The reply of FPOpenFork. *)
Definition parse_open_fork (v : Volume) : M reader (result Fork) :=
  _ ← r_u16 "open bitmap";
  id ← r_u16 "fork id";
  size ← r_u64 "fork length";
  r_check (MkFork v id size readChunkSize maxConcurrentReads).

Section operations.
Context {W : Type} `{Transport W} `{Norm} `{Errgroup}.

Definition openFork (v : Volume) (ctx : Ctx) (dirID : Z) (path : bytes) (mode : Z)
  : M W (result Fork) :=
  payload ←? query ctx (str "open " ++ path) (open_fork_request v dirID path mode);
  reading payload (parse_open_fork v).

Definition OpenFork (v : Volume) (ctx : Ctx) (dirID : Z) (path : bytes) : M W (result Fork) :=
  openFork v ctx dirID path forkRead.

Definition OpenForkRW (v : Volume) (ctx : Ctx) (dirID : Z) (path : bytes) : M W (result Fork) :=
  openFork v ctx dirID path (Z.lor forkRead forkWrite).

Definition Fork_Close (f : Fork) (ctx : Ctx) : M W (result unit) :=
  invoke ctx (str "close fork") (close_fork_request f).

(** ** Reading *)

(** One FPReadExt: the data, and whether the read reached the end. *)
Definition readChunk (f : Fork) (ctx : Ctx) (offset count : Z) : M W (result (bytes * bool)) :=
  '(payload, code) ←? command ctx (read_request f offset count);
  if bool_decide (code = ResEOF) then mret (Ok (payload, true)) else
  _ ←? mret (resultErr (str "read") code);
  mret (Ok (payload, false)).

(** A chunk of [ReadAt]: where it starts, how much it wants, what came. *)
Record chunk : Type := MkChunk {
  c_start : Z;
  c_want : Z;
  c_data : bytes;
  c_short : bool;
}.

Definition read_task (f : Fork) (off : Z) (pc : Z * Z) (ctx : Ctx)
  : M W (option chunk * option error) :=
  r ← readChunk f ctx (i64 (off + pc.1)) pc.2;
  match r with
  | Err e => mret (None, Some e)
  | Ok (data, eof) => mret (Some (MkChunk pc.1 pc.2 data (eof || bool_decide (len data < pc.2))), None)
  end.

(** The copy loop: stops at the first short chunk. *)
Fixpoint reassemble (p : bytes) (n : Z) (cs : list chunk) : outcome (bytes * Z * option error) :=
  match cs with
  | [] => mret (p, n, None)
  | c :: cs' =>
    '(k, p) ← copy_at p (c_start c) (c_data c);
    if c_short c then mret (p, n + k, Some EEOF) else reassemble p (n + k) cs'
  end.

(** The buffer afterwards, the count and the error. *)
Definition ReadAt (f : Fork) (ctx : Ctx) (p : bytes) (off : Z) : M W (bytes * Z * option error) :=
  if bool_decide (len p = 0) then mret (p, 0, None) else
  ps ← lift (pieces (len p) (f_chunkSize f));
  '(err, chunks) ← group ctx (f_maxParallel f) (read_task f off <$> ps)
                     ((λ pc, MkChunk pc.1 pc.2 [] false) <$> ps);
  match err with
  | Some e => mret (p, 0, Some e)
  | None => lift (reassemble p 0 chunks)
  end.

Section streams.
Context {Out : Type}.

(** The loop of [writeTo], into a writer [write] with its own state; [fuel]
    bounds the rounds. *)
Fixpoint writeTo_loop (write : bytes → M Out (option error)) (fuel : nat) (f : Fork) (ctx : Ctx)
    (buf : bytes) (total off : Z) : M (W * Out) (Z * option error) :=
  match fuel with
  | O => no_fuel
  | S fuel' =>
    '(buf, n, err) ← zoom1 (ReadAt f ctx buf off);
    werr ← (if bool_decide (0 < n) then b ← lift (slice buf 0 n); zoom2 (write b) else mret None);
    match werr with
    | Some e => mret (total, Some e)
    | None =>
      let '(total, off) := if bool_decide (0 < n) then (i64 (total + n), i64 (off + n)) else (total, off) in
      if bool_decide (err = Some EEOF) then mret (total, None) else
      match err with
      | Some e => mret (total, Some e)
      | None => if bool_decide (n = 0) then mret (total, None)
                else writeTo_loop write fuel' f ctx buf total off
      end
    end
  end.

(** [make] panics for a negative length. *)
Definition make_bytes (n : Z) : outcome bytes :=
  if bool_decide (n < 0) then Panics else Ret (replicate (Z.to_nat n) x00).

Definition writeTo (write : bytes → M Out (option error)) (fuel : nat) (f : Fork) (ctx : Ctx)
  : M (W * Out) (Z * option error) :=
  buf ← lift (make_bytes (i64 (f_chunkSize f * f_maxParallel f)));
  writeTo_loop write fuel f ctx buf 0 0.

Definition WriteTo (write : bytes → M Out (option error)) (fuel : nat) (f : Fork) : M (W * Out) (Z * option error) :=
  writeTo write fuel f Background.

Definition WriteToContext (write : bytes → M Out (option error)) (fuel : nat) (f : Fork) (ctx : Ctx)
  : M (W * Out) (Z * option error) :=
  writeTo write fuel f ctx.

End streams.

(** ** Writing *)

Definition writeChunk (f : Fork) (ctx : Ctx) (offset : Z) (data : bytes) : M W (Z * option error) :=
  let w := write_header f offset data in
  let dataOffset := len w in
  r ← commandWrite ctx (u32 dataOffset) (w |> w_bytes data);
  match r with
  | Err e => mret (0, Some e)
  | Ok (_, code) =>
    match resultErr (str "write") code with
    | Err e => mret (0, Some e)
    | Ok _ => mret (len data, None)
    end
  end.

Definition writeChunkSize (f : Fork) : M W Z :=
  q ← serverQuantum;
  let chunk := f_chunkSize f in
  let max := q - writeChunkHeaderLen in
  let chunk := if bool_decide (0 < q) && bool_decide (0 < max ∧ max < chunk) then max else chunk in
  mret (if bool_decide (chunk ≤ 0) then 32 * 1024 else chunk).

Definition write_task (f : Fork) (p : bytes) (off : Z) (pc : Z * Z) (ctx : Ctx)
  : M W (option Z * option error) :=
  data ← lift (slice p pc.1 (pc.1 + pc.2));
  '(n, err) ← writeChunk f ctx (i64 (off + pc.1)) data;
  mret (Some n, err).

Definition WriteAt (f : Fork) (ctx : Ctx) (p : bytes) (off : Z) : M W (Z * option error) :=
  if bool_decide (len p = 0) then mret (0, None) else
  size ← writeChunkSize f;
  ps ← lift (pieces (len p) size);
  '(err, written) ← group ctx (f_maxParallel f) (write_task f p off <$> ps) ((λ _, 0) <$> ps);
  mret (foldl Z.add 0 written, err).

(** A source for [io.ReadFull]: the bytes it will deliver and the error it
    then reports ([io.EOF] at a normal end). *)
Record source : Type := MkSource {
  src_rest : bytes;
  src_end : error;
}.

(** [io.ReadFull(r, buf)] with a buffer of [n] bytes. *)
Definition ReadFull (n : Z) : M source (bytes * option error) := λ s,
  if bool_decide (n ≤ len (src_rest s)) then
    Ret ((take (Z.to_nat n) (src_rest s), None), MkSource (drop (Z.to_nat n) (src_rest s)) (src_end s))
  else
    let e := if bool_decide (len (src_rest s) = 0) then src_end s
             else if bool_decide (src_end s = EEOF) then EUnexpectedEOF else src_end s in
    Ret ((src_rest s, Some e), MkSource [] (src_end s)).

(** The loop of [readFrom]; [buflen] is the size of its buffer. *)
Fixpoint readFrom_loop (fuel : nat) (f : Fork) (ctx : Ctx) (buflen total : Z)
  : M (W * source) (Z * option error) :=
  match fuel with
  | O => no_fuel
  | S fuel' =>
    '(b, err) ← zoom2 (ReadFull buflen);
    '(_, werr) ← (if bool_decide (0 < len b) then zoom1 (WriteAt f ctx b total) else mret (0, None));
    match werr with
    | Some e => mret (total, Some e)
    | None =>
      let total := if bool_decide (0 < len b) then i64 (total + len b) else total in
      if bool_decide (err = Some EEOF ∨ err = Some EUnexpectedEOF) then mret (total, None) else
      match err with
      | Some e => mret (total, Some e)
      | None => readFrom_loop fuel' f ctx buflen total
      end
    end
  end.

Definition readFrom (fuel : nat) (f : Fork) (ctx : Ctx) : M (W * source) (Z * option error) :=
  size ← zoom1 (writeChunkSize f);
  buf ← lift (make_bytes (i64 (size * f_maxParallel f)));
  readFrom_loop fuel f ctx (len buf) 0.

Definition ReadFrom (fuel : nat) (f : Fork) : M (W * source) (Z * option error) := readFrom fuel f Background.

Definition ReadFromContext (fuel : nat) (f : Fork) (ctx : Ctx) : M (W * source) (Z * option error) :=
  readFrom fuel f ctx.

Definition Truncate (f : Fork) (ctx : Ctx) (size : Z) : M W (result unit) :=
  invoke ctx (str "truncate") (truncate_request f size).

End operations.
