(* ===== verification/ForkSpec.v ===== *)
(** * Open forks: reading and writing whole files

    The theorems on fork.go and write.go: whatever the chunk size, the server's
    quantum and the order in which a group's requests reach the server, a read
    returns the file's bytes and a write replaces exactly the range it names;
    the streams copy whole files. *)

From S2P Require Import Prelude Header Result Wire Entry Conn Transport Session SessionSpec Errgroup Fork.

Open Scope go_scope.

(** ** Pieces

    [tiles size p n l]: the pieces [l] cover [p, n) from left to right without
    gaps or overlaps, none empty and none larger than [size]. *)
Fixpoint tiles (size p n : Z) (l : list (Z * Z)) : Prop :=
  match l with
  | [] => p = n
  | (s, k) :: l' => s = p ∧ 0 < k ≤ size ∧ p + k ≤ n ∧ tiles size (p + k) n l'
  end.

Lemma pieces_from_tiles fuel n size p :
  0 < size → p ≤ n → n - p < Z.of_nat fuel →
  ∃ l, pieces_from fuel n size p = Some l ∧ tiles size p n l.
Proof.
  intros Hs. revert p. induction fuel as [|fuel IH]; intros p Hp Hf; [lia|]. cbn [pieces_from].
  case_bool_decide as H1; [|exists []; split; [done|cbn; lia]].
  case_bool_decide as H2.
  - exists [(p, n - p)]. split; [|cbn; lia].
    destruct fuel as [|fuel]; [lia|]. cbn [pieces_from].
    by rewrite bool_decide_eq_false_2 by lia.
  - destruct (IH (p + size)) as (l&->&Hl); [lia|lia|]. eexists. split; [done|]. cbn. split_and!; done || lia.
Qed.

Lemma pieces_tiles n size :
  0 ≤ n → 0 < size → ∃ l, pieces n size = Ret l ∧ tiles size 0 n l.
Proof.
  intros Hn Hs. unfold pieces.
  destruct (pieces_from_tiles (S (Z.to_nat n)) n size 0) as (l&->&?); [lia..|]. by eauto.
Qed.

Lemma tiles_inside size p n l :
  tiles size p n l → Forall (λ pc, p ≤ pc.1 ∧ 0 < pc.2 ≤ size ∧ pc.1 + pc.2 ≤ n) l.
Proof.
  revert p. induction l as [|[s k] l IH]; intros p; cbn; [constructor|].
  intros (->&?&?&Hl). constructor; [cbn; lia|].
  eapply Forall_impl; [by apply IH|]. cbn. intros; lia.
Qed.

Lemma tiles_cover size p n l j :
  tiles size p n l → p ≤ j < n → ∃ pc, pc ∈ l ∧ pc.1 ≤ j < pc.1 + pc.2.
Proof.
  revert p. induction l as [|[s k] l IH]; intros p; cbn; [lia|].
  intros (->&Hk&?&Hl) Hj. destruct (decide (j < p + k)).
  - exists (p, k). split; [left|cbn; lia].
  - destruct (IH _ Hl) as (pc&?&?); [lia|]. exists pc. split; [by right|done].
Qed.

Lemma tiles_sum size p n l acc :
  tiles size p n l → foldl Z.add acc l.*2 = acc + (n - p).
Proof.
  revert p acc. induction l as [|[s k] l IH]; intros p acc; cbn; [lia|].
  intros (->&?&?&Hl). rewrite (IH (p + k)) by done. lia.
Qed.

(** ** Slices of a file *)

Lemma sub_app_sub {A} (d : list A) lo mid hi :
  0 ≤ lo → lo ≤ mid → mid ≤ hi → sub d lo mid ++ sub d mid hi = sub d lo hi.
Proof.
  intros. unfold sub.
  replace (Z.to_nat (hi - lo)) with (Z.to_nat (mid - lo) + Z.to_nat (hi - mid))%nat by lia.
  rewrite <- take_take_drop, drop_drop. do 3 f_equal. lia.
Qed.

Lemma sub_clip {A} (d : list A) lo hi hi' :
  0 ≤ lo → len d ≤ hi → len d ≤ hi' → sub d lo hi = sub d lo hi'.
Proof. unfold len, sub. intros. rewrite !take_ge by (rewrite length_drop; lia). done. Qed.

Lemma len_sub_le {A} (d : list A) lo hi : lo ≤ hi → len (sub d lo hi) ≤ hi - lo.
Proof. intros. unfold sub. rewrite len_take. lia. Qed.

Lemma len_sub_short {A} (d : list A) lo hi :
  0 ≤ lo → lo ≤ hi → len (sub d lo hi) < hi - lo → len d ≤ hi.
Proof. intros ??. unfold sub. rewrite len_take, len_drop. lia. Qed.

(** Filling an array slot by slot. *)
Lemma fmap_seq_lookup {A B} (f : A → B) (x : A) (l : list A) :
  (λ i, f (default x (l !! i))) <$> seq 0 (length l) = f <$> l.
Proof.
  apply list_eq. intros i. rewrite !list_lookup_fmap.
  destruct (l !! i) as [a|] eqn:E.
  - rewrite lookup_seq_lt by (by eapply lookup_lt_Some). cbn. by rewrite E.
  - rewrite lookup_seq_ge by (by apply lookup_ge_None). done.
Qed.

(** ** Reading *)

(** The parameters of a fork that [openFork] sets and [SetReadAhead] keeps. *)
Definition fork_ok (f : Fork) : Prop := 0 < f_chunkSize f ∧ 0 < f_maxParallel f.

Section reading.
Context {W St : Type} `{Transport W} {serve : server St} `{!Served W St serve}.
Context `{Norm} `{ErrgroupLaw}.

(** The server holds the bytes [d] in the fork: FPReadExt returns those of the
    range that exist, and may report the end of the fork when it is reached;
    ranges are no longer than a chunk. *)
Definition serves_fork (f : Fork) (d : bytes) (st : St) : Prop :=
  ∀ offset count, 0 ≤ offset → 0 < count ≤ f_chunkSize f → offset + count < 2 ^ 63 → ∃ code,
    serve CmdCommand 0 (read_request f offset count) st = (code, sub d offset (offset + count), st) ∧
    (code = 0 ∨ i32 code = ResEOF ∧ len d ≤ offset + count).

Context (f : Fork) (d : bytes) (st : St) (q : Z).
Context (Hf : fork_ok f) (Hd : serves_fork f d st).

(** What a chunk holds once its request is answered. *)
Definition filled (off : Z) (pc : Z * Z) : chunk :=
  let '(code, data, _) := serve CmdCommand 0 (read_request f (off + pc.1) pc.2) st in
  MkChunk pc.1 pc.2 data (bool_decide (i32 code = ResEOF) || bool_decide (len data < pc.2)).

Lemma filled_spec off pc :
  0 ≤ off → 0 ≤ pc.1 → 0 < pc.2 ≤ f_chunkSize f → off + pc.1 + pc.2 < 2 ^ 63 →
  ∃ short, filled off pc = MkChunk pc.1 pc.2 (sub d (off + pc.1) (off + pc.1 + pc.2)) short ∧
    (short = false → len (sub d (off + pc.1) (off + pc.1 + pc.2)) = pc.2) ∧
    (short = true → len d ≤ off + pc.1 + pc.2).
Proof.
  intros. destruct (Hd (off + pc.1) pc.2) as (code&E&Hc); [lia..|].
  unfold filled. rewrite E. eexists. split; [done|].
  pose proof (len_sub_le d (off + pc.1) (off + pc.1 + pc.2) ltac:(lia)).
  split.
  - intros [_ Hs%bool_decide_eq_false]%orb_false_iff. lia.
  - intros [He%bool_decide_eq_true | Hs%bool_decide_eq_true]%orb_true_iff.
    + destruct Hc as [->|[_ ?]]; [done|lia].
    + apply (len_sub_short d (off + pc.1)); lia.
Qed.

Lemma read_task_succeeds off pc i :
  0 ≤ off → 0 ≤ pc.1 → 0 < pc.2 ≤ f_chunkSize f → off + pc.1 + pc.2 < 2 ^ 63 →
  succeeds (λ (_ : unit) w, at_state (serve := serve) st q w) (λ _ u, u)
    (λ _, filled off pc) i (read_task f off pc).
Proof.
  intros Hoff Hs Hk Hb ctx [] w Hl Hw.
  destruct (Hd (off + pc.1) pc.2) as (code&E&Hc); [lia..|].
  destruct (command_served _ _ _ _ _ _ _ _ Hw Hl E) as (w'&Eq&Hw').
  exists w'. split; [|done]. unfold read_task, filled. rewrite E.
  rewrite swrap_small by lia.
  assert (readChunk f ctx (off + pc.1) pc.2 w
    = Ret (Ok (sub d (off + pc.1) (off + pc.1 + pc.2), bool_decide (i32 code = ResEOF)), w')) as Erc.
  { unfold readChunk. erewrite try_bind_ok by exact Eq. cbn beta iota.
    destruct Hc as [->|[-> _]]; [done|]. by rewrite !bool_decide_eq_true_2. }
  by erewrite M_bind_ret by exact Erc.
Qed.

(** The copy loop from the chunk at [s] on, in a buffer of [n] bytes whose
    first [s] bytes have been read. *)
Lemma reassemble_spec p0 off size s n ps :
  0 ≤ off → 0 ≤ s → len p0 = n → off + n < 2 ^ 63 → size ≤ f_chunkSize f → tiles size s n ps →
  len (sub d off (off + s)) = s →
  ∃ err, reassemble (sub d off (off + s) ++ drop (Z.to_nat s) p0) s (filled off <$> ps)
    = Ret (sub d off (off + n) ++ drop (length (sub d off (off + n))) p0, len (sub d off (off + n)), err) ∧
    (err = None ∧ len (sub d off (off + n)) = n ∨ err = Some EEOF ∧ len d ≤ off + n).
Proof.
  intros Hoff Hs Hp Hb Hsize. revert s Hs. induction ps as [|[s' k] ps IH]; intros s Hs Ht Hl.
  { cbn in Ht. subst s. exists None. split; [|by left]. cbn. rewrite Hl.
    do 5 f_equal. unfold len in Hl. lia. }
  cbn in Ht. destruct Ht as (->&Hk&Hn&Ht). rewrite fmap_cons.
  destruct (filled_spec off (s, k)) as (short&->&Hns&Hsh); cbn [fst snd] in *; [lia..|].
  set (data := sub d (off + s) (off + s + k)) in *.
  pose proof (len_sub_le d (off + s) (off + s + k) ltac:(lia)) as Hdl. fold data in Hdl.
  pose proof (len_nonneg data).
  assert (sub d off (off + s) ++ data = sub d off (off + (s + k))) as Ha.
  { unfold data. rewrite sub_app_sub by lia. f_equal. lia. }
  assert (copy_at (sub d off (off + s) ++ drop (Z.to_nat s) p0) s data
    = Ret (len data, sub d off (off + (s + k)) ++ drop (Z.to_nat (s + len data)) p0)) as Ec.
  { unfold copy_at. assert (len (sub d off (off + s) ++ drop (Z.to_nat s) p0) = n) as En
      by (rewrite len_app, len_drop; lia).
    rewrite En, slice_ok by lia. cbn [mbind outcome_bind].
    assert (len (sub (sub d off (off + s) ++ drop (Z.to_nat s) p0) s n) = n - s) as ->
      by (apply len_sub; lia).
    rewrite Z.min_r by lia. unfold mret, outcome_ret. do 2 f_equal.
    unfold len in Hl. rewrite take_app_le, take_ge by lia.
    rewrite (take_ge data) by (unfold len; lia). rewrite app_assoc, Ha. f_equal.
    rewrite drop_app_ge, drop_drop by lia. f_equal. lia. }
  cbn [reassemble c_start c_data c_short]. rewrite Ec. cbn [mbind outcome_bind].
  destruct short.
  - specialize (Hsh eq_refl). rewrite (sub_clip d off (off + n) (off + (s + k))) by lia.
    assert (len (sub d off (off + (s + k))) = s + len data) as El by (rewrite <- Ha, len_app; lia).
    exists (Some EEOF). split; [|right; split; [done|lia]]. rewrite <- El. unfold mret, outcome_ret.
    unfold len at 1. by rewrite Nat2Z.id.
  - specialize (Hns eq_refl). rewrite Hns. apply (IH (s + k)); [lia|done|].
    rewrite <- Ha, len_app. lia.
Qed.

(** What [ReadAt] returns when its group has filled every chunk. *)
Lemma ReadAt_filled ctx p off w ps w' :
  0 ≤ off → off + len p < 2 ^ 63 → len p ≠ 0 → pieces (len p) (f_chunkSize f) = Ret ps →
  tiles (f_chunkSize f) 0 (len p) ps →
  group ctx (f_maxParallel f) (read_task f off <$> ps) ((λ pc, MkChunk pc.1 pc.2 [] false) <$> ps) w
    = Ret ((None, filled off <$> ps), w') →
  ∃ err, ReadAt f ctx p off w
    = Ret ((sub d off (off + len p) ++ drop (length (sub d off (off + len p))) p,
            len (sub d off (off + len p)), err), w') ∧
    (err = None ∧ len (sub d off (off + len p)) = len p ∨
     err = Some EEOF ∧ len d ≤ off + len p ∧ 0 < len p).
Proof.
  intros Hoff Hb Hz Eps Ht Eg. pose proof (len_nonneg p).
  assert (sub d off off = []) as E0 by (unfold sub; by rewrite Z.sub_diag).
  unfold ReadAt. rewrite bool_decide_eq_false_2 by done.
  erewrite M_bind_ret by (unfold lift; by rewrite Eps).
  erewrite M_bind_ret by exact Eg. cbn beta iota.
  destruct (reassemble_spec p off (f_chunkSize f) 0 (len p) ps) as (err&Er&Herr); try done; [lia..| |].
  { by rewrite Z.add_0_r, E0. }
  exists err. split.
  - unfold lift. rewrite Z.add_0_r, E0 in Er. change (drop (Z.to_nat 0) p) with p in Er. cbn [app] in Er. by rewrite Er.
  - destruct Herr as [?|[??]]; [by left|]. right. split_and!; done || lia.
Qed.

Lemma ReadAt_empty ctx p off w :
  len p = 0 → ReadAt f ctx p off w
    = Ret ((sub d off (off + len p) ++ drop (length (sub d off (off + len p))) p,
            len (sub d off (off + len p)), None), w) ∧ len (sub d off (off + len p)) = len p.
Proof.
  intros Hz. assert (sub d off off = []) as E0 by (unfold sub; by rewrite Z.sub_diag).
  unfold ReadAt. rewrite bool_decide_eq_true_2 by done. by rewrite Hz, Z.add_0_r, E0.
Qed.

Lemma ReadAt_spec ctx p off w :
  at_state (serve := serve) st q w → live ctx = true → 0 ≤ off → off + len p < 2 ^ 63 →
  ∃ w' err, ReadAt f ctx p off w
    = Ret ((sub d off (off + len p) ++ drop (length (sub d off (off + len p))) p,
            len (sub d off (off + len p)), err), w') ∧
    at_state (serve := serve) st q w' ∧
    (err = None ∧ len (sub d off (off + len p)) = len p ∨
     err = Some EEOF ∧ len d ≤ off + len p ∧ 0 < len p).
Proof.
  intros Hw Hl Hoff Hb. pose proof (len_nonneg p).
  destruct (decide (len p = 0)) as [Hz|Hz].
  { destruct (ReadAt_empty ctx p off w Hz) as [E ?]. exists w, None. by split_and!; [..|left]. }
  destruct Hf as [Hc Hm]. destruct (pieces_tiles (len p) (f_chunkSize f)) as (ps&Eps&Ht); [lia..|].
  pose proof (tiles_inside _ _ _ _ Ht) as Hin.
  destruct (group_slots (λ (_ : unit) w, at_state (serve := serve) st q w) (λ _ u, u)
    (λ i, filled off (default (0, 0) (ps !! i))) ctx (f_maxParallel f) (read_task f off <$> ps)
    ((λ pc, MkChunk pc.1 pc.2 [] false) <$> ps) tt w) as (order&w'&_&Eg&Hw'); try done.
  { by rewrite !length_fmap. }
  { intros i m. rewrite list_lookup_fmap. destruct (ps !! i) as [pc|] eqn:Ei; [|done].
    intros [= <-]. rewrite Forall_lookup in Hin. specialize (Hin i pc Ei). cbn in Hin.
    intros ctx' u w0 Hl' Hw0. rewrite Ei. cbn [default].
    eapply (read_task_succeeds off pc i); try done; lia. }
  rewrite length_fmap, fmap_seq_lookup in Eg.
  destruct (ReadAt_filled ctx p off w ps w') as (err&?&?); try done. by exists w', err.
Qed.

(** A writer that accepts everything; [out] is what it has accepted. *)
Definition accepts {Out} (write : bytes → M Out (option error)) (out : Out → bytes) : Prop :=
  ∀ b o, ∃ o', write b o = Ret (None, o') ∧ out o' = out o ++ b.

Lemma len_refilled (p x : bytes) : len x ≤ len p → len (x ++ drop (length x) p) = len p.
Proof. intros. rewrite len_app, len_drop. unfold len in *. lia. Qed.

Lemma slice_refilled (p x : bytes) : slice (x ++ drop (length x) p) 0 (len x) = Ret x.
Proof.
  rewrite slice_ok; [|lia|apply len_nonneg|rewrite len_app; pose proof (len_nonneg (drop (length x) p)); lia].
  f_equal. rewrite <- (app_nil_l (x ++ _)). by apply sub_app_mid.
Qed.

(** One round of [writeTo] that finds [x] in the file at the offset. *)
Lemma writeTo_round {Out} (write : bytes → M Out (option error)) out fuel ctx buf buf' total off x err w w' o :
  accepts write out →
  ReadAt f ctx buf off w = Ret ((buf', len x, err), w') → slice buf' 0 (len x) = Ret x →
  0 ≤ total → 0 ≤ off → total + len x < 2 ^ 63 → off + len x < 2 ^ 63 →
  ∃ o', out o' = out o ++ x ∧
    writeTo_loop write (S fuel) f ctx buf total off (w, o) =
      (if bool_decide (err = Some EEOF) then mret (total + len x, None) else
       match err with
       | Some e => mret (total + len x, Some e)
       | None => if bool_decide (len x = 0) then mret (total + len x, None)
                 else writeTo_loop write fuel f ctx buf' (total + len x) (off + len x)
       end) (w', o').
Proof.
  intros Hw Er Es ????. pose proof (len_nonneg x). cbn [writeTo_loop].
  erewrite M_bind_ret by (apply zoom1_ret; exact Er). cbn beta iota.
  destruct (decide (0 < len x)) as [Hx|Hx].
  - destruct (Hw x o) as (o'&Ew&Eo). exists o'. split; [done|].
    rewrite !bool_decide_eq_true_2 by done.
    erewrite M_bind_ret;
      [|erewrite M_bind_ret by (unfold lift; by rewrite Es); apply zoom2_ret; exact Ew].
    cbn beta iota. by rewrite !swrap_small by lia.
  - rewrite !bool_decide_eq_false_2 by done. exists o.
    assert (x = []) as -> by (destruct x; [done|rewrite len_cons in Hx; pose proof (len_nonneg x); lia]).
    rewrite app_nil_r, len_nil, !Z.add_0_r. split; [done|]. by erewrite M_bind_ret by done.
Qed.

Lemma writeTo_loop_spec {Out} (write : bytes → M Out (option error)) out fuel ctx buf off w o :
  accepts write out → at_state (serve := serve) st q w → live ctx = true →
  0 < len buf → 0 ≤ off ≤ len d → len d + len buf < 2 ^ 63 → len d - off < Z.of_nat fuel →
  ∃ w' o', writeTo_loop write fuel f ctx buf off off (w, o) = Ret ((len d, None), (w', o')) ∧
    at_state (serve := serve) st q w' ∧ out o' = out o ++ sub d off (len d).
Proof.
  intros Ha Hw Hl. revert buf off w o Hw. induction fuel as [|fuel IH]; intros buf off w o Hw Hb Ho Hd' Hfu; [lia|].
  destruct (ReadAt_spec ctx buf off w Hw Hl) as (w1&err&Er&Hw1&Herr); [lia..|].
  set (x := sub d off (off + len buf)) in *.
  assert (len x ≤ len buf) as Hx by (unfold x; etransitivity; [apply len_sub_le; lia|lia]).
  assert (len x ≤ len d - off) as Hx2 by (unfold x, sub; rewrite len_take, len_drop; lia).
  pose proof (len_nonneg x). pose proof (slice_refilled buf x) as Hs.
  destruct (writeTo_round write out fuel ctx buf _ off off x err w w1 o Ha Er Hs) as (o1&Eo&->); [lia..|].
  destruct Herr as [[-> Hfull]|(->&Hend&_)].
  - rewrite (bool_decide_eq_false_2 (None = _)) by done. rewrite bool_decide_eq_false_2 by lia.
    destruct (IH (x ++ drop (length x) buf) (off + len x) w1 o1) as (w'&o'&E&?&E'); try done;
      rewrite ?len_refilled by done; [lia..|].
    exists w', o'. split_and!; try done. rewrite E', Eo, <- app_assoc. f_equal.
    rewrite Hfull. unfold x. apply sub_app_sub; lia.
  - rewrite bool_decide_eq_true_2 by done. exists w1, o1.
    assert (x = sub d off (len d)) as Exd by (unfold x; apply sub_clip; lia).
    rewrite Eo, Exd. split_and!; try done. unfold mret, M_ret. do 3 f_equal.
    rewrite len_sub; lia.
Qed.

Lemma writeTo_spec {Out} (write : bytes → M Out (option error)) out fuel ctx w o :
  accepts write out → at_state (serve := serve) st q w → live ctx = true →
  len d + f_chunkSize f * f_maxParallel f < 2 ^ 63 → len d < Z.of_nat fuel →
  ∃ w' o', writeTo write fuel f ctx (w, o) = Ret ((len d, None), (w', o')) ∧
    at_state (serve := serve) st q w' ∧ out o' = out o ++ d.
Proof.
  intros Ha Hw Hl Hb Hfu. pose proof (len_nonneg d). destruct Hf as [Hc Hm].
  assert (0 < f_chunkSize f * f_maxParallel f) by nia.
  set (n := f_chunkSize f * f_maxParallel f) in *.
  assert (len (replicate (Z.to_nat n) x00) = n) as Hn by (unfold len; rewrite length_replicate; lia).
  unfold writeTo. fold n. rewrite swrap_small by lia.
  erewrite M_bind_ret by (unfold lift, make_bytes; by rewrite bool_decide_eq_false_2 by lia).
  destruct (writeTo_loop_spec write out fuel ctx (replicate (Z.to_nat n) x00) 0 w o)
    as (w'&o'&?&?&Eo); try done; [lia..|].
  exists w', o'. split_and!; try done. rewrite Eo. f_equal.
  unfold sub. cbn [drop]. apply take_ge. unfold len. lia.
Qed.

End reading.

(** ** Writing into a file *)

(** The file [d] after [x] is written at [off]: bytes past the old end that
    were not written are zero. *)
Definition splice (d : bytes) (off : Z) (x : bytes) : bytes :=
  let d' := d ++ replicate (Z.to_nat (off - len d)) x00 in
  take (Z.to_nat off) d' ++ x ++ drop (Z.to_nat (off + len x)) d'.

(** The byte at a position, zero past the end. *)
Definition byte_at (l : bytes) (j : Z) : byte := default x00 (l !! Z.to_nat j).

Lemma len_splice d off x : 0 ≤ off → len (splice d off x) = Z.max (len d) (off + len x).
Proof.
  intros. pose proof (len_nonneg d). pose proof (len_nonneg x). unfold splice.
  rewrite !len_app, len_take, len_drop, len_app.
  assert (len (replicate (Z.to_nat (off - len d)) x00) = Z.max 0 (off - len d)) as ->
    by (unfold len at 1; rewrite length_replicate; lia). lia.
Qed.

Lemma byte_at_pad d n j : byte_at (d ++ replicate n x00) j = byte_at d j.
Proof.
  unfold byte_at. destruct (d !! Z.to_nat j) as [b|] eqn:E.
  - by rewrite (lookup_app_l_Some _ _ _ _ E).
  - apply lookup_ge_None in E. rewrite lookup_app_r by done.
    destruct (replicate n x00 !! _) as [b|] eqn:Er; [|done].
    by apply lookup_replicate in Er as [-> _].
Qed.

Lemma byte_at_splice d off x j :
  0 ≤ off → 0 ≤ j →
  byte_at (splice d off x) j
  = if bool_decide (off ≤ j < off + len x) then byte_at x (j - off) else byte_at d j.
Proof.
  intros Ho Hj. unfold splice. set (d' := d ++ replicate _ x00).
  assert (off ≤ len d') as Hd'.
  { unfold d', len. rewrite length_app, length_replicate. unfold len. lia. }
  assert (length (take (Z.to_nat off) d') = Z.to_nat off) as Ht
    by (rewrite length_take; unfold len in Hd'; lia).
  rewrite <- (byte_at_pad d (Z.to_nat (off - len d)) j). fold d'.
  unfold byte_at. case_bool_decide as Hc.
  - rewrite lookup_app_r, lookup_app_l by (rewrite ?Ht; unfold len in Hc; lia).
    rewrite Ht. do 2 f_equal. lia.
  - destruct (decide (j < off)).
    + rewrite lookup_app_l by lia. by rewrite lookup_take_lt by lia.
    + rewrite lookup_app_r, lookup_app_r, lookup_drop by (rewrite ?Ht; unfold len in Hc; lia).
      rewrite Ht. do 2 f_equal. unfold len in *. lia.
Qed.

Lemma byte_at_sub p lo hi j :
  0 ≤ lo → 0 ≤ j < hi - lo → byte_at (sub p lo hi) j = byte_at p (lo + j).
Proof.
  intros. unfold byte_at, sub. rewrite lookup_take_lt, lookup_drop by lia. do 2 f_equal. lia.
Qed.

Lemma bytes_ext (a b : bytes) :
  len a = len b → (∀ j, 0 ≤ j < len a → byte_at a j = byte_at b j) → a = b.
Proof.
  unfold len, byte_at. intros Hl Hb. apply list_eq_same_length with (length a); [lia|done|].
  intros i x y Hi Hx Hy. specialize (Hb (Z.of_nat i) ltac:(lia)). rewrite Nat2Z.id in Hb.
  rewrite Hx, Hy in Hb. done.
Qed.

Lemma sub_all (l : bytes) : sub l 0 (len l) = l.
Proof. unfold sub. cbn [drop]. apply take_ge. unfold len. lia. Qed.

Section splices.
Context (p : bytes) (off : Z) (Hoff : 0 ≤ off).

(** One piece of [p] put where it belongs. *)
Definition put_piece (d : bytes) (pc : Z * Z) : bytes :=
  splice d (off + pc.1) (sub p pc.1 (pc.1 + pc.2)).

Definition inside (pc : Z * Z) : Prop := 0 ≤ pc.1 ∧ 0 < pc.2 ∧ pc.1 + pc.2 ≤ len p.

Definition covers (j : Z) (pc : Z * Z) : Prop := off + pc.1 ≤ j < off + pc.1 + pc.2.

Lemma put_pieces_len l d :
  Forall inside l →
  len d ≤ len (foldl put_piece d l) ≤ Z.max (len d) (off + len p) ∧
  Forall (λ pc, off + pc.1 + pc.2 ≤ len (foldl put_piece d l)) l.
Proof.
  revert d. induction l as [|pc l IH]; intros d Hl; cbn [foldl]; [split; [lia|constructor]|].
  apply Forall_cons in Hl as [(?&?&?) Hl]. destruct (IH (put_piece d pc) Hl) as [Hl1 Hl2].
  assert (len (put_piece d pc) = Z.max (len d) (off + pc.1 + pc.2)) as El
    by (unfold put_piece; rewrite len_splice, len_sub; lia).
  split; [lia|]. constructor; [lia|done].
Qed.

Lemma put_pieces_byte l d j :
  Forall inside l → 0 ≤ j →
  byte_at (foldl put_piece d l) j
  = if decide (Exists (covers j) l) then byte_at p (j - off) else byte_at d j.
Proof.
  revert d. induction l as [|pc l IH]; intros d Hl Hj; cbn [foldl].
  { destruct (decide _) as [He|]; [by apply Exists_nil in He|done]. }
  apply Forall_cons in Hl as [(?&?&?) Hl]. rewrite IH by done.
  destruct (decide (Exists (covers j) l)) as [He|He].
  { destruct (decide (Exists _ (pc :: l))) as [|Hn]; [done|]. destruct Hn. by right. }
  unfold put_piece. rewrite byte_at_splice by lia. rewrite len_sub by lia.
  case_bool_decide as Hc.
  - destruct (decide (Exists _ (pc :: l))) as [|Hn]; [|destruct Hn; left; unfold covers; lia].
    rewrite byte_at_sub by lia. f_equal. lia.
  - destruct (decide (Exists _ (pc :: l))) as [[Hx|]%Exists_cons|]; [|done..].
    unfold covers in Hx. lia.
Qed.

(** The pieces of a buffer, written in any order, are the buffer written. *)
Lemma put_pieces_all size ps l d :
  0 < len p → tiles size 0 (len p) ps → l ≡ₚ ps → foldl put_piece d l = splice d off p.
Proof.
  intros Hp Ht Hperm.
  assert (Forall inside l) as Hin.
  { rewrite Hperm. eapply Forall_impl; [by apply (tiles_inside size)|]. unfold inside. cbn. intros; lia. }
  assert (∀ j, 0 ≤ j < len p → Exists (λ pc, pc.1 ≤ j < pc.1 + pc.2) l) as Hcov.
  { intros j Hj. destruct (tiles_cover _ _ _ _ _ Ht Hj) as (pc&Hpc&?).
    apply Exists_exists. exists pc. by rewrite Hperm. }
  destruct (put_pieces_len l d Hin) as [Hle Hends].
  assert (off + len p ≤ len (foldl put_piece d l)) as Hge.
  { destruct (proj1 (Exists_exists _ _) (Hcov (len p - 1) ltac:(lia))) as (pc&Hpc&?).
    rewrite Forall_forall in Hends. specialize (Hends pc Hpc). cbn in *. lia. }
  apply bytes_ext; [rewrite len_splice by lia; lia|].
  intros j [Hj _]. rewrite put_pieces_byte, byte_at_splice by done.
  case_bool_decide as Hc.
  - destruct (decide _) as [|Hn]; [done|]. destruct Hn.
    eapply Exists_impl; [apply (Hcov (j - off)); lia|]. unfold covers. cbn. intros; lia.
  - destruct (decide _) as [(pc&Hpc&Hx)%Exists_exists|]; [|done].
    rewrite Forall_forall in Hin. specialize (Hin pc Hpc). unfold inside, covers in *. lia.
Qed.

(** A whole write over pieces of itself. *)
Lemma splice_again l d : 0 < len p → Forall inside l → splice (foldl put_piece d l) off p = splice d off p.
Proof.
  intros Hp Hl. destruct (put_pieces_len l d Hl) as [Hle _].
  apply bytes_ext; [rewrite !len_splice by lia; lia|]. intros j [Hj _]. rewrite !byte_at_splice by done.
  case_bool_decide as Hc; [done|]. rewrite put_pieces_byte by done.
  destruct (decide _) as [(pc&Hpc&Hx)%Exists_exists|]; [|done].
  rewrite Forall_forall in Hl. specialize (Hl pc Hpc). unfold inside, covers in *. lia.
Qed.

Lemma splice_piece d : put_piece d (0, len p) = splice d off p.
Proof. unfold put_piece. cbn [fst snd]. rewrite !Z.add_0_r, Z.add_0_l. by rewrite sub_all. Qed.

End splices.

Section writing.
Context {W St : Type} `{Transport W} {serve : server St} `{!Served W St serve}.
Context `{Norm} `{ErrgroupLaw}.

(** The server keeps the bytes of the fork: an FPWriteExt request whose DSI
    payload is within the quantum replaces the range that it names.  [good]
    are the states in which the fork is open for writing. *)
Definition takes_writes (f : Fork) (q : Z) (good : St → Prop) (content : St → bytes) : Prop :=
  ∀ offset data st,
    good st → 0 ≤ offset → 0 < len data → offset + len data < 2 ^ 63 →
    (writeChunkHeaderLen < q → writeChunkHeaderLen + len data ≤ q) →
    ∃ rp st', serve CmdWrite writeChunkHeaderLen (write_header f offset data ++ data) st = (0, rp, st') ∧
      good st' ∧ content st' = splice (content st) offset data.

Context (f : Fork) (q : Z) (good : St → Prop) (content : St → bytes).
Context (Hf : fork_ok f) (Hs : takes_writes f q good content).

(** The fork holds the bytes [d]. *)
Definition holding (d : bytes) (w : W) : Prop :=
  ∃ st, at_state (serve := serve) st q w ∧ good st ∧ content st = d.

Lemma len_write_header offset data : len (write_header f offset data) = writeChunkHeaderLen.
Proof. unfold write_header, w_u8, w_u16, w_u64. by rewrite !len_app, !len_be_bytes. Qed.

Lemma writeChunk_spec ctx offset data d w :
  live ctx = true → holding d w → 0 ≤ offset → 0 < len data → offset + len data < 2 ^ 63 →
  (writeChunkHeaderLen < q → writeChunkHeaderLen + len data ≤ q) →
  ∃ w', writeChunk f ctx offset data w = Ret ((len data, None), w') ∧ holding (splice d offset data) w'.
Proof.
  intros Hl (st&Hw&Hg&<-) ????.
  destruct (Hs offset data st) as (rp&st'&E&Hg'&Ec); try done.
  destruct (commandWrite_served _ _ _ _ _ _ _ _ _ Hw Hl E) as (w'&Eq&Hw').
  exists w'. split; [|by exists st']. unfold writeChunk. rewrite len_write_header.
  by erewrite M_bind_ret by exact Eq.
Qed.

Lemma writeChunkSize_spec d w :
  holding d w → ∃ size, writeChunkSize f w = Ret (size, w) ∧ 0 < size ≤ f_chunkSize f ∧
    (writeChunkHeaderLen < q → writeChunkHeaderLen + size ≤ q).
Proof.
  intros (st&(_&_&Eq)&_). destruct Hf as [Hc _]. unfold writeChunkSize, serverQuantum.
  eexists. split; [reflexivity|]. rewrite Eq. unfold writeChunkHeaderLen.
  repeat case_bool_decide; cbn in *; lia.
Qed.

Lemma write_task_succeeds p off pc i :
  0 ≤ off → 0 ≤ pc.1 → 0 < pc.2 → pc.1 + pc.2 ≤ len p → off + len p < 2 ^ 63 →
  (writeChunkHeaderLen < q → writeChunkHeaderLen + pc.2 ≤ q) →
  succeeds holding (λ _ d, put_piece p off d pc) (λ _, pc.2) i (write_task f p off pc).
Proof.
  intros ??????. intros ctx d w Hl Hw.
  assert (len (sub p pc.1 (pc.1 + pc.2)) = pc.2) as El by (rewrite len_sub; lia).
  destruct (writeChunk_spec ctx (off + pc.1) (sub p pc.1 (pc.1 + pc.2)) d w) as (w'&E&Hw');
    rewrite ?El; try done; [lia..|].
  exists w'. split; [|exact Hw']. unfold write_task.
  erewrite M_bind_ret by (unfold lift; by rewrite slice_ok by lia).
  rewrite swrap_small by lia. erewrite M_bind_ret by exact E. by rewrite El.
Qed.

Lemma WriteAt_spec ctx p off d w :
  live ctx = true → holding d w → 0 ≤ off → off + len p < 2 ^ 63 →
  ∃ w', WriteAt f ctx p off w = Ret ((len p, None), w') ∧
    holding (if bool_decide (len p = 0) then d else splice d off p) w'.
Proof.
  intros Hl Hw Hoff Hb. unfold WriteAt. pose proof (len_nonneg p).
  case_bool_decide as Hz; [exists w; by rewrite Hz|].
  destruct (writeChunkSize_spec d w Hw) as (size&Esz&Hsz&Hqs).
  erewrite M_bind_ret by exact Esz. destruct Hf as [_ Hm].
  destruct (pieces_tiles (len p) size) as (ps&Eps&Ht); [lia..|].
  erewrite M_bind_ret by (unfold lift; by rewrite Eps).
  pose proof (tiles_inside _ _ _ _ Ht) as Hin.
  destruct (group_slots holding (λ i d, put_piece p off d (default (0, 0) (ps !! i)))
    (λ i, (default (0, 0) (ps !! i)).2) ctx (f_maxParallel f) (write_task f p off <$> ps)
    ((λ _, 0) <$> ps) d w) as (order&w'&Hord&Eg&Hw'); try done.
  { by rewrite !length_fmap. }
  { intros i m. rewrite list_lookup_fmap. destruct (ps !! i) as [pc|] eqn:Ei; [|done].
    intros [= <-]. rewrite Forall_lookup in Hin. specialize (Hin i pc Ei). cbn in Hin.
    intros ctx' d0 w0 Hl' Hw0. rewrite Ei. cbn [default].
    eapply (write_task_succeeds p off pc i); try done; lia. }
  erewrite M_bind_ret by exact Eg. rewrite length_fmap in *.
  exists w'. split.
  - rewrite (fmap_seq_lookup snd). unfold mret, M_ret. do 3 f_equal.
    change (foldl Z.add 0 ps.*2 = len p). rewrite (tiles_sum _ _ _ _ _ Ht). lia.
  - rewrite <- (put_pieces_all p off Hoff size ps ((λ i, default (0, 0) (ps !! i)) <$> order));
      [by rewrite foldl_fmap|lia|done|].
    pose proof (fmap_seq_lookup id (0, 0) ps) as E. rewrite list_fmap_id in E.
    rewrite Hord. by rewrite <- E at 2.
Qed.

(** The write of one buffer, if there is anything in it. *)
Lemma readFrom_step ctx b total d w :
  live ctx = true → holding d w → 0 ≤ total → total + len b < 2 ^ 63 →
  ∃ w', (∀ src : source, ∃ n,
      (if bool_decide (0 < len b) then zoom1 (WriteAt f ctx b total) else mret (0, None)) (w, src)
      = Ret ((n, None), (w', src))) ∧
    holding (if bool_decide (0 < len b) then splice d total b else d) w'.
Proof.
  intros Hl Hw Ht Hb. case_bool_decide as Hz; [|exists w; split; eauto].
  destruct (WriteAt_spec ctx b total d w) as (w'&E&Hw'); try done.
  rewrite bool_decide_eq_false_2 in Hw' by lia. exists w'. split; [|done].
  intros src. eexists. by apply zoom1_ret.
Qed.

Lemma splice_nil d : splice d 0 [] = d.
Proof.
  pose proof (len_nonneg d).
  apply bytes_ext; [rewrite len_splice by lia; change (len (@nil byte)) with 0; lia|].
  intros j [Hj _]. rewrite byte_at_splice by lia. change (len (@nil byte)) with 0. by rewrite bool_decide_eq_false_2 by lia.
Qed.

Lemma splice_app d x y : splice (splice d 0 x) (len x) y = splice d 0 (x ++ y).
Proof.
  pose proof (len_nonneg x). pose proof (len_nonneg y).
  apply bytes_ext; [rewrite !len_splice, len_app by lia; lia|]. intros j [Hj _].
  rewrite !byte_at_splice, len_app by lia. repeat case_bool_decide; try lia.
  - unfold byte_at. rewrite lookup_app_r by (unfold len in *; lia). do 2 f_equal. unfold len. lia.
  - unfold byte_at. rewrite lookup_app_l by (unfold len in *; lia). done.
  - done.
Qed.

(** What [readFrom] reports when its source ends with [e]. *)
Definition source_error (e : error) : option error :=
  if bool_decide (e = EEOF ∨ e = EUnexpectedEOF) then None else Some e.

Lemma readFrom_loop_spec fuel ctx n d pre rest e w :
  live ctx = true → 0 < n → holding (splice d 0 pre) w →
  len pre + len rest < 2 ^ 63 → len rest < Z.of_nat fuel →
  ∃ w', readFrom_loop fuel f ctx n (len pre) (w, MkSource rest e)
    = Ret ((len pre + len rest, source_error e), (w', MkSource [] e)) ∧
    holding (splice d 0 (pre ++ rest)) w'.
Proof.
  intros Hl Hn. revert pre rest w. induction fuel as [|fuel IH]; intros pre rest w Hw Hb Hfu; [pose proof (len_nonneg rest); lia|].
  pose proof (len_nonneg pre). pose proof (len_nonneg rest). cbn [readFrom_loop].
  destruct (decide (n ≤ len rest)) as [Hfull|Hlast].
  - set (b := take (Z.to_nat n) rest).
    assert (len b = n) as Hbn by (unfold b; rewrite len_take; lia).
    assert (rest = b ++ drop (Z.to_nat n) rest) as Hrest by (unfold b; by rewrite take_drop).
    assert (len rest = n + len (drop (Z.to_nat n) rest)) as Hlr by (rewrite len_drop; lia).
    erewrite M_bind_ret.
    2:{ apply zoom2_ret. unfold ReadFull. cbn [src_rest src_end].
        by rewrite bool_decide_eq_true_2 by done. }
    cbn beta iota. fold b.
    destruct (readFrom_step ctx b (len pre) (splice d 0 pre) w) as (w1&Ew&Hw1); [done..|lia|].
    destruct (Ew (MkSource (drop (Z.to_nat n) rest) e)) as (k&Ek).
    erewrite M_bind_ret by exact Ek. cbn beta iota.
    rewrite (bool_decide_eq_true_2 (0 < len b)) by lia.
    rewrite (bool_decide_eq_true_2 (0 < len b)), splice_app in Hw1 by lia.
    rewrite swrap_small by lia. rewrite bool_decide_eq_false_2 by (by intros [?|?]).
    destruct (IH (pre ++ b) (drop (Z.to_nat n) rest) w1) as (w'&E&Hw'); rewrite ?len_app; try done; [lia..|].
    rewrite len_app in E. exists w'. split.
    + rewrite E. do 3 f_equal. lia.
    + rewrite Hrest. by rewrite app_assoc.
  - set (err := if bool_decide (len rest = 0) then e else if bool_decide (e = EEOF) then EUnexpectedEOF else e).
    erewrite M_bind_ret.
    2:{ apply zoom2_ret. unfold ReadFull. cbn [src_rest src_end].
        by rewrite bool_decide_eq_false_2 by done. }
    cbn beta iota. fold err.
    destruct (readFrom_step ctx rest (len pre) (splice d 0 pre) w) as (w1&Ew&Hw1); [done..|].
    destruct (Ew (MkSource [] e)) as (k&Ek). erewrite M_bind_ret by exact Ek. cbn beta iota.
    rewrite splice_app in Hw1.
    assert ((if bool_decide (0 < len rest) then i64 (len pre + len rest) else len pre) = len pre + len rest) as ->
      by (case_bool_decide; [apply swrap_small; lia | lia]).
    assert (holding (splice d 0 (pre ++ rest)) w1) as Hw2.
    { case_bool_decide as Hz; [done|]. destruct rest; [by rewrite app_nil_r|].
      rewrite len_cons in Hz. pose proof (len_nonneg rest). lia. }
    exists w1. split; [|done]. unfold source_error.
    assert ((Some err = Some EEOF ∨ Some err = Some EUnexpectedEOF) ↔ (e = EEOF ∨ e = EUnexpectedEOF)) as He.
    { unfold err. clear. repeat case_bool_decide; subst; naive_solver. }
    destruct (decide (e = EEOF ∨ e = EUnexpectedEOF)) as [Hx|Hx].
    + rewrite !bool_decide_eq_true_2; [done|done|by apply He].
    + rewrite !bool_decide_eq_false_2; [|done|by rewrite He].
      assert (err = e) as -> by (unfold err; repeat case_bool_decide; naive_solver). done.
Qed.

Lemma readFrom_spec fuel ctx d data e w :
  live ctx = true → holding d w → f_chunkSize f * f_maxParallel f < 2 ^ 63 →
  len data < 2 ^ 63 → len data < Z.of_nat fuel →
  ∃ w', readFrom fuel f ctx (w, MkSource data e)
    = Ret ((len data, source_error e), (w', MkSource [] e)) ∧ holding (splice d 0 data) w'.
Proof.
  intros Hl Hw Hm Hlen Hfu. destruct Hf as [Hc Hp].
  destruct (writeChunkSize_spec d w Hw) as (size&Es&Hsz&_). unfold readFrom.
  erewrite M_bind_ret by (apply zoom1_ret; exact Es).
  assert (0 < size * f_maxParallel f < 2 ^ 63) as Hn by nia. set (n := size * f_maxParallel f) in *.
  rewrite swrap_small by lia.
  erewrite M_bind_ret by (unfold lift, make_bytes; by rewrite bool_decide_eq_false_2 by lia).
  assert (len (replicate (Z.to_nat n) x00) = n) as -> by (unfold len; rewrite length_replicate; lia).
  destruct (readFrom_loop_spec fuel ctx n d [] data e w) as (w'&E&?); rewrite ?splice_nil, ?len_nil; try done; [lia..|].
  by exists w'.
Qed.

End writing.

(** ** A file server for the examples

    Its state is the content of the only fork; it decodes offset and count
    from the request. *)
Definition file_server : server bytes := λ _ _ payload d,
  let offset := be_Z (sub payload 4 12) in
  let count := be_Z (sub payload 12 20) in
  match payload with
  | c :: _ =>
    if bool_decide (bZ c = cmdReadExt) then
      let data := sub d offset (offset + count) in
      ((if bool_decide (len data < count) then u32 ResEOF else 0), data, d)
    else if bool_decide (bZ c = cmdWriteExt) then
      (0, be_bytes 8 (offset + count), splice d offset (drop 20 payload))
    else (u32 ResParamErr, [], d)
  | [] => (u32 ResParamErr, [], d)
  end.

Lemma be_Z_u64 z : 0 ≤ z < 2 ^ 63 → be_Z (be_bytes 8 (u64 z)) = z.
Proof.
  intros. rewrite wrap_small by lia. apply be_Z_be_bytes.
  change (256 ^ Z.of_nat 8) with (2 ^ 64). lia.
Qed.

(** The fields of the two requests. *)
Lemma request_fields (c id offset count : Z) (data : bytes) :
  0 ≤ offset < 2 ^ 63 → 0 ≤ count < 2 ^ 63 →
  let r := ([] |> w_u8 c |> w_u8 0 |> w_u16 id |> w_u64 (u64 offset) |> w_u64 (u64 count)) ++ data in
  be_Z (sub r 4 12) = offset ∧ be_Z (sub r 12 20) = count ∧ drop 20 r = data ∧ head r = Some (byte_of_Z c).
Proof.
  intros Ho Hc r. unfold r, w_u8, w_u16, w_u64. rewrite <- !app_assoc. cbn [app].
  set (h := byte_of_Z c :: byte_of_Z 0 :: be_bytes 2 id).
  change (byte_of_Z c :: byte_of_Z 0 :: be_bytes 2 id ++ ?t) with (h ++ t).
  split_and!; [| | |done].
  - rewrite sub_app_mid; [by apply be_Z_u64|done|by rewrite len_be_bytes].
  - rewrite app_assoc, sub_app_mid; [by apply be_Z_u64|done|by rewrite len_be_bytes].
  - rewrite !app_assoc. apply drop_app_length'. done.
Qed.

Lemma file_server_serves f d : serves_fork (serve := file_server) f d d.
Proof.
  intros offset count Ho Hc Hb.
  pose proof (request_fields cmdReadExt (f_ID f) offset count [] ltac:(lia) ltac:(lia)) as (E1&E2&_&E4).
  rewrite app_nil_r in *. fold (read_request f offset count) in *.
  unfold file_server. destruct (read_request f offset count) as [|c r]; [done|].
  injection E4 as ->. rewrite E1, E2. eexists. split; [by rewrite bool_decide_eq_true_2|].
  case_bool_decide as Hs; [right|by left]. split; [done|].
  apply (len_sub_short d offset); lia.
Qed.

Lemma file_server_takes f q : takes_writes (serve := file_server) f q (λ _, True) id.
Proof.
  intros offset data st _ Ho Hc Hb _.
  pose proof (request_fields cmdWriteExt (f_ID f) offset (len data) data ltac:(lia) ltac:(lia)) as (E1&E2&E3&E4).
  fold (write_header f offset data) in *.
  unfold file_server. destruct (write_header f offset data ++ data) as [|c r]; [done|].
  injection E4 as ->. rewrite E1, E2, E3. do 2 eexists.
  split; [by rewrite bool_decide_eq_false_2, bool_decide_eq_true_2|]. done.
Qed.

Definition small_fork : Fork := MkFork (MkVolume 1 (str "Data") 0x20) 7 0 4 3.

Definition append (b o : bytes) : outcome (option error * bytes) := Ret (None, o ++ b).

(** ** Replies that are too long *)

Section overlong.
Context {W St : Type} `{Transport W} {serve : server St} `{!Served W St serve}.
Context `{Norm} `{ErrgroupLaw}.

(** The server answers every chunk with no error and at least the bytes asked
    for, and the chunk that byte [j] is in with more. *)
Definition overlong (f : Fork) (good : St → Prop) (j : Z) : Prop :=
  ∀ st offset count, good st → 0 ≤ offset → 0 < count ≤ f_chunkSize f → ∃ rp st',
    serve CmdCommand 0 (read_request f offset count) st = (0, rp, st') ∧ good st' ∧
    count ≤ len rp ∧ (offset ≤ j < offset + count → count < len rp).

Context (f : Fork) (q : Z) (good : St → Prop) (j : Z).
Context (Hf : fork_ok f) (Hs : overlong f good j).

Definition served_well (w : W) : Prop := ∃ st, at_state (serve := serve) st q w ∧ good st.

Definition too_full (pc : Z * Z) (c : chunk) : Prop :=
  c_start c = pc.1 ∧ c_short c = false ∧ pc.2 ≤ len (c_data c) ∧ (pc.1 ≤ j < pc.1 + pc.2 → pc.2 < len (c_data c)).

Lemma read_task_yields (ps : list (Z * Z)) i pc :
  ps !! i = Some pc → 0 ≤ pc.1 < 2 ^ 63 → 0 < pc.2 ≤ f_chunkSize f →
  yields served_well (λ i c, too_full (default (0, 0) (ps !! i)) c) i (read_task f 0 pc).
Proof.
  intros Ei Hp1 Hp2 ctx w Hl (st&Hw&Hg). rewrite Ei. cbn [default].
  destruct (Hs st pc.1 pc.2 Hg) as (rp&st'&E&Hg'&Hn&Hm); [lia..|].
  destruct (command_served _ _ _ _ _ _ _ _ Hw Hl E) as (w'&Eq&Hw').
  exists (MkChunk pc.1 pc.2 rp false), w'. split; [|split; [by split_and!|by exists st']].
  unfold read_task. rewrite Z.add_0_l, swrap_small by lia.
  erewrite M_bind_ret by (unfold readChunk; by erewrite try_bind_ok by exact Eq).
  cbn beta iota. rewrite bool_decide_eq_false_2 by lia. done.
Qed.

Lemma reassemble_overlong size s n ps cs p m :
  0 < size → 0 ≤ s → len p = n → tiles size s n ps → Forall2 too_full ps cs →
  ∃ p' t, reassemble p m cs = Ret (p', m + t, None) ∧ len p' = n ∧ n - s ≤ t ∧ (s ≤ j < n - size → n - s < t).
Proof.
  intros Hsz Hs0 Hp Ht Hc. revert s p m Hs0 Hp Ht. induction Hc as [|[s' k] c ps cs Hpc Hc IH]; intros s p m Hs0 Hp Ht.
  { cbn in Ht. subst s. exists p, 0. rewrite Z.add_0_r. split_and!; done || lia. }
  cbn in Ht. destruct Ht as (->&Hk&Hkn&Ht). destruct Hpc as (Est&Esh&Hd&Hj). cbn [fst snd] in *.
  cbn [reassemble]. rewrite Est, Esh. unfold copy_at.
  rewrite slice_ok by lia. cbn [mbind outcome_bind mret outcome_ret].
  set (t := Z.min (len (sub p s (len p))) (len (c_data c))).
  assert (t = Z.min (n - s) (len (c_data c))) as Et by (unfold t; rewrite len_sub; lia).
  match goal with |- context [reassemble ?x _ cs] => set (p1 := x) end.
  assert (len p1 = n) as Hp1.
  { unfold p1. rewrite !len_app, !len_take, len_drop. lia. }
  destruct (IH (s + k) p1 (m + t)) as (p'&t'&E&Hp'&Hle&Hlt); [lia|done|done|].
  exists p', (t + t'). rewrite E. split_and!; [do 3 f_equal; lia|done|lia|].
  intros Hr. destruct (decide (j < s + k)); lia.
Qed.

Lemma ReadAt_overlong ctx p w :
  served_well w → live ctx = true → 0 ≤ j < len p - f_chunkSize f → len p < 2 ^ 63 →
  ∃ p' n w', ReadAt f ctx p 0 w = Ret ((p', n, None), w') ∧ len p' = len p ∧ len p < n ∧ served_well w'.
Proof.
  intros Hw Hl Hj Hb. destruct Hf as [Hc Hm].
  destruct (pieces_tiles (len p) (f_chunkSize f)) as (ps&Eps&Ht); [lia..|].
  pose proof (tiles_inside _ _ _ _ Ht) as Hin. rewrite Forall_lookup in Hin.
  destruct (group_yields served_well (λ i c, too_full (default (0, 0) (ps !! i)) c) ctx (f_maxParallel f)
    (read_task f 0 <$> ps) ((λ pc, MkChunk pc.1 pc.2 [] false) <$> ps) w) as (cs&w'&Eg&Hw'&Hlen&Hcs); try done.
  { by rewrite !length_fmap. }
  { intros i m. rewrite list_lookup_fmap. destruct (ps !! i) as [pc|] eqn:Ei; [|done]. intros [= <-].
    specialize (Hin i pc Ei). cbn in Hin. apply (read_task_yields ps i pc); [done|lia..]. }
  rewrite length_fmap in Hlen.
  destruct (reassemble_overlong (f_chunkSize f) 0 (len p) ps cs p 0) as (p'&t&Er&Hp'&_&Ht'); [done..| |].
  { apply Forall2_same_length_lookup_2; [done|]. intros i pc c Hi Hci. specialize (Hcs i c Hci). by rewrite Hi in Hcs. }
  exists p', t, w'. split; [|split_and!; [done|lia|done]].
  unfold ReadAt. rewrite bool_decide_eq_false_2 by lia.
  erewrite M_bind_ret by (unfold lift; by rewrite Eps). erewrite M_bind_ret by exact Eg. cbn beta iota.
  unfold lift. by rewrite Er.
Qed.

End overlong.

(** ** Properties *)

(** C9: [ReadAt] reads exactly the file: whatever the chunk size, the limit and
    the order in which the concurrent chunk requests are answered, and whether
    or not the server flags the end of the fork, the buffer starts with the
    bytes of the file from the offset on, as many as exist and fit, the rest
    of the buffer is untouched, the count is their number, and the error is
    [io.EOF] only at the end of the file and nil only when the buffer is full. *)
Theorem ReadAt_exact {W St : Type} `{Transport W} {serve : server St} `{!Served W St serve}
    `{Norm} `{ErrgroupLaw} f d st q ctx p off w :
  fork_ok f → serves_fork (serve := serve) f d st →
  at_state (serve := serve) st q w → live ctx = true → 0 ≤ off → off + len p < 2 ^ 63 →
  let x := sub d off (off + len p) in
  ∃ w' err, ReadAt f ctx p off w = Ret ((x ++ drop (length x) p, len x, err), w') ∧
    at_state (serve := serve) st q w' ∧
    (err = None ∧ len x = len p ∨ err = Some EEOF ∧ len d ≤ off + len p ∧ 0 < len p).
Proof. intros. by apply (ReadAt_spec f d st q). Qed.

Lemma ReadAt_exact_witness :
  ∃ w' err, @ReadAt bytes (direct_transport file_server 0) last_first
      small_fork Background (str "..........") 3 (str "hello world") = Ret ((str "lo world..", 8, err), w').
Proof.
  destruct (@ReadAt_exact bytes bytes (direct_transport file_server 0) file_server
    (direct_served file_server 0) plain_norm last_first last_first_law
    small_fork (str "hello world") (str "hello world") 0 Background (str "..........") 3 (str "hello world"))
    as (w'&err&E&_).
  - split; reflexivity.
  - apply file_server_serves.
  - split; [exact I|]. split; reflexivity.
  - reflexivity.
  - vm_compute. congruence.
  - reflexivity.
  - exists w', err. exact E.
Defined.

(** C17: downloading copies the whole file: [writeTo] ends, within one window per
    byte of the file, with every byte of the file written to the destination
    once and in order, the length as its count and no error, whatever the
    chunk size, the limit and the order of the requests. *)
Theorem writeTo_copies {W St Out : Type} `{Transport W} {serve : server St} `{!Served W St serve}
    `{Norm} `{ErrgroupLaw} f d st q (write : bytes → M Out (option error)) out fuel ctx w o :
  fork_ok f → serves_fork (serve := serve) f d st → accepts write out →
  at_state (serve := serve) st q w → live ctx = true →
  len d + f_chunkSize f * f_maxParallel f < 2 ^ 63 → len d < Z.of_nat fuel →
  ∃ w' o', writeTo write fuel f ctx (w, o) = Ret ((len d, None), (w', o')) ∧
    at_state (serve := serve) st q w' ∧ out o' = out o ++ d.
Proof. intros. by apply (writeTo_spec f d st q). Qed.

Lemma append_accepts : accepts append id.
Proof. intros b o. by eexists. Qed.

Lemma writeTo_copies_witness :
  ∃ w' o', @writeTo bytes (direct_transport file_server 0) in_order bytes append 40
      small_fork Background (str "the quick brown fox jumps over", str "> ")
    = Ret ((30, None), (w', o')) ∧ o' = str "> the quick brown fox jumps over".
Proof.
  destruct (@writeTo_copies bytes bytes bytes (direct_transport file_server 0) file_server
    (direct_served file_server 0) plain_norm in_order in_order_law small_fork
    (str "the quick brown fox jumps over") (str "the quick brown fox jumps over") 0 append id 40
    Background (str "the quick brown fox jumps over") (str "> ")) as (w'&o'&E&_&Eo).
  - split; reflexivity.
  - apply file_server_serves.
  - exact append_accepts.
  - split; [exact I|]. split; reflexivity.
  - reflexivity.
  - reflexivity.
  - reflexivity.
  - exists w', o'. split; [exact E | exact Eo].
Defined.

(** C10: [WriteAt] replaces exactly the range: whatever the chunk size and the
    order in which the concurrent chunk requests reach the server, a non-empty
    write leaves the file as it was outside the range, holding the buffer
    inside it, and zero-filled where it was extended over a gap; the count is
    the buffer's length, and no request exceeds the server's quantum when the
    quantum has room for data at all. *)
Theorem WriteAt_splices {W St : Type} `{Transport W} {serve : server St} `{!Served W St serve}
    `{ErrgroupLaw} f q good content ctx p off d w :
  fork_ok f → takes_writes (serve := serve) f q good content →
  live ctx = true → holding (serve := serve) q good content d w →
  0 ≤ off → 0 < len p → off + len p < 2 ^ 63 →
  ∃ w', WriteAt f ctx p off w = Ret ((len p, None), w') ∧
    holding (serve := serve) q good content (splice d off p) w'.
Proof.
  intros Hf Hs Hl Hw Ho Hp Hb.
  destruct (WriteAt_spec f q good content Hf Hs ctx p off d w) as (w'&E&Hw'); try done.
  rewrite bool_decide_eq_false_2 in Hw' by lia. by exists w'.
Qed.

Lemma WriteAt_splices_witness :
  ∃ w', @WriteAt bytes (direct_transport file_server 23) last_first small_fork Background
      (str "WORLD and more") 6 (str "hello world") = Ret ((14, None), w') ∧ w' = str "hello WORLD and more".
Proof.
  destruct (@WriteAt_splices bytes bytes (direct_transport file_server 23) file_server
    (direct_served file_server 23) last_first last_first_law small_fork 23 (λ _, True) id
    Background (str "WORLD and more") 6 (str "hello world") (str "hello world")) as (w'&E&st&[_ [Est _]]&_&Ec).
  - split; reflexivity.
  - apply file_server_takes.
  - reflexivity.
  - exists (str "hello world"). split; [|split; [exact I|reflexivity]].
    split; [exact I|]. split; reflexivity.
  - vm_compute. congruence.
  - reflexivity.
  - reflexivity.
  - exists w'. split; [exact E|]. cbn in Est. rewrite Est. exact Ec.
Defined.

(** C11: uploading and downloading round-trip: [readFrom] stores all the bytes
    that its source delivers into an empty fork and reports their number (and
    the source's own error, unless that is one of the two ends of file), and a
    [writeTo] of the fork then reproduces them exactly. *)
Theorem upload_download {W St Out : Type} `{Transport W} {serve : server St} `{!Served W St serve}
    `{Norm} `{ErrgroupLaw} f q good content data e
    (write : bytes → M Out (option error)) out fuel ctx w o :
  fork_ok f → takes_writes (serve := serve) f q good content →
  (∀ st, good st → serves_fork (serve := serve) f (content st) st) → accepts write out →
  live ctx = true → holding (serve := serve) q good content [] w →
  len data + f_chunkSize f * f_maxParallel f < 2 ^ 63 → len data < Z.of_nat fuel →
  ∃ w1 w2 o', readFrom fuel f ctx (w, MkSource data e)
      = Ret ((len data, source_error e), (w1, MkSource [] e)) ∧
    writeTo write fuel f ctx (w1, o) = Ret ((len data, None), (w2, o')) ∧ out o' = out o ++ data.
Proof.
  intros Hf Hs Hr Ha Hl Hw Hb Hfu. pose proof (len_nonneg data). pose proof Hf as [Hc Hm].
  destruct (readFrom_spec f q good content Hf Hs fuel ctx [] data e w) as (w1&E1&Hw1); try done; [nia|lia|].
  assert (splice [] 0 data = data) as Ed.
  { apply bytes_ext; [rewrite len_splice by lia; change (len (@nil byte)) with 0; lia|].
    intros j Hj. rewrite len_splice in Hj by lia. change (len (@nil byte)) with 0 in Hj.
    rewrite byte_at_splice by lia. rewrite bool_decide_eq_true_2 by lia. f_equal. lia. }
  rewrite Ed in Hw1. destruct Hw1 as (st&Hst&Hg&Ec). rewrite <- Ec in *.
  destruct (writeTo_spec f (content st) st q Hf (Hr st Hg) write out fuel ctx w1 o)
    as (w2&o'&E2&_&Eo); try done. by exists w1, w2, o'.
Qed.

Lemma upload_download_witness :
  ∃ w1 w2 o', @readFrom bytes (direct_transport file_server 0) in_order 40 small_fork Background
      ([], MkSource (str "the quick brown fox") EEOF) = Ret ((19, None), (w1, MkSource [] EEOF)) ∧
    @writeTo bytes (direct_transport file_server 0) in_order bytes append 40 small_fork Background (w1, [])
      = Ret ((19, None), (w2, o')) ∧ o' = str "the quick brown fox".
Proof.
  destruct (@upload_download bytes bytes bytes (direct_transport file_server 0) file_server
    (direct_served file_server 0) plain_norm in_order in_order_law small_fork 0 (λ _, True) id
    (str "the quick brown fox") EEOF append id 40 Background [] []) as (w1&w2&o'&E1&E2&Eo).
  - split; reflexivity.
  - apply file_server_takes.
  - intros st _. apply file_server_serves.
  - exact append_accepts.
  - reflexivity.
  - exists []. split; [|split; [exact I|reflexivity]]. split; [exact I|]. split; reflexivity.
  - reflexivity.
  - reflexivity.
  - exists w1, w2, o'. split; [exact E1|]. split; [exact E2|exact Eo].
Defined.

(** A server that answers every read with eight bytes, and a fork that asks for
    four at a time. *)
Definition chatty_server : server unit := λ _ _ _ st, (0, str "12345678", st).

Definition chatty_fork : Fork := MkFork sample_volume 7 8 4 2.

(** C38: a server that sends more than a chunk asked for crashes the client:
    whenever it answers every chunk with at least the bytes asked for, and any
    chunk but the last of the buffer with more, [ReadAt] counts more bytes than
    its buffer holds, for every group order, and [writeTo] (so every download)
    then slices its buffer out of range, whatever it writes to.  Two chunks in
    flight are enough. *)
Theorem overlong_reply_panics {W St Out : Type} `{Transport W} {serve : server St} `{!Served W St serve}
    `{Norm} `{ErrgroupLaw} f q good j (write : bytes → M Out (option error)) fuel ctx p w o :
  fork_ok f → overlong (serve := serve) f good j → live ctx = true → served_well (serve := serve) q good w →
  f_chunkSize f * f_maxParallel f < 2 ^ 63 → len p = f_chunkSize f * f_maxParallel f →
  0 ≤ j < f_chunkSize f * (f_maxParallel f - 1) →
  (∃ p' n w', ReadAt f ctx p 0 w = Ret ((p', n, None), w') ∧ len p < n) ∧
  writeTo write (S fuel) f ctx (w, o) = Panics.
Proof.
  intros Hf Hs Hl Hw Hb Hp Hj. destruct (Hf) as [Hc Hm].
  assert (∀ b, len b = f_chunkSize f * f_maxParallel f →
    ∃ p' n w', ReadAt f ctx b 0 w = Ret ((p', n, None), w') ∧ len p' = len b ∧ len b < n) as HR.
  { intros b Eb. destruct (ReadAt_overlong f q good j Hf Hs ctx b w) as (p'&n&w'&E&?&?&_); [done|done|nia|lia|].
    by exists p', n, w'. }
  split; [destruct (HR p Hp) as (p'&n&w'&E&_&?); by exists p', n, w'|].
  unfold writeTo. rewrite swrap_small by nia. unfold make_bytes. rewrite bool_decide_eq_false_2 by nia.
  erewrite M_bind_ret by done. cbn [writeTo_loop].
  set (b := replicate _ x00). assert (len b = f_chunkSize f * f_maxParallel f) as Eb
    by (unfold b, len; rewrite length_replicate; nia).
  destruct (HR b Eb) as (p'&n&w'&E&Hp'&Hn).
  erewrite M_bind_ret by (apply zoom1_ret; exact E). cbn beta iota.
  rewrite bool_decide_eq_true_2 by nia. unfold mbind at 1, M_bind, lift.
  unfold slice. by rewrite bool_decide_eq_false_2 by lia.
Qed.

Lemma overlong_reply_panics_witness :
  (∃ p' n w', @ReadAt unit (direct_transport chatty_server 0) in_order chatty_fork Background (str "........") 0 tt
     = Ret ((p', n, None), w') ∧ 8 < n) ∧
  @writeTo unit (direct_transport chatty_server 0) in_order bytes append 10 chatty_fork Background (tt, []) = Panics.
Proof.
  apply (@overlong_reply_panics unit unit bytes (direct_transport chatty_server 0) chatty_server
    (direct_served chatty_server 0) plain_norm in_order in_order_law chatty_fork 0 (λ _, True) 3 append 9 Background
    (str "........") tt []).
  - split; reflexivity.
  - intros st offset count _ Ho Hc. exists (str "12345678"), st. cbn in Hc.
    change (len (str "12345678")) with 8. split_and!; [reflexivity|exact I|lia|lia].
  - reflexivity.
  - exists tt. split; [|exact I]. split; [exact I|]. split; reflexivity.
  - reflexivity.
  - reflexivity.
  - split; [discriminate|reflexivity].
Defined.
