(* ===== verification/Ops.v ===== *)
(** * Operations on names and parameters

    src/internal/afp/ops.go, setparams.go and symlink.go: creating, deleting
    and renaming, setting parameters, volume capacity, symbolic links. *)

From S2P Require Import Prelude Header Result Wire Entry Conn Transport Session SessionSpec Errgroup Fork ForkSpec.

Open Scope go_scope.

Definition createSoft : Z := 0x00.
Definition createHard : Z := 0x80.

(** [strings.LastIndex(p, "/")], [None] for -1. *)
Fixpoint LastIndex (c : byte) (s : bytes) : option nat :=
  match s with
  | [] => None
  | x :: s' =>
    match LastIndex c s' with
    | Some i => Some (S i)
    | None => if bool_decide (x = c) then Some 0%nat else None
    end
  end.

(** [splitPath] separates a path into its parent directory and last component. *)
Definition splitPath (p : bytes) : bytes * bytes :=
  let p := Trim slash p in
  match LastIndex slash p with
  | Some i => (take i p, drop (S i) p)
  | None => ([], p)
  end.

Record FSInfo : Type := MkFSInfo {
  TotalBytes : Z;  (* uint64 *)
  FreeBytes : Z;   (* uint64 *)
  BlockSize : Z;   (* uint32 *)
}.

(** The reply of FPGetVolParms for the three capacity fields. *)
Definition parse_statfs : M reader (result FSInfo) :=
  _ ← r_u16 "volume bitmap";
  free ← r_u64 "ext bytes free";
  total ← r_u64 "ext bytes total";
  block ← r_u32 "block size";
  r_check (MkFSInfo total free block).

(** The 32-byte Finder info of a symbolic link. *)
Definition symlinkFinderInfo : bytes := str "slnk" ++ str "rhap" ++ replicate 24 x00.

(** ** Requests *)

Section requests.
Context `{Norm} (v : Volume).

Definition create_file_request (dirID : Z) (path : bytes) (overwrite : bool) : bytes :=
  let flag := if overwrite then createHard else createSoft in
  [] |> w_u8 cmdCreateFile |> w_u8 flag |> w_u16 (v_ID v) |> w_u32 dirID |> w_path path.

Definition create_dir_request (dirID : Z) (path : bytes) : bytes :=
  [] |> w_u8 cmdCreateDir |> w_u8 0 |> w_u16 (v_ID v) |> w_u32 dirID |> w_path path.

Definition delete_request (dirID : Z) (path : bytes) : bytes :=
  [] |> w_u8 cmdDelete |> w_u8 0 |> w_u16 (v_ID v) |> w_u32 dirID |> w_path path.

Definition rename_request (dirID : Z) (from to : bytes) : bytes :=
  let '(destDir, newName) := splitPath to in
  [] |> w_u8 cmdMoveAndRename
     |> w_u8 0
     |> w_u16 (v_ID v)
     |> w_u32 dirID
     |> w_u32 dirID
     |> w_path from
     |> w_path destDir
     |> w_path newName.

(** The preamble of FPSetFileDirParms, padded to an even length. *)
Definition writeParamsHeader (bitmap dirID : Z) (path : bytes) : bytes :=
  [] |> w_u8 cmdSetFileDirParms
     |> w_u8 0
     |> w_u16 (v_ID v)
     |> w_u32 dirID
     |> w_u16 bitmap
     |> w_path path
     |> w_evenPad.

Definition unix_privs_request (dirID : Z) (path : bytes) (uid gid mode : Z) : bytes :=
  writeParamsHeader kFPUnixPrivsBit dirID path
    |> w_u32 uid |> w_u32 gid |> w_u32 mode |> w_u32 0.

(** [mtime] is [mtime.Unix()]. *)
Definition mod_time_request (dirID : Z) (path : bytes) (mtime : Z) : bytes :=
  writeParamsHeader kFPModDateBit dirID path |> w_u32 (u32 (i32 (i64 (mtime - afpEpochDelta)))).

Definition finder_info_request (dirID : Z) (path : bytes) (fi : bytes) : bytes :=
  writeParamsHeader kFPFinderInfoBit dirID path |> w_bytes fi.

Definition statfs_request : bytes :=
  [] |> w_u8 cmdGetVolParms
     |> w_u8 0
     |> w_u16 (v_ID v)
     |> w_u16 (Z.lor (Z.lor kFPVolExtBytesFreeBit kFPVolExtBytesTotalBit) kFPVolBlockSizeBit).

End requests.

(** ** Operations *)

Section operations.
Context {W : Type} `{Transport W} `{Norm} `{Errgroup} (v : Volume) (ctx : Ctx) (dirID : Z).

Definition CreateFile (path : bytes) (overwrite : bool) : M W (result unit) :=
  invoke ctx (str "create " ++ path) (create_file_request v dirID path overwrite).

Definition Mkdir (path : bytes) : M W (result unit) :=
  invoke ctx (str "mkdir " ++ path) (create_dir_request v dirID path).

Definition Delete (path : bytes) : M W (result unit) :=
  invoke ctx (str "delete " ++ path) (delete_request v dirID path).

Definition Rename (from to : bytes) : M W (result unit) :=
  invoke ctx (str "rename " ++ from) (rename_request v dirID from to).

Definition SetUnixPrivs (path : bytes) (uid gid mode : Z) : M W (result unit) :=
  invoke ctx (str "set unix privs " ++ path) (unix_privs_request v dirID path uid gid mode).

Definition SetModTime (path : bytes) (mtime : Z) : M W (result unit) :=
  invoke ctx (str "set mod time " ++ path) (mod_time_request v dirID path mtime).

Definition StatFS : M W (result FSInfo) :=
  payload ←? query ctx (str "statfs") (statfs_request v);
  reading payload parse_statfs.

Definition setFinderInfo (path : bytes) (fi : bytes) : M W (result unit) :=
  invoke ctx (str "set finder info " ++ path) (finder_info_request v dirID path fi).

(** [Symlink] closes the fork on every path on which it was opened. *)
Definition Symlink (link target : bytes) : M W (result unit) :=
  _ ←? CreateFile link false;
  fork ←? OpenForkRW v ctx dirID link;
  '(_, err) ← WriteAt fork ctx target 0;
  match err with
  | Some e => _ ← Fork_Close fork ctx; mret (Err e)
  | None =>
    _ ←? Fork_Close fork ctx;
    setFinderInfo link symlinkFinderInfo
  end.

(** [ReadLink] with its deferred [Close], whose error is dropped. *)
Definition ReadLink (path : bytes) : M W (result bytes) :=
  fork ←? OpenFork v ctx dirID path;
  if bool_decide (f_Size fork = 0) then _ ← Fork_Close fork ctx; mret (Ok []) else
  buf ← lift (make_bytes (i64 (f_Size fork)));
  '(buf, n, err) ← ReadAt fork ctx buf 0;
  match err with
  | None | Some EEOF =>
    target ← lift (slice buf 0 n);
    _ ← Fork_Close fork ctx; mret (Ok target)
  | Some e => _ ← Fork_Close fork ctx; mret (Err e)
  end.

End operations.
