(* ===== verification/OpsSpec.v ===== *)
(** * Operations on names and parameters: what they guarantee

    Requests are decoded by the server as they were meant, dates and paths
    survive, a symbolic link reads back as it was made. *)

From S2P Require Import Prelude Header Result Wire Entry Conn Transport Session SessionSpec Errgroup Fork ForkSpec Ops.

Open Scope go_scope.

(** ** Paths *)

Lemma LastIndex_Some c s i :
  LastIndex c s = Some i → s = take i s ++ c :: drop (S i) s ∧ c ∉ drop (S i) s.
Proof.
  revert i. induction s as [|x s IH]; intros i; cbn [LastIndex]; [done|].
  destruct (LastIndex c s) as [j|] eqn:E.
  - intros [= <-]. destruct (IH j eq_refl) as [E1 E2]. cbn. split; [by f_equal|done].
  - case_bool_decide as Hx; [|done]. intros [= <-]. cbn. rewrite drop_0. subst x. split; [done|].
    clear IH. revert E. induction s as [|y s IHs]; cbn [LastIndex]; [intros _; apply not_elem_of_nil|].
    destruct (LastIndex c s) eqn:E'; [done|]. case_bool_decide as Hy; [done|]. intros _.
    apply not_elem_of_cons. split; [congruence|by apply IHs].
Qed.

Lemma LastIndex_None c s : LastIndex c s = None ↔ c ∉ s.
Proof.
  induction s as [|x s IH]; cbn [LastIndex]; [split; [intros; apply not_elem_of_nil|done]|].
  rewrite not_elem_of_cons, <- IH. destruct (LastIndex c s); [naive_solver|].
  case_bool_decide; naive_solver.
Qed.

(** ** The server's reading of the requests *)

(** What a pathname is on the wire. *)
Definition wire_name `{Norm} (p : bytes) : bytes := ReplaceAll slash x00 (NFD (Trim slash p)).

Definition path_wire `{Norm} (p : bytes) : bytes :=
  x03 :: be_bytes 4 utf8PathHint ++ be_bytes 2 (len (NFD (Trim slash p))) ++ wire_name p.

Definition path_ok `{Norm} (p : bytes) : Prop := len (NFD (Trim slash p)) < 2 ^ 16.

Lemma w_path_wire `{Norm} p w : w_path p w = w ++ path_wire p.
Proof. apply w_path_layout. Qed.

Lemma read_path_rd `{Norm} p pre rest :
  path_ok p →
  read_path (rd_at pre (path_wire p ++ rest))
  = Ret ((kFPUTF8Name, utf8PathHint, Some (wire_name p)), rd_at (pre ++ path_wire p) rest).
Proof.
  intros Hp. pose proof (read_path_at p pre rest Hp) as E. rewrite w_path_wire, <- app_assoc in E.
  unfold rd_at at 1. rewrite E. unfold rd_at. by rewrite <- app_assoc.
Qed.

(** The common preamble: command, flag, volume, directory. *)
Definition read_preamble : M reader (Z * Z * Z * Z) :=
  c ← r_u8 "command"; f ← r_u8 "flag"; v ← r_u16 "volume"; d ← r_u32 "directory";
  mret (c, f, v, d).

(** FPMoveAndRename: a second directory and three pathnames. *)
Definition read_rename : M reader (Z * Z * Z * Z * Z * list (Z * Z * option bytes)) :=
  '(c, f, v, d) ← read_preamble;
  d2 ← r_u32 "destination directory";
  p1 ← read_path; p2 ← read_path; p3 ← read_path;
  mret (c, f, v, d, d2, [p1; p2; p3]).

(** FPSetFileDirParms up to the data block, which starts on an even offset. *)
Definition read_set_params : M reader (Z * Z * Z * Z * Z * (Z * Z * option bytes)) :=
  '(c, f, v, d) ← read_preamble;
  bm ← r_u16 "bitmap";
  p ← read_path;
  r ← get;
  _ ← (if bool_decide (pos r mod 2 = 1) then r_u8 "pad" else mret 0);
  mret (c, f, v, d, bm, p).

Section decoding.
Context `{Norm}.

Lemma read_preamble_at c f v d pre rest :
  read_preamble (rd_at pre (byte_of_Z c :: byte_of_Z f :: be_bytes 2 v ++ be_bytes 4 d ++ rest))
  = Ret ((u8 c, u8 f, u16 v, u32 d),
         rd_at (pre ++ byte_of_Z c :: byte_of_Z f :: be_bytes 2 v ++ be_bytes 4 d) rest).
Proof.
  unfold read_preamble. do 4 rd_step. rewrite !bZ_byte_of_Z. unfold mret, M_ret.
  repeat (rewrite <- app_assoc; cbn [app]). done.
Qed.

Lemma set_params_at v bm dirID path data :
  path_ok path →
  read_set_params (new_reader (writeParamsHeader v bm dirID path ++ data))
  = Ret ((cmdSetFileDirParms, 0, u16 (v_ID v), u32 dirID, u16 bm,
          (kFPUTF8Name, utf8PathHint, Some (wire_name path))),
         rd_at (writeParamsHeader v bm dirID path) data).
Proof.
  intros Hp. unfold writeParamsHeader. rewrite w_path_wire. rewrite new_reader_at.
  set (pre := byte_of_Z cmdSetFileDirParms :: byte_of_Z 0 :: be_bytes 2 (v_ID v) ++ be_bytes 4 dirID).
  set (w := (_ ++ path_wire path)).
  assert (w = ((([] ++ pre) ++ be_bytes 2 bm) ++ path_wire path)) as Ew
    by (unfold w, pre, w_u8, w_u16, w_u32; repeat (rewrite <- app_assoc; cbn [app]); done).
  rewrite Ew. clearbody w. clear w Ew. unfold w_evenPad. set (w := _ ++ path_wire path) in *.
  set (pad := if bool_decide (len w mod 2 = 1) then [byte_of_Z 0] else []).
  assert ((if bool_decide (len w mod 2 = 1) then w_u8 0 w else w) = w ++ pad) as ->
    by (unfold pad; case_bool_decide; [done|by rewrite app_nil_r]).
  unfold read_set_params.
  replace ((w ++ pad) ++ data) with (pre ++ be_bytes 2 bm ++ path_wire path ++ pad ++ data)
    by (unfold w; by rewrite <- !app_assoc).
  unfold pre at 1. repeat (rewrite <- app_assoc; cbn [app]).
  erewrite M_bind_ret by apply read_preamble_at. cbn beta iota. fold pre.
  erewrite M_bind_ret by apply r_u16_at. erewrite M_bind_ret by (by apply read_path_rd).
  fold w. erewrite M_bind_ret by done. cbn [pos rd_at]. unfold pad.
  case_bool_decide.
  - erewrite M_bind_ret by (apply (r_u8_at "pad")). done.
  - erewrite M_bind_ret by done. by rewrite app_nil_r.
Qed.

Lemma read_rename_at v dirID from to :
  path_ok from → path_ok (splitPath to).1 → path_ok (splitPath to).2 →
  read_rename (new_reader (rename_request v dirID from to))
  = Ret ((cmdMoveAndRename, 0, u16 (v_ID v), u32 dirID, u32 dirID,
          [(kFPUTF8Name, utf8PathHint, Some (wire_name from));
           (kFPUTF8Name, utf8PathHint, Some (wire_name (splitPath to).1));
           (kFPUTF8Name, utf8PathHint, Some (wire_name (splitPath to).2))]),
         rd_at (rename_request v dirID from to) []).
Proof.
  intros H1 H2 H3. unfold rename_request. destruct (splitPath to) as [dest name]. cbn [fst snd] in *.
  rewrite !w_path_wire. unfold w_u8, w_u16, w_u32.
  rewrite new_reader_at. unfold read_rename. repeat (rewrite <- app_assoc; cbn [app]).
  erewrite M_bind_ret by apply read_preamble_at. cbn beta iota.
  erewrite M_bind_ret by apply r_u32_at.
  erewrite M_bind_ret by (by apply read_path_rd). erewrite M_bind_ret by (by apply read_path_rd).
  rewrite <- (app_nil_r (path_wire name)) at 1.
  erewrite M_bind_ret by (by apply read_path_rd). unfold mret, M_ret.
  repeat (rewrite <- app_assoc; cbn [app]). done.
Qed.

End decoding.

(** ** Symbolic links

    A server that has one object in view: it can be created, opened, written,
    read, closed and marked as a link.  [Fresh], [Closed] and [Open] are its
    phases, [content] the bytes of the object. *)

Section links.
Context {W St : Type} `{Transport W} {serve : server St} `{!Served W St serve}.
Context `{Norm} `{ErrgroupLaw} (v : Volume) (dirID : Z) (link : bytes) (q : Z).
Context (Fresh Closed Marked : St → Prop) (Open : Z → St → Prop) (content : St → bytes).

Definition open_fork_payload (bm id size : Z) (tail : bytes) : bytes :=
  be_bytes 2 bm ++ be_bytes 2 id ++ be_bytes 8 size ++ tail.

Record link_laws : Prop := {
  ll_create st : Fresh st → ∃ rp st',
    serve CmdCommand 0 (create_file_request v dirID link false) st = (0, rp, st') ∧
    Closed st' ∧ content st' = [];
  ll_open mode st : Closed st → mode = 1 ∨ mode = 3 → ∃ bm id tail st',
    serve CmdCommand 0 (open_fork_request v dirID link mode) st
      = (0, open_fork_payload bm id (len (content st)) tail, st') ∧
    0 ≤ id < 2 ^ 16 ∧ Open id st' ∧ content st' = content st;
  ll_write f : takes_writes (serve := serve) f q (Open (f_ID f)) content;
  ll_read f st : Open (f_ID f) st → serves_fork (serve := serve) f (content st) st;
  ll_close f st : Open (f_ID f) st → ∃ rp st',
    serve CmdCommand 0 (close_fork_request f) st = (0, rp, st') ∧
    Closed st' ∧ content st' = content st;
  ll_mark st : Closed st → ∃ rp st',
    serve CmdCommand 0 (finder_info_request v dirID link symlinkFinderInfo) st = (0, rp, st') ∧
    Closed st' ∧ Marked st' ∧ content st' = content st;
}.

Context (L : link_laws).

Lemma parse_open_fork_at bm id size tail :
  0 ≤ id < 2 ^ 16 → 0 ≤ size < 2 ^ 64 →
  ∃ r, parse_open_fork v (new_reader (open_fork_payload bm id size tail))
    = Ret (Ok (MkFork v id size readChunkSize maxConcurrentReads), r).
Proof.
  intros Hid Hsz. unfold parse_open_fork, open_fork_payload. rewrite new_reader_at.
  rd_step. rd_step. rd_step. rewrite !wrap_small by done. unfold r_check.
  erewrite M_bind_ret by done. by eexists.
Qed.

Lemma openFork_at ctx mode w st bm id size tail st' :
  at_state (serve := serve) st q w → live ctx = true → 0 ≤ id < 2 ^ 16 → 0 ≤ size < 2 ^ 64 →
  serve CmdCommand 0 (open_fork_request v dirID link mode) st = (0, open_fork_payload bm id size tail, st') →
  ∃ w', openFork v ctx dirID link mode w = Ret (Ok (MkFork v id size readChunkSize maxConcurrentReads), w') ∧
    at_state (serve := serve) st' q w'.
Proof.
  intros Hw Hl Hid Hsz E.
  destruct (query_served_ok ctx (str "open " ++ link) _ _ _ _ _ _ Hw Hl E) as (w'&Eq&?).
  exists w'. split; [|done]. unfold openFork. erewrite try_bind_ok by exact Eq.
  destruct (parse_open_fork_at bm id size tail Hid Hsz) as (r&Er).
  unfold reading. by erewrite M_bind_ret by (unfold lift; by rewrite Er).
Qed.

Lemma fork_defaults id size : fork_ok (MkFork v id size readChunkSize maxConcurrentReads).
Proof. done. Qed.

Lemma invoke_ok ctx op payload w st rp st' :
  at_state (serve := serve) st q w → live ctx = true →
  serve CmdCommand 0 payload st = (0, rp, st') →
  ∃ w', invoke ctx op payload w = Ret (Ok tt, w') ∧ at_state (serve := serve) st' q w'.
Proof.
  intros Hw Hl E. destruct (invoke_served ctx op _ _ _ _ _ _ _ Hw Hl E) as (w'&Eq&?). by exists w'.
Qed.

Lemma splice_empty x : splice [] 0 x = x.
Proof.
  pose proof (len_nonneg x).
  apply bytes_ext; [rewrite len_splice by lia; change (len (@nil byte)) with 0; lia|].
  intros j Hj. rewrite len_splice in Hj by lia. change (len (@nil byte)) with 0 in Hj.
  rewrite byte_at_splice by lia. rewrite bool_decide_eq_true_2 by lia. f_equal. lia.
Qed.

Lemma Symlink_spec ctx target w st :
  at_state (serve := serve) st q w → live ctx = true → Fresh st → len target < 2 ^ 63 →
  ∃ w' st', Symlink v ctx dirID link target w = Ret (Ok tt, w') ∧
    at_state (serve := serve) st' q w' ∧ Closed st' ∧ Marked st' ∧ content st' = target.
Proof.
  intros Hw Hl Hf Hlen. pose proof (len_nonneg target). unfold Symlink.
  destruct (ll_create L st Hf) as (rp&s1&E1&Hc1&C1).
  destruct (invoke_ok ctx (str "create " ++ link) _ _ _ _ _ Hw Hl E1) as (w1&Q1&W1).
  erewrite try_bind_ok by exact Q1.
  destruct (ll_open L 3 s1 Hc1) as (bm&id&tail&s2&E2&Hid&Ho2&C2); [by right|].
  assert (0 ≤ len (content s1) < 2 ^ 64) as Hz1 by (by rewrite C1).
  destruct (openFork_at ctx 3 w1 s1 bm id _ tail s2 W1 Hl Hid Hz1 E2) as (w2&Q2&W2).
  erewrite try_bind_ok by exact Q2. set (f := MkFork v id _ _ _).
  destruct (WriteAt_spec f q (Open id) content (fork_defaults _ _) (ll_write L f) ctx target 0 [] w2)
    as (w3&Q3&s3&W3&Ho3&C3); [done|by exists s2; rewrite C2, C1|done|lia|].
  erewrite M_bind_ret by exact Q3. cbn beta iota.
  assert (content s3 = target) as C3'.
  { rewrite C3. case_bool_decide; [|apply splice_empty].
    destruct target; [done|rewrite len_cons in *; pose proof (len_nonneg target); lia]. }
  destruct (ll_close L f s3 Ho3) as (rp4&s4&E4&Hc4&C4).
  destruct (invoke_ok ctx (str "close fork") _ _ _ _ _ W3 Hl E4) as (w4&Q4&W4).
  erewrite try_bind_ok by exact Q4.
  destruct (ll_mark L s4 Hc4) as (rp5&s5&E5&Hc5&Hm&C5).
  destruct (invoke_ok ctx (str "set finder info " ++ link) _ _ _ _ _ W4 Hl E5) as (w5&Q5&W5).
  exists w5, s5. split; [exact Q5|]. split_and!; try done. congruence.
Qed.

Lemma ReadLink_spec ctx w st :
  at_state (serve := serve) st q w → live ctx = true → Closed st → len (content st) < 2 ^ 62 →
  ∃ w' st', ReadLink v ctx dirID link w = Ret (Ok (content st), w') ∧
    at_state (serve := serve) st' q w' ∧ Closed st' ∧ content st' = content st.
Proof.
  intros Hw Hl Hc Hlen. set (c := content st) in *. pose proof (len_nonneg c). unfold ReadLink.
  destruct (ll_open L 1 st Hc) as (bm&id&tail&s1&E1&Hid&Ho1&C1); [by left|].
  assert (0 ≤ len c < 2 ^ 64) as Hz1 by lia.
  destruct (openFork_at ctx 1 w st bm id _ tail s1 Hw Hl Hid Hz1 E1) as (w1&Q1&W1). fold c in Q1, C1.
  erewrite try_bind_ok by exact Q1. set (f := MkFork v id (len c) _ _). cbn [f_Size f].
  assert (∀ w2, at_state (serve := serve) s1 q w2 → ∃ w' st', Fork_Close f ctx w2 = Ret (Ok tt, w') ∧
    at_state (serve := serve) st' q w' ∧ Closed st' ∧ content st' = c) as Hclose.
  { intros w2 W2. destruct (ll_close L f s1 Ho1) as (rp&s2&E2&Hc2&C2).
    destruct (invoke_ok ctx (str "close fork") _ _ _ _ _ W2 Hl E2) as (w'&Q2&W'). exists w', s2.
    split; [exact Q2|]. split_and!; try done. congruence. }
  case_bool_decide as Hz.
  - destruct (Hclose w1 W1) as (w2&s2&Q2&W2&Hc2&C2). exists w2, s2.
    erewrite M_bind_ret by exact Q2. split_and!; try done.
    unfold mret, M_ret. do 3 f_equal. destruct c; [done|rewrite len_cons in Hz; pose proof (len_nonneg c); lia].
  - rewrite swrap_small by lia.
    erewrite M_bind_ret by (unfold lift, make_bytes; by rewrite bool_decide_eq_false_2 by lia).
    set (buf := replicate (Z.to_nat (len c)) x00).
    assert (len buf = len c) as Hb by (unfold buf, len; rewrite length_replicate; lia).
    assert (serves_fork (serve := serve) f c s1) as Hs by (rewrite <- C1; by apply (ll_read L f)).
    destruct (ReadAt_spec f c s1 q (fork_defaults _ _) Hs ctx buf 0 w1 W1 Hl) as (w2&err&Q2&W2&Herr); [lia..|].
    assert (sub c 0 (0 + len buf) = c) as Ec.
    { rewrite Hb, Z.add_0_l. unfold sub. cbn [drop]. apply take_ge. unfold len. lia. }
    rewrite Ec in Q2, Herr. erewrite M_bind_ret by exact Q2. cbn beta iota.
    destruct (Hclose w2 W2) as (w3&s3&Q3&W3&Hc3&C3). exists w3, s3. split; [|done].
    pose proof (slice_refilled buf c) as Hsl.
    destruct Herr as [[-> _]|[-> _]];
      (erewrite M_bind_ret by (unfold lift; by rewrite Hsl)); by erewrite M_bind_ret by exact Q3.
Qed.

End links.

(** ** A server with one link, for the examples

    Its state says whether the link exists, is open, is marked, and holds its
    content; reads and writes are those of the file server. *)
Record link_state : Type := MkLink {
  ls_exists : bool;
  ls_open : bool;
  ls_marked : bool;
  ls_content : bytes;
}.

Definition link_server : server link_state := λ cmd off payload st,
  let c := match head payload with Some c => bZ c | None => 0 end in
  if bool_decide (c = cmdCreateFile) then (0, [], MkLink true false false [])
  else if bool_decide (c = cmdOpenFork) then
    (0, open_fork_payload kFPExtDataForkLenBit 5 (len (ls_content st)) [],
     MkLink (ls_exists st) true (ls_marked st) (ls_content st))
  else if bool_decide (c = cmdCloseFork) then
    (0, [], MkLink (ls_exists st) false (ls_marked st) (ls_content st))
  else if bool_decide (c = cmdSetFileDirParms) then
    (0, [], MkLink (ls_exists st) false true (ls_content st))
  else
    let '(code, rp, d) := file_server cmd off payload (ls_content st) in
    (code, rp, MkLink (ls_exists st) (ls_open st) (ls_marked st) d).

Definition link_closed (st : link_state) : Prop := ls_open st = false.
Definition link_open (id : Z) (st : link_state) : Prop := ls_open st = true.

Lemma head_set_params `{Norm} v bm dirID path data :
  head (writeParamsHeader v bm dirID path ++ data) = Some (byte_of_Z cmdSetFileDirParms).
Proof. unfold writeParamsHeader, w_evenPad. rewrite w_path_wire. by case_bool_decide. Qed.

Lemma link_server_laws v dirID link q :
  link_laws (serve := link_server) v dirID link q (λ st, ls_exists st = false) link_closed
    (λ st, ls_marked st = true) link_open ls_content.
Proof.
  split.
  - intros st _. unfold link_server, create_file_request. rewrite w_path_wire. cbn.
    rewrite bool_decide_eq_true_2 by done. by do 2 eexists.
  - intros mode st _ _. unfold link_server, open_fork_request. rewrite w_path_wire. cbn.
    rewrite (bool_decide_eq_false_2 (bZ _ = cmdCreateFile)), bool_decide_eq_true_2 by done.
    do 4 eexists. by split_and!.
  - intros f offset data st Ho H1 H2 H3 H4.
    destruct (file_server_takes f q offset data (ls_content st) I H1 H2 H3 H4) as (rp&d&E&_&Ed).
    exists rp, (MkLink (ls_exists st) (ls_open st) (ls_marked st) d). split_and!; try done.
    unfold link_server. rewrite E. by rewrite !bool_decide_eq_false_2.
  - intros f st Ho offset count H1 H2 H3.
    destruct (file_server_serves f (ls_content st) offset count H1 H2 H3) as (code&E&Hc).
    exists code. split; [|done]. unfold link_server. rewrite E.
    rewrite !bool_decide_eq_false_2 by done. by destruct st.
  - intros f st _. unfold link_server. cbn. by do 2 eexists.
  - intros st _. unfold link_server, finder_info_request, w_bytes. rewrite head_set_params.
    by do 2 eexists.
Qed.

(** ** Properties *)

(** C30: a symbolic link reads back as it was made: against a server on which
    the link does not exist yet, [Symlink] creates it, writes the target into
    it, closes it and marks it as a link, and [ReadLink] then returns exactly
    the target, the empty one included, leaving the fork closed. *)
Theorem Symlink_ReadLink {W St : Type} `{Transport W} {serve : server St} `{!Served W St serve}
    `{Norm} `{ErrgroupLaw} v dirID link q Fresh Closed Marked Open content ctx target w st :
  link_laws (serve := serve) v dirID link q Fresh Closed Marked Open content →
  at_state (serve := serve) st q w → live ctx = true → Fresh st → len target < 2 ^ 62 →
  ∃ w1 st1 w2 st2,
    Symlink v ctx dirID link target w = Ret (Ok tt, w1) ∧ at_state (serve := serve) st1 q w1 ∧
    Marked st1 ∧ Closed st1 ∧ content st1 = target ∧
    ReadLink v ctx dirID link w1 = Ret (Ok target, w2) ∧ at_state (serve := serve) st2 q w2 ∧ Closed st2.
Proof.
  intros L Hw Hl Hf Ht.
  destruct (Symlink_spec v dirID link q _ _ _ _ _ L ctx target w st Hw Hl Hf) as (w1&st1&?&W1&C1&?&E1); [lia|].
  rewrite <- E1 in Ht.
  destruct (ReadLink_spec v dirID link q _ _ _ _ _ L ctx w1 st1 W1 Hl C1 Ht) as (w2&st2&?&?&?&?).
  exists w1, st1, w2, st2. split_and!; try done. congruence.
Qed.

Lemma Symlink_ReadLink_witness :
  let T := direct_transport link_server 0 in
  ∃ w1 w2, @Symlink link_state T plain_norm last_first sample_volume Background 2 (str "ln")
      (str "../target") (MkLink false false false []) = Ret (Ok tt, w1) ∧ ls_marked w1 = true ∧
    @ReadLink link_state T plain_norm last_first sample_volume Background 2 (str "ln") w1
      = Ret (Ok (str "../target"), w2).
Proof.
  intros T.
  destruct (@Symlink_ReadLink link_state link_state T link_server (direct_served link_server 0) plain_norm
    last_first last_first_law sample_volume 2 (str "ln") 0 _ _ _ _ _ Background (str "../target")
    (MkLink false false false []) (MkLink false false false [])
    (link_server_laws sample_volume 2 (str "ln") 0)) as (w1&st1&w2&st2&E1&[_ [Es _]]&Hm&_&_&E2&_).
  - split; [exact I|]. split; reflexivity.
  - reflexivity.
  - reflexivity.
  - reflexivity.
  - exists w1, w2. split; [exact E1|]. cbn in Es. rewrite Es. split; [exact Hm|].
    rewrite Es in E2. exact E2.
Defined.

(** The server understands the requests as they were meant: a rename
    carries the directory twice, the source path, and the destination's parent
    and last component, in that order; and a change of parameters carries the
    bitmap, the path, a pad byte exactly where the data would start on an odd
    offset, and then the data: owner, group, mode and no access rights. *)
Theorem requests_decode `{Norm} v dirID from to path uid gid mode :
  path_ok from → path_ok (splitPath to).1 → path_ok (splitPath to).2 → path_ok path →
  read_rename (new_reader (rename_request v dirID from to))
    = Ret ((cmdMoveAndRename, 0, u16 (v_ID v), u32 dirID, u32 dirID,
            [(kFPUTF8Name, utf8PathHint, Some (wire_name from));
             (kFPUTF8Name, utf8PathHint, Some (wire_name (splitPath to).1));
             (kFPUTF8Name, utf8PathHint, Some (wire_name (splitPath to).2))]),
           rd_at (rename_request v dirID from to) []) ∧
  ∃ r, read_set_params (new_reader (unix_privs_request v dirID path uid gid mode))
      = Ret ((cmdSetFileDirParms, 0, u16 (v_ID v), u32 dirID, kFPUnixPrivsBit,
              (kFPUTF8Name, utf8PathHint, Some (wire_name path))), r) ∧
    pos r mod 2 = 0 ∧
    drop (Z.to_nat (pos r)) (rb r) = be_bytes 4 uid ++ be_bytes 4 gid ++ be_bytes 4 mode ++ be_bytes 4 0.
Proof.
  intros H1 H2 H3 H4. split; [by apply read_rename_at|].
  eexists. split; [|split].
  - unfold unix_privs_request, w_u32. rewrite <- !app_assoc. by rewrite set_params_at.
  - cbn [pos rd_at]. apply w_evenPad_even.
  - cbn [pos rb rd_at]. unfold len. rewrite Nat2Z.id. apply drop_app_length.
Qed.

Lemma requests_decode_witness :
  ∃ r, read_rename (new_reader (rename_request sample_volume 2 (str "/a/b") (str "c/d/e")))
      = Ret ((23, 0, 1, 2, 2,
              [(3, 0x08000103, Some (str "a" ++ x00 :: str "b"));
               (3, 0x08000103, Some (str "c" ++ x00 :: str "d"));
               (3, 0x08000103, Some (str "e"))]), r).
Proof.
  destruct (requests_decode sample_volume 2 (str "/a/b") (str "c/d/e") (str "f") 0 0 0) as [E _];
    [reflexivity..|].
  eexists. exact E.
Defined.

(** Modification times survive: the date that [SetModTime] sends, read back
    with [afpDate], is the same second for every time within 2^31 seconds of
    the year 2000, and is off by a multiple of 2^32 seconds for any other. *)
Theorem mod_time_roundtrip `{Norm} v dirID path mtime :
  - 2 ^ 62 ≤ mtime < 2 ^ 62 →
  ∃ date, mod_time_request v dirID path mtime
      = writeParamsHeader v kFPModDateBit dirID path ++ be_bytes 4 date ∧
    (- 2 ^ 31 ≤ mtime - afpEpochDelta < 2 ^ 31 → afpDate (be_Z (be_bytes 4 date)) = mtime) ∧
    (afpDate (be_Z (be_bytes 4 date)) - mtime) mod 2 ^ 32 = 0.
Proof.
  intros Hm. eexists. split; [reflexivity|].
  change afpEpochDelta with 946684800. rewrite (swrap_small 64) by lia.
  rewrite be_Z_be_bytes_mod. change (256 ^ Z.of_nat 4) with (2 ^ 32).
  set (t := mtime - 946684800). fold (u32 (u32 (i32 t))).
  assert (u32 (u32 (i32 t)) = u32 t) as ->.
  { rewrite wrap_swrap. unfold wrap. by rewrite Z.mod_mod. }
  unfold afpDate. rewrite swrap_wrap. pose proof (swrap_range 32 t ltac:(lia)).
  change afpEpochDelta with 946684800. rewrite (swrap_small 64) by lia. split.
  - intros Ht. rewrite swrap_small by lia. unfold t. lia.
  - assert (i32 t - t = (- ((t + 2 ^ 31) / 2 ^ 32)) * 2 ^ 32) as E.
    { unfold swrap. change (2 ^ (32 - 1)) with (2 ^ 31).
      pose proof (Z.div_mod (t + 2 ^ 31) (2 ^ 32)). lia. }
    replace (i32 t + 946684800 - mtime) with (i32 t - t) by (unfold t; lia).
    rewrite E. apply Z.mod_mul. lia.
Qed.

Lemma mod_time_roundtrip_witness :
  ∃ date, mod_time_request sample_volume 2 (str "f") 1785542400
      = writeParamsHeader sample_volume kFPModDateBit 2 (str "f") ++ be_bytes 4 date ∧
    afpDate (be_Z (be_bytes 4 date)) = 1785542400.
Proof.
  destruct (mod_time_roundtrip sample_volume 2 (str "f") 1785542400) as (date&E&H&_).
  - split; [vm_compute; congruence | reflexivity].
  - exists date. split; [exact E|]. apply H. split; [vm_compute; congruence | reflexivity].
Defined.

(** [splitPath] takes a path apart: ignoring separators at its ends, the
    path is the parent directory, a separator and the last component, or the
    last component alone when there is no parent; the last component never
    contains a separator, and the parent is empty only in the second case. *)
Theorem splitPath_exact p :
  let '(dir, base) := splitPath p in
  slash ∉ base ∧
  (dir ≠ [] ∧ Trim slash p = dir ++ slash :: base ∨ dir = [] ∧ Trim slash p = base).
Proof.
  unfold splitPath. destruct (LastIndex slash (Trim slash p)) as [i|] eqn:E.
  - destruct (LastIndex_Some _ _ _ E) as [E1 E2]. split; [done|]. left. split; [|done].
    intros E0. rewrite E0 in E1. cbn [app] in E1.
    destruct (Trim_spec slash p) as (?&?&_&Hh&_). by rewrite E1 in Hh.
  - apply LastIndex_None in E. split; [done|]. by right.
Qed.

(** [StatFS] reports the server's capacity: the free bytes, the total bytes
    and the block size that follow the bitmap of the reply, each in its own
    field. *)
Theorem StatFS_exact {W St : Type} `{Transport W} {serve : server St} `{!Served W St serve}
    v ctx w st q st' bm free total block tail :
  at_state (serve := serve) st q w → live ctx = true →
  0 ≤ free < 2 ^ 64 → 0 ≤ total < 2 ^ 64 → 0 ≤ block < 2 ^ 32 →
  serve CmdCommand 0 (statfs_request v) st
    = (0, be_bytes 2 bm ++ be_bytes 8 free ++ be_bytes 8 total ++ be_bytes 4 block ++ tail, st') →
  ∃ w', StatFS v ctx w = Ret (Ok (MkFSInfo total free block), w') ∧ at_state (serve := serve) st' q w'.
Proof.
  intros Hw Hl H1 H2 H3 E.
  destruct (query_served_ok ctx (str "statfs") _ _ _ _ _ _ Hw Hl E) as (w'&Eq&?).
  exists w'. split; [|done]. unfold StatFS. erewrite try_bind_ok by exact Eq. unfold reading.
  set (payload := be_bytes 2 bm ++ _).
  assert (∃ r, parse_statfs (new_reader payload) = Ret (Ok (MkFSInfo total free block), r)) as (r&Er).
  { unfold parse_statfs, payload. rewrite new_reader_at. do 4 rd_step. rewrite !wrap_small by done.
    unfold r_check. erewrite M_bind_ret by done. by eexists. }
  by erewrite M_bind_ret by (unfold lift; by rewrite Er).
Qed.

Definition capacity_server : server unit := λ _ _ _ st,
  (0, be_bytes 2 0xe00 ++ be_bytes 8 5000 ++ be_bytes 8 90000 ++ be_bytes 4 4096, st).

Lemma StatFS_exact_witness :
  ∃ w', @StatFS unit (direct_transport capacity_server 0) sample_volume Background tt
    = Ret (Ok (MkFSInfo 90000 5000 4096), w').
Proof.
  destruct (@StatFS_exact unit unit (direct_transport capacity_server 0) capacity_server
    (direct_served capacity_server 0) sample_volume Background tt tt 0 tt 0xe00 5000 90000 4096 [])
    as (w'&E&_).
  - split; [exact I|]. split; reflexivity.
  - reflexivity.
  - split; [vm_compute; congruence | reflexivity].
  - split; [vm_compute; congruence | reflexivity].
  - split; [vm_compute; congruence | reflexivity].
  - reflexivity.
  - exists w'. exact E.
Defined.
