(* ===== verification/Hash.v ===== *)
(** * The hash functions that the logins use (crypto/sha1 and crypto/md5)

    SHA-1 and MD5 of the standard library, as executable definitions on byte
    strings, with the values of their published test vectors. *)

From S2P Require Import Prelude.

(** ** Words *)

Definition rotl32 (x n : Z) : Z := Z.lor (u32 (Z.shiftl x n)) (Z.shiftr x (32 - n)).
Definition not32 (x : Z) : Z := Z.lxor x 0xffffffff.

(** Both hashes pad with a one bit, zeros, and the length in bits, to a
    multiple of 64 bytes. *)
Definition hash_pad (length_bytes : Z → bytes) (msg : bytes) : bytes :=
  msg ++ x80 :: replicate (Z.to_nat ((55 - len msg) mod 64)) x00 ++ length_bytes (8 * len msg).

(** The consecutive blocks of [n] elements; [fuel] bounds their number. *)
Fixpoint blocks (fuel : nat) (n : nat) (b : bytes) : list bytes :=
  match fuel, b with
  | S fuel', _ :: _ => take n b :: blocks fuel' n (drop n b)
  | _, _ => []
  end.

Definition blocks_of (n : nat) (b : bytes) : list bytes := blocks (length b) n b.

(** ** SHA-1 *)

Record sha1_state : Type := MkSha1 { s_a : Z; s_b : Z; s_c : Z; s_d : Z; s_e : Z }.

Definition sha1_init : sha1_state :=
  MkSha1 0x67452301 0xefcdab89 0x98badcfe 0x10325476 0xc3d2e1f0.

(** The message schedule, latest word first. *)
Fixpoint sha1_schedule (n : nat) (w : list Z) : list Z :=
  match n with
  | O => w
  | S n' =>
    let x := Z.lxor (Z.lxor (nth 2 w 0) (nth 7 w 0)) (Z.lxor (nth 13 w 0) (nth 15 w 0)) in
    sha1_schedule n' (rotl32 x 1 :: w)
  end.

Definition sha1_round (s : sha1_state) (tw : nat * Z) : sha1_state :=
  let '(MkSha1 a b c d e) := s in
  let '(t, w) := tw in
  let '(f, k) :=
    if (t <? 20)%nat then (Z.lor (Z.land b c) (Z.land (not32 b) d), 0x5a827999)
    else if (t <? 40)%nat then (Z.lxor (Z.lxor b c) d, 0x6ed9eba1)
    else if (t <? 60)%nat then (Z.lor (Z.lor (Z.land b c) (Z.land b d)) (Z.land c d), 0x8f1bbcdc)
    else (Z.lxor (Z.lxor b c) d, 0xca62c1d6) in
  MkSha1 (u32 (rotl32 a 5 + f + e + k + w)) a (rotl32 b 30) c d.

Definition sha1_block (s : sha1_state) (block : bytes) : sha1_state :=
  let w := reverse (sha1_schedule 64 (reverse (be_Z <$> blocks_of 4 block))) in
  let r := foldl sha1_round s (imap pair w) in
  MkSha1 (u32 (s_a s + s_a r)) (u32 (s_b s + s_b r)) (u32 (s_c s + s_c r))
    (u32 (s_d s + s_d r)) (u32 (s_e s + s_e r)).

Definition sha1 (msg : bytes) : bytes :=
  let s := foldl sha1_block sha1_init (blocks_of 64 (hash_pad (be_bytes 8) msg)) in
  concat (be_bytes 4 <$> [s_a s; s_b s; s_c s; s_d s; s_e s]).

(** ** MD5 *)

Record md5_state : Type := MkMd5 { m_a : Z; m_b : Z; m_c : Z; m_d : Z }.

Definition md5_init : md5_state := MkMd5 0x67452301 0xefcdab89 0x98badcfe 0x10325476.

(** Little-endian words. *)
Definition le_Z (b : bytes) : Z := be_Z (reverse b).
Definition le_bytes (n : nat) (v : Z) : bytes := reverse (be_bytes n v).

Definition md5_table : list Z :=
  [
   0xd76aa478; 0xe8c7b756; 0x242070db; 0xc1bdceee; 0xf57c0faf; 0x4787c62a;
   0xa8304613; 0xfd469501; 0x698098d8; 0x8b44f7af; 0xffff5bb1; 0x895cd7be;
   0x6b901122; 0xfd987193; 0xa679438e; 0x49b40821; 0xf61e2562; 0xc040b340;
   0x265e5a51; 0xe9b6c7aa; 0xd62f105d; 0x02441453; 0xd8a1e681; 0xe7d3fbc8;
   0x21e1cde6; 0xc33707d6; 0xf4d50d87; 0x455a14ed; 0xa9e3e905; 0xfcefa3f8;
   0x676f02d9; 0x8d2a4c8a; 0xfffa3942; 0x8771f681; 0x6d9d6122; 0xfde5380c;
   0xa4beea44; 0x4bdecfa9; 0xf6bb4b60; 0xbebfbc70; 0x289b7ec6; 0xeaa127fa;
   0xd4ef3085; 0x04881d05; 0xd9d4d039; 0xe6db99e5; 0x1fa27cf8; 0xc4ac5665;
   0xf4292244; 0x432aff97; 0xab9423a7; 0xfc93a039; 0x655b59c3; 0x8f0ccc92;
   0xffeff47d; 0x85845dd1; 0x6fa87e4f; 0xfe2ce6e0; 0xa3014314; 0x4e0811a1;
   0xf7537e82; 0xbd3af235; 0x2ad7d2bb; 0xeb86d391].

Definition md5_shifts : list Z :=
  concat (replicate 4 [7; 12; 17; 22]) ++ concat (replicate 4 [5; 9; 14; 20]) ++
  concat (replicate 4 [4; 11; 16; 23]) ++ concat (replicate 4 [6; 10; 15; 21]).

Definition md5_round (w : list Z) (s : md5_state) (tks : nat * (Z * Z)) : md5_state :=
  let '(MkMd5 a b c d) := s in
  let '(t, (k, sh)) := tks in
  let '(f, g) :=
    if (t <? 16)%nat then (Z.lor (Z.land b c) (Z.land (not32 b) d), t)
    else if (t <? 32)%nat then (Z.lor (Z.land d b) (Z.land (not32 d) c), (5 * t + 1) mod 16)%nat
    else if (t <? 48)%nat then (Z.lxor (Z.lxor b c) d, (3 * t + 5) mod 16)%nat
    else (Z.lxor c (Z.lor b (not32 d)), (7 * t) mod 16)%nat in
  MkMd5 d (u32 (b + rotl32 (u32 (a + f + k + nth g w 0)) sh)) b c.

Definition md5_block (s : md5_state) (block : bytes) : md5_state :=
  let w := le_Z <$> blocks_of 4 block in
  let r := foldl (md5_round w) s (imap pair (zip md5_table md5_shifts)) in
  MkMd5 (u32 (m_a s + m_a r)) (u32 (m_b s + m_b r)) (u32 (m_c s + m_c r)) (u32 (m_d s + m_d r)).

Definition md5 (msg : bytes) : bytes :=
  let s := foldl md5_block md5_init (blocks_of 64 (hash_pad (le_bytes 8) msg)) in
  concat (le_bytes 4 <$> [m_a s; m_b s; m_c s; m_d s]).

(** ** Sizes and test vectors *)

Lemma len_sha1 msg : len (sha1 msg) = 20.
Proof. unfold sha1. cbn [fmap list_fmap concat]. by rewrite !len_app, !len_be_bytes. Qed.

Lemma len_md5 msg : len (md5 msg) = 16.
Proof.
  unfold md5. cbn [fmap list_fmap concat]. unfold le_bytes, len.
  by rewrite !length_app, !length_reverse, !length_be_bytes.
Qed.

#[global] Arguments sha1 : simpl never.
#[global] Arguments md5 : simpl never.

(** FIPS 180 and RFC 1321. *)
Example sha1_abc : sha1 (str "abc") = be_bytes 20 0xa9993e364706816aba3e25717850c26c9cd0d89d.
Proof. vm_compute. reflexivity. Qed.

Example sha1_two_blocks :
  sha1 (str "abcdbcdecdefdefgefghfghighijhijkijkljklmklmnlmnomnopnopq")
  = be_bytes 20 0x84983e441c3bd26ebaae4aa1f95129e5e54670f1.
Proof. vm_compute. reflexivity. Qed.

Example md5_empty : md5 [] = be_bytes 16 0xd41d8cd98f00b204e9800998ecf8427e.
Proof. vm_compute. reflexivity. Qed.

Example md5_digits :
  md5 (str "12345678901234567890123456789012345678901234567890123456789012345678901234567890")
  = be_bytes 16 0x57edf4a22be3c955ac49da2e2107b67a.
Proof. vm_compute. reflexivity. Qed.
