(* ===== verification/Login.v ===== *)
(** * Authentication (src/internal/afp/uam.go, srp.go, and Login of session.go)

    The four user authentication methods and the choice between them.  The
    hashes are those of Hash.v; [math/big] numbers are integers; the CAST5
    block cipher of golang.org/x/crypto and the operating system's random
    numbers are parameters. *)

From Stdlib Require Import Zpow_facts.
From S2P Require Import Prelude Header Result Wire ServerInfo Conn Transport Session Hash.

Open Scope go_scope.

Definition uamNoAuth : bytes := str "No User Authent".
Definition uamCleartext : bytes := str "Cleartxt Passwrd".
Definition uamDHX2 : bytes := str "DHX2".
Definition uamSRP : bytes := str "SRP".

(** ** math/big *)

Definition SetBytes (b : bytes) : Z := be_Z b.
Definition BitLen (v : Z) : Z := if bool_decide (v ≤ 0) then 0 else Z.log2 v + 1.

(** [v.Bytes()]: big-endian, without leading zeros. *)
Definition Bytes (v : Z) : bytes := be_bytes (Z.to_nat ((BitLen v + 7) / 8)) v.

(** [Exp(x, y, m)] for [y >= 0]; without a modulus when [m] is zero. *)
Definition Exp (x y m : Z) : Z := if bool_decide (m = 0) then x ^ y else Zpow_mod x y m.

(** [v.FillBytes(make([]byte, n))] panics when the value does not fit. *)
Definition leftPad (v n : Z) : outcome bytes :=
  if bool_decide (256 ^ n ≤ v) then Panics else Ret (be_bytes (Z.to_nat n) v).

(** ** Helpers *)

(** [subtle.ConstantTimeCompare(x, y) == 1]. *)
Definition ConstantTimeCompare (x y : bytes) : bool := bool_decide (x = y).

Definition incNonce (nonce : bytes) : bytes :=
  let n := len nonce in
  let v := SetBytes nonce + 1 in
  let b := Bytes v in
  let b := if bool_decide (n < len b) then drop (Z.to_nat (len b - n)) b else b in
  replicate (Z.to_nat (n - len b)) x00 ++ b.

Definition bxor (x y : bytes) : bytes := zip_with (λ a b, byte_of_Z (Z.lxor (bZ a) (bZ b))) x y.

Definition sha1Sum (parts : list bytes) : bytes := sha1 (concat parts).

Definition srpHashLen : Z := 20.

(** The loop of [mgf1SHA1]; [fuel] bounds its rounds. *)
Fixpoint mgf1_loop (fuel : nat) (seed : bytes) (outLen c : Z) (out : bytes) : outcome bytes :=
  match fuel with
  | O => NoFuel
  | S fuel' =>
    if bool_decide (len out < outLen)
    then mgf1_loop fuel' seed outLen (u32 (c + 1)) (out ++ sha1Sum [seed; be_bytes 4 c])
    else Ret out
  end.

Definition mgf1SHA1 (seed : bytes) (outLen : Z) : outcome bytes :=
  out ← mgf1_loop (S (Z.to_nat outLen)) seed outLen 0 [];
  slice out 0 outLen.

(** ** CAST5 and cipher block chaining *)

(** A [cipher.Block] of eight bytes: its two directions. *)
Record Block : Type := MkBlock {
  blk_Encrypt : bytes → bytes;
  blk_Decrypt : bytes → bytes;
}.

Class Cast5 : Type := {
  cast5_NewCipher : bytes → result Block;
}.

Definition block_ok (b : Block) : Prop :=
  ∀ x, len x = 8 →
    len (blk_Encrypt b x) = 8 ∧ len (blk_Decrypt b x) = 8 ∧ blk_Decrypt b (blk_Encrypt b x) = x.

(** Keys of sixteen bytes are accepted, and decryption inverts encryption. *)
Class Cast5Law `{Cast5} : Prop :=
  cast5_law : ∀ key, len key = 16 → ∃ b, cast5_NewCipher key = Ok b ∧ block_ok b.

Fixpoint cbc_encrypt (b : Block) (prev : bytes) (l : list bytes) : bytes :=
  match l with
  | [] => []
  | x :: l' => let c := blk_Encrypt b (bxor x prev) in c ++ cbc_encrypt b c l'
  end.

Fixpoint cbc_decrypt (b : Block) (prev : bytes) (l : list bytes) : bytes :=
  match l with
  | [] => []
  | c :: l' => bxor (blk_Decrypt b c) prev ++ cbc_decrypt b c l'
  end.

(** [CryptBlocks] panics unless the input is a number of full blocks. *)
Definition cbcEncrypt (b : Block) (iv plain : bytes) : outcome bytes :=
  if bool_decide (len plain mod 8 = 0) then Ret (cbc_encrypt b iv (blocks_of 8 plain)) else Panics.

Definition cbcDecrypt (b : Block) (iv ct : bytes) : outcome bytes :=
  if bool_decide (len ct mod 8 = 0) then Ret (cbc_decrypt b iv (blocks_of 8 ct)) else Panics.

Definition dhxClientIV : bytes := str "LWallace".
Definition dhxServerIV : bytes := str "CJalbert".
Definition dhx2MaxKeyLen : Z := 1024.
Definition dhx2NonceLen : Z := 16.

Definition srpClientProof : Z := 0x0003.
Definition srpServerProof : Z := 0x0004.

(** ** The session's logins *)

Record Session : Type := MkSession { s_Version : bytes }.

Definition NewSession : Session := MkSession [].

(** [rand.Read] on a buffer of [n] bytes. *)
Class Entropy (W : Type) : Type := {
  rand_Read : Z → M W (result bytes);
}.

Definition login_request (s : Session) (uam authinfo : bytes) : bytes :=
  [] |> w_u8 cmdLogin |> w_pascal (s_Version s) |> w_pascal uam |> w_bytes authinfo.

Definition login_cont_request (id : Z) (authinfo : bytes) : bytes :=
  [] |> w_u8 cmdLoginCont |> w_u8 0 |> w_u16 id |> w_bytes authinfo.

(** The user name, padded so that the password starts on an even offset, and
    the first eight bytes of the password, zero-padded. *)
Definition cleartext_auth (s : Session) (username password : bytes) : bytes :=
  let w := [] |> w_pascal username in
  let prefix := 1 + (1 + len (s_Version s)) + (1 + len uamCleartext) in
  let w := if bool_decide ((prefix + len w) mod 2 = 1) then w |> w_u8 0 else w in
  w |> w_bytes (take 8 password ++ replicate (8 - length password) x00).

(** The first reply of DHX2: transaction id, g, key length, p and Mb. *)
Definition parse_dhx2 : M reader (result (Z * Z * Z * Z * Z)) :=
  id ← r_u16 "transaction id";
  g ← r_take 4 "g";
  keyLen ← r_u16 "key length";
  r ← get;
  if bool_decide (rerr r = None ∧ (keyLen = 0 ∨ dhx2MaxKeyLen < keyLen)) then
    mret (Err (EErrorf "afp: DHX2: unreasonable key length %d" [FZ keyLen]))
  else
  p ← r_take keyLen "p";
  mb ← r_take keyLen "Mb";
  r ← get;
  if rerr r is Some e then mret (Err e) else
  let g := SetBytes (default [] g) in
  let p := SetBytes (default [] p) in
  let mb := SetBytes (default [] mb) in
  if bool_decide (g = 0 ∨ BitLen p < 64) then
    mret (Err (EErrorf "afp: DHX2: degenerate DH parameters from server" []))
  else mret (Ok (id, g, keyLen, p, mb)).

(** The second reply: the next id and the encrypted nonces. *)
Definition parse_dhx2_nonces : M reader (result (Z * bytes)) :=
  id ← r_u16 "transaction id";
  ct ← r_take (dhx2NonceLen * 2) "nonce block";
  r_check (id, default [] ct).

(** The first reply of SRP: context, N, g, salt and B. *)
Definition parse_srp : M reader (result (Z * bytes * bytes * bytes * bytes)) :=
  context ← r_u16 "srp context";
  _ ← r_u16 "srp group index";
  n ← r_u16 "N length"; nBytes ← r_take n "N";
  n ← r_u16 "g length"; gBytes ← r_take n "g";
  n ← r_u16 "salt length"; salt ← r_take n "salt";
  n ← r_u16 "B length"; bBytes ← r_take n "B";
  r_check (context, default [] nBytes, default [] gBytes, default [] salt, default [] bBytes).

(** The final reply of SRP: its step marker and the server's proof. *)
Definition parse_srp_final : M reader (result bytes) :=
  step ← r_u16 "srp step";
  if bool_decide (step ≠ srpServerProof) then
    mret (Err (EErrorf "afp: SRP: unexpected final step marker %#04x" [FZ step]))
  else
  n ← r_u16 "M2 length"; m2 ← r_take n "M2";
  r_check (default [] m2).

(** What the client of SRP computes from the server's parameters and its own
    secret [a]: nothing when u is zero, else A, the key K and the proof M1. *)
Definition srp_compute (nBytes gBytes salt bBytes aBytes username password : bytes)
  : outcome (option (Z * bytes * bytes)) :=
  let N := SetBytes nBytes in
  let g := SetBytes gBytes in
  let B := SetBytes bBytes in
  let width := len nBytes in
  let a := SetBytes aBytes mod N in
  let A := Exp g a N in
  let inner := sha1Sum [username; str ":"; password] in
  let x := SetBytes (sha1Sum [salt; inner]) in
  padg ← leftPad g width;
  let k := SetBytes (sha1Sum [nBytes; padg]) in
  padA ← leftPad A width;
  padB ← leftPad B width;
  let u := SetBytes (sha1Sum [padA; padB]) in
  if bool_decide (u = 0) then mret None else
  let gx := Exp g x N in
  let kgx := k * gx in
  let base := (B - kgx) mod N in
  let exp := a + u * x in
  let S := Exp base exp N in
  K ← mgf1SHA1 (Bytes S) 40;
  let xorNg := bxor (sha1Sum [Bytes N]) (sha1Sum [Bytes g]) in
  let hUser := sha1Sum [username] in
  let m1 := sha1Sum [xorNg; hUser; salt; Bytes A; Bytes B; K] in
  mret (Some (A, K, m1)).

(** The client's proof message. *)
Definition srp_proof (A : Z) (m1 : bytes) : bytes :=
  [] |> w_u16 srpClientProof |> w_u16 (u16 (len (Bytes A))) |> w_bytes (Bytes A)
     |> w_u16 srpHashLen |> w_bytes m1.

Section logins.
Context {W : Type} `{Transport W} `{Entropy W} `{Cast5} (ctx : Ctx).

Definition login (s : Session) (uam authinfo : bytes) : M W (result (bytes * Z)) :=
  command ctx (login_request s uam authinfo).

Definition loginCont (id : Z) (authinfo : bytes) : M W (result (bytes * Z)) :=
  command ctx (login_cont_request id authinfo).

Definition loginGuest (s : Session) : M W (result unit) :=
  '(_, code) ←? login s uamNoAuth [];
  mret (resultErr (str "guest login") code).

Definition loginCleartext (s : Session) (username password : bytes) : M W (result unit) :=
  '(_, code) ←? login s uamCleartext (cleartext_auth s username password);
  mret (resultErr (str "cleartext login") code).

Definition loginDHX2 (s : Session) (username password : bytes) : M W (result unit) :=
  '(payload, code) ←? login s uamDHX2 ([] |> w_pascal username);
  if bool_decide (code ≠ ResAuthContinue) then mret (resultErr (str "DHX2 login") code) else
  '(id, g, keyLen, p, mb) ←? reading payload parse_dhx2;
  raBytes ←? rand_Read keyLen;
  let ra := SetBytes raBytes in
  let ma := Exp g ra p in
  let k := Exp mb ra p in
  kb ← lift (leftPad k keyLen);
  block ←? mret (cast5_NewCipher (md5 kb));
  clientNonce ←? rand_Read dhx2NonceLen;
  mab ← lift (leftPad ma keyLen);
  enc ← lift (cbcEncrypt block dhxClientIV clientNonce);
  '(payload, code) ←? loginCont id (mab ++ enc);
  if bool_decide (code ≠ ResAuthContinue) then mret (resultErr (str "DHX2 exchange") code) else
  '(id, ct) ←? reading payload parse_dhx2_nonces;
  plain ← lift (cbcDecrypt block dhxServerIV ct);
  got ← lift (slice plain 0 dhx2NonceLen);
  if negb (ConstantTimeCompare got (incNonce clientNonce)) then
    mret (Err (EErrorf "afp: DHX2: server failed nonce check (wrong DH result?)" []))
  else
  serverNonce ← lift (slice plain dhx2NonceLen (len plain));
  let final := incNonce serverNonce ++ take 256 password ++ replicate (256 - length password) x00 in
  enc ← lift (cbcEncrypt block dhxClientIV final);
  '(_, code) ←? loginCont id enc;
  mret (resultErr (str "DHX2 login") code).

Definition loginSRP (s : Session) (username password : bytes) : M W (result unit) :=
  '(payload, code) ←? login s uamSRP ([] |> w_pascal username);
  if bool_decide (code ≠ ResAuthContinue) then mret (resultErr (str "SRP login") code) else
  '(context16, nBytes, gBytes, salt, bBytes) ←? reading payload parse_srp;
  if bool_decide (SetBytes nBytes = 0 ∨ SetBytes bBytes = 0) then
    mret (Err (EErrorf "afp: SRP: degenerate parameters from server" []))
  else
  aBytes ←? rand_Read (len nBytes);
  keys ← lift (srp_compute nBytes gBytes salt bBytes aBytes username password);
  match keys with
  | None => mret (Err (EErrorf "afp: SRP: u == 0" []))
  | Some (A, K, m1) =>
    '(payload, code) ←? loginCont context16 (srp_proof A m1);
    _ ←? mret (resultErr (str "SRP login") code);
    m2 ←? reading payload parse_srp_final;
    if ConstantTimeCompare m2 (sha1Sum [Bytes A; m1; K]) then mret (Ok tt)
    else mret (Err (EErrorf "afp: SRP: server proof (M2) mismatch" []))
  end.

(** [Login] sets the session's version before it authenticates. *)
Definition Login (info : ServerInfo) (username password : bytes) (s : Session)
  : M W (Session * result unit) :=
  match pickVersion (AFPVersions info) with
  | Err e => mret (s, Err e)
  | Ok version =>
    let s := MkSession version in
    let uams : gset bytes := foldl (λ h u, {[ u ]} ∪ h) ∅ (UAMs info) in
    r ← (if bool_decide (username = []) then
           if bool_decide (uamNoAuth ∉ uams) then
             mret (Err (EErrorf "afp: server does not allow guest login (UAMs: %v)" [FL (UAMs info)]))
           else loginGuest s
         else if bool_decide (uamDHX2 ∈ uams) then loginDHX2 s username password
         else if bool_decide (uamSRP ∈ uams) then loginSRP s username password
         else if bool_decide (uamCleartext ∈ uams) then loginCleartext s username password
         else mret (Err (EErrorf "afp: no mutually supported UAM (server offers %v)" [FL (UAMs info)])));
    mret (s, r)
  end.

End logins.
