(* ===== verification/Reports.v ===== *)
(** * Errors reach the caller

    A transport that notes the outcome of every request, and what an operation
    of a session returns in view of all outcomes: none is swallowed, at whatever
    point of the operation it comes. *)

From S2P Require Import Prelude Header Result Wire Entry ServerInfo Conn Transport Session SessionSpec Errgroup Fork Ops Login.

Open Scope go_scope.

(** ** A transport that takes notes *)

Abbreviation notes := (list (result Reply)).

Definition noting {W} (T : Transport W) : Transport (W * notes) := {|
  t_request ctx cmd off payload '(w, log) :=
    match t_request ctx cmd off payload w with
    | Ret (r, w') => Ret (r, (w', log ++ [r]))
    | Panics => Panics
    | NoFuel => NoFuel
    end;
  t_quantum '(w, _) := t_quantum w;
|}.

Definition noting_entropy {W} (E : Entropy W) : Entropy (W * notes) := {| rand_Read n := zoom1 (rand_Read n) |}.

(** The AFP result code of a reply. *)
Definition reply_code (r : Reply) : Z := i32 (ErrCode (rp_Header r)).

(** What is returned in view of the outcomes [log]: an error of the connection as
    it is; a code that is not [fine] as an error that [as_error] allows. *)
Definition reports {A} (fine : Z → Prop) (as_error : Z → error → Prop) (log : notes) (r : result A) : Prop :=
  Forall (λ x, match x with
               | Err e => r = Err e
               | Ok rp => fine (reply_code rp) ∨ ∃ e, r = Err e ∧ as_error (reply_code rp) e
               end) log.

(** The code of the last reply, [code] if there is none. *)
Fixpoint last_code (code : Z) (log : notes) : Z :=
  match log with
  | [] => code
  | Ok rp :: log' => last_code (reply_code rp) log'
  | Err _ :: log' => last_code code log'
  end.

Section noting.
Context {W : Type} `{T : Transport W}.
#[local] Instance noting_transport : Transport (W * notes) := noting T.

(** [heard P m]: the outcomes that [m] adds and its result satisfy [P]. *)
Definition heard {A} (P : notes → A → Prop) (m : M (W * notes) A) : Prop :=
  ∀ w log a w' log', m (w, log) = Ret (a, (w', log')) → ∃ new, log' = log ++ new ∧ P new a.

Lemma heard_mono {A} (P Q : notes → A → Prop) m : heard P m → (∀ new a, P new a → Q new a) → heard Q m.
Proof. intros Hm HPQ w log a w' log' E. destruct (Hm _ _ _ _ _ E) as (new&->&Ha). exists new. auto. Qed.

Lemma heard_ret {A} (P : notes → A → Prop) a : P [] a → heard P (mret a).
Proof. intros Ha w log a' w' log' [= <- <- <-]. exists []. by rewrite app_nil_r. Qed.

Lemma heard_bind {A B} (P : notes → A → Prop) (Q : notes → B → Prop) m k :
  heard P m → (∀ new a, P new a → heard (λ new', Q (new ++ new')) (k a)) → heard Q (m ≫= k).
Proof.
  intros Hm Hk w log b w' log' E. apply M_bind_inv in E as (a&[w1 log1]&E1&E2).
  destruct (Hm _ _ _ _ _ E1) as (new&->&Ha). destruct (Hk new a Ha _ _ _ _ _ E2) as (new'&->&Hb).
  exists (new ++ new'). by rewrite app_assoc.
Qed.

(** Programs that make no request. *)
Definition silent {A} (m : M (W * notes) A) : Prop := heard (λ new _, new = []) m.

Lemma silent_lift {A} (o : outcome A) : silent (lift o).
Proof. intros w log a w' log' E. unfold lift in E. destruct o; [|done..]. injection E as <- <- <-. exists []. by rewrite app_nil_r. Qed.

Lemma silent_reading {A} payload (m : M reader A) : silent (reading payload m).
Proof.
  unfold reading. eapply heard_bind; [apply silent_lift|]. intros new [a r] ->. by apply heard_ret.
Qed.

Lemma heard_silent {A B} (Q : notes → B → Prop) (m : M (W * notes) A) k :
  silent m → (∀ a, heard Q (k a)) → heard Q (m ≫= k).
Proof. intros Hm Hk. eapply heard_bind; [exact Hm|]. intros new a ->. apply Hk. Qed.

Lemma heard_try_silent {A B} (Q : notes → result B → Prop) (m : M (W * notes) (result A)) k :
  silent m → (∀ a, heard Q (k a)) → (∀ e, Q [] (Err e)) → heard Q (try_bind m k).
Proof. intros Hm Hk He. unfold try_bind. apply heard_silent; [done|]. intros [a|e]; [apply Hk|by apply heard_ret]. Qed.

Lemma heard_final {A} (P : notes → A → Prop) m : silent m → (∀ a, P [] a) → heard P m.
Proof. intros Hm HP. eapply heard_mono; [exact Hm|]. intros new a ->. apply HP. Qed.

(** A request, and what follows in view of its code. *)
Lemma heard_command {B} (Q : notes → result B → Prop) ctx payload k :
  (∀ e, Q [Err e] (Err e)) →
  (∀ rp, heard (λ new, Q (Ok rp :: new)) (k (rp_Payload rp, reply_code rp))) →
  heard Q (try_bind (command ctx payload) k).
Proof.
  intros He Hk. unfold try_bind, command.
  eapply (heard_bind (λ new r, match r with
    | Ok (p, c) => ∃ rp, new = [Ok rp] ∧ p = rp_Payload rp ∧ c = reply_code rp
    | Err e => new = [Err e] end)).
  - unfold try_bind. eapply (heard_bind (λ new r, new = [r])).
    + intros w log r w' log' E. cbn in E. destruct (t_request _ _ _ _ w) as [[r1 w1]| |]; [|done..].
      injection E as <- <- <-. by exists [r1].
    + intros new [rp|e] ->; apply heard_ret; [by exists rp|done].
  - intros new [[p c]|e].
    + intros (rp&->&->&->). apply Hk.
    + intros ->. apply heard_ret. apply He.
Qed.

(** ** Operations *)

Section reports.
Context {B : Type} (fine : Z → Prop) (as_error : Z → error → Prop).

Lemma reports_nil (r : result B) : reports fine as_error [] r.
Proof. constructor. Qed.

Lemma reports_lost e : reports (A := B) fine as_error [Err e] (Err e).
Proof. by repeat constructor. Qed.

Lemma reports_fine rp log (r : result B) : fine (reply_code rp) → reports fine as_error log r → reports fine as_error (Ok rp :: log) r.
Proof. intros Hf Hr. constructor; [by left|exact Hr]. Qed.

Lemma reports_code rp e : as_error (reply_code rp) e → reports (A := B) fine as_error [Ok rp] (Err e).
Proof. intros He. constructor; [right; by exists e|constructor]. Qed.

Lemma heard_fine rp (m : M (W * notes) (result B)) :
  fine (reply_code rp) → heard (reports fine as_error) m → heard (λ new, reports fine as_error (Ok rp :: new)) m.
Proof. intros Hf Hm. eapply heard_mono; [exact Hm|]. intros new r. by apply reports_fine. Qed.

End reports.

Lemma heard_checked_ok {A B} (Q : notes → result B → Prop) a (k : A → M (W * notes) (result B)) :
  heard Q (k a) → heard Q (try_bind (mret (Ok a)) k).
Proof. done. Qed.

(** The two shapes of an operation, with its name in the errors. *)
Definition strictly {B} (op : bytes) : notes → result B → Prop := reports (.= 0) (λ c e, e = EAfp op c).

Lemma heard_checked {B} op rp (m : M (W * notes) (result B)) :
  heard (strictly op) m → heard (λ new, strictly op (Ok rp :: new)) (try_bind (mret (resultErr op (reply_code rp))) (λ _, m)).
Proof.
  intros Hm. unfold resultErr. case_bool_decide as Hc; [by apply heard_fine|].
  apply heard_ret. by apply reports_code.
Qed.

Lemma heard_invoke ctx op payload : heard (strictly op) (invoke ctx op payload).
Proof.
  unfold invoke. apply heard_command; [apply reports_lost|]. intros rp. apply heard_ret.
  unfold resultErr. case_bool_decide as Hc; [apply reports_fine; [done|apply reports_nil]|by apply reports_code].
Qed.

Lemma heard_query {B} ctx op payload (k : bytes → M (W * notes) (result B)) :
  (∀ p, silent (k p)) → heard (strictly op) (try_bind (query ctx op payload) k).
Proof.
  intros Hk w log r w' log' E.
  assert (try_bind (command ctx payload) (λ '(reply, code), try_bind (mret (resultErr op code)) (λ _, k reply)) (w, log)
    = Ret (r, (w', log'))) as E'.
  { rewrite <- E. unfold query, try_bind, mbind, M_bind. destruct (command ctx payload (w, log)) as [[[[p c]|e] s]| |]; [|done..].
    cbn. by destruct (resultErr op c). }
  revert E'. apply heard_command; [apply reports_lost|]. intros rp. apply heard_checked.
  apply heard_final; [apply Hk|]. intros b. apply reports_nil.
Qed.

(** Enumerating, at any point: "object not found" alone ends it. *)
Definition enumerating {B} (path : bytes) : notes → result B → Prop :=
  reports (λ c, c = 0 ∨ c = ResObjectNotFound) (λ c e, e = EAfp (str "enumerate " ++ path) c).

Lemma heard_ReadDir_loop `{Norm} fuel v ctx dirID path start all :
  heard (enumerating path) (ReadDir_loop fuel v ctx dirID path start all).
Proof.
  revert start all. induction fuel as [|fuel IH]; intros start all; cbn [ReadDir_loop]; [done|].
  apply heard_command; [apply reports_lost|]. intros rp.
  case_bool_decide as Hn; [apply heard_ret, reports_fine; [by right|apply reports_nil]|].
  unfold resultErr. case_bool_decide as Hz; [|apply heard_ret; by apply reports_code].
  apply heard_fine; [by left|]. apply heard_checked_ok.
  apply heard_try_silent; [apply silent_lift| |intros e; apply reports_nil].
  intros entries. case_bool_decide; [apply heard_ret, reports_nil|apply IH].
Qed.

(** ** Logging in *)

Context `{Ent : Entropy W}.
#[local] Instance noting_random : Entropy (W * notes) := noting_entropy Ent.

Lemma silent_rand n : silent (rand_Read n).
Proof.
  intros w log a w' log' E. cbn in E. unfold zoom1 in E. cbn [fst snd] in E.
  destruct (rand_Read n w) as [[r w1]| |]; [|done..]. injection E as <- <- <-. exists []. by rewrite app_nil_r.
Qed.

(** A login: codes other than "no error" and "authentication continues" are
    errors of the login, and it has not succeeded before a reply says so. *)
Definition login_error (c : Z) (e : error) : Prop :=
  ∃ op, e = EAfp op c ∧ op ∈ [str "guest login"; str "cleartext login"; str "DHX2 login"; str "DHX2 exchange"; str "SRP login"].
Definition login_reports (code : Z) (log : notes) (r : result unit) : Prop :=
  reports (λ c, c = 0 ∨ c = ResAuthContinue) login_error log r ∧ (r = Ok tt → last_code code log = 0).

Lemma login_lost code e : login_reports code [Err e] (Err e).
Proof. split; [apply reports_lost|done]. Qed.

Lemma login_failed code e : login_reports code [] (Err e).
Proof. split; [constructor|done]. Qed.

Lemma login_goes_on code rp (m : M (W * notes) (result unit)) :
  reply_code rp = ResAuthContinue → heard (login_reports ResAuthContinue) m → heard (λ new, login_reports code (Ok rp :: new)) m.
Proof.
  intros Hc Hm. eapply heard_mono; [exact Hm|]. intros new r [Hr Hl]. split; [apply reports_fine; [by right|done]|].
  cbn. by rewrite Hc.
Qed.

Lemma login_ends code op rp : 
  op ∈ [str "guest login"; str "cleartext login"; str "DHX2 login"; str "DHX2 exchange"; str "SRP login"] →
  heard (λ new, login_reports code (Ok rp :: new)) (mret (resultErr op (reply_code rp))).
Proof.
  intros Hop. apply heard_ret. unfold resultErr. case_bool_decide as Hz.
  - split; [apply reports_fine; [by left|apply reports_nil]|]. done.
  - split; [|done]. apply reports_code. by exists op.
Qed.

Context `{Cast5}.

Lemma heard_early code op rp (m : M (W * notes) (result unit)) :
  op ∈ [str "guest login"; str "cleartext login"; str "DHX2 login"; str "DHX2 exchange"; str "SRP login"] →
  heard (login_reports ResAuthContinue) m →
  heard (λ new, login_reports code (Ok rp :: new))
    (if bool_decide (reply_code rp ≠ ResAuthContinue) then mret (resultErr op (reply_code rp)) else m).
Proof.
  intros Hop Hm. case_bool_decide as Hc; [by apply login_ends|].
  apply login_goes_on; [lia|done].
Qed.

Lemma heard_loginGuest ctx s : heard (login_reports ResAuthContinue) (loginGuest ctx s).
Proof.
  apply heard_command; [apply login_lost|]. intros rp. apply login_ends. set_solver.
Qed.

Lemma heard_loginCleartext ctx s user pass : heard (login_reports ResAuthContinue) (loginCleartext ctx s user pass).
Proof.
  apply heard_command; [apply login_lost|]. intros rp. apply login_ends. set_solver.
Qed.

(** One step of a login that makes no request. *)
Ltac quiet := first
  [ apply heard_try_silent; [first [apply silent_reading | apply silent_rand | apply heard_ret; done]| |intros ?; apply login_failed]
  | apply heard_silent; [apply silent_lift|] ].

Lemma heard_loginDHX2 ctx s user pass : heard (login_reports ResAuthContinue) (loginDHX2 ctx s user pass).
Proof.
  apply heard_command; [apply login_lost|]. intros rp. apply heard_early; [set_solver|].
  quiet. intros [[[[id g] keyLen] p] mb]. quiet. intros ra. quiet. intros kb. quiet. intros block. quiet. intros nonce.
  do 2 (quiet; intros ?).
  apply heard_command; [apply login_lost|]. intros rp2. apply heard_early; [set_solver|].
  quiet. intros [id2 ct]. do 2 (quiet; intros ?). destruct (negb _); [apply heard_ret, login_failed|].
  do 2 (quiet; intros ?).
  apply heard_command; [apply login_lost|]. intros rp3. apply login_ends. set_solver.
Qed.

Lemma heard_loginSRP ctx s user pass : heard (login_reports ResAuthContinue) (loginSRP ctx s user pass).
Proof.
  apply heard_command; [apply login_lost|]. intros rp. apply heard_early; [set_solver|].
  quiet. intros [[[[c16 n] g] salt] b]. case_bool_decide; [apply heard_ret, login_failed|].
  quiet. intros a. quiet. intros [[[A K] m1]|]; [|apply heard_ret, login_failed].
  apply heard_command; [apply login_lost|]. intros rp2. unfold resultErr.
  case_bool_decide as Hz.
  2:{ apply heard_ret. split; [|done]. apply reports_code. exists (str "SRP login"). split; [done|set_solver]. }
  apply heard_mono with (P := login_reports 0).
  2:{ intros new r [Hr Hl]. split; [apply reports_fine; [by left|done]|]. cbn. by rewrite Hz. }
  apply heard_checked_ok, heard_try_silent; [apply silent_reading| |intros ?; apply login_failed]. intros m2.
  destruct (ConstantTimeCompare _ _); apply heard_ret; [|apply login_failed].
  split; [constructor|done].
Qed.

Lemma heard_Login ctx info user pass s :
  heard (λ new x, login_reports ResAuthContinue new x.2) (Login ctx info user pass s).
Proof.
  unfold Login. destruct (pickVersion _) as [version|e]; [|apply heard_ret, login_failed]. cbn zeta.
  eapply heard_bind.
  - instantiate (1 := login_reports ResAuthContinue). repeat case_bool_decide;
      first [apply heard_loginGuest | apply heard_loginDHX2 | apply heard_loginSRP | apply heard_loginCleartext
            | apply heard_ret, login_failed].
  - intros new r Hr. apply heard_ret. by rewrite app_nil_r.
Qed.

End noting.

(** ** Operations that answer *)

Section told.
Context {W : Type} `{T : Transport W} `{Norm}.
#[local] Instance told_transport : Transport (W * notes) := noting T.

(** From an empty log: the program returns, and its outcomes and result satisfy
    [P]. *)
Definition told {A} (P : notes → A → Prop) (m : M (W * notes) A) : Prop :=
  ∀ w, ∃ r w' log, m (w, []) = Ret (r, (w', log)) ∧ P log r.

Definition answers {A} (m : M (W * notes) A) : Prop := ∀ s, ∃ a s', m s = Ret (a, s').

Lemma told_heard {A} (P : notes → A → Prop) m : answers m → heard P m → told P m.
Proof.
  intros Hm Hh w. destruct (Hm (w, [])) as (r&[w' log]&E).
  destruct (Hh _ _ _ _ _ E) as (new&Hn&Hr). cbn in Hn. subst log. by exists r, w', new.
Qed.

(** Every request gets an outcome, and every other but a failure brings
    the end of the server's patience, [μ], nearer. *)
Definition failure (r : result Reply) : Prop :=
  match r with Err _ => True | Ok rp => reply_code rp ≠ 0 end.

Context (μ : W → nat).
Definition dwindles : Prop :=
  ∀ ctx cmd off payload w, ∃ r w', t_request ctx cmd off payload w = Ret (r, w') ∧
    (failure r ∨ (μ w' < μ w)%nat).

Context (HT : dwindles).

Lemma answers_try {A B} (m : M (W * notes) (result A)) (k : A → M (W * notes) (result B)) :
  answers m → (∀ a, answers (k a)) → answers (try_bind m k).
Proof.
  intros Hm Hk s. destruct (Hm s) as ([a|e]&s'&E).
  - erewrite try_bind_ok by done. apply Hk.
  - erewrite try_bind_err by done. by do 2 eexists.
Qed.

Lemma answers_ret {A} (a : A) : answers (mret a).
Proof. intros s. by do 2 eexists. Qed.

Lemma answers_lift {A} (o : outcome A) : (∃ a, o = Ret a) → answers (lift o).
Proof. intros [a ->] s. by do 2 eexists. Qed.

Lemma command_dwindles ctx payload w log :
  ∃ r w', t_request ctx CmdCommand 0 payload w = Ret (r, w') ∧
    command ctx payload (w, log)
    = Ret (match r with Ok rp => Ok (rp_Payload rp, reply_code rp) | Err e => Err e end, (w', log ++ [r])) ∧
    (failure r ∨ (μ w' < μ w)%nat).
Proof.
  destruct (HT ctx CmdCommand 0 payload w) as (r&w'&E&Hr). exists r, w'. split; [done|]. split; [|done].
  unfold command, try_bind, mbind, M_bind. cbn [t_request told_transport noting]. rewrite E. by destruct r.
Qed.

Lemma answers_command ctx payload : answers (command ctx payload).
Proof. intros [w log]. destruct (command_dwindles ctx payload w log) as (r&w'&_&E&_). by do 2 eexists. Qed.

Lemma answers_invoke ctx op payload : answers (invoke ctx op payload).
Proof. apply answers_try; [apply answers_command|]. intros [p c]. apply answers_ret. Qed.

Lemma answers_query {B} ctx op payload (k : bytes → M (W * notes) (result B)) :
  (∀ p, answers (k p)) → answers (try_bind (query ctx op payload) k).
Proof.
  intros Hk. apply answers_try; [|done]. apply answers_try; [apply answers_command|].
  intros [p c]. apply answers_try; [apply answers_ret|]. intros _. apply answers_ret.
Qed.

Lemma answers_reading {A} payload (m : M reader A) : (∃ a r, m (new_reader payload) = Ret (a, r)) → answers (reading payload m).
Proof. intros (a&r&E) s. unfold reading. rewrite E. by do 2 eexists. Qed.

Lemma answers_ReadDir_loop fuel v ctx dirID path start all w log :
  (μ w < fuel)%nat → ∃ r s, ReadDir_loop fuel v ctx dirID path start all (w, log) = Ret (r, s).
Proof.
  revert start all w log. induction fuel as [|fuel IH]; intros start all w log Hf; [lia|]. cbn [ReadDir_loop].
  destruct (command_dwindles ctx (enumerate_request v dirID start path) w log) as (r&w'&_&E&Hr).
  destruct r as [rp|e]; [|erewrite try_bind_err by exact E; by do 2 eexists].
  erewrite try_bind_ok by exact E. cbn beta iota. case_bool_decide; [by do 2 eexists|].
  unfold resultErr. case_bool_decide as Hz; [|by do 2 eexists].
  erewrite try_bind_ok by done. destruct (parseEnumerateReply_total (rp_Payload rp)) as [res Ep].
  destruct res as [l|e].
  2:{ erewrite try_bind_err by (unfold lift; by rewrite Ep). by do 2 eexists. }
  erewrite try_bind_ok by (unfold lift; by rewrite Ep). case_bool_decide; [by do 2 eexists|].
  apply IH. destruct Hr as [Hr|Hr]; [done|lia].
Qed.

Lemma told_invoke ctx (op : bytes) payload : told (strictly op) (invoke ctx op payload).
Proof. apply told_heard; [apply answers_invoke|apply heard_invoke]. Qed.

Lemma told_query {B} ctx (op : bytes) payload (k : bytes → M (W * notes) (result B)) :
  (∀ p, answers (k p)) → (∀ p, silent (k p)) → told (strictly op) (try_bind (query ctx op payload) k).
Proof. intros Ha Hs. apply told_heard; [by apply answers_query|by apply heard_query]. Qed.

Lemma told_parsed {B} ctx (op : bytes) payload (m : bytes → outcome (result B)) :
  (∀ p, ∃ r, m p = Ret r) → told (strictly op) (try_bind (query ctx op payload) (λ p, lift (m p))).
Proof. intros Hm. apply told_query; intros p; [by apply answers_lift|apply silent_lift]. Qed.

Lemma told_read {B} ctx (op : bytes) payload (m : M reader (result B)) :
  rsafe (λ _, True) m → told (strictly op) (try_bind (query ctx op payload) (λ p, reading p m)).
Proof.
  intros Hm. apply told_query; intros p; [|apply silent_reading].
  apply answers_reading. destruct (rsafe_run _ _ p Hm) as (a&r&E&_). by do 2 eexists.
Qed.

Lemma told_ReadDir fuel v ctx dirID path w :
  (μ w < fuel)%nat → ∃ r w' log, ReadDir fuel v ctx dirID path (w, []) = Ret (r, (w', log)) ∧ enumerating path log r.
Proof.
  intros Hf. destruct (answers_ReadDir_loop fuel v ctx dirID path 1 [] w [] Hf) as (r&[w' log]&E).
  destruct (heard_ReadDir_loop _ _ _ _ _ _ _ _ _ _ _ _ E) as (new&Hn&Hr). cbn in Hn. subst log. by exists r, w', new.
Qed.

End told.

(** ** Properties *)

(** C31: no failure of a request is swallowed, at whatever point of an operation
    it comes.  Against any server that does not answer "no error" for ever, every
    operation of a session and of a volume that is not a transfer returns, and in
    view of the outcomes of all requests it made: an error of the connection is
    returned as it is, and a nonzero code as the [*Error] with that code and the
    operation's name; [ReadDir], after any number of batches, takes "object not
    found" alone for the end.  A login, by whichever method, never succeeds over
    an error of the connection, returns a code other than 0 and "authentication
    continues" as an [*Error] of the login, and succeeds only when the last reply
    said 0. *)
Theorem session_errors_reported {W : Type} `{T : Transport W} `{Norm} `{Ent : Entropy W} `{Cast5}
    (μ : W → nat) ctx v name dirID path to b uid gid mode mtime fi mode' f size fuel info user pass s :
  dwindles (T := T) μ →
  let T' := noting T in
  let E' := noting_entropy Ent in
  (told (strictly (str "logout")) (Logout ctx) ∧
   told (strictly (str "list volumes")) (ListVolumes ctx) ∧
   told (strictly (str "open volume " ++ name)) (OpenVolume ctx name) ∧
   told (strictly (str "close volume")) (Volume_Close v ctx) ∧
   told (strictly (str "stat " ++ path)) (Stat v ctx dirID path) ∧
   told (strictly (str "create " ++ path)) (CreateFile v ctx dirID path b) ∧
   told (strictly (str "mkdir " ++ path)) (Mkdir v ctx dirID path) ∧
   told (strictly (str "delete " ++ path)) (Delete v ctx dirID path) ∧
   told (strictly (str "rename " ++ path)) (Rename v ctx dirID path to) ∧
   told (strictly (str "set unix privs " ++ path)) (SetUnixPrivs v ctx dirID path uid gid mode) ∧
   told (strictly (str "set mod time " ++ path)) (SetModTime v ctx dirID path mtime) ∧
   told (strictly (str "set finder info " ++ path)) (setFinderInfo v ctx dirID path fi) ∧
   told (strictly (str "statfs")) (StatFS v ctx) ∧
   told (strictly (str "open " ++ path)) (openFork v ctx dirID path mode') ∧
   told (strictly (str "close fork")) (Fork_Close f ctx) ∧
   told (strictly (str "truncate")) (Truncate f ctx size)) ∧
  (∀ w, (μ w < fuel)%nat →
     ∃ r w' log, ReadDir fuel v ctx dirID path (w, []) = Ret (r, (w', log)) ∧ enumerating path log r) ∧
  (∀ w s' r w' log, Login ctx info user pass s (w, []) = Ret ((s', r), (w', log)) →
     login_reports ResAuthContinue log r).
Proof.
  intros HT T' E'. split; [|split].
  - split_and!; first [eapply told_invoke, HT | eapply told_parsed; [exact HT|] | eapply told_read; [exact HT|]].
    + apply parse_volumes_total.
    + apply rsafe_parse_open_vol.
    + apply parse_stat_total.
    + unfold parse_statfs. repeat rsafe_step.
    + unfold parse_open_fork. repeat rsafe_step.
  - intros w Hf. by eapply told_ReadDir.
  - intros w s' r w' log E. destruct (heard_Login ctx info user pass s _ _ _ _ _ E) as (new&Hn&Hr).
    cbn in Hn. by subst log.
Qed.

(** A server that lists one entry per batch while its patience lasts, and then
    denies access. *)
Definition failing_server : server nat := λ _ _ _ n,
  match n with
  | O => (u32 ResAccessDenied, [], O)
  | S n' => (0, enumerate_payload (entryBitmaps sample_volume).1 (entryBitmaps sample_volume).2 [sample_item x00 (str "a.txt")] [], n')
  end.

Definition still_entropy : Entropy nat := {| rand_Read n := mret (Ok (replicate (Z.to_nat n) x00)) |}.

Lemma session_errors_reported_witness :
  ∃ r w' log,
    @ReadDir _ (noting (direct_transport failing_server 0)) plain_norm 3 sample_volume Background RootDirID (str "/docs") (2%nat, [])
    = Ret (r, (w', log)) ∧
    r = Err (EAfp (str "enumerate /docs") ResAccessDenied) ∧ map (λ x, match x with Ok rp => reply_code rp | _ => 1 end) log = [0; 0; ResAccessDenied].
Proof.
  destruct (proj1 (proj2 (@session_errors_reported nat (direct_transport failing_server 0) plain_norm still_entropy
    {| cast5_NewCipher _ := Err (EIO 0) |} id Background sample_volume [] RootDirID (str "/docs") [] false 0 0 0 0 [] 0
    (MkFork sample_volume 0 0 0 0) 0 3 (MkServerInfo [] [] [] [] 0) [] [] NewSession ltac:(
      intros ctx cmd off payload [|n]; cbn [t_request direct_transport]; destruct (live ctx); do 2 eexists;
        (split; [reflexivity|]); first [left; exact I | left; vm_compute; discriminate | right; apply Nat.lt_succ_diag_r])))
    2%nat (Nat.lt_succ_diag_r 2)) as (r&w'&log&E&_).
  exists r, w', log. split; [exact E|]. vm_compute in E. injection E as <- <- <-. split; reflexivity.
Defined.
