(* ===== verification/LoginSpec.v ===== *)
(** * Authentication: what the logins guarantee

    Diffie-Hellman and SRP agreement with a server that computes its own half,
    mutual authentication, the layout of the cleartext login, and the choice of
    the method. *)

From Stdlib Require Import Zpow_facts.
From S2P Require Import Prelude Header Result Wire ServerInfo Conn Transport Session SessionSpec Hash Login.

Open Scope go_scope.

(** ** Numbers *)

Lemma Exp_mod x y m : 0 < m → 0 ≤ y → Exp x y m = x ^ y mod m.
Proof.
  intros Hm Hy. unfold Exp. rewrite bool_decide_eq_false_2 by lia.
  apply Zpow_mod_correct. lia.
Qed.

Lemma Exp_range x y m : 0 < m → 0 ≤ y → 0 ≤ Exp x y m < m.
Proof. intros. rewrite Exp_mod by done. by apply Z.mod_pos_bound. Qed.

Lemma leftPad_ok v n : v < 256 ^ n → leftPad v n = Ret (be_bytes (Z.to_nat n) v).
Proof. intros. unfold leftPad. by rewrite bool_decide_eq_false_2 by lia. Qed.

(** Powers of congruent bases are congruent. *)
Lemma pow_mod_base x y m : 0 < m → 0 ≤ y → (x mod m) ^ y mod m = x ^ y mod m.
Proof. intros. symmetry. by apply Zpower_mod. Qed.

(** Diffie-Hellman: both sides have the same shared secret. *)
Lemma dh_agree g ra rb p :
  0 < p → 0 ≤ ra → 0 ≤ rb → (g ^ rb mod p) ^ ra mod p = (g ^ ra mod p) ^ rb mod p.
Proof.
  intros. rewrite !pow_mod_base by done. rewrite <- !Z.pow_mul_r by done. by rewrite Z.mul_comm.
Qed.

(** SRP: the client's (B - k g^x)^(a + u x) is the server's (A v^u)^b, for the
    verifier v = g^x and B = k v + g^b. *)
Lemma srp_agree g a b u x k N :
  0 < N → 0 ≤ a → 0 ≤ b → 0 ≤ u → 0 ≤ x →
  (((k * (g ^ x mod N) + g ^ b) mod N - k * (g ^ x mod N)) mod N) ^ (a + u * x) mod N
  = ((g ^ a mod N) * ((g ^ x mod N) ^ u mod N)) ^ b mod N.
Proof.
  intros HN Ha Hb Hu Hx. set (v := g ^ x mod N).
  assert (((k * v + g ^ b) mod N - k * v) mod N = g ^ b mod N) as ->.
  { rewrite Zminus_mod_idemp_l. f_equal. lia. }
  assert (((g ^ a mod N) * (v ^ u mod N)) mod N = g ^ (a + u * x) mod N) as E.
  { rewrite <- Z.mul_mod by lia. rewrite <- (Z.mul_mod_idemp_r _ (v ^ u)) by lia.
    unfold v. rewrite pow_mod_base, Z.mul_mod_idemp_r by lia. f_equal.
    rewrite <- Z.pow_mul_r by done. rewrite <- Z.pow_add_r by nia. f_equal. lia. }
  rewrite pow_mod_base by nia. rewrite <- (pow_mod_base (_ * _)), E, pow_mod_base by done.
  rewrite <- !Z.pow_mul_r by nia. do 2 f_equal. lia.
Qed.

(** ** Nonces *)

Lemma len_Bytes_bound v n : 0 ≤ v < 256 ^ n → 0 ≤ n → len (Bytes v) ≤ n.
Proof.
  intros Hv Hn. unfold Bytes, BitLen. rewrite len_be_bytes.
  case_bool_decide as Hz; [change ((0 + 7) / 8) with 0; lia|].
  assert (Z.log2 v < 8 * n) as Hl.
  { apply Z.log2_lt_pow2; [lia|]. rewrite Z.pow_mul_r by lia. apply Hv. }
  pose proof (Z.log2_nonneg v).
  assert ((Z.log2 v + 1 + 7) / 8 < n + 1) by (apply Z.div_lt_upper_bound; lia).
  pose proof (Z.div_pos (Z.log2 v + 1 + 7) 8 ltac:(lia) ltac:(lia)). lia.
Qed.

Lemma Bytes_value v : 0 ≤ v → be_Z (Bytes v) = v.
Proof.
  intros Hv. unfold Bytes, BitLen. apply be_Z_be_bytes. case_bool_decide as Hz.
  - change ((0 + 7) / 8) with 0. cbn. lia.
  - pose proof (Z.log2_nonneg v). pose proof (Z.log2_spec v ltac:(lia)) as [_ Hlt].
    pose proof (Z.div_pos (Z.log2 v + 1 + 7) 8 ltac:(lia) ltac:(lia)).
    rewrite Z2Nat.id by lia. split; [done|]. eapply Z.lt_le_trans; [exact Hlt|].
    change 256 with (2 ^ 8). rewrite <- Z.pow_mul_r by lia.
    apply Z.pow_le_mono_r; [lia|].
    pose proof (Z.div_mod (Z.log2 v + 1 + 7) 8 ltac:(lia)). pose proof (Z.mod_pos_bound (Z.log2 v + 1 + 7) 8 ltac:(lia)). lia.
Qed.

Lemma be_Z_replicate0 n b : be_Z (replicate n x00 ++ b) = be_Z b.
Proof.
  induction n as [|n IH]; [done|]. cbn [replicate app]. rewrite be_Z_cons, IH.
  change (bZ x00) with 0. lia.
Qed.

(** The suffix of a big-endian number is the number modulo its width. *)
Lemma be_Z_drop b n : be_Z (drop n b) = be_Z b mod 256 ^ (len (drop n b)).
Proof.
  revert n. induction b as [|x b IH]; intros [|n]; rewrite ?drop_nil, ?drop_0.
  - done.
  - done.
  - symmetry. apply Z.mod_small, be_Z_range.
  - cbn [drop]. rewrite IH, be_Z_cons.
    assert (len (drop n b) ≤ len b) as Hl by (rewrite len_drop; pose proof (len_nonneg b); lia).
    pose proof (len_nonneg (drop n b)).
    change (Z.of_nat (length b)) with (len b).
    replace (256 ^ len b) with (256 ^ (len b - len (drop n b)) * 256 ^ len (drop n b))
      by (rewrite <- Z.pow_add_r by lia; f_equal; lia).
    rewrite Z.mul_assoc, Z.add_comm, Z.mod_add; [done|]. apply Z.pow_nonzero; lia.
Qed.

(** [incNonce] adds one to a fixed-width number, wrapping around. *)
Lemma incNonce_spec nonce : incNonce nonce = be_bytes (length nonce) (be_Z nonce + 1).
Proof.
  pose proof (be_Z_range nonce) as [H0 Hlt]. change (Z.of_nat (length nonce)) with (len nonce) in Hlt.
  pose proof (len_nonneg nonce) as Hn.
  unfold incNonce, SetBytes. set (v := be_Z nonce + 1).
  assert (len (Bytes v) ≤ len nonce + 1) as Hb.
  { apply len_Bytes_bound; [|lia]. rewrite Z.pow_add_r by lia. unfold v.
    pose proof (Z.pow_pos_nonneg 256 (len nonce)). lia. }
  pose proof (Bytes_value v ltac:(lia)) as Ev.
  set (b := if bool_decide _ then _ else _).
  assert (len b ≤ len nonce ∧ be_Z b = v mod 256 ^ len nonce) as [Hlb Hvb].
  { unfold b. case_bool_decide as Hc.
    - assert (len (drop (Z.to_nat (len (Bytes v) - len nonce)) (Bytes v)) = len nonce) as El
        by (rewrite len_drop; lia).
      split; [lia|]. by rewrite be_Z_drop, El, Ev.
    - split; [lia|]. rewrite Ev. symmetry. apply Z.mod_small. split; [lia|].
      pose proof (be_Z_range (Bytes v)) as [_ Hr]. rewrite Ev in Hr.
      change (Z.of_nat (length (Bytes v))) with (len (Bytes v)) in Hr.
      eapply Z.lt_le_trans; [exact Hr|]. apply Z.pow_le_mono_r; lia. }
  pose proof (len_nonneg b). apply be_Z_inj.
  - rewrite length_app, length_replicate, length_be_bytes. unfold len in *. lia.
  - rewrite be_Z_replicate0, Hvb, be_Z_be_bytes_mod. done.
Qed.

Lemma len_incNonce nonce : len (incNonce nonce) = len nonce.
Proof. rewrite incNonce_spec. apply len_be_bytes. Qed.

(** ** Cipher block chaining *)

Lemma lxor_byte a b : 0 ≤ Z.lxor (bZ a) (bZ b) < 256.
Proof.
  pose proof (bZ_range a). pose proof (bZ_range b).
  assert (0 ≤ Z.lxor (bZ a) (bZ b)) as Hnn by (apply Z.lxor_nonneg; lia). split; [done|].
  change 256 with (2 ^ 8). destruct (decide (Z.lxor (bZ a) (bZ b) = 0)) as [->|]; [done|].
  apply Z.log2_lt_pow2; [lia|]. eapply Z.le_lt_trans; [apply Z.log2_lxor; lia|].
  assert (∀ z, 0 ≤ z < 256 → Z.log2 z ≤ 7) as Hl.
  { intros z ?. destruct (decide (z = 0)) as [->|]; [done|].
    assert (Z.log2 z < 8) by (apply Z.log2_lt_pow2; lia). lia. }
  pose proof (Hl (bZ a)). pose proof (Hl (bZ b)). lia.
Qed.

Lemma bxor_cancel x y : len x = len y → bxor (bxor x y) y = x.
Proof.
  revert y. induction x as [|a x IH]; intros [|b y] Hl; try done.
  rewrite !len_cons in Hl. cbn. f_equal; [|apply IH; lia]. apply bZ_inj. rewrite !bZ_byte_of_Z.
  rewrite (Z.mod_small _ _ (lxor_byte a b)), Z.lxor_assoc, Z.lxor_nilpotent, Z.lxor_0_r.
  apply Z.mod_small, bZ_range.
Qed.

Lemma len_bxor x y : len x = len y → len (bxor x y) = len x.
Proof. unfold len, bxor. intros. rewrite length_zip_with. lia. Qed.

Lemma blocks_concat fuel n b :
  (0 < n)%nat → (length b ≤ fuel)%nat → concat (blocks fuel n b) = b.
Proof.
  intros Hn. revert b. induction fuel as [|fuel IH]; intros [|x b] Hf; cbn [blocks]; try done.
  { cbn in Hf. lia. }
  cbn [concat]. rewrite IH by (rewrite length_drop; cbn in *; lia). apply take_drop.
Qed.

Lemma concat_blocks_of n b : (0 < n)%nat → concat (blocks_of n b) = b.
Proof. intros. unfold blocks_of. by apply blocks_concat. Qed.

Lemma blocks_len n b :
  (0 < n)%nat → len b mod Z.of_nat n = 0 → Forall (λ x, len x = Z.of_nat n) (blocks_of n b).
Proof.
  intros Hn. unfold blocks_of. generalize (le_n (length b)). generalize (length b) at 2 3 as fuel.
  intros fuel. revert b. induction fuel as [|fuel IH]; intros [|x b] Hf Hm; cbn [blocks]; try constructor.
  - rewrite len_take. set (l := len (x :: b)) in *.
    assert (0 < l) by (unfold l; rewrite len_cons; pose proof (len_nonneg b); lia).
    assert (Z.of_nat n ≤ l) by (apply Z.divide_pos_le; [done|]; apply Z.mod_divide; lia). lia.
  - apply IH; [rewrite length_drop; cbn in *; lia|]. rewrite len_drop. set (l := len (x :: b)) in *.
    assert (0 < l) by (unfold l; rewrite len_cons; pose proof (len_nonneg b); lia).
    assert (Z.of_nat n ≤ l) by (apply Z.divide_pos_le; [done|]; apply Z.mod_divide; lia).
    rewrite Z.max_r by lia.
    replace (l - Z.of_nat n) with (l + (-1) * Z.of_nat n) by lia. by rewrite Z.mod_add by lia.
Qed.

Lemma blocks_of_concat n l :
  (0 < n)%nat → Forall (λ x, len x = Z.of_nat n) l → blocks_of n (concat l) = l.
Proof.
  intros Hn Hl. unfold blocks_of. generalize (le_n (length (concat l))).
  generalize (length (concat l)) at 2 3 as fuel. induction Hl as [|x l Hx Hl IH]; intros fuel Hf; [by destruct fuel|].
  cbn [concat] in *. unfold len in Hx. rewrite length_app in Hf.
  destruct fuel as [|fuel]; [lia|]. destruct (x ++ concat l) as [|y t] eqn:E.
  { apply app_nil in E as [-> _]. cbn in Hx. lia. }
  cbn [blocks]. rewrite <- E. replace n with (length x) by lia.
  rewrite take_app_length, drop_app_length. f_equal. replace (length x) with n by lia. apply IH. lia.
Qed.

(** The blocks of a chained ciphertext. *)
Fixpoint cbc_blocks (b : Block) (prev : bytes) (l : list bytes) : list bytes :=
  match l with
  | [] => []
  | x :: l' => let c := blk_Encrypt b (bxor x prev) in c :: cbc_blocks b c l'
  end.

Lemma cbc_encrypt_blocks b prev l : cbc_encrypt b prev l = concat (cbc_blocks b prev l).
Proof. revert prev. induction l as [|x l IH]; intros prev; cbn; [done|]. by rewrite IH. Qed.

Lemma length_cbc_blocks b prev l : length (cbc_blocks b prev l) = length l.
Proof. revert prev. induction l as [|x l IH]; intros prev; cbn; [done|]. by rewrite IH. Qed.

Lemma cbc_blocks_spec b prev l :
  block_ok b → len prev = 8 → Forall (λ x, len x = 8) l →
  Forall (λ c, len c = 8) (cbc_blocks b prev l) ∧ cbc_decrypt b prev (cbc_blocks b prev l) = concat l.
Proof.
  intros Hb. revert prev. induction l as [|x l IH]; intros prev Hp Hl; [by split|].
  apply Forall_cons in Hl as [Hx Hl]. cbn.
  destruct (Hb (bxor x prev)) as (Hc&_&Hd); [rewrite len_bxor by lia; done|].
  destruct (IH _ Hc Hl) as [H1 H2]. split; [by constructor|]. rewrite Hd, H2, bxor_cancel by lia. done.
Qed.

Lemma len_concat8 (l : list bytes) : Forall (λ c, len c = 8) l → len (concat l) = 8 * len l.
Proof. induction 1 as [|c l Hcl ? IHl]; [done|]. cbn. rewrite len_app, len_cons, IHl, Hcl. lia. Qed.

(** Decryption inverts encryption, and neither changes the length. *)
Lemma cbc_roundtrip b iv plain :
  block_ok b → len iv = 8 → len plain mod 8 = 0 →
  ∃ ct, cbcEncrypt b iv plain = Ret ct ∧ len ct = len plain ∧ cbcDecrypt b iv ct = Ret plain.
Proof.
  intros Hb Hiv Hm. pose proof (blocks_len 8 plain ltac:(lia) Hm) as Hbl.
  destruct (cbc_blocks_spec b iv (blocks_of 8 plain) Hb Hiv Hbl) as [Hc Hd].
  unfold cbcEncrypt. rewrite bool_decide_eq_true_2 by done. eexists. split; [done|].
  rewrite cbc_encrypt_blocks. set (cs := cbc_blocks _ _ _) in *.
  assert (len (concat cs) = len plain) as Hlen.
  { assert (len cs = len (blocks_of 8 plain)) as Hn.
    { unfold cs, len. by rewrite length_cbc_blocks. }
    rewrite len_concat8, Hn, <- len_concat8 by done. by rewrite concat_blocks_of by lia. }
  split; [done|]. unfold cbcDecrypt. rewrite bool_decide_eq_true_2 by (by rewrite Hlen).
  rewrite (blocks_of_concat 8) by (done || lia). rewrite Hd. f_equal. apply concat_blocks_of; lia.
Qed.

(** Decryption keeps the length of whole blocks. *)
Lemma len_cbc_decrypt b prev l :
  block_ok b → len prev = 8 → Forall (λ c, len c = 8) l → len (cbc_decrypt b prev l) = 8 * len l.
Proof.
  intros Hb Hp Hl. revert prev Hp. induction Hl as [|c l Hc Hl IH]; intros prev Hp; [done|].
  cbn. destruct (Hb c Hc) as (_&Hd&_). rewrite len_app, len_cons, len_bxor, IH by lia. lia.
Qed.

Lemma cbcDecrypt_len b iv ct :
  block_ok b → len iv = 8 → len ct mod 8 = 0 → ∃ plain, cbcDecrypt b iv ct = Ret plain ∧ len plain = len ct.
Proof.
  intros Hb Hiv Hm. pose proof (blocks_len 8 ct ltac:(lia) Hm) as Hbl.
  unfold cbcDecrypt. rewrite bool_decide_eq_true_2 by done. eexists. split; [done|].
  rewrite len_cbc_decrypt by done. rewrite <- (concat_blocks_of 8 ct) at 2 by lia. by rewrite len_concat8.
Qed.

(** ** DHX2 *)

Section agreement.
Context {W St : Type} `{Transport W} {serve : server St} `{!Served W St serve}.
Context `{Entropy W} `{Cast5Law} (s : Session) (username : bytes) (q : Z).

(** Random bytes arrive, as many as asked for, and touch nothing else. *)
Definition entropy_ok : Prop := ∀ n st w,
  0 ≤ n → at_state (serve := serve) st q w →
  ∃ b w', rand_Read n w = Ret (Ok b, w') ∧ len b = n ∧ at_state (serve := serve) st q w'.

(** The password as DHX2 sends it. *)
Definition password_field (password : bytes) : bytes :=
  take 256 password ++ replicate (256 - length password) x00.

Lemma len_password_field password : len (password_field password) = 256.
Proof.
  unfold password_field, len. rewrite length_app, length_take, length_replicate. lia.
Qed.

Record dhx2_params : Type := MkDhx2 {
  d_id : Z; d_id2 : Z; d_g : Z; d_keyLen : Z; d_p : Z; d_rb : Z; d_nonce : bytes;
}.

Definition dhx2_ok (d : dhx2_params) : Prop :=
  0 ≤ d_id d < 2 ^ 16 ∧ 0 ≤ d_id2 d < 2 ^ 16 ∧ 0 < d_g d < 2 ^ 32 ∧ 0 < d_keyLen d ≤ dhx2MaxKeyLen ∧
  2 ^ 63 ≤ d_p d < 256 ^ d_keyLen d ∧ 0 ≤ d_rb d ∧ len (d_nonce d) = 16.

Definition dhx2_payload (d : dhx2_params) : bytes :=
  be_bytes 2 (d_id d) ++ be_bytes 4 (d_g d) ++ be_bytes 2 (d_keyLen d) ++
  be_bytes (Z.to_nat (d_keyLen d)) (d_p d) ++
  be_bytes (Z.to_nat (d_keyLen d)) (d_g d ^ d_rb d mod d_p d).

(** The session key that the server derives from the client's public value. *)
Definition dhx2_key (d : dhx2_params) (mab : bytes) : bytes :=
  md5 (be_bytes (Z.to_nat (d_keyLen d)) (be_Z mab ^ d_rb d mod d_p d)).

(** A server that computes its own half from the bytes it receives: it proves
    that it could decrypt the client's nonce by adding one to it, and accepts
    the password [registered] after the right answer to its own nonce. *)
Definition dhx2_server (d : dhx2_params) (registered : bytes) (st : St) : Prop :=
  ∃ st1, serve CmdCommand 0 (login_request s uamDHX2 (w_pascal username [])) st
      = (u32 ResAuthContinue, dhx2_payload d, st1) ∧
    ∀ mab enc block nonce, len mab = d_keyLen d → len nonce = 16 →
      cast5_NewCipher (dhx2_key d mab) = Ok block → cbcDecrypt block dhxClientIV enc = Ret nonce →
      ∃ st2 ct, serve CmdCommand 0 (login_cont_request (d_id d) (mab ++ enc)) st1
          = (u32 ResAuthContinue, be_bytes 2 (d_id2 d) ++ ct, st2) ∧
        cbcEncrypt block dhxServerIV (incNonce nonce ++ d_nonce d) = Ret ct ∧
        ∀ enc2 final, cbcDecrypt block dhxClientIV enc2 = Ret final →
          ∃ st3, serve CmdCommand 0 (login_cont_request (d_id2 d) enc2) st2
            = (if bool_decide (final = incNonce (d_nonce d) ++ password_field registered)
               then 0 else u32 ResUserNotAuth, [], st3).

Lemma parse_dhx2_at d : dhx2_ok d →
  ∃ r, parse_dhx2 (new_reader (dhx2_payload d))
    = Ret (Ok (d_id d, d_g d, d_keyLen d, d_p d, d_g d ^ d_rb d mod d_p d), r).
Proof.
  intros (Hid&_&Hg&Hk&Hp&Hrb&_). unfold parse_dhx2, dhx2_payload. rewrite new_reader_at.
  set (n := Z.to_nat (d_keyLen d)). set (mb := _ mod _).
  assert (0 ≤ mb < d_p d) as Hmb by (apply Z.mod_pos_bound; lia).
  assert (Z.of_nat n = d_keyLen d) as En by (unfold n; lia). unfold dhx2MaxKeyLen in Hk.
  rd_step. erewrite M_bind_ret by (apply r_take_at; by rewrite len_be_bytes). rd_step.
  erewrite M_bind_ret by done. cbn [rerr rd_at]. rewrite !wrap_small by lia.
  rewrite bool_decide_eq_false_2 by (unfold dhx2MaxKeyLen; lia).
  erewrite M_bind_ret by (apply r_take_at; rewrite len_be_bytes; lia).
  rewrite <- (app_nil_r (be_bytes n mb)).
  erewrite M_bind_ret by (apply r_take_at; rewrite len_be_bytes; lia).
  erewrite M_bind_ret by done. cbn [rerr rd_at default id]. unfold SetBytes.
  rewrite !be_Z_be_bytes by (rewrite ?En; try (change (256 ^ Z.of_nat 4) with (2 ^ 32)); lia).
  assert (64 ≤ BitLen (d_p d)) as Hbl.
  { unfold BitLen. rewrite bool_decide_eq_false_2 by lia.
    assert (63 ≤ Z.log2 (d_p d)) by (apply Z.log2_le_pow2; lia). lia. }
  rewrite bool_decide_eq_false_2 by lia. by eexists.
Qed.

Lemma parse_dhx2_nonces_at tid ct :
  0 ≤ tid < 2 ^ 16 → len ct = 32 →
  ∃ r, parse_dhx2_nonces (new_reader (be_bytes 2 tid ++ ct)) = Ret (Ok (tid, ct), r).
Proof.
  intros Hid Hl. unfold parse_dhx2_nonces.
  replace (new_reader (be_bytes 2 tid ++ ct)) with (rd_at [] (be_bytes 2 tid ++ ct ++ []))
    by (by rewrite app_nil_r).
  rd_step. erewrite M_bind_ret by (apply r_take_at; by rewrite Hl). unfold r_check.
  erewrite M_bind_ret by done. cbn [rerr rd_at default id]. rewrite wrap_small by done. by eexists.
Qed.

(** The two nonces in the server's plaintext. *)
Lemma nonce_halves (x y : bytes) :
  len x = 16 → len y = 16 →
  slice (x ++ y) 0 dhx2NonceLen = Ret x ∧ slice (x ++ y) dhx2NonceLen (len (x ++ y)) = Ret y.
Proof.
  intros Hx Hy. unfold dhx2NonceLen. rewrite len_app, Hx, Hy. split.
  - rewrite slice_ok by (rewrite ?len_app; lia). f_equal.
    rewrite <- (app_nil_l (x ++ y)). by apply sub_app_mid.
  - rewrite slice_ok by (rewrite ?len_app; lia). f_equal.
    rewrite <- (app_nil_r y) at 1. apply sub_app_mid; [done|lia].
Qed.

(** What the client computes from the first reply: the padded numbers, and a
    key that is the server's. *)
Lemma dhx2_secret d ra :
  dhx2_ok d → 0 ≤ ra →
  let kn := Z.to_nat (d_keyLen d) in
  let ma := Exp (d_g d) ra (d_p d) in
  let k := Exp (d_g d ^ d_rb d mod d_p d) ra (d_p d) in
  leftPad ma (d_keyLen d) = Ret (be_bytes kn ma) ∧ leftPad k (d_keyLen d) = Ret (be_bytes kn k) ∧
  len (be_bytes kn ma) = d_keyLen d ∧ dhx2_key d (be_bytes kn ma) = md5 (be_bytes kn k).
Proof.
  intros (_&_&_&Hk&Hp&Hrb&_) Hra kn ma k.
  assert (0 ≤ ma < d_p d) as Hma by (apply Exp_range; lia).
  assert (0 ≤ k < d_p d) as Hkr by (apply Exp_range; lia).
  rewrite !leftPad_ok by lia. split; [done|]. split; [done|].
  split; [rewrite len_be_bytes; unfold kn; lia|].
  unfold dhx2_key. fold kn. rewrite be_Z_be_bytes by (unfold kn; rewrite Z2Nat.id by lia; lia).
  do 2 f_equal. unfold k, ma. rewrite !Exp_mod by lia. symmetry. apply dh_agree; lia.
Qed.

Lemma loginDHX2_spec ctx d registered password st w :
  entropy_ok → live ctx = true → dhx2_ok d → dhx2_server d registered st →
  at_state (serve := serve) st q w →
  ∃ w', loginDHX2 ctx s username password w
    = Ret (if bool_decide (password_field password = password_field registered)
           then Ok tt else Err (EAfp (str "DHX2 login") ResUserNotAuth), w').
Proof.
  intros He Hl Hd (st1&E1&Hsrv) Hw. pose proof Hd as (Hid&Hid2&Hg&Hk&Hp&Hrb&Hn).
  unfold loginDHX2, login, loginCont.
  destruct (command_served _ _ _ _ _ _ _ _ Hw Hl E1) as (w1&Q1&W1).
  erewrite try_bind_ok by exact Q1. cbn beta iota.
  rewrite (bool_decide_eq_false_2 (_ ≠ ResAuthContinue)) by (intros Hx; by apply Hx).
  destruct (parse_dhx2_at d Hd) as (r1&P1).
  erewrite try_bind_ok by (unfold reading; by erewrite M_bind_ret by (unfold lift; by rewrite P1)).
  cbn beta iota.
  destruct (He (d_keyLen d) st1 w1) as (raB&w2&R2&Lra&W2); [lia|done|].
  erewrite try_bind_ok by exact R2. unfold SetBytes.
  destruct (dhx2_secret d (be_Z raB) Hd) as (Pma&Pk&Lma&Ekey); [apply be_Z_range|].
  set (kn := Z.to_nat (d_keyLen d)) in *. set (ma := Exp (d_g d) _ _) in *. set (k := Exp (_ mod _) _ _) in *.
  erewrite M_bind_ret by (unfold lift; by rewrite Pk).
  destruct (cast5_law (md5 (be_bytes kn k)) (len_md5 _)) as (block&Eb&Hb).
  erewrite try_bind_ok by (unfold mret, M_ret; by rewrite Eb).
  destruct (He dhx2NonceLen st1 w2) as (cn&w3&R3&Lcn&W3); [done|done|].
  erewrite try_bind_ok by exact R3.
  erewrite M_bind_ret by (unfold lift; by rewrite Pma).
  destruct (cbc_roundtrip block dhxClientIV cn Hb eq_refl) as (enc&Eenc&_&Edec); [by rewrite Lcn|].
  erewrite M_bind_ret by (unfold lift; by rewrite Eenc).
  rewrite <- Ekey in Eb.
  destruct (Hsrv _ enc block cn Lma Lcn Eb Edec) as (st2&ct&E2&Ect&Hfin).
  destruct (command_served _ _ _ _ _ _ _ _ W3 Hl E2) as (w4&Q4&W4).
  erewrite try_bind_ok by exact Q4. cbn beta iota.
  rewrite (bool_decide_eq_false_2 (_ ≠ ResAuthContinue)) by (intros Hx; by apply Hx).
  assert (len (incNonce cn ++ d_nonce d) = 32) as L32 by (rewrite len_app, len_incNonce, Lcn, Hn; done).
  destruct (cbc_roundtrip block dhxServerIV (incNonce cn ++ d_nonce d) Hb eq_refl)
    as (ct'&Ect'&Lct&Edct); [by rewrite L32|].
  rewrite Ect in Ect'. injection Ect' as <-. rewrite L32 in Lct.
  destruct (parse_dhx2_nonces_at (d_id2 d) ct Hid2 Lct) as (r2&P2).
  erewrite try_bind_ok by (unfold reading; by erewrite M_bind_ret by (unfold lift; by rewrite P2)).
  cbn beta iota. erewrite M_bind_ret by (unfold lift; by rewrite Edct).
  destruct (nonce_halves (incNonce cn) (d_nonce d)) as [S1 S2]; [by rewrite len_incNonce|done|].
  erewrite M_bind_ret by (unfold lift; by rewrite S1). unfold ConstantTimeCompare.
  rewrite bool_decide_eq_true_2 by done. cbn [negb].
  erewrite M_bind_ret by (unfold lift; by rewrite S2). fold (password_field password).
  set (final := incNonce (d_nonce d) ++ password_field password).
  assert (len final = 272) as Lf by (unfold final; rewrite len_app, len_incNonce, Hn, len_password_field; done).
  destruct (cbc_roundtrip block dhxClientIV final Hb eq_refl) as (enc2&Eenc2&_&Edec2); [by rewrite Lf|].
  erewrite M_bind_ret by (unfold lift; by rewrite Eenc2).
  destruct (Hfin _ _ Edec2) as (st3&E3).
  destruct (command_served _ _ _ _ _ _ _ _ W4 Hl E3) as (w5&Q5&_). exists w5.
  erewrite try_bind_ok by exact Q5. cbn beta iota.
  assert (final = incNonce (d_nonce d) ++ password_field registered
    ↔ password_field password = password_field registered) as Hiff.
  { unfold final. split; [apply app_inv_head | by intros ->]. }
  destruct (decide (password_field password = password_field registered)) as [Hp'|Hp'].
  - rewrite !bool_decide_eq_true_2; [done|done|by apply Hiff].
  - rewrite !bool_decide_eq_false_2; [done|done|by rewrite Hiff].
Qed.

(** ** SRP *)

Lemma mgf1_loop_total fuel seed outLen c out :
  (0 < fuel)%nat → outLen - len out < Z.of_nat fuel →
  ∃ out', mgf1_loop fuel seed outLen c out = Ret out' ∧ outLen ≤ len out'.
Proof.
  revert c out. induction fuel as [|fuel IH]; intros c out Hp Hf; [lia|]. cbn [mgf1_loop].
  case_bool_decide as Hl; [|exists out; split; [done|lia]].
  apply IH; [lia|]. rewrite len_app. unfold sha1Sum. rewrite len_sha1. lia.
Qed.

(** The mask generation ends, with exactly as many bytes as were asked for. *)
Lemma mgf1_total seed outLen :
  0 ≤ outLen → ∃ out, mgf1SHA1 seed outLen = Ret out ∧ len out = outLen.
Proof.
  intros Hn. unfold mgf1SHA1.
  destruct (mgf1_loop_total (S (Z.to_nat outLen)) seed outLen 0 []) as (out&->&Hl);
    [lia|change (len (@nil byte)) with 0; lia|]. cbn [mbind outcome_bind].
  rewrite slice_ok by lia. eexists. split; [done|]. rewrite len_sub; lia.
Qed.

Record srp_params : Type := MkSrp {
  s_ctx : Z; s_group : Z; s_N : bytes; s_g : bytes; s_salt : bytes; s_B : bytes; s_b : Z;
}.

Definition srp_x (d : srp_params) (user password : bytes) : Z :=
  be_Z (sha1Sum [s_salt d; sha1Sum [user; str ":"; password]]).

(** PAD: big-endian, as wide as the modulus. *)
Definition srp_pad (d : srp_params) (v : Z) : bytes := be_bytes (length (s_N d)) v.

Definition srp_k (d : srp_params) : Z := be_Z (sha1Sum [s_N d; srp_pad d (be_Z (s_g d))]).

Definition srp_u (d : srp_params) (A : Z) : Z :=
  be_Z (sha1Sum [srp_pad d A; srp_pad d (be_Z (s_B d))]).

(** The server's half, from its verifier v = g^x and its secret b. *)
Definition srp_verifier (d : srp_params) (user registered : bytes) : Z :=
  be_Z (s_g d) ^ srp_x d user registered mod be_Z (s_N d).

Definition srp_server_S (d : srp_params) (user registered : bytes) (A : Z) : Z :=
  (A * (srp_verifier d user registered ^ srp_u d A mod be_Z (s_N d))) ^ s_b d mod be_Z (s_N d).

Definition srp_m1 (d : srp_params) (user : bytes) (A : Z) (K : bytes) : bytes :=
  sha1Sum [bxor (sha1Sum [Bytes (be_Z (s_N d))]) (sha1Sum [Bytes (be_Z (s_g d))]);
           sha1Sum [user]; s_salt d; Bytes A; Bytes (be_Z (s_B d)); K].

Definition srp_ok (d : srp_params) (user registered : bytes) : Prop :=
  0 ≤ s_ctx d < 2 ^ 16 ∧ 0 ≤ s_b d ∧ 0 < be_Z (s_N d) ∧ be_Z (s_B d) ≠ 0 ∧
  be_Z (s_g d) < 256 ^ len (s_N d) ∧ be_Z (s_B d) < 256 ^ len (s_N d) ∧
  len (s_N d) < 2 ^ 16 ∧ len (s_g d) < 2 ^ 16 ∧ len (s_salt d) < 2 ^ 16 ∧ len (s_B d) < 2 ^ 16 ∧
  be_Z (s_B d) = (srp_k d * srp_verifier d user registered + be_Z (s_g d) ^ s_b d) mod be_Z (s_N d).

Definition srp_payload (d : srp_params) : bytes :=
  be_bytes 2 (s_ctx d) ++ be_bytes 2 (s_group d) ++ be_bytes 2 (len (s_N d)) ++ s_N d ++
  be_bytes 2 (len (s_g d)) ++ s_g d ++ be_bytes 2 (len (s_salt d)) ++ s_salt d ++
  be_bytes 2 (len (s_B d)) ++ s_B d.

Definition srp_final_payload (m2 : bytes) : bytes :=
  be_bytes 2 srpServerProof ++ be_bytes 2 (len m2) ++ m2.

(** A server that accepts exactly the proof that its own half gives. *)
Definition srp_server (d : srp_params) (registered : bytes) (st : St) : Prop :=
  ∃ st1, serve CmdCommand 0 (login_request s uamSRP (w_pascal username [])) st
      = (u32 ResAuthContinue, srp_payload d, st1) ∧
    ∀ A m1 K, 0 ≤ A < be_Z (s_N d) →
      mgf1SHA1 (Bytes (srp_server_S d username registered A)) 40 = Ret K →
      ∃ st2, serve CmdCommand 0 (login_cont_request (s_ctx d) (srp_proof A m1)) st1
        = (if bool_decide (m1 = srp_m1 d username A K)
           then (0, srp_final_payload (sha1Sum [Bytes A; m1; K]), st2)
           else (u32 ResUserNotAuth, [], st2)).

(** The numbers fit into their fields on the wire. *)
Definition srp_wire_ok (d : srp_params) : Prop :=
  0 ≤ s_ctx d < 2 ^ 16 ∧ len (s_N d) < 2 ^ 16 ∧ len (s_g d) < 2 ^ 16 ∧ len (s_salt d) < 2 ^ 16 ∧
  len (s_B d) < 2 ^ 16.

Lemma parse_srp_at d : srp_wire_ok d →
  ∃ r, parse_srp (new_reader (srp_payload d)) = Ret (Ok (s_ctx d, s_N d, s_g d, s_salt d, s_B d), r).
Proof.
  intros (Hc&L1&L2&L3&L4).
  pose proof (len_nonneg (s_N d)). pose proof (len_nonneg (s_g d)).
  pose proof (len_nonneg (s_salt d)). pose proof (len_nonneg (s_B d)).
  unfold parse_srp, srp_payload. rewrite new_reader_at.
  replace (be_bytes 2 (len (s_B d)) ++ s_B d) with (be_bytes 2 (len (s_B d)) ++ s_B d ++ []) by (by rewrite app_nil_r).
  do 2 rd_step.
  do 4 (rd_step; erewrite M_bind_ret by (apply r_take_at; by rewrite wrap_small by lia)).
  unfold r_check. erewrite M_bind_ret by done. cbn [rerr rd_at default id].
  rewrite wrap_small by done. by eexists.
Qed.

Lemma parse_srp_final_at m2 : len m2 < 2 ^ 16 →
  ∃ r, parse_srp_final (new_reader (srp_final_payload m2)) = Ret (Ok m2, r).
Proof.
  intros Hl. pose proof (len_nonneg m2). unfold parse_srp_final, srp_final_payload.
  rewrite new_reader_at.
  replace (be_bytes 2 (len m2) ++ m2) with (be_bytes 2 (len m2) ++ m2 ++ []) by (by rewrite app_nil_r).
  rd_step.
  rewrite bool_decide_eq_false_2 by (intros Hx; by apply Hx).
  rd_step. erewrite M_bind_ret by (apply r_take_at; by rewrite wrap_small by lia).
  unfold r_check. erewrite M_bind_ret by done. by eexists.
Qed.

Lemma len_sha1Sum l : len (sha1Sum l) = 20.
Proof. apply len_sha1. Qed.

#[local] Opaque sha1Sum be_Z.

(** What the client computes is what the server computes. *)
Lemma srp_compute_spec d password aBytes : srp_ok d username password →
  ∃ A, 0 ≤ A < be_Z (s_N d) ∧
    if bool_decide (srp_u d A = 0) then
      srp_compute (s_N d) (s_g d) (s_salt d) (s_B d) aBytes username password = Ret None
    else ∃ K, mgf1SHA1 (Bytes (srp_server_S d username password A)) 40 = Ret K ∧
      srp_compute (s_N d) (s_g d) (s_salt d) (s_B d) aBytes username password
      = Ret (Some (A, K, srp_m1 d username A K)).
Proof.
  intros (_&Hb&HN&_&Hg&HB&_&_&_&_&EB).
  set (N := be_Z (s_N d)) in *. set (g := be_Z (s_g d)) in *. set (B := be_Z (s_B d)) in *.
  set (a := be_Z aBytes mod N). assert (0 ≤ a < N) as Ha by (apply Z.mod_pos_bound; lia).
  set (A := Exp g a N). assert (0 ≤ A < N) as HA by (apply Exp_range; lia).
  assert (N < 256 ^ len (s_N d)) as HNw by apply be_Z_range.
  exists A. split; [done|]. unfold srp_compute, SetBytes. fold N g B a A.
  rewrite !leftPad_ok by lia. cbn [mbind outcome_bind]. 
  replace (Z.to_nat (len (s_N d))) with (length (s_N d)) by (unfold len; lia).
  fold (srp_pad d g) (srp_pad d A) (srp_pad d B). fold g in EB |- *.
  change (be_Z (sha1Sum [s_N d; srp_pad d g])) with (srp_k d).
  change (be_Z (sha1Sum [srp_pad d A; srp_pad d B])) with (srp_u d A).
  change (be_Z (sha1Sum [s_salt d; sha1Sum [username; str ":"; password]])) with (srp_x d username password).
  case_bool_decide as Hu; [done|].
  set (x := srp_x d username password) in *. set (u := srp_u d A) in *. set (k := srp_k d) in *.
  assert (0 ≤ x) as Hx by apply be_Z_range. assert (0 ≤ u) as Hu0 by apply be_Z_range.
  assert (Exp ((B - k * Exp g x N) mod N) (a + u * x) N = srp_server_S d username password A) as ES.
  { rewrite !Exp_mod by nia. rewrite EB. unfold srp_server_S, srp_verifier. fold x g N u.
    unfold A. rewrite Exp_mod by lia. by apply srp_agree; lia. }
  rewrite ES. destruct (mgf1_total (Bytes (srp_server_S d username password A)) 40) as (K&EK&_); [done|].
  exists K. split; [done|]. by rewrite EK.
Qed.

Lemma loginSRP_spec ctx d password st w :
  entropy_ok → live ctx = true → srp_ok d username password → srp_server d password st →
  at_state (serve := serve) st q w →
  ∃ A w', 0 ≤ A < be_Z (s_N d) ∧ loginSRP ctx s username password w
    = Ret (if bool_decide (srp_u d A = 0) then Err (EErrorf "afp: SRP: u == 0" []) else Ok tt, w').
Proof.
  intros He Hl Hd (st1&E1&Hsrv) Hw. pose proof Hd as (Hc&Hb&HN&HB0&_).
  unfold loginSRP, login, loginCont.
  destruct (command_served _ _ _ _ _ _ _ _ Hw Hl E1) as (w1&Q1&W1).
  erewrite try_bind_ok by exact Q1. cbn beta iota.
  rewrite (bool_decide_eq_false_2 (_ ≠ ResAuthContinue)) by (intros Hx; by apply Hx).
  destruct (parse_srp_at d) as (r1&P1); [unfold srp_wire_ok; unfold srp_ok in Hd; tauto|].
  erewrite try_bind_ok by (unfold reading; by erewrite M_bind_ret by (unfold lift; by rewrite P1)).
  cbn beta iota. rewrite bool_decide_eq_false_2 by (unfold SetBytes; lia).
  destruct (He (len (s_N d)) st1 w1) as (aB&w2&R2&_&W2); [apply len_nonneg|done|].
  erewrite try_bind_ok by exact R2.
  destruct (srp_compute_spec d password aB Hd) as (A&HA&Hcomp). exists A.
  case_bool_decide as Hu.
  { exists w2. split; [done|]. by erewrite M_bind_ret by (unfold lift; by rewrite Hcomp). }
  destruct Hcomp as (K&EK&Ecomp).
  erewrite M_bind_ret by (unfold lift; by rewrite Ecomp). cbn beta iota.
  destruct (Hsrv A (srp_m1 d username A K) K HA EK) as (st2&E2).
  rewrite bool_decide_eq_true_2 in E2 by done.
  destruct (command_served _ _ _ _ _ _ _ _ W2 Hl E2) as (w3&Q3&W3). exists w3. split; [done|].
  erewrite try_bind_ok by exact Q3. cbn beta iota. erewrite try_bind_ok by done.
  destruct (parse_srp_final_at (sha1Sum [Bytes A; srp_m1 d username A K; K])) as (r2&P2);
    [by rewrite len_sha1Sum|].
  erewrite try_bind_ok by (unfold reading; by erewrite M_bind_ret by (unfold lift; by rewrite P2)).
  unfold ConstantTimeCompare. by rewrite bool_decide_eq_true_2.
Qed.

(** ** A server that does what [dhx2_server] and [srp_server] ask for

    The state is the phase of the exchange and the client's public value. *)

Definition dhx2_serve (d : dhx2_params) (registered : bytes) : server (nat * bytes) :=
  λ _ _ payload '(phase, mab),
  let refuse := (u32 ResUserNotAuth, [], (3%nat, mab)) in
  match phase with
  | 0%nat => (u32 ResAuthContinue, dhx2_payload d, (1%nat, []))
  | 1%nat =>
    let mab := take (Z.to_nat (d_keyLen d)) (drop 4 payload) in
    let enc := drop (Z.to_nat (d_keyLen d)) (drop 4 payload) in
    match cast5_NewCipher (dhx2_key d mab) with
    | Ok block =>
      match (nonce ← cbcDecrypt block dhxClientIV enc;
             cbcEncrypt block dhxServerIV (incNonce nonce ++ d_nonce d)) with
      | Ret ct => (u32 ResAuthContinue, be_bytes 2 (d_id2 d) ++ ct, (2%nat, mab))
      | _ => refuse
      end
    | Err _ => refuse
    end
  | 2%nat =>
    match cast5_NewCipher (dhx2_key d mab) with
    | Ok block =>
      match cbcDecrypt block dhxClientIV (drop 4 payload) with
      | Ret final =>
        (if bool_decide (final = incNonce (d_nonce d) ++ password_field registered)
         then 0 else u32 ResUserNotAuth, [], (3%nat, mab))
      | _ => refuse
      end
    | Err _ => refuse
    end
  | _ => refuse
  end.

(** The server's half by modular exponentiation. *)
Definition srp_server_exp (d : srp_params) (registered : bytes) (A : Z) : Z :=
  let N := be_Z (s_N d) in
  let v := Exp (be_Z (s_g d)) (srp_x d username registered) N in
  Exp (A * Exp v (srp_u d A) N) (s_b d) N.

Lemma srp_server_exp_eq d registered A :
  0 < be_Z (s_N d) → 0 ≤ s_b d → srp_server_exp d registered A = srp_server_S d username registered A.
Proof.
  intros HN Hb. unfold srp_server_exp, srp_server_S, srp_verifier, srp_x, srp_u.
  rewrite !Exp_mod; try done; apply be_Z_range.
Qed.

Definition srp_serve (d : srp_params) (registered : bytes) : server (nat * bytes) :=
  λ _ _ payload '(phase, _),
  match phase with
  | 0%nat => (u32 ResAuthContinue, srp_payload d, (1%nat, []))
  | 1%nat =>
    let n := be_Z (take 2 (drop 6 payload)) in
    let A := be_Z (take (Z.to_nat n) (drop 8 payload)) in
    let m1 := drop (Z.to_nat n) (drop 10 payload) in
    match mgf1SHA1 (Bytes (srp_server_exp d registered A)) 40 with
    | Ret K =>
      if bool_decide (m1 = srp_m1 d username A K)
      then (0, srp_final_payload (sha1Sum [Bytes A; m1; K]), (2%nat, []))
      else (u32 ResUserNotAuth, [], (2%nat, []))
    | _ => (u32 ResUserNotAuth, [], (2%nat, []))
    end
  | _ => (u32 ResUserNotAuth, [], (2%nat, []))
  end.

End agreement.

Lemma drop_login_cont tid info : drop 4 (login_cont_request tid info) = info.
Proof. done. Qed.

Lemma dhx2_serve_ok `{Cast5Law} s username d registered :
  dhx2_ok d → dhx2_server (serve := dhx2_serve d registered) s username d registered (0%nat, []).
Proof.
  intros (_&_&_&_&_&_&Hn). eexists. split; [reflexivity|].
  intros mab enc block nonce Lm Ln Eb Ed.
  destruct (cast5_law (dhx2_key d mab) (len_md5 _)) as (b&Eb'&Hb).
  rewrite Eb in Eb'. injection Eb' as <-.
  destruct (cbc_roundtrip block dhxServerIV (incNonce nonce ++ d_nonce d) Hb eq_refl) as (ct&Ect&_).
  { by rewrite len_app, len_incNonce, Ln, Hn. }
  exists (2%nat, mab), ct. unfold len in Lm.
  assert (Z.to_nat (d_keyLen d) = length mab) as El by lia. split; [|split; [done|]].
  - unfold dhx2_serve. rewrite drop_login_cont, El, take_app_length, drop_app_length, Eb, Ed.
    cbn [mbind outcome_bind]. by rewrite Ect.
  - intros enc2 final Ef. exists (3%nat, mab). unfold dhx2_serve.
    by rewrite Eb, drop_login_cont, Ef.
Qed.

Lemma srp_serve_ok s username d registered :
  srp_ok d username registered →
  srp_server (serve := srp_serve username d registered) s username d registered (0%nat, []).
Proof.
  intros (_&Hb&HN&_&_&_&HNl&_). eexists. split; [reflexivity|]. intros A m1 K HA EK.
  rewrite <- srp_server_exp_eq in EK by done. exists (2%nat, []). unfold srp_serve.
  assert (be_Z (s_N d) < 256 ^ len (s_N d)) as HNw by apply be_Z_range.
  assert (0 ≤ len (Bytes A) < 2 ^ 16) as Hl.
  { pose proof (len_nonneg (Bytes A)). pose proof (len_nonneg (s_N d)).
    pose proof (len_Bytes_bound A (len (s_N d)) ltac:(lia) ltac:(done)). lia. }
  assert (take 2 (drop 6 (login_cont_request (s_ctx d) (srp_proof A m1))) = be_bytes 2 (len (Bytes A))) as ->.
  { unfold srp_proof. by rewrite (wrap_small 16) by done. }
  rewrite be_Z_be_bytes by (change (256 ^ Z.of_nat 2) with (2 ^ 16); done).
  assert (drop 8 (login_cont_request (s_ctx d) (srp_proof A m1)) = Bytes A ++ be_bytes 2 srpHashLen ++ m1) as E8.
  { unfold srp_proof, w_bytes, w_u16. cbn. by rewrite <- !app_assoc. }
  assert (drop 10 (login_cont_request (s_ctx d) (srp_proof A m1)) = drop 2 (Bytes A ++ be_bytes 2 srpHashLen ++ m1)) as ->.
  { by rewrite <- E8, drop_drop. }
  rewrite E8. unfold len. rewrite Nat2Z.id, take_app_length, drop_drop, (Nat.add_comm 2), drop_app_add.
  rewrite Bytes_value by lia. rewrite EK. cbn [drop be_bytes app]. by destruct (bool_decide _).
Qed.

(** ** Properties *)

(** C24: a DHX2 login against a server that computes its own half ends, and it
    succeeds exactly when the password is the registered one: both sides derive
    the same key from the Diffie-Hellman exchange, the server proves that it
    read the client's nonce, the client decrypts the server's nonce and answers
    it, and the password field (256 bytes, longer passwords cut off) is
    compared; a wrong password is reported as "user not authenticated". *)
Theorem dhx2_login {W St : Type} `{Transport W} {serve : server St} `{!Served W St serve}
    `{Entropy W} `{Cast5Law} s username q ctx d registered password st w :
  entropy_ok (serve := serve) q → live ctx = true → dhx2_ok d →
  dhx2_server (serve := serve) s username d registered st →
  at_state (serve := serve) st q w →
  ∃ w', loginDHX2 ctx s username password w
    = Ret (if bool_decide (password_field password = password_field registered)
           then Ok tt else Err (EAfp (str "DHX2 login") ResUserNotAuth), w').
Proof. apply loginDHX2_spec. Qed.

(** A block cipher for the examples: exclusive or with the key. *)
Definition xor_cipher : Cast5 := {|
  cast5_NewCipher key :=
    if bool_decide (len key = 16)
    then Ok (MkBlock (λ x, bxor x (take 8 key)) (λ x, bxor x (take 8 key))) else Err EEOF;
|}.

Lemma xor_cipher_law : @Cast5Law xor_cipher.
Proof.
  intros key Hk. cbn. rewrite bool_decide_eq_true_2 by done. eexists. split; [done|].
  intros x Hx. cbn. assert (len (take 8 key) = 8) by (rewrite len_take; lia).
  split_and!; [by rewrite len_bxor by lia .. | apply bxor_cancel; lia].
Qed.

(** Random bytes for the examples, all of them 5. *)
Definition fives {W} : Entropy W := {| rand_Read n := λ w, Ret (Ok (replicate (Z.to_nat n) (byte_of_Z 5)), w) |}.

Lemma fives_ok {W St} `{Transport W} {serve : server St} `{!Served W St serve} q :
  @entropy_ok W St _ serve _ fives q.
Proof.
  intros n st w Hn Hw. do 2 eexists. split; [reflexivity|]. split; [|done].
  unfold len. rewrite length_replicate. lia.
Qed.

Definition sample_dhx2 : dhx2_params :=
  MkDhx2 9 10 7 8 (2 ^ 64 - 59) 11 (replicate 16 (byte_of_Z 0xff)).

Definition sample_session : Session := MkSession (str "AFP3.3").

Lemma dhx2_login_witness :
  let srv := @dhx2_serve xor_cipher sample_dhx2 (str "secret") in
  ∃ w1 w2,
    @loginDHX2 _ (direct_transport srv 0) fives xor_cipher Background sample_session
      (str "ann") (str "secret") (0%nat, []) = Ret (Ok tt, w1) ∧
    @loginDHX2 _ (direct_transport srv 0) fives xor_cipher Background sample_session
      (str "ann") (str "Secret") (0%nat, [])
      = Ret (Err (EAfp (str "DHX2 login") ResUserNotAuth), w2).
Proof.
  intros srv. pose (L := xor_cipher_law). assert (dhx2_ok sample_dhx2) as Hd.
  { split_and!; vm_compute; congruence. }
  pose proof (λ password, @dhx2_login _ _ (direct_transport srv 0) srv (direct_served srv 0) fives xor_cipher L
    sample_session (str "ann") 0 Background sample_dhx2 (str "secret") password (0%nat, []) (0%nat, [])
    (fives_ok 0) eq_refl Hd (dhx2_serve_ok _ _ _ _ Hd) (conj I (conj eq_refl eq_refl))) as Hlogin.
  destruct (Hlogin (str "secret")) as (w1&E1). destruct (Hlogin (str "Secret")) as (w2&E2).
  exists w1, w2. split; [exact E1|exact E2].
Defined.

(** C25: an SRP login with the registered password against a server that computes
    its own half of SRP-6a succeeds: for every group, salt and secret of the
    server, client and server derive the same key, the server finds the client's
    proof and the client the server's; only the case u = 0, where the protocol
    demands it, aborts. *)
Theorem srp_login {W St : Type} `{Transport W} {serve : server St} `{!Served W St serve}
    `{Entropy W} s username q ctx d password st w :
  entropy_ok (serve := serve) q → live ctx = true → srp_ok d username password →
  srp_server (serve := serve) s username d password st →
  at_state (serve := serve) st q w →
  ∃ A w', 0 ≤ A < be_Z (s_N d) ∧ loginSRP ctx s username password w
    = Ret (if bool_decide (srp_u d A = 0) then Err (EErrorf "afp: SRP: u == 0" []) else Ok tt, w').
Proof. apply loginSRP_spec. Qed.

(** A server with a group of 23 elements, its secret 6 and B for its verifier. *)
Definition sample_srp : srp_params :=
  let d0 := MkSrp 3 0 [byte_of_Z 23] [byte_of_Z 5] (str "salt") [] 6 in
  MkSrp 3 0 [byte_of_Z 23] [byte_of_Z 5] (str "salt")
    [byte_of_Z ((srp_k d0 * Exp 5 (srp_x d0 (str "ann") (str "secret")) 23 + 5 ^ 6) mod 23)] 6.

Lemma srp_login_witness :
  let srv := srp_serve (str "ann") sample_srp (str "secret") in
  ∃ w', @loginSRP _ (direct_transport srv 0) fives Background sample_session
    (str "ann") (str "secret") (0%nat, []) = Ret (Ok tt, w').
Proof.
  intros srv. assert (srp_ok sample_srp (str "ann") (str "secret")) as Hd.
  { unfold srp_ok, srp_verifier. rewrite <- Exp_mod by (apply be_Z_range || reflexivity).
    vm_compute. repeat split; congruence. }
  pose proof (srp_serve_ok sample_session _ _ _ Hd) as Hs. fold srv in Hs. clearbody srv.
  destruct (@srp_login _ _ (direct_transport srv 0) srv (direct_served srv 0) fives
    sample_session (str "ann") 0 Background sample_srp (str "secret") (0%nat, []) (0%nat, []))
    as (A&w'&HA&E); [apply fives_ok | reflexivity | exact Hd | exact Hs | split_and!; done |].
  exists w'. rewrite E. rewrite bool_decide_eq_false_2; [done|].
  assert (forallb (λ A, negb (srp_u sample_srp A =? 0)) (seqZ 0 23) = true) as Hu by (by vm_compute).
  rewrite List.forallb_forall in Hu. intros Hz. specialize (Hu A). rewrite Hz in Hu.
  discriminate Hu. by apply list_elem_of_In, elem_of_seqZ.
Defined.
