(* ===== verification/LoginSafety.v ===== *)
(** * Authentication: what holds against any server

    Neither side of the network is trusted here: the theorems quantify over
    every transport, and over every reply.  A login that succeeds has verified
    the server's proof; DHX2 cannot be made to panic, SRP exactly by numbers
    wider than the modulus; and the method of the login requests on the wire is
    the strongest one that the server offers. *)

From S2P Require Import Prelude Header Result Wire ServerInfo Conn Transport Session SessionSpec Hash Login LoginSpec.

Open Scope go_scope.

(** ** Runs that returned, taken apart *)

Lemma lift_inv {S A} (o : outcome A) (s : S) a s' : lift o s = Ret (a, s') → o = Ret a ∧ s' = s.
Proof. unfold lift. destruct o; naive_solver. Qed.

Lemma try_bind_inv {S A B} (m : M S (result A)) (f : A → M S (result B)) s b s' :
  try_bind m f s = Ret (Ok b, s') → ∃ a s1, m s = Ret (Ok a, s1) ∧ f a s1 = Ret (Ok b, s').
Proof. unfold try_bind. intros ([a|e]&s1&E&F)%M_bind_inv; [eauto|]. by injection F. Qed.

Lemma lift_bind_inv {S A B} (o : outcome A) (f : A → M S B) s b s' :
  (lift o ≫= f) s = Ret (b, s') → ∃ a, o = Ret a ∧ f a s = Ret (b, s').
Proof. intros (a&s1&[-> ->]%lift_inv&F)%M_bind_inv. eauto. Qed.

Lemma reading_inv {S A} payload (m : M reader A) (s : S) a s' :
  reading payload m s = Ret (a, s') → s' = s ∧ ∃ r, m (new_reader payload) = Ret (a, r).
Proof.
  unfold reading. intros ([x r]&E&F)%lift_bind_inv. injection F as -> ->. eauto.
Qed.

(** One step of taking a successful run apart. *)
Ltac run_inv H :=
  lazymatch type of H with
  | try_bind _ _ _ = _ => apply try_bind_inv in H as (?&?&?&H)
  | (lift _ ≫= _) _ = _ => apply lift_bind_inv in H as (?&?&H)
  | (if bool_decide ?P then _ else _) _ = _ => case_bool_decide; [try discriminate H|]
  | (if ?b then _ else _) _ = _ => destruct b eqn:?; [try discriminate H|]
  | (let '(_, _) := ?x in _) _ = _ => destruct x as [??]
  | (match ?x with Some _ => _ | None => _ end) _ = _ => destruct x; [|try discriminate H]
  end.

(** ** Replies *)

(** An accessor either takes its bytes off the front of what is left, or fails
    and leaves the reader's error set. *)
Lemma r_take_run n what pre b :
  0 ≤ n →
  (∃ v rest, b = v ++ rest ∧ len v = n ∧ r_take n what (rd_at pre b) = Ret (Some v, rd_at (pre ++ v) rest)) ∨
  (∃ e r, rerr r = Some e ∧ r_take n what (rd_at pre b) = Ret (None, r)).
Proof.
  intros Hn. destruct (decide (n ≤ len b)) as [Hl|Hl].
  - left. exists (take (Z.to_nat n) b), (drop (Z.to_nat n) b).
    assert (len (take (Z.to_nat n) b) = n) as Ht by (rewrite len_take; lia).
    split_and!; [by rewrite take_drop|done|].
    pose proof (r_take_at what n (take (Z.to_nat n) b) pre (drop (Z.to_nat n) b) (eq_sym Ht)) as E.
    by rewrite take_drop in E.
  - right. pose proof (len_nonneg b). pose proof (len_nonneg pre). unfold rd_at.
    rewrite r_take_spec by (rewrite ?len_app; lia).
    rewrite bool_decide_eq_false_2 by (rewrite len_app; lia). do 2 eexists. split; [|reflexivity]. done.
Qed.

Lemma r_u16_run what pre b :
  (∃ v rest, b = be_bytes 2 v ++ rest ∧ 0 ≤ v < 2 ^ 16 ∧
     r_u16 what (rd_at pre b) = Ret (v, rd_at (pre ++ be_bytes 2 v) rest)) ∨
  (∃ e r, rerr r = Some e ∧ r_u16 what (rd_at pre b) = Ret (0, r)).
Proof.
  unfold r_u16, r_be. destruct (r_take_run (Z.of_nat 2) what pre b) as [(v&rest&->&Hv&E)|(e&r&Hr&E)]; [lia|..].
  - left. exists (be_Z v), rest. pose proof (be_Z_range v) as Hz.
    assert (length v = 2%nat) as Hlen by (unfold len in Hv; lia). rewrite Hlen in Hz.
    assert (be_bytes 2 (be_Z v) = v) as ->.
    { apply be_Z_inj; [by rewrite length_be_bytes|]. by rewrite be_Z_be_bytes. }
    split_and!; [done|apply Hz|apply Hz|]. by erewrite M_bind_ret by exact E.
  - right. exists e, r. split; [done|]. by erewrite M_bind_ret by exact E.
Qed.

(** An accepted final reply of SRP carries the proof. *)
Lemma parse_srp_final_inv p m2 r :
  parse_srp_final (new_reader p) = Ret (Ok m2, r) → ∃ rest, p = srp_final_payload m2 ++ rest.
Proof.
  rewrite new_reader_at. unfold parse_srp_final.
  destruct (r_u16_run "srp step" [] p) as [(v&b1&->&Hv&E)|(e&r1&Hr&E)];
    erewrite M_bind_ret by exact E; [|done].
  case_bool_decide as Hs; [done|]. subst v.
  destruct (r_u16_run "M2 length" ([] ++ be_bytes 2 srpServerProof) b1) as [(n&b2&->&Hn&E2)|(e&r1&Hr&E2)];
    erewrite M_bind_ret by exact E2.
  - destruct (r_take_run n "M2" (([] ++ be_bytes 2 srpServerProof) ++ be_bytes 2 n) b2)
      as [(v&b3&->&Hl&E3)|(e&r1&Hr&E3)]; [lia|..]; erewrite M_bind_ret by exact E3; unfold r_check;
      erewrite M_bind_ret by done.
    + cbn [rerr rd_at]. intros [= <- _]. exists b3. unfold srp_final_payload.
      by rewrite Hl, <- !app_assoc.
    + by rewrite Hr.
  - erewrite M_bind_ret by (by eapply r_take_sticky). unfold r_check. erewrite M_bind_ret by done.
    by rewrite Hr.
Qed.

Lemma parse_dhx2_nonces_run p :
  ∃ res r, parse_dhx2_nonces (new_reader p) = Ret (res, r) ∧
    ∀ tid ct, res = Ok (tid, ct) → len ct = 32.
Proof.
  rewrite new_reader_at. unfold parse_dhx2_nonces.
  destruct (r_u16_run "transaction id" [] p) as [(v&b1&->&Hv&E)|(e&r1&Hr&E)]; erewrite M_bind_ret by exact E.
  - destruct (r_take_run (dhx2NonceLen * 2) "nonce block" ([] ++ be_bytes 2 v) b1)
      as [(ct&b2&->&Hl&E2)|(e&r1&Hr&E2)]; [done|..]; erewrite M_bind_ret by exact E2; unfold r_check;
      erewrite M_bind_ret by done; do 2 eexists; (split; [reflexivity|]).
    + by intros ?? [= <- <-].
    + by rewrite Hr.
  - erewrite M_bind_ret by (by eapply r_take_sticky). unfold r_check. erewrite M_bind_ret by done.
    do 2 eexists. split; [reflexivity|]. by rewrite Hr.
Qed.

(** ** Properties *)

(** The exchange of an accepted SRP login, from the client's secret on. *)
Definition srp_verified {W} `{Transport W} `{Entropy W} (ctx : Ctx) (username password : bytes) (w' : W) : Prop :=
  ∃ tid nB gB salt bB aB A K m1 w1 w2 rest,
    rand_Read (len nB) w1 = Ret (Ok aB, w2) ∧
    srp_compute nB gB salt bB aB username password = Ret (Some (A, K, m1)) ∧
    loginCont ctx tid (srp_proof A m1) w2
      = Ret (Ok (srp_final_payload (sha1Sum [Bytes A; m1; K]) ++ rest, ResNoErr), w').

(** The exchange of an accepted DHX2 login, from the client's nonce on. *)
Definition dhx2_verified {W} `{Transport W} `{Entropy W} `{Cast5} (ctx : Ctx) (w' : W) : Prop :=
  ∃ tid g p mb keyLen ra kb block nonce mab enc w1 w2 w3 payload tid2 ct r plain final last,
    cast5_NewCipher (md5 kb) = Ok block ∧
    leftPad (Exp mb ra p) keyLen = Ret kb ∧ leftPad (Exp g ra p) keyLen = Ret mab ∧
    rand_Read dhx2NonceLen w1 = Ret (Ok nonce, w2) ∧
    cbcEncrypt block dhxClientIV nonce = Ret enc ∧
    loginCont ctx tid (mab ++ enc) w2 = Ret (Ok (payload, ResAuthContinue), w3) ∧
    parse_dhx2_nonces (new_reader payload) = Ret (Ok (tid2, ct), r) ∧
    cbcDecrypt block dhxServerIV ct = Ret plain ∧
    slice plain 0 dhx2NonceLen = Ret (incNonce nonce) ∧
    loginCont ctx tid2 final w3 = Ret (Ok (last, ResNoErr), w').

Lemma ret_result_ok {W} op code (w w' : W) :
  (mret (resultErr op code) : M W (result unit)) w = Ret (Ok tt, w') → code = ResNoErr ∧ w' = w.
Proof. intros [= R ->]. by apply resultErr_ok in R. Qed.

(** C26: what a successful login says about the other end, whatever it is: either
    the server's proof was verified (SRP: the last reply carries H(A | M1 | K)
    for the key of this exchange and the client's fresh secret; DHX2: a reply
    to the client's encrypted fresh nonce decrypts, under the exchanged key, to
    the nonce plus one, and the password's answer was "no error"), or the server
    cut the exchange short by answering "no error" where the protocol asks it to
    go on, in which case nothing was verified. *)
Theorem login_verifies_server {W} `{Transport W} `{Entropy W} `{Cast5} ctx s username password w w' :
  (loginSRP ctx s username password w = Ret (Ok tt, w') →
     (∃ payload, login ctx s uamSRP (w_pascal username []) w = Ret (Ok (payload, ResNoErr), w')) ∨
     srp_verified ctx username password w') ∧
  (loginDHX2 ctx s username password w = Ret (Ok tt, w') →
     (∃ payload, login ctx s uamDHX2 (w_pascal username []) w = Ret (Ok (payload, ResNoErr), w')) ∨
     (∃ tid block nonce mab enc w1 w2 payload,
        rand_Read dhx2NonceLen w1 = Ret (Ok nonce, w2) ∧ cbcEncrypt block dhxClientIV nonce = Ret enc ∧
        loginCont ctx tid (mab ++ enc) w2 = Ret (Ok (payload, ResNoErr), w')) ∨
     dhx2_verified ctx w').
Proof.
  split; intros R.
  - unfold loginSRP in R. repeat run_inv R.
    { apply ret_result_ok in R as [-> ->]. eauto. }
    all: try done.
    match goal with H9 : mret (resultErr _ _) _ = Ret (Ok ?x, _) |- _ =>
      destruct x; apply ret_result_ok in H9 as [-> ->] end.
    match goal with H : reading _ parse_srp_final _ = _ |- _ => apply reading_inv in H as (->&r&Hp) end.
    apply parse_srp_final_inv in Hp as (rest&->). injection R as <-. right.
    unfold ConstantTimeCompare in *. repeat match goal with H : bool_decide _ = true |- _ =>
      apply bool_decide_eq_true in H as -> end.
    do 12 eexists. split_and!; eassumption.
  - unfold loginDHX2 in R. repeat run_inv R.
    { apply ret_result_ok in R as [-> ->]. eauto. }
    all: try done.
    { apply ret_result_ok in R as [-> ->]. right. left. do 8 eexists. split_and!; eassumption. }
    apply ret_result_ok in R as [-> ->]. right. right.
    match goal with H : reading _ parse_dhx2_nonces _ = _ |- _ => apply reading_inv in H as (->&r&Hp) end.
    match goal with H : negb _ = false |- _ =>
      apply negb_false_iff in H; unfold ConstantTimeCompare in H; apply bool_decide_eq_true in H as -> end.
    match goal with H : mret (cast5_NewCipher _) _ = _ |- _ => injection H as Hc -> end.
    unfold dhx2_verified. simplify_eq. do 21 eexists. split_and!; eassumption.
Qed.

Lemma login_verifies_server_witness :
  let srv1 := srp_serve (str "ann") sample_srp (str "secret") in
  let srv2 := @dhx2_serve xor_cipher sample_dhx2 (str "secret") in
  (∃ w', (∃ payload, @login _ (direct_transport srv1 0) Background sample_session uamSRP
            (w_pascal (str "ann") []) (0%nat, []) = Ret (Ok (payload, ResNoErr), w')) ∨
         @srp_verified _ (direct_transport srv1 0) fives Background (str "ann") (str "secret") w') ∧
  ∃ w', @loginDHX2 _ (direct_transport srv2 0) fives xor_cipher Background sample_session
    (str "ann") (str "secret") (0%nat, []) = Ret (Ok tt, w').
Proof.
  cbv zeta. split.
  - exists (2%nat, []). apply (proj1 (@login_verifies_server _ (direct_transport _ 0) fives xor_cipher Background
      sample_session (str "ann") (str "secret") (0%nat, []) (2%nat, []))). vm_compute. reflexivity.
  - eexists. vm_compute. reflexivity.
Defined.

(** C32: nobody checks that the proof was asked for: a server that answers every
    request with "no error" and proves nothing is accepted by [Login], for every
    user and every password, whichever of the methods it offers. *)
Theorem unproven_server_accepted {W St : Type} `{Transport W} {serve : server St}
    `{!Served W St serve} `{Entropy W} `{Cast5} ctx info username password s st q w version :
  at_state (serve := serve) st q w → live ctx = true →
  (∀ payload st', ∃ rp st'', serve CmdCommand 0 payload st' = (0, rp, st'')) →
  pickVersion (AFPVersions info) = Ok version →
  username ≠ [] → (uamDHX2 ∈ UAMs info ∨ uamSRP ∈ UAMs info ∨ uamCleartext ∈ UAMs info) →
  ∃ w', Login ctx info username password s w = Ret ((MkSession version, Ok tt), w').
Proof.
  intros Hw Hl Hs Hv Hu Hm. unfold Login. rewrite Hv.
  set (uams := foldl _ _ _). assert (∀ u, u ∈ uams ↔ u ∈ UAMs info) as Hin.
  { intros u. unfold uams. rewrite offered_set. split; [intros [?|?]; [done|set_solver] | by left]. }
  assert (∀ s uam info, ∃ rp w', login ctx s uam info w = Ret (Ok (rp, 0), w')) as Hlog.
  { intros s0 uam auth. destruct (Hs (login_request s0 uam auth) st) as (rp&st'&E).
    destruct (command_served _ _ _ _ _ _ _ _ Hw Hl E) as (w1&Q&_). by exists rp, w1. }
  rewrite bool_decide_eq_false_2 by done.
  assert (∀ m : M W (result unit), (∃ w', m w = Ret (Ok tt, w')) →
    ∃ w', (r ← m; mret (MkSession version, r)) w = Ret ((MkSession version, Ok tt), w')) as Hret.
  { intros m (w'&E). exists w'. by erewrite M_bind_ret by exact E. }
  apply Hret. rewrite <- !Hin in Hm. repeat case_bool_decide; try (exfalso; tauto).
  all: unfold loginDHX2, loginSRP, loginCleartext;
    edestruct Hlog as (rp&w'&E); exists w'; by erewrite try_bind_ok by exact E.
Qed.

Lemma unproven_server_accepted_witness :
  let srv : server unit := λ _ _ _ st, (0, [], st) in
  ∃ w', @Login _ (direct_transport srv 0) fives xor_cipher Background
    (MkServerInfo [] [] [str "AFP3.3"] [str "DHX2"; str "SRP"] 0) (str "ann") (str "x") sample_session tt
   = Ret ((MkSession (str "AFP3.3"), Ok tt), w').
Proof.
  intros srv. eapply (@unproven_server_accepted _ _ (direct_transport srv 0) srv (direct_served srv 0) fives xor_cipher
    Background (MkServerInfo [] [] [str "AFP3.3"] [str "DHX2"; str "SRP"] 0) (str "ann") (str "x")
    sample_session tt 0 tt (str "AFP3.3")).
  - split_and!; done.
  - done.
  - intros. do 2 eexists. reflexivity.
  - vm_compute. reflexivity.
  - done.
  - left. by left.
Defined.

(** ** Totality *)

(** [yields P m]: from every world, [m] returns a value that satisfies [P]. *)
Definition yields {W A} (P : A → Prop) (m : M W A) : Prop := ∀ w, ∃ a w', m w = Ret (a, w') ∧ P a.

(** [P] of the value, where there is one. *)
Definition on_ok {A} (P : A → Prop) (r : result A) : Prop := ∀ a, r = Ok a → P a.

Lemma yields_any {W A} (P : A → Prop) (m : M W A) : yields P m → yields (λ _, True) m.
Proof. intros Hm w. destruct (Hm w) as (a&w'&?&_). eauto. Qed.

Lemma yields_ret {W A} (a : A) : yields (W := W) (λ _, True) (mret a).
Proof. intros w. by exists a, w. Qed.

Lemma yields_try {W A B} (P : A → Prop) (Q : result B → Prop) (m : M W (result A)) f :
  yields (on_ok P) m → (∀ a, P a → yields Q (f a)) → (∀ e, Q (Err e)) → yields Q (try_bind m f).
Proof.
  intros Hm Hf He w. destruct (Hm w) as ([a|e]&w'&E&Ha).
  - destruct (Hf a (Ha a eq_refl) w') as (b&w''&?&?). exists b, w''. by rewrite (try_bind_ok _ _ _ _ _ E).
  - exists (Err e), w'. by rewrite (try_bind_err _ _ _ _ _ E).
Qed.

Lemma yields_lift {W A B} (Q : B → Prop) (o : outcome A) (f : A → M W B) a :
  o = Ret a → yields Q (f a) → yields Q (lift o ≫= f).
Proof. intros -> Hf w. apply Hf. Qed.

Lemma yields_reading {W A} (P : A → Prop) payload (m : M reader A) :
  (∃ a r, m (new_reader payload) = Ret (a, r) ∧ P a) → yields (W := W) P (reading payload m).
Proof.
  intros (a&r&E&Ha) w. exists a, w. split; [|done]. unfold reading.
  by erewrite M_bind_ret by (unfold lift; by rewrite E).
Qed.

Lemma be_Z_default o n : (∀ b : bytes, o = Some b → len b = n) → 0 ≤ n → 0 ≤ be_Z (default [] o) < 256 ^ n.
Proof.
  intros Ho Hn. destruct o as [b|]; cbn [default].
  - rewrite <- (Ho b eq_refl). apply be_Z_range.
  - split; [done|]. apply Z.pow_pos_nonneg; lia.
Qed.

(** The parameters of DHX2 that the client goes on with. *)
Definition dhx2_fit (x : Z * Z * Z * Z * Z) : Prop :=
  let '(_, _, keyLen, p, _) := x in 0 ≤ keyLen ∧ 0 < p < 256 ^ keyLen.

Lemma parse_dhx2_run payload :
  ∃ res r, parse_dhx2 (new_reader payload) = Ret (res, r) ∧ on_ok dhx2_fit res.
Proof.
  destruct (rsafe_run (on_ok dhx2_fit) parse_dhx2 payload) as (res&r&?&_&_&?); [|by eauto].
  unfold parse_dhx2. eapply rsafe_bind; [apply rsafe_u16|]. intros tid _.
  eapply rsafe_bind; [by apply rsafe_take|]. intros g _.
  eapply rsafe_bind; [apply rsafe_u16|]. intros keyLen Hk. cbv beta in Hk.
  eapply rsafe_bind; [apply rsafe_get|]. intros r _.
  case_bool_decide; [by apply rsafe_ret|].
  eapply rsafe_bind; [apply rsafe_take; lia|]. intros p Hp. cbv beta in Hp.
  eapply rsafe_bind; [apply rsafe_take; lia|]. intros mb _.
  eapply rsafe_bind; [apply rsafe_get|]. intros r2 _.
  destruct (rerr r2); [by apply rsafe_ret|]. case_bool_decide as Hd; [by apply rsafe_ret|].
  apply rsafe_ret. intros a [= <-]. unfold dhx2_fit, SetBytes in *.
  apply be_Z_default in Hp; [|lia]. split; [lia|]. split; [|lia].
  apply Z.nle_gt. intros Hz. apply Hd. right. unfold BitLen. by rewrite bool_decide_eq_true_2.
Qed.

Section total.
Context {W : Type} `{Transport W} `{Entropy W} `{Cast5Law}.

(** Requests end, with a reply or an error, and so does the random source,
    with as many bytes as were asked for or an error. *)
Definition requests_end : Prop := ∀ ctx cmd off payload, yields (λ _, True) (t_request ctx cmd off payload).
Definition entropy_ends : Prop := ∀ n, 0 ≤ n → yields (on_ok (λ b, len b = n)) (rand_Read n).

Lemma command_yields ctx payload : requests_end → yields (on_ok (λ _, True)) (command ctx payload).
Proof.
  intros Hr. unfold command. eapply (yields_try (λ _, True)); [| |intros ? ? [=]].
  - intros w. destruct (Hr ctx CmdCommand 0 payload w) as (a&w'&?&_). exists a, w'. split; [done|]. by intros ? _.
  - intros a _ w. do 2 eexists. split; [reflexivity|]. by intros ? _.
Qed.

End total.

(** No server can crash a DHX2 login: as long as requests and the random
    source end (with an error or not), [loginDHX2] returns, for every reply of
    the server at every step; no number is too wide for its field, no slice out
    of range, no ciphertext a broken block. *)
Theorem loginDHX2_total {W} `{Transport W} `{Entropy W} `{Cast5Law} ctx s username password w :
  requests_end → entropy_ends → ∃ r w', loginDHX2 ctx s username password w = Ret (r, w').
Proof.
  intros Hr He. cut (yields (λ _, True) (loginDHX2 ctx s username password)).
  { intros Hx. destruct (Hx w) as (r&w'&?&_). eauto. }
  unfold loginDHX2, login, loginCont.
  eapply yields_try; [by apply command_yields| |done]. intros [payload code] _.
  case_bool_decide; [apply yields_ret|].
  eapply yields_try; [apply yields_reading, parse_dhx2_run| |done].
  intros [[[[tid g] keyLen] p] mb] [Hk Hp].
  eapply yields_try; [by apply He| |done]. intros raB _. unfold SetBytes.
  pose proof (be_Z_range raB) as [Hra _].
  eapply yields_lift; [apply leftPad_ok; pose proof (Exp_range mb (be_Z raB) p); lia|].
  destruct (cast5_law (md5 (be_bytes (Z.to_nat keyLen) (Exp mb (be_Z raB) p))) (len_md5 _)) as (block&Eb&Hb).
  eapply (yields_try (λ b, b = block)); [|intros ? ->|done].
  { intros w1. rewrite Eb. exists (Ok block), w1. split; [done|]. intros b2 Eb2. congruence. }
  eapply yields_try; [by apply He| |done]. intros nonce Hn. cbv beta in Hn.
  eapply yields_lift; [apply leftPad_ok; pose proof (Exp_range g (be_Z raB) p); lia|].
  destruct (cbc_roundtrip block dhxClientIV nonce Hb eq_refl) as (enc&Eenc&_); [by rewrite Hn|].
  eapply yields_lift; [exact Eenc|].
  eapply yields_try; [by apply command_yields| |done]. intros [payload2 code2] _.
  case_bool_decide; [apply yields_ret|].
  eapply (yields_try (λ x, len x.2 = 32)); [|intros [tid2 ct] Hct|done].
  { apply yields_reading. destruct (parse_dhx2_nonces_run payload2) as (res&r&E&Hl).
    exists res, r. split; [done|]. intros [t c] ->. by eapply Hl. }
  cbn in Hct.
  destruct (cbcDecrypt_len block dhxServerIV ct Hb eq_refl) as (plain&Eplain&Lp); [by rewrite Hct|].
  eapply yields_lift; [exact Eplain|]. unfold dhx2NonceLen.
  eapply yields_lift; [apply slice_ok; lia|]. destruct (negb _); [apply yields_ret|].
  eapply yields_lift; [apply slice_ok; lia|].
  edestruct (cbc_roundtrip block dhxClientIV) as (enc2&Eenc2&_); [exact Hb|done|..|eapply yields_lift; [exact Eenc2|]].
  { rewrite len_app, len_incNonce. fold (password_field password). rewrite len_password_field, len_sub by lia. by rewrite Lp, Hct. }
  eapply yields_try; [by apply command_yields| |done]. intros [payload3 code3] _. apply yields_ret.
Qed.

(** A server whose every reply is forty bytes of ones, "continue". *)
Definition ones_server : server unit := λ _ _ _ st,
  (u32 ResAuthContinue, replicate 40 (byte_of_Z 1), st).

Lemma direct_requests_end {St} (serve : server St) q : @requests_end _ (direct_transport serve q).
Proof.
  intros ctx cmd off payload st. cbn. destruct (live ctx); [|by do 2 eexists].
  destruct (serve cmd off payload st) as [[code rp] st']. by do 2 eexists.
Qed.

Lemma fives_end {W} : @entropy_ends W fives.
Proof.
  intros n Hn w. cbn. do 2 eexists. split; [reflexivity|]. intros b [= <-].
  unfold len. rewrite length_replicate. lia.
Qed.

Lemma loginDHX2_total_witness :
  ∃ r w', @loginDHX2 unit (direct_transport ones_server 0) fives xor_cipher Background sample_session
    (str "ann") (str "x") tt = Ret (r, w').
Proof.
  apply (@loginDHX2_total unit (direct_transport ones_server 0) fives xor_cipher xor_cipher_law).
  - apply direct_requests_end.
  - apply fives_end.
Defined.

Lemma srp_compute_cases nB gB salt bB aB username password :
  0 < SetBytes nB →
  if bool_decide (256 ^ len nB ≤ SetBytes gB ∨ 256 ^ len nB ≤ SetBytes bB)
  then srp_compute nB gB salt bB aB username password = Panics
  else ∃ r, srp_compute nB gB salt bB aB username password = Ret r.
Proof.
  intros HN. unfold srp_compute. set (N := SetBytes nB) in *. set (a := SetBytes aB mod N).
  assert (0 ≤ Exp (SetBytes gB) a N < N) as HA by (apply Exp_range; [lia|]; by apply Z.mod_pos_bound).
  assert (N < 256 ^ len nB) as Hw by apply be_Z_range.
  unfold leftPad. rewrite (bool_decide_eq_false_2 (256 ^ len nB ≤ Exp _ _ _)) by lia.
  cbn [mbind outcome_bind].
  destruct (decide (256 ^ len nB ≤ SetBytes gB)) as [Hg|Hg].
  { by rewrite (bool_decide_eq_true_2 (256 ^ len nB ≤ SetBytes gB)), bool_decide_eq_true_2 by auto. }
  rewrite (bool_decide_eq_false_2 (256 ^ len nB ≤ SetBytes gB)) by done. cbn [mbind outcome_bind].
  destruct (decide (256 ^ len nB ≤ SetBytes bB)) as [HB|HB].
  { by rewrite (bool_decide_eq_true_2 (256 ^ len nB ≤ SetBytes bB)), bool_decide_eq_true_2 by auto. }
  rewrite (bool_decide_eq_false_2 (256 ^ len nB ≤ SetBytes bB)), bool_decide_eq_false_2 by tauto.
  cbn [mbind outcome_bind]. case_bool_decide; [by eexists|].
  match goal with |- ∃ r, (mgf1SHA1 ?S 40 ≫= _) = _ => destruct (mgf1_total S 40) as (K&->&_); [done|] end.
  by eexists.
Qed.

(** C33: what a server can do to an SRP login: the client's computation panics
    exactly when g or B is wider than the modulus (the padding does not check
    it), so that a server that sends such a number in its first reply crashes
    the client, whatever the user and the password. *)
Theorem srp_wide_numbers_panic {W St : Type} `{Transport W} {serve : server St}
    `{!Served W St serve} `{Entropy W} ctx s username password d q st st1 w :
  entropy_ok (serve := serve) q → live ctx = true → srp_wire_ok d →
  0 < be_Z (s_N d) → be_Z (s_B d) ≠ 0 →
  at_state (serve := serve) st q w →
  serve CmdCommand 0 (login_request s uamSRP (w_pascal username [])) st
    = (u32 ResAuthContinue, srp_payload d, st1) →
  (∀ aB, srp_compute (s_N d) (s_g d) (s_salt d) (s_B d) aB username password = Panics ↔
     256 ^ len (s_N d) ≤ be_Z (s_g d) ∨ 256 ^ len (s_N d) ≤ be_Z (s_B d)) ∧
  (256 ^ len (s_N d) ≤ be_Z (s_g d) ∨ 256 ^ len (s_N d) ≤ be_Z (s_B d) →
     loginSRP ctx s username password w = Panics).
Proof.
  intros He Hl Hd HN HB Hw E1.
  pose proof (λ aB, srp_compute_cases (s_N d) (s_g d) (s_salt d) (s_B d) aB username password HN) as Hc.
  unfold SetBytes in Hc. case_bool_decide as Hwide.
  - split; [by intros aB; specialize (Hc aB)|]. intros _. unfold loginSRP, login.
    destruct (command_served _ _ _ _ _ _ _ _ Hw Hl E1) as (w1&Q1&W1).
    erewrite try_bind_ok by exact Q1. cbn beta iota.
    rewrite (bool_decide_eq_false_2 (_ ≠ ResAuthContinue)) by (intros Hx; by apply Hx).
    destruct (parse_srp_at d Hd) as (r1&P1).
    erewrite try_bind_ok by (unfold reading; by erewrite M_bind_ret by (unfold lift; by rewrite P1)).
    cbn beta iota. rewrite bool_decide_eq_false_2 by (unfold SetBytes; lia).
    destruct (He (len (s_N d)) st1 w1) as (aB&w2&R2&_&W2); [apply len_nonneg|done|].
    erewrite try_bind_ok by exact R2. unfold mbind, M_bind, lift. by rewrite (Hc aB).
  - split; [|done]. intros aB. destruct (Hc aB) as (r&->). by split.
Qed.

(** A generator of two bytes for a modulus of one. *)
Definition wide_srp : srp_params :=
  MkSrp 3 0 [byte_of_Z 23] [byte_of_Z 1; byte_of_Z 0] (str "salt") [byte_of_Z 5] 6.

Lemma srp_wide_numbers_panic_witness :
  let srv : server unit := λ _ _ _ st, (u32 ResAuthContinue, srp_payload wide_srp, st) in
  @loginSRP unit (direct_transport srv 0) fives Background sample_session (str "ann") (str "x") tt = Panics.
Proof.
  intros srv. eapply (@srp_wide_numbers_panic unit unit (direct_transport srv 0) srv (direct_served srv 0)
    fives Background sample_session (str "ann") (str "x") wide_srp 0 tt tt tt).
  - apply fives_ok.
  - reflexivity.
  - unfold srp_wire_ok. vm_compute. repeat split; congruence.
  - reflexivity.
  - vm_compute. congruence.
  - split_and!; done.
  - reflexivity.
  - left. vm_compute. congruence.
Defined.

(** ** The requests on the wire

    [traced] records the payloads of the requests. *)

Definition traced (W : Type) `{Transport W} : Transport (W * list bytes) := {|
  t_request ctx cmd off payload '(w, l) :=
    match t_request ctx cmd off payload w with
    | Ret (r, w') => Ret (r, (w', l ++ [payload]))
    | Panics => Panics
    | NoFuel => NoFuel
    end;
  t_quantum '(w, _) := t_quantum w;
|}.

Definition traced_entropy (W : Type) `{Entropy W} : Entropy (W * list bytes) := {|
  rand_Read n '(w, l) :=
    match rand_Read n w with
    | Ret (r, w') => Ret (r, (w', l))
    | Panics => Panics
    | NoFuel => NoFuel
    end;
|}.

Section trace.
Context {W : Type} `{Transport W} `{Entropy W} `{Cast5} (P : bytes → Prop).

(** Every request that [m] adds to the trace satisfies [P]. *)
Definition sends {A} (m : M (W * list bytes) A) : Prop :=
  ∀ w l a w' l', m (w, l) = Ret (a, (w', l')) → ∃ k, l' = l ++ k ∧ Forall P k.

Lemma sends_ret {A} (a : A) : sends (mret a).
Proof. intros w l ? ? ? [= _ _ <-]. exists []. by rewrite app_nil_r. Qed.

Lemma sends_bind {A B} (m : M _ A) (f : A → M _ B) : sends m → (∀ a, sends (f a)) → sends (m ≫= f).
Proof.
  intros Hm Hf w l b w' l' (a&[w1 l1]&E&F)%M_bind_inv.
  destruct (Hm _ _ _ _ _ E) as (k1&->&?). destruct (Hf _ _ _ _ _ _ F) as (k2&->&?).
  exists (k1 ++ k2). rewrite app_assoc. split; [done|]. by apply Forall_app.
Qed.

Lemma sends_try {A B} (m : M _ (result A)) (f : A → M _ (result B)) :
  sends m → (∀ a, sends (f a)) → sends (try_bind m f).
Proof. intros Hm Hf. apply sends_bind; [done|]. intros [a|e]; [done|apply sends_ret]. Qed.

Lemma sends_lift {A} (o : outcome A) : sends (lift o).
Proof. intros w l a w' l' [_ [= _ ->]]%lift_inv. exists []. by rewrite app_nil_r. Qed.

Lemma sends_reading {A} payload (m : M reader A) : sends (reading payload m).
Proof.
  intros w l a w' l' [[= _ ->] _]%reading_inv. exists []. by rewrite app_nil_r.
Qed.

Lemma sends_rand n : sends (@rand_Read _ (traced_entropy W) n).
Proof.
  intros w l a w' l'. cbn. destruct (rand_Read n w) as [[r w1]| |]; [|done..].
  intros [= _ _ <-]. exists []. by rewrite app_nil_r.
Qed.

Lemma sends_command ctx payload : P payload → sends (@command _ (traced W) ctx payload).
Proof.
  intros HP. unfold command. apply sends_try; [|intros; apply sends_ret].
  intros w l a w' l'. cbn. destruct (t_request ctx CmdCommand 0 payload w) as [[r w1]| |]; [|done..].
  intros [= _ _ <-]. exists [payload]. by split; [|apply Forall_singleton].
Qed.

End trace.

Section methods.
Context {W : Type} `{Transport W} `{Entropy W} `{Cast5} (P : bytes → Prop) (ctx : Ctx).
Context (s : Session) (username password : bytes).
Hypothesis P_cont : ∀ tid auth, P (login_cont_request tid auth).

Ltac sends_step :=
  first
    [ apply sends_ret
    | apply sends_command; solve [auto]
    | apply sends_try; [|intros]
    | apply sends_reading
    | apply sends_rand
    | apply sends_bind; [apply sends_lift|intros]
    | case_bool_decide
    | match goal with
      | |- sends _ (let '(_, _) := ?x in _) => destruct x
      | |- sends _ (match ?x with Some _ => _ | None => _ end) => destruct x
      | |- sends _ (if ?b then _ else _) => destruct b
      end ].

Lemma sends_loginDHX2 :
  (∀ auth, P (login_request s uamDHX2 auth)) →
  sends P (@loginDHX2 _ (traced W) (traced_entropy W) _ ctx s username password).
Proof. intros Hp. unfold loginDHX2, login, loginCont. repeat sends_step. Qed.

Lemma sends_loginSRP :
  (∀ auth, P (login_request s uamSRP auth)) →
  sends P (@loginSRP _ (traced W) (traced_entropy W) ctx s username password).
Proof. intros Hp. unfold loginSRP, login, loginCont. repeat sends_step. Qed.

Lemma sends_loginCleartext :
  P (login_request s uamCleartext (cleartext_auth s username password)) →
  sends P (@loginCleartext _ (traced W) ctx s username password).
Proof. intros Hp. unfold loginCleartext, login. repeat sends_step. Qed.

Lemma sends_loginGuest :
  P (login_request s uamNoAuth []) → sends P (@loginGuest _ (traced W) ctx s).
Proof. intros Hp. unfold loginGuest, login. repeat sends_step. Qed.

End methods.

(** Where the cleartext request carries the password: its first eight bytes,
    zero-padded, at the end and at an even offset. *)
Definition password8 (password : bytes) : bytes := take 8 password ++ replicate (8 - length password) x00.

Lemma cleartext_layout s username password :
  len (s_Version s) ≤ 255 →
  ∃ pre, login_request s uamCleartext (cleartext_auth s username password) = pre ++ password8 password ∧
    len pre mod 2 = 0.
Proof.
  intros Hv. unfold login_request, cleartext_auth. fold (password8 password). unfold w_bytes.
  rewrite !w_pascal_layout. set (u := [] ++ byte_of_Z (len (take 255 username)) :: take 255 username).
  set (h := (_ ++ _) ++ _ :: take 255 uamCleartext).
  assert (len h = 1 + (1 + len (s_Version s)) + (1 + len uamCleartext)) as Hh.
  { unfold h. rewrite !len_app, !len_cons, !len_take. change (len (w_u8 _ [])) with 1.
    change (len uamCleartext) with 16. lia. }
  exists (h ++ if bool_decide (len (h ++ u) mod 2 = 1) then u ++ [x00] else u).
  rewrite <- Hh, <- len_app. rewrite <- app_assoc. split; [by case_bool_decide|].
  case_bool_decide as Hb; rewrite ?len_app in *; [change (len [x00]) with 1|];
    Z.to_euclidean_division_equations; lia.
Qed.

Lemma version_short offered v : pickVersion offered = Ok v → len v ≤ 255.
Proof.
  unfold pickVersion. destruct (find _ _) as [u|] eqn:E; [|done]. intros [= ->].
  apply List.find_some in E as [Hv _]. by destruct Hv as [<-|[<-|[<-|[<-|[]]]]].
Qed.

(** What a request of [Login] can be: a continuation, or the opening of a login
    with the negotiated version and the method that the user name and the
    server's list call for. *)
Definition login_choice (info : ServerInfo) (username password req : bytes) : Prop :=
  (∃ tid auth, req = login_cont_request tid auth) ∨
  ∃ v uam auth, req = login_request (MkSession v) uam auth ∧
    pickVersion (AFPVersions info) = Ok v ∧ uam ∈ UAMs info ∧
    (username = [] ∧ uam = uamNoAuth ∨
     username ≠ [] ∧
       (uam = uamDHX2 ∨
        uam = uamSRP ∧ uamDHX2 ∉ UAMs info ∨
        uam = uamCleartext ∧ uamDHX2 ∉ UAMs info ∧ uamSRP ∉ UAMs info ∧
          ∃ pre, req = pre ++ password8 password ∧ len pre mod 2 = 0)).

(** C34: the login requests on the wire follow the preference: for every server
    and every outcome, each request that [Login] sends either continues an
    exchange or opens one with the negotiated version and a method that the
    server offers: guest exactly for an empty user name, else DHX2, SRP only
    where DHX2 is not offered, and the cleartext password only where neither
    is, its eight bytes at an even offset. *)
Theorem Login_requests {W} `{Transport W} `{Entropy W} `{Cast5} ctx info username password s w r w' l :
  @Login _ (traced W) (traced_entropy W) _ ctx info username password s (w, []) = Ret (r, (w', l)) →
  Forall (login_choice info username password) l.
Proof.
  assert (sends (login_choice info username password)
    (@Login _ (traced W) (traced_entropy W) _ ctx info username password s)) as Hs.
  { unfold Login. destruct (pickVersion (AFPVersions info)) as [v|e] eqn:Hv; [|apply sends_ret].
    set (uams := foldl _ _ _). assert (∀ u, u ∈ uams ↔ u ∈ UAMs info) as Hin.
    { intros u. unfold uams. rewrite offered_set. split; [intros [?|?]; [done|set_solver] | by left]. }
    assert (∀ tid auth, login_choice info username password (login_cont_request tid auth)) as Hc
      by (intros; left; eauto).
    apply sends_bind; [|intros; apply sends_ret]. repeat case_bool_decide; rewrite ?Hin in *.
    - apply sends_ret.
    - apply sends_loginGuest. right. do 3 eexists. split_and!; [done|done|tauto|by left].
    - apply sends_loginDHX2; [done|]. intros auth. right. do 3 eexists. split_and!; [done..|tauto].
    - apply sends_loginSRP; [done|]. intros auth. right. do 3 eexists. split_and!; [done..|tauto].
    - apply sends_loginCleartext. right. do 3 eexists. split_and!; [done..|]. right. split; [done|].
      right. right. split_and!; [done..|]. apply cleartext_layout. cbn. by eapply version_short.
    - apply sends_ret. }
  intros E. by destruct (Hs _ _ _ _ _ E) as (k&->&?).
Qed.

Lemma Login_requests_witness :
  let info := MkServerInfo [] [] [str "AFP3.3"] [str "Cleartxt Passwrd"; str "DHX2"] 0 in
  ∃ e w' l, @Login _ (@traced _ (direct_transport ones_server 0)) (@traced_entropy _ fives) xor_cipher Background
      info (str "ann") (str "secret") sample_session (tt, [])
      = Ret ((MkSession (str "AFP3.3"), Err e), (w', l)) ∧
    length l = 1%nat ∧ Forall (login_choice info (str "ann") (str "secret")) l.
Proof.
  cbv zeta. do 3 eexists. split; [vm_compute; reflexivity|]. split; [reflexivity|].
  eapply (@Login_requests _ (direct_transport ones_server 0) fives xor_cipher Background _ _ _ sample_session tt).
  vm_compute. reflexivity.
Defined.
