(* ===== verification/Manager.v ===== *)
(** * The reconnecting connection manager (src/internal/nfsfs/conn.go)

    [connManager] owns the live link of a mount and replaces it when it dies.
    First its operations as the code runs them for one goroutine, in a world of
    several connections; then the same protocol as a machine of goroutines that
    share the manager and interleave at its critical sections. *)

From S2P Require Import Prelude Header Result Wire Entry Conn Transport Session Errgroup Fork Ops.

Open Scope go_scope.

(** ** Connections

    A successful dial allocates a connection, a session and a volume; the
    number [l_conn] is the identity of all three, so that comparing volume
    pointers compares the numbers. *)
Record link : Type := MkLink {
  l_conn : nat;
  l_vol : Volume;
}.

Definition same_vol (v1 v2 : option link) : Prop := l_conn <$> v1 = l_conn <$> v2.
#[global] Instance same_vol_dec v1 v2 : Decision (same_vol v1 v2).
Proof. unfold same_vol. apply _. Defined.

(** What the manager needs of a world [N] of connections: requests on each of
    them, [IsAlive], [Close], and the [Dialer] that it was given. *)
Class Network (N : Type) : Type := {
  net_transport : nat → Transport N;
  net_alive : nat → N → bool;
  net_close : nat → N → N;
  net_dial : Ctx → M N (result link);
}.

(** The session field is written with the other two and never read. *)
Record connManager : Type := MkMgr {
  m_gen : Z;             (* uint64 *)
  m_conn : option nat;
  m_vol : option link;
}.

(** [newConnManager] and a successful [reconnect] store what was dialled. *)
Definition installed (gen : Z) (l : link) : connManager := MkMgr gen (Some (l_conn l)) (Some l).

Section manager.
Context {N : Type} `{Network N} (base : Ctx).

(** [context.WithTimeout(m.base, ...)]: a child of the mount's context; that it
    expires shows as an error of the request it was given to. *)
Definition withTimeout : Ctx := WithCancel base false.

Definition newConnManager : M N (result connManager) :=
  l ←? net_dial withTimeout;
  mret (Ok (installed 1 l)).

Definition close_conn (c : option nat) : M N unit :=
  modify (λ w, match c with Some c => net_close c w | None => w end).

Definition reconnect (failedGen : Z) : M (connManager * N) (result unit) :=
  '(m, _) ← get;
  if bool_decide (m_gen m ≠ failedGen) then mret (Ok tt) else
  _ ← zoom2 (close_conn (m_conn m));
  r ← zoom2 (net_dial withTimeout);
  match r with
  | Err e => _ ← zoom1 (put (MkMgr (m_gen m) None None)); mret (Err e)
  | Ok l => _ ← zoom1 (put (installed (u64 (m_gen m + 1)) l)); mret (Ok tt)
  end.

(** An operation on the current volume; the variables that the closure assigns
    are passed through it, and a nil volume is [None]. *)
Definition operation (A : Type) : Type := Ctx → option link → A → M N (A * option error).

Definition do {A} (fn : operation A) (a : A) : M (connManager * N) (A * option error) :=
  '(m, _) ← get;
  let vol := m_vol m in let gen := m_gen m in let conn := m_conn m in
  let retry (a : A) :=
    r ← reconnect gen;
    match r with
    | Err e => mret (a, Some e)
    | Ok _ =>
      '(m, _) ← get;
      zoom2 (fn withTimeout (m_vol m) a)
    end in
  match vol with
  | None => retry a
  | Some _ =>
    '(a, err) ← zoom2 (fn withTimeout vol a);
    '(_, w) ← get;
    if bool_decide (err = None) || match conn with Some c => net_alive c w | None => false end
    then mret (a, err)
    else retry a
  end.

Definition Manager_close : M (connManager * N) unit :=
  '(m, _) ← get;
  zoom2 (close_conn (m_conn m)).

(** Calling a method of a nil [*afp.Volume] dereferences it. *)
Definition deref {A} (vol : option link) (k : link → M N A) : M N A :=
  match vol with Some l => k l | None => lift Panics end.

(** A method of the volume, with the connection of its session. *)
Definition vol_op {A} (op : Transport N → Volume → Ctx → M N (result A)) (a0 : A) : operation A :=
  λ ctx vol _, deref vol (λ l,
    r ← op (net_transport (l_conn l)) (l_vol l) ctx;
    mret (match r with Ok a => (a, None) | Err e => (a0, Some e) end)).

Definition statFS : M (connManager * N) (FSInfo * option error) :=
  do (vol_op (λ T v ctx, @StatFS N T v ctx) (MkFSInfo 0 0 0)) (MkFSInfo 0 0 0).

End manager.

(** ** The manager shared by goroutines

    Each goroutine inside [do] is at one of the points between its critical
    sections; the one that dials in [reconnect] holds the lock meanwhile, so that
    the others wait for it wherever they lock.  What its [fn] does on a volume
    and whether it fails is left open; [ms_links] is the history of the links
    installed so far, the last one being that of the current generation, and
    [ms_failed] counts failed dials. *)

Inductive op_state : Type :=
| OpRun (gen : Z) (l : link) (conn : option nat)  (* first attempt *)
| OpReconnect (gen : Z)                           (* before [reconnect] *)
| OpDial (gen : Z)                                (* in [reconnect], dialling; it has the lock *)
| OpReload (gen : Z)                              (* after it returned nil *)
| OpRetry (gen : Z) (vol : option link)           (* second attempt *)
| OpDone (err : option error).

Record MSys : Type := MkMSys {
  ms_mgr : connManager;
  ms_ops : gmap nat op_state;
  ms_lock : option nat;      (* who holds [mu] across steps *)
  ms_dead : gset nat;        (* connections that were closed or dropped *)
  ms_links : list link;
  ms_failed : nat;
  ms_nil : bool;             (* a second attempt was given a nil volume *)
}.

Definition init_msys (l : link) : MSys := MkMSys (installed 1 l) ∅ None ∅ [l] 0 false.

Inductive maction : Type :=
| MStart (k : nat)                             (* lock; read vol, gen, conn *)
| MFirst (k : nat) (err : option error)        (* the first [fn] returns *)
| MReconnect (k : nat)                         (* [reconnect]: lock; close the old connection, or unlock *)
| MDialled (k : nat) (dial : result link)      (* the dial returns; assign; unlock *)
| MReload (k : nat)                            (* lock; read vol *)
| MRetry (k : nat) (err : option error)        (* the second [fn] returns *)
| MDrop (c : nat)                              (* the network drops a connection *)
| MClose.                                      (* [close]: lock; close; unlock *)

Definition set_op (k : nat) (o : op_state) (s : MSys) : MSys :=
  MkMSys (ms_mgr s) (<[k := o]> (ms_ops s)) (ms_lock s) (ms_dead s) (ms_links s) (ms_failed s) (ms_nil s).
Definition set_mgr (m : connManager) (s : MSys) : MSys :=
  MkMSys m (ms_ops s) (ms_lock s) (ms_dead s) (ms_links s) (ms_failed s) (ms_nil s).
Definition kill (c : option nat) (s : MSys) : MSys :=
  MkMSys (ms_mgr s) (ms_ops s) (ms_lock s) (match c with Some c => {[ c ]} ∪ ms_dead s | None => ms_dead s end)
    (ms_links s) (ms_failed s) (ms_nil s).
Definition dialled (l : link) (s : MSys) : MSys :=
  MkMSys (installed (u64 (m_gen (ms_mgr s) + 1)) l) (ms_ops s) (ms_lock s) (ms_dead s) (ms_links s ++ [l])
    (ms_failed s) (ms_nil s).
Definition undialled (s : MSys) : MSys :=
  MkMSys (MkMgr (m_gen (ms_mgr s)) None None) (ms_ops s) (ms_lock s) (ms_dead s) (ms_links s)
    (S (ms_failed s)) (ms_nil s).
Definition nil_call (s : MSys) : MSys :=
  MkMSys (ms_mgr s) (ms_ops s) (ms_lock s) (ms_dead s) (ms_links s) (ms_failed s) true.

Definition set_lock (v : option nat) (s : MSys) : MSys :=
  MkMSys (ms_mgr s) (ms_ops s) v (ms_dead s) (ms_links s) (ms_failed s) (ms_nil s).

(** A dial makes new objects. *)
Definition fresh_link (l : link) (s : MSys) : Prop :=
  l_conn l ∉ (l_conn <$> ms_links s) ∧ l_conn l ∉ ms_dead s.
#[global] Instance fresh_link_dec l s : Decision (fresh_link l s).
Proof. unfold fresh_link. apply _. Defined.

Definition mexec (a : maction) (s : MSys) : option MSys :=
  match a with
  | MStart k =>
    match ms_ops s !! k, ms_lock s with
    | None, None =>
      let m := ms_mgr s in
      Some (set_op k (match m_vol m with
                      | Some l => OpRun (m_gen m) l (m_conn m)
                      | None => OpReconnect (m_gen m)
                      end) s)
    | _, _ => None
    end
  | MFirst k err =>
    match ms_ops s !! k with
    | Some (OpRun gen _ conn) =>
      let alive := match conn with Some c => bool_decide (c ∉ ms_dead s) | None => false end in
      Some (set_op k (if bool_decide (err = None) || alive then OpDone err else OpReconnect gen) s)
    | _ => None
    end
  | MReconnect k =>
    match ms_ops s !! k, ms_lock s with
    | Some (OpReconnect gen), None =>
      if bool_decide (m_gen (ms_mgr s) ≠ gen) then Some (set_op k (OpReload gen) s)
      else Some (set_lock (Some k) (set_op k (OpDial gen) (kill (m_conn (ms_mgr s)) s)))
    | _, _ => None
    end
  | MDialled k dial =>
    match ms_ops s !! k with
    | Some (OpDial gen) =>
      match dial with
      | Err e => Some (set_lock None (set_op k (OpDone (Some e)) (undialled s)))
      | Ok l =>
        if bool_decide (fresh_link l s) then Some (set_lock None (set_op k (OpReload gen) (dialled l s))) else None
      end
    | _ => None
    end
  | MReload k =>
    match ms_ops s !! k, ms_lock s with
    | Some (OpReload gen), None => Some (set_op k (OpRetry gen (m_vol (ms_mgr s))) s)
    | _, _ => None
    end
  | MRetry k err =>
    match ms_ops s !! k with
    | Some (OpRetry _ vol) =>
      let s := match vol with Some _ => s | None => nil_call s end in
      Some (set_op k (OpDone err) s)
    | _ => None
    end
  | MDrop c => Some (kill (Some c) s)
  | MClose => match ms_lock s with None => Some (kill (m_conn (ms_mgr s)) s) | Some _ => None end
  end.

Definition mstep (s s' : MSys) : Prop := ∃ a, mexec a s = Some s'.
Definition mreachable (s : MSys) : Prop := ∃ l, rtc mstep (init_msys l) s.

Fixpoint mrun (l : list maction) (s : MSys) : option MSys :=
  match l with
  | [] => Some s
  | a :: l' => s' ← mexec a s; mrun l' s'
  end.
