(* ===== verification/ManagerSpec.v ===== *)
(** * The connection manager: what it guarantees

    The invariant of the manager that goroutines share, what its reconnects may
    close, the race that hands an operation a nil volume, the number of steps
    of an operation, and that [do] as one goroutine runs it is a run of the
    machine. *)

From S2P Require Import Prelude Header Result Wire Entry Conn Transport Session Errgroup Fork Ops Manager.

Open Scope go_scope.

(** ** The invariant *)

(** Link number [i] was installed and is generation [gen]. *)
Definition is_gen (s : MSys) (gen : Z) (i : nat) (l : link) : Prop :=
  ms_links s !! i = Some l ∧ gen = u64 (Z.of_nat (S i)).

Definition link_dead (s : MSys) (l : link) : Prop := l_conn l ∈ ms_dead s.

(** Where a goroutine is says what it knows: a first attempt runs on the volume
    of its generation; only goroutines whose link is dead reconnect; and the
    second attempt runs on the volume of a later generation, or on a nil volume
    after some dial failed. *)
Definition op_ok (s : MSys) (o : op_state) : Prop :=
  match o with
  | OpRun gen l conn => conn = Some (l_conn l) ∧ ∃ i, is_gen s gen i l
  | OpReconnect gen | OpDial gen => ∃ i l, is_gen s gen i l ∧ link_dead s l
  | OpReload gen => ∃ i l, is_gen s gen i l ∧ (S i < length (ms_links s))%nat
  | OpRetry gen (Some l') => ∃ i j l, is_gen s gen i l ∧ ms_links s !! j = Some l' ∧ (i < j)%nat
  | OpRetry gen None => (0 < ms_failed s)%nat
  | OpDone _ => True
  end.

Record minv (s : MSys) : Prop := {
  i_gen : m_gen (ms_mgr s) = u64 (len (ms_links s));
  i_cur :
    (∃ l, m_vol (ms_mgr s) = Some l ∧ m_conn (ms_mgr s) = Some (l_conn l) ∧ last (ms_links s) = Some l) ∨
    (m_vol (ms_mgr s) = None ∧ m_conn (ms_mgr s) = None ∧ (0 < ms_failed s)%nat ∧
       ∃ l, last (ms_links s) = Some l ∧ link_dead s l);
  i_unique : NoDup (l_conn <$> ms_links s);
  i_retired i l : ms_links s !! i = Some l → (S i < length (ms_links s))%nat → link_dead s l;
  i_ops k o : ms_ops s !! k = Some o → op_ok s o;
  i_nil : ms_nil s = true → (0 < ms_failed s)%nat;
}.

(** What only grows in a step: the links, the dead connections, the failures. *)
Record grows (s s' : MSys) : Prop := {
  g_links : ms_links s `prefix_of` ms_links s';
  g_dead : ms_dead s ⊆ ms_dead s';
  g_failed : (ms_failed s ≤ ms_failed s')%nat;
}.

Lemma is_gen_grows s s' gen i l : grows s s' → is_gen s gen i l → is_gen s' gen i l.
Proof. intros Hg [H1 H2]. split; [|done]. by eapply prefix_lookup_Some; [|apply Hg]. Qed.

Lemma op_ok_grows s s' o : grows s s' → op_ok s o → op_ok s' o.
Proof.
  intros Hg. pose proof (λ gen i l, is_gen_grows s s' gen i l Hg) as Hi. destruct Hg as [Hl Hd Hf].
  pose proof (prefix_length _ _ Hl).
  destruct o as [gen l c|gen|gen|gen|gen [l|]|e]; cbn; try done.
  - intros (?&i&?). eauto.
  - intros (i&l&?&?). exists i, l. split; [eauto|]. by apply Hd.
  - intros (i&l&?&?). exists i, l. split; [eauto|]. by apply Hd.
  - intros (i&l&?&?). exists i, l. split; [eauto|lia].
  - intros (i&j&l'&?&?&?). exists i, j, l'. split_and!; [eauto| |done]. by eapply prefix_lookup_Some.
  - lia.
Qed.

(** Moving one goroutine, everything else as it was or grown. *)
Lemma ops_ok_insert s s' k o :
  grows s s' → ms_ops s' = <[k := o]> (ms_ops s) → op_ok s' o →
  (∀ k o, ms_ops s !! k = Some o → op_ok s o) → ∀ k o, ms_ops s' !! k = Some o → op_ok s' o.
Proof.
  intros Hg -> Ho Hs k' o' [[<- <-]|[_ Hk]]%lookup_insert_Some; [done|].
  eapply op_ok_grows; [done|]. by eapply Hs.
Qed.

Lemma grows_refl s : grows s s.
Proof. by split. Qed.

Lemma last_is_gen s : minv s → ∃ i l, is_gen s (m_gen (ms_mgr s)) i l ∧ last (ms_links s) = Some l ∧ S i = length (ms_links s).
Proof.
  intros Hs. assert (∃ l, last (ms_links s) = Some l) as (l&El)
    by (destruct (i_cur s Hs) as [(l&_&_&?)|(_&_&_&l&?&_)]; eauto).
  pose proof El as El'. rewrite last_lookup in El'.
  exists (pred (length (ms_links s))), l. unfold is_gen. rewrite (i_gen s Hs).
  assert (length (ms_links s) ≠ 0%nat) by (intros E0; rewrite E0 in El'; destruct (ms_links s); done).
  split_and!; try done; [|lia]. unfold len. f_equal. lia.
Qed.

(** ** The invariant is preserved *)

Lemma minv_kill s c : minv s → minv (kill c s).
Proof.
  intros [Hg Hc Hu Hr Ho Hn].
  assert (grows s (kill c s)) as G by (split; [done|cbn; destruct c; [apply union_subseteq_r|done]|done]).
  split; cbn; try done.
  - destruct Hc as [?|(?&?&?&l&?&?)]; [by left|]. right. split_and!; try done. exists l. split; [done|]. by apply (g_dead _ _ G).
  - intros i l ??. apply (g_dead _ _ G). by eapply Hr.
  - intros k o ?. eapply op_ok_grows; [done|]. by eapply Ho.
Qed.

(** Moving a goroutine and nothing else. *)
Lemma minv_set_op s k o : minv s → op_ok s o → minv (set_op k o s).
Proof.
  intros Hs Hok. destruct Hs as [Hg Hc Hu Hr Ho Hn].
  assert (grows s (set_op k o s)) as G by by split. split; cbn; try done.
  apply (ops_ok_insert s (set_op k o s) k o); [done|done|by apply (op_ok_grows s)|done].
Qed.

(** The last link is dead when a dial returns. *)
Definition last_dead (s : MSys) : Prop := ∀ l, last (ms_links s) = Some l → link_dead s l.

Lemma minv_dialled s l : minv s → last_dead s → fresh_link l s → minv (dialled l s).
Proof.
  intros Hs Hd [Hf1 Hf2]. destruct (last_is_gen s Hs) as (i0&l0&[Hi0 Hgen]&Hlast&Hlen).
  specialize (Hd l0 Hlast). destruct Hs as [Hg Hc Hu Hr Ho Hn].
  assert (grows s (dialled l s)) as G by (split; [by eexists|done|done]).
  split; cbn.
  - rewrite Hg, len_app. change (len [l]) with 1. unfold wrap. by rewrite Zplus_mod_idemp_l.
  - left. exists l. by rewrite last_snoc.
  - rewrite fmap_app. apply NoDup_app. split_and!; [done| |apply NoDup_singleton].
    intros x Hx ->%list_elem_of_singleton. done.
  - intros i l' Hi Hlt. rewrite length_app in Hlt. cbn in Hlt.
    rewrite lookup_app_l in Hi by lia.
    destruct (decide (S i = length (ms_links s))) as [E|]; [|apply (Hr i l'); [done|lia]].
    assert (i = i0) as -> by lia. rewrite Hi0 in Hi. by injection Hi as <-.
  - intros k o Hk. eapply op_ok_grows; [exact G|]. by eapply Ho.
  - done.
Qed.

Lemma minv_undialled s : minv s → last_dead s → minv (undialled s).
Proof.
  intros Hs Hd. destruct (last_is_gen s Hs) as (i0&l0&_&Hlast&_). specialize (Hd l0 Hlast).
  destruct Hs as [Hg Hc Hu Hr Ho Hn].
  assert (grows s (undialled s)) as G by (split; cbn; [done|done|lia]).
  split; cbn; try done.
  - right. split_and!; try done; [lia|]. by exists l0.
  - intros k o Hk. eapply op_ok_grows; [exact G|]. by eapply Ho.
  - lia.
Qed.

Lemma minv_set_lock s v : minv s → minv (set_lock v s).
Proof. by intros [Hg Hc Hu Hr Ho Hn]. Qed.

Lemma minv_nil_call s : minv s → (0 < ms_failed s)%nat → minv (nil_call s).
Proof.
  intros [Hg Hc Hu Hr Ho Hn] Hf. by split. Qed.

(** The lock: whoever dials has it, on the generation that has failed, whose
    link is closed; nobody else does. *)
Record locked (s : MSys) : Prop := {
  l_dial k gen : ms_ops s !! k = Some (OpDial gen) → ms_lock s = Some k ∧ m_gen (ms_mgr s) = gen;
  l_held k : ms_lock s = Some k → (∃ gen, ms_ops s !! k = Some (OpDial gen)) ∧ last_dead s;
}.

(** The last link is the manager's, or it is dead. *)
Lemma kill_last_dead s : minv s → last_dead (kill (m_conn (ms_mgr s)) s).
Proof.
  intros Hs l Hl. cbn in Hl. unfold link_dead. cbn.
  destruct (i_cur s Hs) as [(l'&_&Ec&El)|(_&Ec&_&l'&El&Hd)]; rewrite Ec; rewrite El in Hl; injection Hl as ->; set_solver.
Qed.

(** Moving a goroutine that does not dial to where it does not dial either. *)
Lemma locked_set_op s k o :
  locked s → (∀ gen, ms_ops s !! k ≠ Some (OpDial gen)) → (∀ gen, o ≠ OpDial gen) → locked (set_op k o s).
Proof.
  intros [Hd Hh] Hk Ho. split.
  - intros k' gen. cbn. intros [[<- E]|[_ E]]%lookup_insert_Some; [by destruct (Ho gen)|by apply Hd].
  - intros k' Hl. destruct (Hh k' Hl) as [[gen E] HL]. split; [|done]. exists gen. cbn.
    rewrite lookup_insert_ne; [done|]. intros ->. by apply (Hk gen).
Qed.

Lemma locked_kill s c : locked s → locked (kill c s).
Proof.
  intros [Hd Hh]. split; [done|]. intros k Hl. destruct (Hh k Hl) as [? HL]. split; [done|].
  intros l Hlast. specialize (HL l Hlast). unfold link_dead in *. cbn. destruct c; set_solver.
Qed.

(** The holder gives the lock back. *)
Lemma locked_release s s1 k o :
  locked s → ms_lock s = Some k → ms_ops s1 = ms_ops s → (∀ gen, o ≠ OpDial gen) → locked (set_lock None (set_op k o s1)).
Proof.
  intros [Hd _] Hl E Ho. split; [|done]. intros k' gen. cbn. rewrite E.
  intros [[<- E']|[Hne E']]%lookup_insert_Some; [by destruct (Ho gen)|]. destruct (Hd k' gen E') as [Hl' _]. congruence.
Qed.

Definition sinv (s : MSys) : Prop := minv s ∧ locked s.

Lemma sinv_step s s' : sinv s → mstep s s' → sinv s'.
Proof.
  intros [Hs HL] [a Ha]. destruct a as [k|k err|k|k dial|k|k err|c|]; cbn in Ha.
  - destruct (ms_ops s !! k) eqn:Ek; [done|]. destruct (ms_lock s); [done|]. injection Ha as <-. split.
    + apply minv_set_op; [done|]. destruct (last_is_gen s Hs) as (i&l&Hi&Hl&_).
      destruct (i_cur s Hs) as [(l'&Ev&Ec&El)|(Ev&Ec&_&l'&El&Hd)]; rewrite Ev; cbn;
        rewrite Hl in El; injection El as <-; eauto.
    + apply locked_set_op; [done|by rewrite Ek|by intros gen; destruct (m_vol _)].
  - destruct (ms_ops s !! k) as [[gen l c|?|?|?|? ?|?]|] eqn:Ek; try done. injection Ha as <-. split.
    + pose proof (i_ops s Hs k _ Ek) as (->&i&Hi). apply minv_set_op; [done|].
      destruct (bool_decide (err = None)); [exact I|].
      case_bool_decide as Hd; [exact I|]. exists i, l. by split.
    + apply locked_set_op; [done|by rewrite Ek|by intros ?; case_match].
  - destruct (ms_ops s !! k) as [[?|gen|?|?|? ?|?]|] eqn:Ek; try done. destruct (ms_lock s) eqn:El; [done|].
    pose proof (i_ops s Hs k _ Ek) as (i&l&Hi&Hd).
    assert (i < length (ms_links s))%nat as Hlt by (eapply lookup_lt_Some, Hi).
    case_bool_decide as Hgen; injection Ha as <-.
    + split; [|by apply locked_set_op; [|rewrite Ek|]]. apply minv_set_op; [done|]. exists i, l. split; [done|].
      destruct Hi as [_ Hi]. rewrite (i_gen s Hs), Hi in Hgen.
      assert (S i ≠ length (ms_links s)); [|lia]. intros E. apply Hgen. unfold len. by rewrite E.
    + split.
      * apply minv_set_lock, minv_set_op; [by apply minv_kill|]. exists i, l. split; [done|].
        unfold link_dead in *. cbn. destruct (m_conn _); set_solver.
      * split.
        -- intros k' gen'. cbn. intros [[<- [= <-]]|[_ E]]%lookup_insert_Some.
           ++ split; [done|]. by destruct (decide (m_gen (ms_mgr s) = gen)).
           ++ apply HL in E as [E _]. congruence.
        -- intros k'. cbn. intros [= <-]. split; [exists gen; apply lookup_insert_eq|]. by apply kill_last_dead.
  - destruct (ms_ops s !! k) as [[?|?|gen|?|? ?|?]|] eqn:Ek; try done.
    destruct (l_dial s HL k gen Ek) as [Hlk _]. destruct (l_held s HL k Hlk) as [_ Hdead].
    pose proof (i_ops s Hs k _ Ek) as (i&l&Hi&Hd).
    assert (i < length (ms_links s))%nat as Hlt by (eapply lookup_lt_Some, Hi).
    destruct dial as [l'|e].
    + case_bool_decide as Hf; [|done]. injection Ha as <-. split; [|by eapply locked_release].
      apply minv_set_lock, minv_set_op; [by apply minv_dialled|]. exists i, l. split.
      * split; [|apply Hi]. cbn. apply lookup_app_l_Some, Hi.
      * cbn. rewrite length_app. cbn. lia.
    + injection Ha as <-. split; [|by eapply locked_release].
      apply minv_set_lock, minv_set_op; [by apply minv_undialled|done].
  - destruct (ms_ops s !! k) as [[?|?|?|gen|? ?|?]|] eqn:Ek; try done. destruct (ms_lock s); [done|]. injection Ha as <-.
    split; [|by apply locked_set_op; [|rewrite Ek|]].
    pose proof (i_ops s Hs k _ Ek) as (i&l&Hi&Hlt). apply minv_set_op; [done|].
    destruct (i_cur s Hs) as [(l'&Ev&_&El)|(Ev&_&Hf&_)]; rewrite Ev; cbn; [|done].
    rewrite last_lookup in El. exists i, (pred (length (ms_links s))), l. split_and!; [done|done|lia].
  - destruct (ms_ops s !! k) as [[?|?|?|?|gen vol|?]|] eqn:Ek; try done. injection Ha as <-.
    pose proof (i_ops s Hs k _ Ek) as Hop. split.
    + destruct vol as [l|]; [by apply minv_set_op|]. apply minv_set_op; [|done]. by apply minv_nil_call.
    + destruct vol as [l|]; (apply locked_set_op; [|cbn; by rewrite Ek|done]); [done|]. by destruct HL.
  - injection Ha as <-. split; [by apply minv_kill|by apply locked_kill].
  - destruct (ms_lock s); [done|]. injection Ha as <-. split; [by apply minv_kill|by apply locked_kill].
Qed.

Lemma sinv_init l : sinv (init_msys l).
Proof.
  split; [|by split].
  split; cbn; try done.
  - left. by exists l.
  - apply NoDup_singleton.
  - intros [|i] ? ?; cbn in *; lia || done.
Qed.

Lemma mreachable_sinv s : mreachable s → sinv s.
Proof.
  intros [l H]. remember (init_msys l) as s0 eqn:E. assert (sinv s0) as Hi by (subst; apply sinv_init).
  clear E. induction H as [|s1 s2 s3 H12 _ IH]; [done|]. apply IH. by eapply sinv_step.
Qed.

Lemma mreachable_inv s : mreachable s → minv s.
Proof. intros Hs. apply mreachable_sinv, Hs. Qed.

(** ** Goroutines end *)

(** The goroutine that an action moves, and how many actions it has left. *)
Definition mover (a : maction) : option nat :=
  match a with
  | MStart k | MFirst k _ | MReconnect k | MDialled k _ | MReload k | MRetry k _ => Some k
  | MDrop _ | MClose => None
  end.

Definition left (o : option op_state) : nat :=
  match o with
  | None => 6
  | Some (OpRun _ _ _) => 5
  | Some (OpReconnect _) => 4
  | Some (OpDial _) => 3
  | Some (OpReload _) => 2
  | Some (OpRetry _ _) => 1
  | Some (OpDone _) => 0
  end.

Ltac mstep_inv H :=
  repeat match type of H with
  | (match ?x with _ => _ end) = Some _ => destruct x eqn:?; try discriminate H
  end; injection H as <-.

Lemma mexec_left a s s' k :
  mexec a s = Some s' →
  (left (ms_ops s' !! k) + (if bool_decide (mover a = Some k) then 1 else 0) ≤ left (ms_ops s !! k))%nat.
Proof.
  intros H. destruct a as [k'|k' err|k'|k' dial|k'|k' err|c|]; cbn [mover mexec] in *.
  7,8: mstep_inv H; rewrite bool_decide_eq_false_2 by done; cbn; lia.
  all: destruct (decide (k' = k)) as [->|Hne];
    [rewrite bool_decide_eq_true_2 by done | rewrite bool_decide_eq_false_2 by congruence];
    mstep_inv H; cbn [set_op set_lock ms_ops dialled undialled kill nil_call];
    rewrite ?lookup_insert_eq, ?lookup_insert_ne by done; cbn; try lia.
  all: repeat (first [case_bool_decide | case_match]; cbn; try lia; try congruence).
Qed.

Lemma mrun_left l s s' k :
  mrun l s = Some s' →
  (left (ms_ops s' !! k) + length (filter (λ a, mover a = Some k) l) ≤ left (ms_ops s !! k))%nat.
Proof.
  revert s. induction l as [|a l IH]; cbn [mrun]; intros s H; [injection H as <-; cbn; lia|].
  apply bind_Some in H as (s1&Ha&Hl). apply IH in Hl. apply (mexec_left _ _ _ k) in Ha.
  rewrite filter_cons. case_bool_decide as Hd; case_decide; try done; cbn [length]; lia.
Qed.

(** Calls of [fn], and how many a goroutine has left. *)
Definition calls_fn (k : nat) (a : maction) : Prop :=
  match a with MFirst k' _ | MRetry k' _ => k' = k | _ => False end.
#[global] Instance calls_fn_dec k a : Decision (calls_fn k a).
Proof. destruct a; cbn; apply _. Defined.

Definition calls_left (o : option op_state) : nat :=
  match o with
  | None | Some (OpRun _ _ _) => 2
  | Some (OpDone _) => 0
  | Some _ => 1
  end.

Lemma mexec_calls a s s' k :
  mexec a s = Some s' →
  (calls_left (ms_ops s' !! k) + (if bool_decide (calls_fn k a) then 1 else 0) ≤ calls_left (ms_ops s !! k))%nat.
Proof.
  intros H. destruct a as [k'|k' err|k'|k' dial|k'|k' err|c|]; cbn [calls_fn mexec] in *.
  7,8: mstep_inv H; rewrite bool_decide_eq_false_2 by tauto; cbn; lia.
  all: destruct (decide (k' = k)) as [->|Hne];
    repeat (first [rewrite bool_decide_eq_true_2 by done | rewrite bool_decide_eq_false_2 by tauto]);
    mstep_inv H; cbn [set_op set_lock ms_ops dialled undialled kill nil_call];
    rewrite ?lookup_insert_eq, ?lookup_insert_ne by done; cbn; try lia.
  all: repeat (first [case_bool_decide | case_match]; cbn; try lia; try congruence).
Qed.

Lemma mrun_calls l s s' k :
  mrun l s = Some s' → (calls_left (ms_ops s' !! k) + length (filter (calls_fn k) l) ≤ calls_left (ms_ops s !! k))%nat.
Proof.
  revert s. induction l as [|a l IH]; cbn [mrun]; intros s H; [injection H as <-; cbn; lia|].
  apply bind_Some in H as (s1&Ha&Hl). apply IH in Hl. apply (mexec_calls _ _ _ k) in Ha.
  rewrite filter_cons. case_bool_decide as Hd; case_decide; try done; cbn [length]; lia.
Qed.

(** One step of a goroutine, and the rest of a run. *)
Lemma finish_step s k a s1 :
  mexec a s = Some s1 → mover a = Some k →
  (∃ l s' err, mrun l s1 = Some s' ∧ ms_ops s' !! k = Some (OpDone err) ∧ (length l ≤ 4)%nat ∧ Forall (λ a, mover a = Some k) l) →
  ∃ l s' err, mrun l s = Some s' ∧ ms_ops s' !! k = Some (OpDone err) ∧ (length l ≤ 5)%nat ∧ Forall (λ a, mover a = Some k) l.
Proof.
  intros Ha Hm (l&s'&err&Hr&Hd&Hn&Hl). exists (a :: l), s', err. cbn [mrun]. rewrite Ha.
  split_and!; [done|done|cbn; lia|by constructor].
Qed.

(** With the lock free, a goroutine can go on alone. *)
Lemma finishes s k o : locked s → ms_lock s = None → ms_ops s !! k = Some o →
  ∃ l s' err, mrun l s = Some s' ∧ ms_ops s' !! k = Some (OpDone err) ∧ (length l ≤ 5)%nat ∧ Forall (λ a, mover a = Some k) l.
Proof.
  intros HL Hl Hk.
  assert (∀ s gen, ms_lock s = None → ms_ops s !! k = Some (OpReload gen) →
    ∃ l s' err, mrun l s = Some s' ∧ ms_ops s' !! k = Some (OpDone err) ∧ (length l ≤ 4)%nat ∧ Forall (λ a, mover a = Some k) l) as Hreload.
  { clear. intros s gen Hl Hk. exists [MReload k; MRetry k None]. cbn [mrun mexec]. rewrite Hk, Hl. cbn.
    rewrite lookup_insert_eq. do 2 eexists. split; [reflexivity|]. split; [apply lookup_insert_eq|].
    split; [lia|]. by repeat constructor. }
  assert (∀ a s1 err, mexec a s = Some s1 → mover a = Some k → ms_ops s1 !! k = Some (OpDone err) →
    ∃ l s' err, mrun l s = Some s' ∧ ms_ops s' !! k = Some (OpDone err) ∧ (length l ≤ 5)%nat ∧ Forall (λ a, mover a = Some k) l) as Hlast.
  { intros a s1 err Ha Hm Hd. eapply finish_step; [exact Ha|exact Hm|]. exists [], s1, err.
    split_and!; [done|done|cbn; lia|constructor]. }
  destruct o as [gen l c|gen|gen|gen|gen vol|e].
  - eapply (Hlast (MFirst k None)); [cbn; by rewrite Hk|done|apply lookup_insert_eq].
  - destruct (decide (m_gen (ms_mgr s) = gen)) as [Hg|Hg].
    + eapply (finish_step s k (MReconnect k)); [cbn; by rewrite Hk, Hl, bool_decide_eq_false_2 by tauto|done|].
      set (s1 := set_lock _ _). set (s2 := set_lock None (set_op k (OpDone (Some EEOF)) (undialled s1))).
      assert (mexec (MDialled k (Err EEOF)) s1 = Some s2) as E by (cbn; by rewrite lookup_insert_eq).
      exists [MDialled k (Err EEOF)], s2, (Some EEOF). cbn [mrun]. rewrite E.
      split_and!; [done|apply lookup_insert_eq|cbn; lia|]. by repeat constructor.
    + eapply (finish_step s k (MReconnect k)); [cbn; by rewrite Hk, Hl, bool_decide_eq_true_2 by tauto|done|].
      eapply Hreload; [done|apply lookup_insert_eq].
  - destruct (l_dial s HL k gen Hk). congruence.
  - destruct (Hreload s gen Hl Hk) as (l&s'&err&?&?&?&?). exists l, s', err. split_and!; [done|done|lia|done].
  - eapply (Hlast (MRetry k None)); [cbn; by rewrite Hk|done|]. destruct vol; apply lookup_insert_eq.
  - exists [], s, e. split_and!; [done|done|cbn; lia|constructor].
Qed.

(** ** [do] as one goroutine runs it *)

Section do.
Context {N A : Type} `{Network N} (base : Ctx) (fn : operation (N := N) A).

Lemma reconnect_dials m w :
  reconnect base (m_gen m) (m, w) =
    match net_dial (withTimeout base) (match m_conn m with Some c => net_close c w | None => w end) with
    | Ret (Ok l, w') => Ret (Ok tt, (installed (u64 (m_gen m + 1)) l, w'))
    | Ret (Err e, w') => Ret (Err e, (MkMgr (m_gen m) None None, w'))
    | Panics => Panics
    | NoFuel => NoFuel
    end.
Proof.
  unfold reconnect, mbind at 1, M_bind at 1, get. rewrite bool_decide_eq_false_2 by (intros Hx; by apply Hx).
  unfold zoom2, zoom1, close_conn, modify, mbind, M_bind. cbn.
  by destruct (net_dial _ _) as [[[l|e] w']| |].
Qed.

(** The first attempt settles it: it succeeded, or the link is fine. *)
Lemma do_first a m w l a1 err w1 :
  m_vol m = Some l → fn (withTimeout base) (Some l) a w = Ret ((a1, err), w1) →
  (err = None ∨ ∃ c, m_conn m = Some c ∧ net_alive c w1 = true) →
  do base fn a (m, w) = Ret ((a1, err), (m, w1)).
Proof.
  intros Hv Hf Hok. unfold do. erewrite M_bind_ret by done. cbn beta iota. rewrite Hv.
  erewrite M_bind_ret by (by apply zoom2_ret). cbn beta iota.
  erewrite M_bind_ret by done. cbn beta iota.
  destruct Hok as [->|(c&->&->)]; [done|]. by rewrite orb_true_r.
Qed.

(** The retry, on the link that a reconnect has installed. *)
Lemma do_retry a m w l a1 e w1 l' w2 a2 err w3 :
  m_vol m = Some l → fn (withTimeout base) (Some l) a w = Ret ((a1, Some e), w1) →
  (∀ c, m_conn m = Some c → net_alive c w1 = false) →
  net_dial (withTimeout base) (match m_conn m with Some c => net_close c w1 | None => w1 end) = Ret (Ok l', w2) →
  fn (withTimeout base) (Some l') a1 w2 = Ret ((a2, err), w3) →
  do base fn a (m, w) = Ret ((a2, err), (installed (u64 (m_gen m + 1)) l', w3)).
Proof.
  intros Hv Hf Hd Hdial Hf2. unfold do. erewrite M_bind_ret by done. cbn beta iota. rewrite Hv.
  erewrite M_bind_ret by (by apply zoom2_ret). cbn beta iota.
  erewrite M_bind_ret by done. cbn beta iota.
  assert (match m_conn m with Some c => net_alive c w1 | None => false end = false) as ->
    by (destruct (m_conn m); [by apply Hd|done]).
  cbn [bool_decide orb]. rewrite bool_decide_eq_false_2 by done. cbn [orb].
  erewrite M_bind_ret by (rewrite reconnect_dials; by rewrite Hdial). cbn beta iota.
  erewrite M_bind_ret by done. cbn beta iota. by apply zoom2_ret.
Qed.

(** A run of [do], taken apart. *)
Lemma do_inv a m w a' err m' w' :
  do base fn a (m, w) = Ret ((a', err), (m', w')) →
  (∃ l a1 e1 w1, m_vol m = Some l ∧ fn (withTimeout base) (Some l) a w = Ret ((a1, e1), w1) ∧
     (((e1 = None ∨ ∃ c, m_conn m = Some c ∧ net_alive c w1 = true) ∧ a' = a1 ∧ err = e1 ∧ m' = m ∧ w' = w1) ∨
      (∀ c, m_conn m = Some c → net_alive c w1 = false) ∧ e1 ≠ None ∧
        ∃ dial w2, net_dial (withTimeout base) (match m_conn m with Some c => net_close c w1 | None => w1 end)
            = Ret (dial, w2) ∧
          match dial with
          | Err e => a' = a1 ∧ err = Some e ∧ m' = MkMgr (m_gen m) None None ∧ w' = w2
          | Ok l' => fn (withTimeout base) (Some l') a1 w2 = Ret ((a', err), w') ∧
              m' = installed (u64 (m_gen m + 1)) l'
          end)) ∨
  (m_vol m = None ∧
     ∃ dial w2, net_dial (withTimeout base) (match m_conn m with Some c => net_close c w | None => w end)
         = Ret (dial, w2) ∧
       match dial with
       | Err e => a' = a ∧ err = Some e ∧ m' = MkMgr (m_gen m) None None ∧ w' = w2
       | Ok l' => fn (withTimeout base) (Some l') a w2 = Ret ((a', err), w') ∧
           m' = installed (u64 (m_gen m + 1)) l'
       end).
Proof.
  unfold do. erewrite M_bind_ret by done. cbn beta iota.
  assert (∀ a1 w1, (r ← reconnect base (m_gen m);
      match r with
      | Err e => mret (a1, Some e)
      | Ok _ => '(m, _) ← get; zoom2 (fn (withTimeout base) (m_vol m) a1)
      end) (m, w1) = Ret ((a', err), (m', w')) →
    ∃ dial w2, net_dial (withTimeout base) (match m_conn m with Some c => net_close c w1 | None => w1 end)
        = Ret (dial, w2) ∧
      match dial with
      | Err e => a' = a1 ∧ err = Some e ∧ m' = MkMgr (m_gen m) None None ∧ w' = w2
      | Ok l' => fn (withTimeout base) (Some l') a1 w2 = Ret ((a', err), w') ∧
          m' = installed (u64 (m_gen m + 1)) l'
      end) as Hretry.
  { intros a1 w1. unfold mbind at 1, M_bind at 1. rewrite reconnect_dials.
    destruct (net_dial _ _) as [[[l|e] w2]| |]; [|..|done|done].
    - erewrite M_bind_ret by done. cbn beta iota. unfold zoom2. cbn [fst snd m_vol installed].
      destruct (fn _ _ _ _) as [[[??]?]| |] eqn:Ef; [|done|done]. intros [= -> -> <- ->].
      do 2 eexists. split; [reflexivity|]. by split.
    - intros [= <- <- <- <-]. do 2 eexists. split; [reflexivity|]. by split_and!. }
  destruct (m_vol m) as [l|] eqn:Hv; [|intros Hr; right; split; [done|by apply Hretry]].
  intros Hx. left. exists l.
  apply M_bind_inv in Hx as ([a1 e1]&[m1 w1]&Hf&Hx). unfold zoom2 in Hf. cbn [fst snd] in Hf.
  destruct (fn _ _ _ _) as [[[??]?]| |] eqn:Ef; [|done|done]. injection Hf as -> -> <- ->.
  exists a1, e1, w1. split; [done|]. split; [done|].
  unfold mbind at 1, M_bind at 1, get at 1 in Hx. cbn beta iota in Hx.
  destruct (bool_decide (e1 = None)) eqn:He; [|destruct (match m_conn m with Some c => _ | None => _ end) eqn:Hc].
  - cbn [orb] in Hx. injection Hx as <- <- <- <-. left. apply bool_decide_eq_true in He. by split_and!; [left|..].
  - cbn [orb] in Hx. injection Hx as <- <- <- <-. left. split_and!; try done. right.
    destruct (m_conn m) as [c|]; [|done]. by exists c.
  - right. split; [intros c Ec; by rewrite Ec in Hc|]. apply bool_decide_eq_false in He. split; [done|].
    by apply Hretry.
Qed.

End do.

(** ** Properties *)

(** C6: the manager that any number of goroutines share is consistent in every
    reachable state, whatever they interleave and whatever the network and the
    dialler do: the generation counts the links installed, no two of them share
    a connection, every link but the last has been closed; the current volume
    is the last link, with its connection, or both are nil after a failed dial;
    a first attempt runs on the volume of the generation it read, and a second
    attempt on the volume of a strictly later one; and at most one goroutine
    dials, which holds the lock and replaces the generation that is current. *)
Theorem manager_consistent s :
  mreachable s →
  m_gen (ms_mgr s) = u64 (len (ms_links s)) ∧
  NoDup (l_conn <$> ms_links s) ∧
  (∀ i l, ms_links s !! i = Some l → (S i < length (ms_links s))%nat → l_conn l ∈ ms_dead s) ∧
  (∀ l, m_vol (ms_mgr s) = Some l → m_conn (ms_mgr s) = Some (l_conn l) ∧ last (ms_links s) = Some l) ∧
  (m_vol (ms_mgr s) = None → m_conn (ms_mgr s) = None ∧ (0 < ms_failed s)%nat) ∧
  (∀ k gen l c, ms_ops s !! k = Some (OpRun gen l c) →
     ∃ i, ms_links s !! i = Some l ∧ gen = u64 (Z.of_nat (S i))) ∧
  (∀ k gen l, ms_ops s !! k = Some (OpRetry gen (Some l)) →
     ∃ i j, gen = u64 (Z.of_nat (S i)) ∧ ms_links s !! j = Some l ∧ (i < j)%nat) ∧
  (∀ k gen, ms_ops s !! k = Some (OpDial gen) → ms_lock s = Some k ∧ m_gen (ms_mgr s) = gen).
Proof.
  intros [Hs HL]%mreachable_sinv. destruct Hs as [Hg Hc Hu Hr Ho Hn].
  split_and!; [done|done|done|..|apply HL].
  - intros l Ev. destruct Hc as [(l'&E&?&?)|(E&_)]; rewrite Ev in E; [by simplify_eq|done].
  - intros Ev. destruct Hc as [(l'&E&?&?)|(E&?&?&?)]; [by rewrite Ev in E|done].
  - intros k gen l c Hk. destruct (Ho _ _ Hk) as (_&i&?&?). eauto.
  - intros k gen l Hk. destruct (Ho _ _ Hk) as (i&j&l'&[_ ?]&?&?). eauto.
Qed.

Definition some_link (c : nat) : link := MkLink c (MkVolume 1 (str "Data") 0).

(** Two operations fail together when the link drops; one reconnects, the other
    finds it done; both then run on the new link. *)
Definition both_recover : list maction :=
  [MStart 1; MStart 2; MDrop 0; MFirst 1 (Some EEOF); MFirst 2 (Some EEOF);
   MReconnect 1; MDialled 1 (Ok (some_link 7)); MReconnect 2; MReload 2; MReload 1].

Lemma mrun_rtc l s s' : mrun l s = Some s' → rtc mstep s s'.
Proof.
  revert s. induction l as [|a l IH]; simpl; intros s H; [by simplify_eq|].
  apply bind_Some in H as (s1&Ha&Hl). eapply rtc_l; [by exists a|]. by apply IH.
Qed.

Lemma manager_consistent_witness :
  ∃ s, mrun both_recover (init_msys (some_link 0)) = Some s ∧
    ms_ops s !! 2%nat = Some (OpRetry 1 (Some (some_link 7))) ∧
    m_gen (ms_mgr s) = 2 ∧ m_gen (ms_mgr s) = u64 (len (ms_links s)).
Proof.
  destruct (mrun both_recover (init_msys (some_link 0))) as [s|] eqn:E; [|vm_compute in E; discriminate].
  exists s. split; [reflexivity|].
  pose proof (manager_consistent s (ex_intro _ (some_link 0) (mrun_rtc _ _ _ E))) as [H _].
  vm_compute in E. injection E as <-. split; [reflexivity|]. split; [reflexivity|exact H].
Defined.

(** C28: reconnecting spares what works: in a reachable state with fewer than 2^64
    links installed, neither half of a reconnect (closing the old connection, and
    installing what was dialled) makes a usable connection unusable, and
    goroutines that failed on the same link replace it only once: one that comes
    after a successful reconnect changes nothing and does not dial. *)
Theorem reconnect_spares_live s s' k a gen :
  mreachable s → len (ms_links s) < 2 ^ 64 →
  (ms_ops s !! k = Some (OpReconnect gen) ∧ a = MReconnect k ∨
   ms_ops s !! k = Some (OpDial gen) ∧ ∃ dial, a = MDialled k dial) →
  mexec a s = Some s' →
  ms_dead s' = ms_dead s ∧
  (m_gen (ms_mgr s) ≠ gen → ms_mgr s' = ms_mgr s ∧ ms_links s' = ms_links s ∧ ms_ops s' !! k = Some (OpReload gen)) ∧
  (∀ k', ms_links s' ≠ ms_links s → ms_ops s' !! k' = Some (OpReconnect gen) → m_gen (ms_mgr s') ≠ gen).
Proof.
  intros [Hs HL]%mreachable_sinv Hlen [[Hk ->]|[Hk [dial ->]]] Ha; cbn in Ha; rewrite Hk in Ha.
  - destruct (ms_lock s); [done|]. pose proof (i_ops s Hs k _ Hk) as (i&l&[Hi Hgen]&Hd).
    pose proof (lookup_lt_Some _ _ _ Hi) as Hlt. unfold len in Hlen. case_bool_decide as Hg; injection Ha as <-.
    + split_and!; [done| |done]. intros _. split_and!; [done|done|apply lookup_insert_eq].
    + split_and!; [|done|done].
      destruct (i_cur s Hs) as [(l'&_&Ec&El)|(_&Ec&_)]; cbn; rewrite Ec; cbn; [|done].
      rewrite last_lookup in El. rewrite (i_gen s Hs), Hgen in Hg. unfold len in Hg.
      rewrite !wrap_small in Hg by lia. assert (pred (length (ms_links s)) = i) as E by lia.
      rewrite E, Hi in El. injection El as <-. unfold link_dead in Hd.
      apply leibniz_equiv, subseteq_union_1. by apply singleton_subseteq_l.
  - destruct (l_dial s HL k gen Hk) as [_ Hg]. destruct dial as [l'|e].
    + case_bool_decide as Hf; [|done]. injection Ha as <-. cbn. split_and!; [done|done|].
      intros _ _ _. rewrite Hg. unfold wrap. intros E. change (2 ^ 64) with 18446744073709551616 in E.
      Z.to_euclidean_division_equations. lia.
    + injection Ha as <-. by split_and!.
Qed.

Lemma reconnect_spares_live_witness :
  ∃ s s', mrun (take 6 both_recover) (init_msys (some_link 0)) = Some s ∧
    mexec (MDialled 1 (Ok (some_link 7))) s = Some s' ∧ ms_dead s' = ms_dead s ∧ ms_links s' = [some_link 0; some_link 7].
Proof.
  destruct (mrun (take 6 both_recover) (init_msys (some_link 0))) as [s|] eqn:E; [|vm_compute in E; discriminate].
  destruct (mexec (MDialled 1 (Ok (some_link 7))) s) as [s'|] eqn:E'.
  - exists s, s'. split; [reflexivity|]. split; [exact E'|].
    pose proof (mrun_rtc _ _ _ E) as Hr. pose proof E' as E2. vm_compute in E. injection E as <-.
    vm_compute in E2. injection E2 as Es.
    destruct (reconnect_spares_live _ s' 1 (MDialled 1 (Ok (some_link 7))) 1 (ex_intro _ (some_link 0) Hr)) as [H _];
      [reflexivity|right; split; [reflexivity|by eexists]|exact E'|]. split; [exact H|]. by rewrite <- Es.
  - vm_compute in E. injection E as <-. vm_compute in E'. discriminate.
Defined.

(** C29: operations end: whatever the others do, a goroutine takes at most six
    steps inside [do], at most two of which are calls of its [fn]; and from every
    reachable state each goroutine that is inside can be run to its end in six
    steps that are its own, but for the holder of the lock finishing its dial
    when somebody else has it.  So no operation waits for another's [fn], the
    lock comes back with the dial whatever the dial returns, and there is no
    deadlock. *)
Theorem do_ends s k :
  mreachable s →
  (∀ l s', ms_ops s !! k = None → mrun l s = Some s' →
     (length (filter (λ a, mover a = Some k) l) ≤ 6)%nat ∧ (length (filter (calls_fn k) l) ≤ 2)%nat) ∧
  (∀ o, ms_ops s !! k = Some o → ∃ l s' err, mrun l s = Some s' ∧ ms_ops s' !! k = Some (OpDone err) ∧
     (length l ≤ 6)%nat ∧ Forall (λ a, mover a = Some k ∨ ∃ k' dial, ms_lock s = Some k' ∧ a = MDialled k' dial) l).
Proof.
  intros [_ HL]%mreachable_sinv. split.
  - intros l s' Hk H. pose proof (mrun_left _ _ _ k H) as H1. pose proof (mrun_calls _ _ _ k H) as H2.
    rewrite Hk in H1, H2. cbn in H1, H2. lia.
  - intros o Hk. destruct (ms_lock s) as [k'|] eqn:El; [|destruct (finishes s k o HL El Hk) as (l&s'&err&E&Hd&Hn&Hm)].
    + destruct (l_held s HL k' El) as [[gen Hk'] _].
      set (s1 := set_lock None (set_op k' (OpDone (Some EEOF)) (undialled s))).
      assert (mexec (MDialled k' (Err EEOF)) s = Some s1) as E1 by (cbn; by rewrite Hk').
      assert (locked s1) as HL1 by by eapply locked_release.
      destruct (decide (k = k')) as [->|Hne].
      * exists [MDialled k' (Err EEOF)], s1, (Some EEOF). cbn [mrun]. rewrite E1.
        split_and!; [done|apply lookup_insert_eq|cbn; lia|]. constructor; [by left|constructor].
      * destruct (finishes s1 k o HL1 eq_refl) as (l&s'&err&E&Hd&Hn&Hm); [cbn; by rewrite lookup_insert_ne|].
        exists (MDialled k' (Err EEOF) :: l), s', err. cbn [mrun]. rewrite E1.
        split_and!; [exact E|done|cbn; lia|]. constructor; [right; by do 2 eexists|].
        eapply Forall_impl; [exact Hm|]. by left.
    + exists l, s', err. split_and!; [done|done|lia|]. eapply Forall_impl; [exact Hm|]. by left.
Qed.

(** The second goroutine waits for the first, which is dialling. *)
Lemma do_ends_witness :
  ∃ s, mrun (take 6 both_recover) (init_msys (some_link 0)) = Some s ∧ ms_lock s = Some 1%nat ∧
    (∃ l s' err, mrun l s = Some s' ∧ ms_ops s' !! 2%nat = Some (OpDone err)) ∧
    (length (filter (calls_fn 5) both_recover) ≤ 2)%nat.
Proof.
  destruct (mrun (take 6 both_recover) (init_msys (some_link 0))) as [s|] eqn:E; [|vm_compute in E; discriminate].
  exists s. split; [reflexivity|]. pose proof (mrun_rtc _ _ _ E) as Hr. vm_compute in E. injection E as <-.
  split; [reflexivity|]. split.
  - destruct (proj2 (do_ends _ 2 (ex_intro _ (some_link 0) Hr)) (OpReconnect 1)) as (l&s'&err&H1&H2&_); [reflexivity|].
    exists l, s', err. split; [exact H1|exact H2].
  - destruct (mrun both_recover (init_msys (some_link 0))) as [s'|] eqn:E; [|vm_compute in E; discriminate].
    apply (proj1 (do_ends (init_msys (some_link 0)) 5 (ex_intro _ (some_link 0) (rtc_refl _ _))) both_recover s' eq_refl E).
Defined.

Lemma mrun_app l1 l2 s s1 s2 : mrun l1 s = Some s1 → mrun l2 s1 = Some s2 → mrun (l1 ++ l2) s = Some s2.
Proof.
  revert s. induction l1 as [|a l1 IH]; cbn; intros s; [by intros [= ->]|].
  destruct (mexec a s); [|done]. cbn. apply IH.
Qed.

(** What a goroutine that runs alone from [s] reaches. *)
Definition alone (s : MSys) (k : nat) (m' : connManager) (err : option error) : Prop :=
  ∃ acts s', mrun acts s = Some s' ∧ ms_mgr s' = m' ∧ ms_ops s' !! k = Some (OpDone err) ∧
    (∀ k', k' ≠ k → ms_ops s' !! k' = ms_ops s !! k') ∧ Forall (λ x, mover x ∈ [None; Some k]) acts.

(** Steps of the goroutine first. *)
Lemma alone_after acts s s1 k m' err :
  mrun acts s = Some s1 → (∀ k', k' ≠ k → ms_ops s1 !! k' = ms_ops s !! k') →
  Forall (λ x, mover x ∈ [None; Some k]) acts → alone s1 k m' err → alone s k m' err.
Proof.
  intros Ha Ho HF (acts2&s'&Hr&Hm&Hk&Ho2&HF2). exists (acts ++ acts2), s'.
  split; [by eapply mrun_app|]. split_and!; [done|done| |by apply Forall_app].
  intros k' Hne. by rewrite Ho2, Ho.
Qed.

(** The goroutine's steps once it has to reconnect. *)
Lemma alone_reconnect s k gen dial err m' :
  ms_ops s !! k = Some (OpReconnect gen) → ms_lock s = None → m_gen (ms_mgr s) = gen →
  (∀ l, dial = Ok l → fresh_link l (kill (m_conn (ms_mgr s)) s)) →
  match dial with
  | Err e => m' = MkMgr gen None None ∧ err = Some e
  | Ok l => m' = installed (u64 (gen + 1)) l
  end → alone s k m' err.
Proof.
  intros Hk Hl <- Hf Hm. destruct dial as [l|e].
  - exists [MReconnect k; MDialled k (Ok l); MReload k; MRetry k err]. cbn [mrun mexec]. rewrite Hk, Hl, Hm.
    rewrite bool_decide_eq_false_2 by (intros Hx; by apply Hx). cbn [mbind option_bind].
    cbn [set_lock set_op ms_ops]. rewrite lookup_insert_eq.
    rewrite bool_decide_eq_true_2 by (by apply Hf). cbn [mbind option_bind].
    cbn [set_lock set_op ms_ops ms_lock dialled ms_mgr m_vol installed]. rewrite !lookup_insert_eq. cbn.
    rewrite lookup_insert_eq. cbn. eexists. split; [reflexivity|]. cbn. split; [done|].
    split; [by rewrite lookup_insert_eq|]. split; [|repeat constructor; set_solver].
    intros k' Hne. by rewrite !lookup_insert_ne.
  - destruct Hm as [-> ->]. exists [MReconnect k; MDialled k (Err e)]. cbn [mrun mexec]. rewrite Hk, Hl.
    rewrite bool_decide_eq_false_2 by (intros Hx; by apply Hx). cbn. rewrite lookup_insert_eq. cbn.
    eexists. split; [reflexivity|]. cbn. split; [done|]. split; [by rewrite lookup_insert_eq|].
    split; [|repeat constructor; set_solver]. intros k' Hne. by rewrite !lookup_insert_ne.
Qed.

(** C20: [do] as one goroutine runs it is a run of the shared manager: every
    result of [do] (the error it returns and the manager it leaves) is reached
    by steps of that goroutine and drops of its link, from every state of the
    machine that has that manager and in which nobody holds the lock, the other
    goroutines standing still; so what holds of the machine holds of [do]. *)
Theorem do_refines_machine {N A} `{Network N} base (fn : operation (N := N) A) a m w a' err m' w' s k :
  do base fn a (m, w) = Ret ((a', err), (m', w')) →
  ms_mgr s = m → ms_ops s !! k = None → ms_lock s = None →
  m_conn m = l_conn <$> m_vol m → (∀ c, m_conn m = Some c → c ∉ ms_dead s) →
  (∀ l, m_vol m' = Some l → m' = m ∨ fresh_link l (kill (m_conn m) s)) →
  ∃ acts s', mrun acts s = Some s' ∧ ms_mgr s' = m' ∧ ms_ops s' !! k = Some (OpDone err) ∧
    (∀ k', k' ≠ k → ms_ops s' !! k' = ms_ops s !! k') ∧ Forall (λ x, mover x ∈ [None; Some k]) acts.
Proof.
  intros Hdo <- Hk Hlk Hc Hlive Hfresh.
  assert (∀ l, m_vol m' = Some l → m' = installed (u64 (m_gen (ms_mgr s) + 1)) l →
    fresh_link l (kill (m_conn (ms_mgr s)) s)) as Hfr.
  { intros l Hl E. destruct (Hfresh l Hl) as [E'|]; [|done]. exfalso.
    assert (u64 (m_gen (ms_mgr s) + 1) = m_gen (ms_mgr s)) as Eg by (rewrite <- E' at 2; by rewrite E).
    unfold wrap in Eg. change (2 ^ 64) with 18446744073709551616 in Eg.
    Z.to_euclidean_division_equations. lia. }
  change (alone s k m' err).
  apply do_inv in Hdo as [(l&a1&e1&w1&Hv&Hf&[(Ha&->&->&->&->)|(Hnal&Hne&dial&w2&Hdial&Hrest)])|(Hv&dial&w2&Hdial&Hrest)];
    rewrite Hv in Hc; cbn in Hc.
  - exists [MStart k; MFirst k e1]. cbn [mrun mexec]. rewrite Hk, Hlk, Hv, Hc.
    cbn [mbind option_bind set_op ms_ops]. rewrite lookup_insert_eq. cbn [ms_dead].
    rewrite (bool_decide_eq_true_2 (_ ∉ _)) by (by apply Hlive). rewrite orb_true_r.
    eexists. split; [reflexivity|]. cbn. split; [done|]. split; [by rewrite lookup_insert_eq|].
    split; [|repeat constructor; set_solver]. intros k' Hne. by rewrite !lookup_insert_ne.
  - set (gen := m_gen (ms_mgr s)) in *.
    set (s1 := set_op k (OpReconnect gen) (set_op k (OpRun gen l (Some (l_conn l))) (kill (Some (l_conn l)) s))).
    apply (alone_after [MDrop (l_conn l); MStart k; MFirst k e1] s s1).
    + cbn [mrun mexec mbind option_bind]. cbn [kill ms_ops ms_lock ms_mgr]. rewrite Hk, Hlk, Hv, Hc.
      cbn [mbind option_bind set_op ms_ops]. rewrite lookup_insert_eq. cbn [ms_dead].
      rewrite bool_decide_eq_false_2 by done. by rewrite bool_decide_eq_false_2 by set_solver.
    + intros k' Hne'. cbn. by rewrite !lookup_insert_ne.
    + repeat constructor; set_solver.
    + apply (alone_reconnect s1 k gen dial); [cbn; by rewrite lookup_insert_eq|done|done| |].
      * intros l' ->. destruct Hrest as [_ Em]. destruct (Hfr l') as [F1 F2]; [by rewrite Em|done|].
        rewrite Hc in F2. split; [done|]. cbn in *. rewrite Hc. set_solver.
      * destruct dial as [l'|e]; [apply Hrest|]. by destruct Hrest as (_&->&->&_).
  - set (gen := m_gen (ms_mgr s)) in *. set (s1 := set_op k (OpReconnect gen) s).
    apply (alone_after [MStart k] s s1).
    + cbn [mrun mexec]. by rewrite Hk, Hlk, Hv.
    + intros k' Hne'. cbn. by rewrite !lookup_insert_ne.
    + repeat constructor; set_solver.
    + apply (alone_reconnect s1 k gen dial); [cbn; by rewrite lookup_insert_eq|done|done| |].
      * intros l' ->. destruct Hrest as [_ Em]. by destruct (Hfr l') as [F1 F2]; [by rewrite Em|done|].
      * destruct dial as [l'|e]; [apply Hrest|]. by destruct Hrest as (_&->&->&_).
Qed.

(** ** A network for the examples: one server, numbered connections to it *)

Record net (St : Type) : Type := MkNet {
  n_server : St;
  n_next : nat;
  n_up : gset nat;
  n_refuse : bool;
}.
Arguments MkNet {St}.
Arguments n_server {St}.
Arguments n_next {St}.
Arguments n_up {St}.
Arguments n_refuse {St}.

Definition sim_transport {St} (serve : server St) (q : Z) (c : nat) : Transport (net St) := {|
  t_request ctx cmd off payload n :=
    if bool_decide (c ∈ n_up n) && live ctx then
      let '(code, rp, st') := serve cmd off payload (n_server n) in
      Ret (Ok (MkReply (MkHeader flagReply cmd 0 code (len rp) 0) rp),
           MkNet st' (n_next n) (n_up n) (n_refuse n))
    else Ret (Err ENetClosed, n);
  t_quantum _ := q;
|}.

#[global] Instance sim_network {St} (serve : server St) (q : Z) (v : Volume) : Network (net St) := {|
  net_transport := sim_transport serve q;
  net_alive c n := bool_decide (c ∈ n_up n);
  net_close c n := MkNet (n_server n) (n_next n) (n_up n ∖ {[ c ]}) (n_refuse n);
  net_dial ctx n :=
    if n_refuse n then Ret (Err (EIO 1), n)
    else Ret (Ok (MkLink (n_next n) v), MkNet (n_server n) (S (n_next n)) ({[ n_next n ]} ∪ n_up n) false);
|}.

Definition sim_served {St} (serve : server St) (q : Z) (c : nat) :
  @Served (net St) St (sim_transport serve q c) serve.
Proof.
  refine (@Build_Served _ St (sim_transport serve q c) serve n_server (λ n, c ∈ n_up n) _).
  intros ctx cmd off payload n code rp st Hc Hl _ E. cbn. rewrite bool_decide_eq_true_2 by done.
  rewrite Hl. cbn. rewrite E. by repeat eexists.
Defined.

(** The link is down; the retry runs on connection 1, and the machine gets there. *)
Lemma do_refines_machine_witness :
  let net := @sim_network nat echo_server 0 (MkVolume 1 (str "Data") 0) in
  let fn : @operation (ManagerSpec.net nat) nat := λ _ vol a n,
    Ret (((a + 1)%nat, match vol with
                      | Some l => if bool_decide (l_conn l ∈ n_up n) then None else Some ENetClosed
                      | None => None
                      end), n) in
  ∃ m' w', @do _ net Background _ fn 0%nat (installed 1 (some_link 0), MkNet 0%nat 1 ∅ false)
      = Ret ((2%nat, None), (m', w')) ∧ m_gen m' = 2 ∧
    ∃ acts s', mrun acts (init_msys (some_link 0)) = Some s' ∧ ms_mgr s' = m'.
Proof.
  intros net fn. do 2 eexists. split; [vm_compute; reflexivity|]. split; [reflexivity|].
  destruct (@do_refines_machine _ _ net Background fn 0%nat (installed 1 (some_link 0)) (MkNet 0%nat 1 ∅ false)
    2%nat None (installed 2 (MkLink 1 (MkVolume 1 (str "Data") 0))) (MkNet 0%nat 2 {[ 1%nat ]} false)
    (init_msys (some_link 0)) 5) as (acts&s'&H1&H2&_).
  - vm_compute. reflexivity.
  - reflexivity.
  - reflexivity.
  - reflexivity.
  - reflexivity.
  - intros c [= <-]. set_solver.
  - intros l [= <-]. right. split; vm_compute; set_solver.
  - exists acts, s'. split; [exact H1|exact H2].
Defined.
