(* ===== verification/Path.v ===== *)
(** * Slash-separated paths (what the bridge uses of Go's path package)

    [path.Clean], [path.Join] and [path.Base] on the components of a path, and
    the facts about cleaned rooted paths that the names of the bridge rest on. *)

From S2P Require Import Prelude Wire.

Open Scope go_scope.

Definition dot : bytes := str ".".
Definition dotdot : bytes := str "..".

(** One component: empty ones and "." vanish; ".." takes the last component
    away, stays where there is none to take in a relative path, and vanishes at
    the root.  The components so far are in reverse order. *)
Definition clean_step (rooted : bool) (out : list bytes) (c : bytes) : list bytes :=
  if bool_decide (c = [] ∨ c = dot) then out
  else if bool_decide (c = dotdot) then
    match out with
    | [] => if rooted then [] else [dotdot]
    | x :: out' => if bool_decide (x = dotdot) then dotdot :: out else out'
    end
  else c :: out.

Definition clean_comps (rooted : bool) (cs : list bytes) : list bytes :=
  reverse (foldl (clean_step rooted) [] cs).

Definition Clean (p : bytes) : bytes :=
  match p with
  | [] => dot
  | x :: _ =>
    let rooted := bool_decide (x = slash) in
    let out := Join slash (clean_comps rooted (Split slash p)) in
    if rooted then slash :: out else if bool_decide (out = []) then dot else out
  end.

(** [path.Join]: the non-empty elements, joined and cleaned. *)
Definition path_Join (elems : list bytes) : bytes :=
  match filter (λ e, e ≠ []) elems with
  | [] => []
  | l => Clean (Join slash l)
  end.

Definition path_Base (p : bytes) : bytes :=
  if bool_decide (p = []) then dot else
  let p := TrimRight slash p in
  let b := List.last (Split slash p) [] in
  if bool_decide (b = []) then [slash] else b.

(** [strings.TrimPrefix(p, "/")]. *)
Definition TrimPrefix (p : bytes) : bytes :=
  match p with
  | x :: p' => if bool_decide (x = slash) then p' else p
  | [] => []
  end.

(** ** Cleaned components *)

(** A component that names something: not empty, not ".", not "..". *)
Definition proper (c : bytes) : Prop := c ≠ [] ∧ c ≠ dot ∧ c ≠ dotdot ∧ slash ∉ c.

Lemma Split_no_sep sep s : Forall (λ c, sep ∉ c) (Split sep s).
Proof.
  induction s as [|x s IH]; cbn; [repeat constructor; set_solver|].
  case_bool_decide; [constructor; [set_solver|done]|].
  destruct (Split sep s) as [|w ws]; [repeat constructor; set_solver|].
  apply Forall_cons in IH as [? ?]. constructor; [set_solver|done].
Qed.

Lemma clean_step_proper out c : slash ∉ c → Forall proper out → Forall proper (clean_step true out c).
Proof.
  intros Hc Ho. unfold clean_step. case_bool_decide as H1; [done|]. case_bool_decide as H2.
  - destruct Ho as [|x out Hx Ho]; [done|]. rewrite bool_decide_eq_false_2; [done|]. apply Hx.
  - constructor; [|done]. unfold proper. tauto.
Qed.

(** In a rooted path nothing but proper components is left. *)
Lemma clean_comps_proper cs : Forall (λ c, slash ∉ c) cs → Forall proper (clean_comps true cs).
Proof.
  intros Hc. unfold clean_comps. apply Forall_reverse.
  assert (Forall proper []) as Ho by constructor. revert Ho. generalize (@nil bytes) as out.
  induction Hc as [|c cs Hc _ IH]; intros out Ho; cbn; [done|]. apply IH. by apply clean_step_proper.
Qed.

(** Proper components are left alone. *)
Lemma clean_step_keep rooted out c : proper c → clean_step rooted out c = c :: out.
Proof.
  intros (?&?&?&_). unfold clean_step. rewrite !bool_decide_eq_false_2 by tauto. done.
Qed.

Lemma foldl_keep rooted cs out : Forall proper cs → foldl (clean_step rooted) out cs = reverse cs ++ out.
Proof.
  intros Hc. revert out. induction Hc as [|c cs Hc _ IH]; intros out; cbn [foldl]; [done|].
  rewrite clean_step_keep, IH by done. by rewrite reverse_cons, <- app_assoc.
Qed.

Lemma clean_comps_keep rooted cs : Forall proper cs → clean_comps rooted cs = cs.
Proof. intros. unfold clean_comps. by rewrite foldl_keep, app_nil_r, reverse_involutive. Qed.

Lemma Split_app_sep sep c s : sep ∉ c → Split sep (c ++ sep :: s) = c :: Split sep s.
Proof.
  induction c as [|x c IH]; cbn; intros Hc; [by rewrite bool_decide_eq_true_2|].
  rewrite bool_decide_eq_false_2 by set_solver. rewrite IH by set_solver. done.
Qed.

Lemma Split_one sep c : sep ∉ c → Split sep c = [c].
Proof.
  induction c as [|x c IH]; cbn; intros Hc; [done|].
  rewrite bool_decide_eq_false_2 by set_solver. by rewrite IH by set_solver.
Qed.

Lemma Split_Join sep cs : cs ≠ [] → Forall (λ c, sep ∉ c) cs → Split sep (Join sep cs) = cs.
Proof.
  intros Hne Hc. induction Hc as [|c cs Hc Hcs IH]; [done|].
  destruct cs as [|c' cs]; [by apply Split_one|].
  change (Join sep (c :: c' :: cs)) with (c ++ sep :: Join sep (c' :: cs)).
  rewrite Split_app_sep by done. by rewrite IH.
Qed.

(** Splitting what is joined by a separator splits the parts. *)
Lemma Split_app sep a b : Split sep (a ++ sep :: b) = Split sep a ++ Split sep b.
Proof.
  induction a as [|x a IH]; cbn; [by rewrite bool_decide_eq_true_2|].
  case_bool_decide; [by rewrite IH|]. rewrite IH.
  pose proof (Split_nonempty sep a). by destruct (Split sep a).
Qed.
