(* ===== verification/Bridge.v ===== *)
(** * The filesystem behind the NFS server (src/internal/nfsfs/file.go, fs.go)

    Files with a cursor that re-open their fork after a reconnect, and the
    filesystem of names: opening, attributes, directories, links, privileges.
    The manager that all of them share is the state. *)

From S2P Require Import Prelude Header Result Wire Entry Conn Transport Session Errgroup Fork Ops Manager Path.

Open Scope go_scope.

(** ** Names and errors *)

(** The AFP path of a name: relative to the volume root, "" for the root. *)
Definition resolve (base name : bytes) : bytes := TrimPrefix (path_Join [[slash]; base; name]).

(** The AFP errors that [os] has sentinels for. *)
Definition mapErr (err : error) : error :=
  match errors_as_afp err with
  | Some (_, code) =>
    if bool_decide (code = ResObjectNotFound ∨ code = ResDirNotFound ∨ code = ResItemNotFound) then ENotExist
    else if bool_decide (code = ResAccessDenied ∨ code = ResUserNotAuth) then EPermission
    else if bool_decide (code = ResObjectExists) then EExist
    else err
  | None => err
  end.

(** Flags of [os.OpenFile] (the values of Linux). *)
Definition O_WRONLY : Z := 0x1.
Definition O_RDWR : Z := 0x2.
Definition O_CREATE : Z := 0x40.
Definition O_EXCL : Z := 0x80.
Definition O_TRUNC : Z := 0x200.
Definition O_APPEND : Z := 0x400.

(** Bits of [os.FileMode]. *)
Definition ModeDir : Z := 2 ^ 31.
Definition ModeSymlink : Z := 2 ^ 27.

Definition sIFMT : Z := 0xF000.

Record fileInfo : Type := MkFileInfo {
  fi_name : bytes;
  fi_size : Z;   (* int64 *)
  fi_mode : Z;   (* uint32 *)
  fi_mod : option Z;
  fi_isDir : bool;
}.

(** The methods that make it an [os.FileInfo]. *)
Definition FileInfo_Name (fi : fileInfo) : bytes := fi_name fi.
Definition FileInfo_Size (fi : fileInfo) : Z := fi_size fi.
Definition FileInfo_Mode (fi : fileInfo) : Z := fi_mode fi.
Definition FileInfo_ModTime (fi : fileInfo) : option Z := fi_mod fi.
Definition FileInfo_IsDir (fi : fileInfo) : bool := fi_isDir fi.

Definition entryInfo (name : bytes) (e : DirEntry) : fileInfo :=
  let mode := Z.land (Permissions (e_UnixPrivs e)) 0x1FF in
  let mode := if bool_decide (mode = 0) then (if e_IsDir e then 0x1ED else 0x1A4) else mode in
  let mode := if e_IsSymlink e then Z.lor mode ModeSymlink
              else if e_IsDir e then Z.lor mode ModeDir else mode in
  MkFileInfo name (i64 (e_Size e)) mode (e_ModTime e) (e_IsDir e).

(** ** Files

    The fork and the volume it belongs to are assigned together. *)
Record File : Type := MkFile {
  fl_name : bytes;
  fl_path : bytes;
  fl_writable : bool;
  fl_fork : option (Fork * link);
  fl_cursor : Z;   (* int64 *)
  fl_size : Z;     (* int64 *)
}.

Definition File_Name (f : File) : bytes := fl_name f.

(** Advisory locks are no-ops. *)
Definition Lock (f : File) : result unit := Ok tt.
Definition Unlock (f : File) : result unit := Ok tt.

Definition set_fork v f := MkFile (fl_name f) (fl_path f) (fl_writable f) v (fl_cursor f) (fl_size f).
Definition set_cursor v f := MkFile (fl_name f) (fl_path f) (fl_writable f) (fl_fork f) v (fl_size f).
Definition set_size v f := MkFile (fl_name f) (fl_path f) (fl_writable f) (fl_fork f) (fl_cursor f) v.

Inductive whence : Type := SeekStart | SeekCurrent | SeekEnd | SeekOther.

Definition File_Seek (f : File) (offset : Z) (wh : whence) : File * Z :=
  let cursor := match wh with
                | SeekStart => offset
                | SeekCurrent => i64 (fl_cursor f + offset)
                | SeekEnd => i64 (fl_size f + offset)
                | SeekOther => fl_cursor f
                end in
  (set_cursor cursor f, cursor).

Section bridge.
Context {N : Type} `{Network N} `{Norm} `{Errgroup} (base : Ctx).

(** The connection that a volume's session, and its forks, send on. *)
Abbreviation on l := (net_transport (l_conn l)).

Definition lift_err (e : result unit) : option error := match e with Ok _ => None | Err e => Some e end.

(** Opening the fork on the current volume. *)
Definition reopen (ctx : Ctx) (vol : option link) (f : File) : M N (File * result (Fork * link)) :=
  deref vol (λ l,
    r ← (if fl_writable f then @OpenForkRW N (on l) _ (l_vol l) ctx RootDirID (fl_path f)
         else @OpenFork N (on l) _ (l_vol l) ctx RootDirID (fl_path f));
    mret (match r with
          | Err e => (f, Err e)
          | Ok fork => (set_fork (Some (fork, l)) f, Ok (fork, l))
          end)).

Definition File_open (ctx : Ctx) (vol : option link) (f : File) : M N (File * result (Fork * link)) :=
  match fl_fork f with
  | Some (fork, l) =>
    if bool_decide (same_vol (Some l) vol) then mret (f, Ok (fork, l)) else reopen ctx vol f
  | None => reopen ctx vol f
  end.

(** [withFork]: the closure's variables are [a]. *)
Definition with_fork_op {A} (fn : Ctx → Fork * link → A → M N (A * option error)) : operation (N := N) (File * A) :=
  λ ctx vol '(f, a),
    '(f, r) ← File_open ctx vol f;
    match r with
    | Err e => mret ((f, a), Some e)
    | Ok fk => '(a, err) ← fn ctx fk a; mret ((f, a), err)
    end.

Definition withFork {A} (fn : Ctx → Fork * link → A → M N (A * option error)) (f : File) (a : A)
  : M (connManager * N) (File * A * option error) :=
  do base (with_fork_op fn) (f, a).

(** [fork.ReadAt] into the caller's buffer. *)
Definition read_op (off : Z) (ctx : Ctx) (fk : Fork * link) (a : bytes * Z) : M N (bytes * Z * option error) :=
  '(p, n, e) ← @ReadAt N (on fk.2) _ fk.1 ctx a.1 off;
  mret ((p, n), e).

Definition write_op (p : bytes) (off : Z) (ctx : Ctx) (fk : Fork * link) (a : Z) : M N (Z * option error) :=
  @WriteAt N (on fk.2) _ fk.1 ctx p off.

Definition File_Read (f : File) (p : bytes) : M (connManager * N) (File * (bytes * Z * option error)) :=
  '((f, (p, n)), err) ← withFork (read_op (fl_cursor f)) f (p, 0);
  mret (set_cursor (i64 (fl_cursor f + n)) f, (p, n, err)).

Definition File_ReadAt (f : File) (p : bytes) (off : Z) : M (connManager * N) (File * (bytes * Z * option error)) :=
  '((f, (p, n)), err) ← withFork (read_op off) f (p, 0);
  mret (f, (p, n, err)).

Definition File_Write (f : File) (p : bytes) : M (connManager * N) (File * (Z * option error)) :=
  '((f, n), err) ← withFork (write_op p (fl_cursor f)) f 0;
  let f := set_cursor (i64 (fl_cursor f + n)) f in
  let f := if bool_decide (fl_size f < fl_cursor f) then set_size (fl_cursor f) f else f in
  mret (f, (n, err)).

Definition File_Truncate (f : File) (size : Z) : M (connManager * N) (File * result unit) :=
  '((f, _), err) ← withFork (λ ctx fk (_ : unit),
      r ← @Truncate N (on fk.2) fk.1 ctx size; mret (tt, lift_err r)) f tt;
  mret (match err with
        | Some e => (f, Err (mapErr e))
        | None => (set_size size f, Ok tt)
        end).

(** Closes the fork only in the generation that opened it. *)
Definition close_op (fork : Fork) (vol : link) : operation (N := N) unit := λ ctx cur _,
  if bool_decide (same_vol cur (Some vol)) then
    r ← @Fork_Close N (on vol) fork ctx; mret (tt, lift_err r)
  else mret (tt, None).

Definition File_Close (f : File) : M (connManager * N) (File * result unit) :=
  match fl_fork f with
  | None => mret (f, Ok tt)
  | Some (fork, vol) =>
    '(_, err) ← do base (close_op fork vol) tt;
    mret (set_fork None f, match err with Some e => Err e | None => Ok tt end)
  end.

(** ** The filesystem: [base] of an [FS] is the argument [root] *)

(** An operation without a value, and a volume method as one. *)
Definition vol_unit (op : Transport N → Volume → Ctx → M N (result unit)) : M (connManager * N) (option error) :=
  '(_, err) ← do base (vol_op op tt) tt;
  mret err.

Definition path_error (op : string) (path : bytes) (err : option error) : result unit :=
  match err with Some e => Err (EPath op path (mapErr e)) | None => Ok tt end.

(** The closure of [supportsUnixPrivs]. *)
Definition supports_op : operation (N := N) bool := λ _ vol _,
  deref vol (λ l, mret (SupportsUnixPrivs (l_vol l), None)).

Definition supportsUnixPrivs : M (connManager * N) bool :=
  '(su, _) ← do base supports_op false;
  mret su.

(** The closure of [OpenFile]. *)
Definition open_op (filename : bytes) (flag : Z) : operation (N := N) File := λ ctx vol fp,
  let p := fl_path fp in
  created ← (if has flag O_CREATE then
      deref vol (λ l,
        r ← @CreateFile N (on l) _ (l_vol l) ctx RootDirID p false;
        mret (match r with
              | Ok _ => None
              | Err err =>
                let e := mapErr err in
                if errors_is e EExist then
                  if has flag O_EXCL then Some (EPath "open" filename EExist) else None
                else Some (EPath "open" filename e)
              end))
    else mret None);
  match created with
  | Some e => mret (fp, Some e)
  | None =>
    '(fp, r) ← File_open ctx vol fp;
    match r with
    | Err err => mret (fp, Some (EPath "open" filename (mapErr err)))
    | Ok (fork, l) =>
      let fp := set_size (i64 (f_Size fork)) fp in
      if has flag O_TRUNC && fl_writable fp then
        r ← @Truncate N (on l) fork ctx 0;
        mret (match r with
              | Err err => (fp, Some (EPath "truncate" filename (mapErr err)))
              | Ok _ => (set_size 0 fp, None)
              end)
      else mret (fp, None)
    end
  end.

Definition OpenFile (root filename : bytes) (flag : Z) : M (connManager * N) (result File) :=
  let p := resolve root filename in
  let writable := has flag (Z.lor O_WRONLY O_RDWR) in
  '(fp, err) ← do base (open_op filename flag) (MkFile filename p writable None 0 0);
  mret (match err with
        | Some e => Err e
        | None => Ok (if has flag O_APPEND then set_cursor (fl_size fp) fp else fp)
        end).

Definition Create (root filename : bytes) : M (connManager * N) (result File) :=
  OpenFile root filename (Z.lor (Z.lor O_RDWR O_CREATE) O_TRUNC).

Definition Open (root filename : bytes) : M (connManager * N) (result File) := OpenFile root filename 0.

Definition FS_Stat (root filename : bytes) : M (connManager * N) (result fileInfo) :=
  let p := resolve root filename in
  if bool_decide (p = []) then mret (Ok (MkFileInfo [slash] 0 (Z.lor ModeDir 0x1ED) None true)) else
  '(e, err) ← do base (vol_op (λ T v ctx, @Stat N T _ v ctx RootDirID p) (zeroEntry false)) (zeroEntry false);
  mret (match err with
        | Some er => Err (EPath "stat" filename (mapErr er))
        | None => Ok (entryInfo (path_Base p) e)
        end).

Definition Lstat : bytes → bytes → M (connManager * N) (result fileInfo) := FS_Stat.

Definition FS_Rename (root oldpath newpath : bytes) : M (connManager * N) (result unit) :=
  err ← vol_unit (λ T v ctx, @Rename N T _ v ctx RootDirID (resolve root oldpath) (resolve root newpath));
  mret (path_error "rename" oldpath err).

Definition FS_Remove (root filename : bytes) : M (connManager * N) (result unit) :=
  err ← vol_unit (λ T v ctx, @Delete N T _ v ctx RootDirID (resolve root filename));
  mret (path_error "remove" filename err).

Definition FS_ReadDir (fuel : nat) (root dirname : bytes) : M (connManager * N) (result (list fileInfo)) :=
  '(entries, err) ← do base (vol_op (λ T v ctx, @ReadDir N T _ fuel v ctx RootDirID (resolve root dirname)) []) [];
  mret (match err with
        | Some er => Err (EPath "readdir" dirname (mapErr er))
        | None => Ok ((λ e, entryInfo (e_Name e) e) <$> entries)
        end).

(** The loop of [MkdirAll]: [done] are the components made so far. *)
Fixpoint mkdir_loop (done parts : list bytes) : M (connManager * N) (result unit) :=
  match parts with
  | [] => mret (Ok tt)
  | part :: parts' =>
    let sub := Join slash (done ++ [part]) in
    err ← vol_unit (λ T v ctx, @Mkdir N T _ v ctx RootDirID sub);
    match err with
    | Some er =>
      let e := mapErr er in
      if errors_is e EExist then mkdir_loop (done ++ [part]) parts'
      else mret (Err (EPath "mkdir" sub (mapErr er)))
    | None => mkdir_loop (done ++ [part]) parts'
    end
  end.

Definition MkdirAll (root filename : bytes) : M (connManager * N) (result unit) :=
  let p := resolve root filename in
  if bool_decide (p = []) then mret (Ok tt) else mkdir_loop [] (Split slash p).

(** [hex.EncodeToString]. *)
Definition hex_digit (z : Z) : byte := byte_of_Z (if bool_decide (z < 10) then 48 + z else 87 + z).
Definition hex_encode (b : bytes) : bytes :=
  concat ((λ x, [hex_digit (bZ x / 16); hex_digit (bZ x mod 16)]) <$> b).

(** [random] is what [rand.Read] yields: eight bytes or an error. *)
Definition TempFile (random : result bytes) (root dir prefix : bytes) : M (connManager * N) (result File) :=
  match random with
  | Err e => mret (Err e)
  | Ok b =>
    OpenFile root (path_Join [dir; prefix ++ hex_encode b]) (Z.lor (Z.lor O_RDWR O_CREATE) O_EXCL)
  end.

Definition FS_Symlink (root target link : bytes) : M (connManager * N) (result unit) :=
  err ← vol_unit (λ T v ctx, @Symlink N T _ _ v ctx RootDirID (resolve root link) target);
  mret (path_error "symlink" link err).

Definition Readlink (root link : bytes) : M (connManager * N) (result bytes) :=
  '(t, err) ← do base (vol_op (λ T v ctx, @ReadLink N T _ _ v ctx RootDirID (resolve root link)) []) [];
  mret (match err with
        | Some er => Err (EPath "readlink" link (mapErr er))
        | None => Ok t
        end).

Definition FS_Join (elem : list bytes) : bytes := path_Join elem.
Definition Chroot (root p : bytes) : bytes := resolve root p.
Definition Root (root : bytes) : bytes := if bool_decide (root = []) then [slash] else slash :: root.

(** The closures of [Chmod] and [chown]: look the entry up, change its privileges. *)
Definition change_op (p : bytes) (change : UnixPrivs → Z * Z * Z) : operation (N := N) unit :=
  λ ctx vol _, deref vol (λ l,
    r ← @Stat N (on l) _ (l_vol l) ctx RootDirID p;
    match r with
    | Err err => mret (tt, Some (mapErr err))
    | Ok e =>
      let '(uid, gid, mode) := change (e_UnixPrivs e) in
      r ← @SetUnixPrivs N (on l) _ (l_vol l) ctx RootDirID p uid gid mode;
      mret (tt, match r with Ok _ => None | Err err => Some (mapErr err) end)
    end).

Definition change_privs (root name : bytes) (change : UnixPrivs → Z * Z * Z) : M (connManager * N) (result unit) :=
  su ← supportsUnixPrivs;
  if negb su then mret (Ok tt) else
  '(_, err) ← do base (change_op (resolve root name) change) tt;
  mret (match err with Some e => Err e | None => Ok tt end).

Definition chmod_privs (mode : Z) (u : UnixPrivs) : Z * Z * Z :=
  (UID u, GID u, Z.lor (Z.land (u32 mode) 0xFFF) (Z.land (Permissions u) sIFMT)).

Definition chown_privs (uid gid : Z) (u : UnixPrivs) : Z * Z * Z :=
  (if bool_decide (0 ≤ uid) then u32 uid else UID u, if bool_decide (0 ≤ gid) then u32 gid else GID u, Permissions u).

Definition Chmod (root name : bytes) (mode : Z) : M (connManager * N) (result unit) :=
  change_privs root name (chmod_privs mode).

Definition chown (root name : bytes) (uid gid : Z) : M (connManager * N) (result unit) :=
  change_privs root name (chown_privs uid gid).

(** The closure of [Chtimes]: [mtime] in seconds; the access time is ignored. *)
Definition chtimes_op (p : bytes) (mtime : Z) : operation (N := N) unit := λ ctx vol _,
  deref vol (λ l,
    r ← @SetModTime N (on l) _ (l_vol l) ctx RootDirID p mtime;
    mret (tt, match r with Ok _ => None | Err err => Some (mapErr err) end)).

Definition Chtimes (root name : bytes) (mtime : Z) : M (connManager * N) (result unit) :=
  '(_, err) ← do base (chtimes_op (resolve root name) mtime) tt;
  mret (match err with Some e => Err e | None => Ok tt end).

(** [FSStat] of serve.go: the sizes it sets, [None] where it leaves them. *)
Record FSStat_sizes : Type := MkFSStat { TotalSize : Z; FreeSize : Z; AvailableSize : Z }.

Definition FSStat : M (connManager * N) (option FSStat_sizes) :=
  '(info, err) ← statFS base;
  mret (match err with
        | Some _ => None
        | None => Some (MkFSStat (TotalBytes info) (FreeBytes info) (FreeBytes info))
        end).

(** [New], and [Close] of the filesystem. *)
Definition New : M N (result connManager) := newConnManager base.
Definition FS_Close : M (connManager * N) unit := Manager_close.

End bridge.
