(* ===== verification/Serve.v ===== *)
(** * Serving a mount (src/internal/nfsfs/serve.go)

    The NFS server is a library; the handler that [Serve] gives it is the
    filesystem of Bridge.v, with [FSStat] of its own.  What the library does with
    it is a [session]: any sequence of calls, each chosen after the results of
    those before, with steps of its own in between.  The open files are shared
    objects: a call names the one it is made on. *)

From S2P Require Import Prelude Header Result Wire Entry Conn Transport Session Errgroup Fork Ops Login Manager Path Bridge.

Open Scope go_scope.

(** The methods of [billy.Filesystem], [billy.Change], [billy.File] and
    [statfsHandler] that reach the volume. *)
Inductive fscall : Type :=
| CallFSStat
| CallOpenFile (root filename : bytes) (flag : Z)
| CallCreate (root filename : bytes)
| CallOpen (root filename : bytes)
| CallTempFile (root dir prefix : bytes)
| CallStat (root filename : bytes)
| CallLstat (root filename : bytes)
| CallRename (root oldpath newpath : bytes)
| CallRemove (root filename : bytes)
| CallReadDir (root dirname : bytes)
| CallMkdirAll (root filename : bytes)
| CallSymlink (root target link : bytes)
| CallReadlink (root link : bytes)
| CallChmod (root name : bytes) (mode : Z)
| CallChown (root name : bytes) (uid gid : Z)
| CallLchown (root name : bytes) (uid gid : Z)
| CallChtimes (root name : bytes) (mtime : Z)
| CallRead (i : nat) (p : bytes)
| CallReadAt (i : nat) (p : bytes) (off : Z)
| CallWrite (i : nat) (p : bytes)
| CallSeek (i : nat) (offset : Z) (wh : whence)
| CallTruncate (i : nat) (size : Z)
| CallClose (i : nat).

Definition fsresult (c : fscall) : Type :=
  match c with
  | CallFSStat => option FSStat_sizes
  | CallOpenFile _ _ _ | CallCreate _ _ | CallOpen _ _ | CallTempFile _ _ _ => result nat
  | CallStat _ _ | CallLstat _ _ => result fileInfo
  | CallRename _ _ _ | CallRemove _ _ | CallMkdirAll _ _ | CallSymlink _ _ _ | CallChmod _ _ _
  | CallChown _ _ _ _ | CallLchown _ _ _ _ | CallChtimes _ _ _ | CallTruncate _ _ | CallClose _ => result unit
  | CallReadDir _ _ => result (list fileInfo)
  | CallReadlink _ _ => result bytes
  | CallRead _ _ | CallReadAt _ _ _ => bytes * Z * option error
  | CallWrite _ _ => Z * option error
  | CallSeek _ _ _ => Z
  end%type.

(** What the library does on a listener, in a world [L] of its own. *)
Inductive session (L : Type) : Type :=
| Finish (r : result unit)
| Issue (c : fscall) (k : fsresult c → session L)
| Wait (m : L → outcome (session L * L)).
Arguments Finish {L}.
Arguments Issue {L}.
Arguments Wait {L}.

(** Induction over a session: whatever a call returns, and a step of the library ends in. *)
Lemma session_induction {L} (P : session L → Prop) :
  (∀ r, P (Finish r)) → (∀ c k, (∀ x, P (k x)) → P (Issue c k)) →
  (∀ m, (∀ l, match m l with Ret (t, _) => P t | _ => True end) → P (Wait m)) → ∀ t, P t.
Proof.
  intros HF HI HW. fix IH 1. intros [r|c k|m]; [apply HF|apply HI; intros x; apply IH|apply HW].
  intros l. destruct (m l) as [[t l']| |]; [apply IH|exact I..].
Qed.

Section serve.
Context {N : Type} `{Network N} `{Norm} `{Errgroup} `{Entropy N} (base : Ctx) (fuel : nat).

(** The manager, and the files that have been opened. *)
Abbreviation served := ((connManager * N) * list File)%type.

Definition new_file (m : M (connManager * N) (result File)) : M served (result nat) := λ '(s, files),
  match m s with
  | Ret (Ok f, s) => Ret (Ok (length files), (s, files ++ [f]))
  | Ret (Err e, s) => Ret (Err e, (s, files))
  | Panics => Panics
  | NoFuel => NoFuel
  end.

(** A method of the [i]th file; there are no others. *)
Definition on_file {A} (i : nat) (m : File → M (connManager * N) (File * A)) : M served A := λ '(s, files),
  match files !! i with
  | None => Panics
  | Some f =>
    match m f s with
    | Ret ((f, a), s) => Ret (a, (s, <[i := f]> files))
    | Panics => Panics
    | NoFuel => NoFuel
    end
  end.

Definition random8 : M (connManager * N) (result bytes) := λ '(m, n),
  match rand_Read 8 n with Ret (r, n) => Ret (r, (m, n)) | Panics => Panics | NoFuel => NoFuel end.

Definition handle (c : fscall) : M served (fsresult c) :=
  match c with
  | CallFSStat => zoom1 (FSStat base)
  | CallOpenFile root filename flag => new_file (OpenFile base root filename flag)
  | CallCreate root filename => new_file (Create base root filename)
  | CallOpen root filename => new_file (Open base root filename)
  | CallTempFile root dir prefix => new_file (r ← random8; TempFile base r root dir prefix)
  | CallStat root filename => zoom1 (FS_Stat base root filename)
  | CallLstat root filename => zoom1 (Lstat base root filename)
  | CallRename root oldpath newpath => zoom1 (FS_Rename base root oldpath newpath)
  | CallRemove root filename => zoom1 (FS_Remove base root filename)
  | CallReadDir root dirname => zoom1 (FS_ReadDir base fuel root dirname)
  | CallMkdirAll root filename => zoom1 (MkdirAll base root filename)
  | CallSymlink root target link => zoom1 (FS_Symlink base root target link)
  | CallReadlink root link => zoom1 (Readlink base root link)
  | CallChmod root name mode => zoom1 (Chmod base root name mode)
  | CallChown root name uid gid | CallLchown root name uid gid => zoom1 (chown base root name uid gid)
  | CallChtimes root name mtime => zoom1 (Chtimes base root name mtime)
  | CallRead i p => on_file i (λ f, File_Read base f p)
  | CallReadAt i p off => on_file i (λ f, File_ReadAt base f p off)
  | CallWrite i p => on_file i (λ f, File_Write base f p)
  | CallSeek i offset wh => on_file i (λ f, mret (File_Seek f offset wh))
  | CallTruncate i size => on_file i (λ f, File_Truncate base f size)
  | CallClose i => on_file i (λ f, File_Close base f)
  end.

Fixpoint run_session {L} (t : session L) : M (served * L) (result unit) :=
  match t with
  | Finish r => mret r
  | Issue c k => x ← zoom1 (handle c); run_session (k x)
  | Wait m => λ '(s, l),
    match m l with
    | Ret (t, l) => run_session t (s, l)
    | Panics => Panics
    | NoFuel => NoFuel
    end
  end.

(** [Serve]; [nfs] is what [nfs.Serve] does with the listener and a cache of
    that many file handles. *)
Definition Serve {L Listener} (nfs : Listener → Z → session L) (l : Listener) (cacheEntries : Z)
  : M (connManager * (N * L)) (result unit) := λ '(m, (n, w)),
  match run_session (nfs l cacheEntries) (((m, n), []), w) with
  | Ret (r, (((m, n), _), w)) => Ret (r, (m, (n, w)))
  | Panics => Panics
  | NoFuel => NoFuel
  end.

End serve.
