(* ===== verification/Breaks.v ===== *)
(** * Transfers over a connection that may break

    Any request may be lost, before or after the server has executed it.  What
    opening, reading and writing a fork leaves then: the right result, or an
    error and a server that is where part of the work has brought it. *)

From S2P Require Import Prelude Header Result Wire Entry Conn Transport Session SessionSpec Errgroup Fork ForkSpec Ops OpsSpec Manager Path Bridge.

Open Scope go_scope.

(** ** Connections that may break

    [may st w]: the connection answers from the server state [st], but any
    request may fail instead, whether or not the server has executed it.
    [down st w]: it has failed, and no more is known of what it answers. *)
Class Breakable {W St : Type} `{Transport W} (serve : server St) (q : Z) (may down : St → W → Prop) : Prop := {
  bk_request st w ctx cmd off payload code rp st' :
    may st w → live ctx = true → 0 ≤ cmd < 2 ^ 8 → serve cmd off payload st = (code, rp, st') →
    ∃ r w', t_request ctx cmd off payload w = Ret (r, w') ∧
      ((∃ h, r = Ok (MkReply h rp) ∧ ErrCode h = code ∧ may st' w') ∨
       (∃ e, r = Err e ∧ (down st w' ∨ down st' w')));
  bk_down st w ctx cmd off payload code rp st' :
    down st w → 0 ≤ cmd < 2 ^ 8 → serve cmd off payload st = (code, rp, st') →
    ∃ r w', t_request ctx cmd off payload w = Ret (r, w') ∧ (down st w' ∨ down st' w');
  bk_quantum st w : may st w → t_quantum w = q;
}.

(** It has failed, and the server is in a state that [Good] allows. *)
Definition fallen {W St : Type} (down : St → W → Prop) (Good : St → Prop) (w : W) : Prop := ∃ st, Good st ∧ down st w.

Section breakable.
Context {W St : Type} `{Transport W} {serve : server St} {q : Z} {may down : St → W → Prop} `{!Breakable serve q may down}.
Context `{Norm} `{ErrgroupLaw}.

(** A command on such a connection. *)
Lemma command_may ctx payload st w code rp st' :
  may st w → live ctx = true → serve CmdCommand 0 payload st = (code, rp, st') →
  (∃ w', command ctx payload w = Ret (Ok (rp, i32 code), w') ∧ may st' w') ∨
  (∃ e w', command ctx payload w = Ret (Err e, w') ∧ (down st w' ∨ down st' w')).
Proof.
  intros Hw Hl E. destruct (bk_request st w ctx CmdCommand _ _ _ _ _ Hw Hl ltac:(by cbv) E) as (r&w'&Er&[(h&->&<-&Hw')|(e&->&Hw')]).
  - left. exists w'. split; [|done]. unfold command. by erewrite try_bind_ok by exact Er.
  - right. exists e, w'. split; [|done]. unfold command. by erewrite try_bind_err by exact Er.
Qed.

Lemma commandWrite_may ctx off payload st w code rp st' :
  may st w → live ctx = true → serve CmdWrite off payload st = (code, rp, st') →
  (∃ w', commandWrite ctx off payload w = Ret (Ok (rp, i32 code), w') ∧ may st' w') ∨
  (∃ e w', commandWrite ctx off payload w = Ret (Err e, w') ∧ (down st w' ∨ down st' w')).
Proof.
  intros Hw Hl E. destruct (bk_request st w ctx CmdWrite _ _ _ _ _ Hw Hl ltac:(by cbv) E) as (r&w'&Er&[(h&->&<-&Hw')|(e&->&Hw')]).
  - left. exists w'. split; [|done]. unfold commandWrite. by erewrite try_bind_ok by exact Er.
  - right. exists e, w'. split; [|done]. unfold commandWrite. by erewrite try_bind_err by exact Er.
Qed.

(** And after it has failed. *)
Lemma command_down ctx payload st w code rp st' :
  down st w → serve CmdCommand 0 payload st = (code, rp, st') →
  ∃ r w', command ctx payload w = Ret (r, w') ∧ (down st w' ∨ down st' w').
Proof.
  intros Hw E. destruct (bk_down st w ctx CmdCommand _ _ _ _ _ Hw ltac:(by cbv) E) as ([r|e]&w'&Er&Hw');
    do 2 eexists; (split; [|exact Hw']); unfold command;
    [by erewrite try_bind_ok by exact Er|by erewrite try_bind_err by exact Er].
Qed.

Lemma commandWrite_down ctx off payload st w code rp st' :
  down st w → serve CmdWrite off payload st = (code, rp, st') →
  ∃ r w', commandWrite ctx off payload w = Ret (r, w') ∧ (down st w' ∨ down st' w').
Proof.
  intros Hw E. destruct (bk_down st w ctx CmdWrite _ _ _ _ _ Hw ltac:(by cbv) E) as ([r|e]&w'&Er&Hw');
    do 2 eexists; (split; [|exact Hw']); unfold commandWrite;
    [by erewrite try_bind_ok by exact Er|by erewrite try_bind_err by exact Er].
Qed.

(** ** Reading a fork *)

Section reading.
Context (Good : St → Prop) (d : bytes).

Lemma read_task_may f st off pc i :
  Good st → serves_fork (serve := serve) f d st →
  0 ≤ off → 0 ≤ pc.1 → 0 < pc.2 ≤ f_chunkSize f → off + pc.1 + pc.2 < 2 ^ 63 →
  may_fail (λ (_ : unit) w, may st w) (λ _ u, u) (λ _, filled (serve := serve) f st off pc) (λ w, down st w) i
    (read_task f off pc).
Proof.
  intros Hg Hd Hoff Hs Hk Hb. destruct (Hd (off + pc.1) pc.2) as (code&E&Hc); [lia..|]. split.
  - intros ctx [] w Hl Hw. unfold read_task, filled. rewrite E, swrap_small by lia.
    destruct (command_may ctx _ st w _ _ _ Hw Hl E) as [(w'&Eq&Hw')|(e&w'&Eq&Hw')].
    + left. exists w'. split; [|done].
      assert (readChunk f ctx (off + pc.1) pc.2 w
        = Ret (Ok (sub d (off + pc.1) (off + pc.1 + pc.2), bool_decide (i32 code = ResEOF)), w')) as Erc.
      { unfold readChunk. erewrite try_bind_ok by exact Eq. cbn beta iota.
        destruct Hc as [->|[-> _]]; [done|]. by rewrite !bool_decide_eq_true_2. }
      by erewrite M_bind_ret by exact Erc.
    + right. exists None, e, w'. split; [|by destruct Hw'].
      unfold readChunk. by erewrite M_bind_ret by (by erewrite try_bind_err by exact Eq).
  - intros ctx w Hw. destruct (command_down ctx _ st w _ _ _ Hw E) as (r&w'&Eq&Hw').
    assert (∃ r', readChunk f ctx (off + pc.1) pc.2 w = Ret (r', w')) as (r'&Erc).
    { unfold readChunk, try_bind, mbind, M_bind. rewrite Eq. destruct r as [[p c]|e]; [|by eexists].
      case_bool_decide; [by eexists|]. unfold resultErr. by case_bool_decide; eexists. }
    unfold read_task. rewrite swrap_small by lia. rewrite (M_bind_ret _ _ _ _ _ Erc).
    destruct r' as [[x eof]|e]; do 3 eexists; (split; [reflexivity|by destruct Hw']).
Qed.

Lemma ReadAt_may f st ctx p off w :
  fork_ok f → Good st → serves_fork (serve := serve) f d st → may st w → live ctx = true →
  0 ≤ off → off + len p < 2 ^ 63 →
  let x := sub d off (off + len p) in
  (∃ w' err, ReadAt f ctx p off w = Ret ((x ++ drop (length x) p, len x, err), w') ∧ may st w' ∧
     (err = None ∧ len x = len p ∨ err = Some EEOF ∧ len d ≤ off + len p ∧ 0 < len p)) ∨
  (∃ e w', ReadAt f ctx p off w = Ret ((p, 0, Some e), w') ∧ down st w').
Proof.
  intros Hf Hg Hd Hw Hl Hoff Hb x. pose proof (len_nonneg p).
  destruct (decide (len p = 0)) as [Hz|Hz].
  { left. exists w, None. unfold ReadAt. rewrite bool_decide_eq_true_2 by done. unfold x.
    assert (sub d off (off + len p) = []) as -> by (rewrite Hz; unfold sub; by rewrite Z.add_simpl_l).
    split; [done|]. split; [done|]. left. by rewrite Hz. }
  pose proof Hf as [Hc Hm]. destruct (pieces_tiles (len p) (f_chunkSize f)) as (ps&Eps&Ht); [lia..|].
  pose proof (tiles_inside _ _ _ _ Ht) as Hin.
  destruct (group_may_fail (λ (_ : unit) w, may st w) (λ _ u, u)
    (λ i, filled (serve := serve) f st off (default (0, 0) (ps !! i))) (λ w, down st w) ctx (f_maxParallel f)
    (read_task f off <$> ps)
    ((λ pc, MkChunk pc.1 pc.2 [] false) <$> ps) tt w) as [(order&w'&_&Eg&Hw')|(e&sl&w'&Eg&Hw')]; try done.
  { by rewrite !length_fmap. }
  { intros i m. rewrite list_lookup_fmap. destruct (ps !! i) as [pc|] eqn:Ei; [|done].
    intros [= <-]. rewrite Forall_lookup in Hin. specialize (Hin i pc Ei). cbn in Hin.
    assert (may_fail (λ (_ : unit) w, may st w) (λ _ u, u) (λ _, filled (serve := serve) f st off pc)
      (λ w, down st w) i (read_task f off pc)) as [Hm1 Hm2] by (apply read_task_may; try done; lia).
    split; [|exact Hm2]. intros ctx' u w0 Hl' Hw0. rewrite Ei. by apply Hm1. }
  - left. rewrite length_fmap, fmap_seq_lookup in Eg.
    destruct (ReadAt_filled (serve := serve) f d st Hd ctx p off w ps w') as (err&?&?); try done. by exists w', err.
  - right. exists e, w'. split; [|done]. unfold ReadAt. rewrite bool_decide_eq_false_2 by done.
    erewrite M_bind_ret by (unfold lift; by rewrite Eps).
    by erewrite M_bind_ret by exact Eg.
Qed.

(** One attempt to read at [off] into [p]: what it leaves. *)
Definition read_result (off : Z) (p : bytes) (r : bytes * Z) (err : option error) : Prop :=
  let x := sub d off (off + len p) in
  r = (x ++ drop (length x) p, len x) ∧
  (err = None ∧ len x = len p ∨ err = Some EEOF ∧ len d ≤ off + len p ∧ 0 < len p).

(** The buffer between attempts: as it was, or read into. *)
Definition refilled (off : Z) (p : bytes) (b : bytes) : Prop :=
  b = p ∨ b = sub d off (off + len p) ++ drop (length (sub d off (off + len p))) p.

(** The buffer and the count between attempts. *)
Definition read_progress (off : Z) (p : bytes) (a : bytes * Z) : Prop :=
  let x := sub d off (off + len p) in
  refilled off p a.1 ∧ (a.2 = 0 ∨ a = (x ++ drop (length x) p, len x)).

Lemma len_refill off p b : 0 ≤ off → refilled off p b → len b = len p.
Proof.
  intros Hoff [->| ->]; [done|]. apply len_refilled. etransitivity; [apply len_sub_le; pose proof (len_nonneg p); lia|lia].
Qed.

(** Reading twice into a buffer is reading once. *)
Lemma read_result_again off p b r err : 0 ≤ off → refilled off p b → read_result off b r err → read_result off p r err.
Proof.
  intros Hoff Hb. pose proof (len_refill off p b Hoff Hb) as El. destruct Hb as [->|Eb]; [done|].
  unfold read_result. rewrite El. intros [-> He]. split; [|done]. f_equal. rewrite Eb. f_equal. apply drop_app_length.
Qed.

(** A fork that reads the file's bytes [d] whatever good state the server is in. *)
Definition good_fork (fork : Fork) : Prop :=
  fork_ok fork ∧ ∀ st, Good st → serves_fork (serve := serve) fork d st.

End reading.

(** ** Writing a fork

    A write may be lost after some of its chunks have been executed; the next
    attempt writes all of them again. *)

Section writing.
Context (good : St → Prop) (content : St → bytes) (d p : bytes) (off : Z).
Context (Hoff : 0 ≤ off) (Hb : off + len p < 2 ^ 63).

(** Some of the pieces of [p] have been written over [d]. *)
Definition halfway (st : St) : Prop :=
  good st ∧ ∃ l, Forall (inside p) l ∧ content st = foldl (put_piece p off) d l.

Definition written : bytes := if bool_decide (len p = 0) then d else splice d off p.

(** A fork that takes writes. *)
Definition write_fork (fork : Fork) : Prop := fork_ok fork ∧ takes_writes (serve := serve) fork q good content.

Lemma halfway_piece st st' pc :
  halfway st → inside p pc → good st' → content st' = put_piece p off (content st) pc → halfway st'.
Proof.
  intros [_ (l&Hl&E)] Hpc Hg Ec. split; [done|]. exists (l ++ [pc]). split.
  - apply Forall_app. split; [done|]. by apply Forall_singleton.
  - rewrite Ec, E, foldl_app. done.
Qed.

Lemma halfway_done st : halfway st → len p = 0 → content st = d.
Proof.
  intros [_ (l&Hl&->)] Hz. destruct Hl as [|pc l Hpc _]; [done|]. unfold inside in Hpc. lia.
Qed.

Lemma halfway_written st : good st → content st = written → halfway st.
Proof.
  intros Hg E. split; [done|]. unfold written in E. case_bool_decide as Hz; [by exists []|].
  exists [(0, len p)]. split; [|cbn [foldl]; by rewrite splice_piece].
  apply Forall_singleton. unfold inside. cbn. pose proof (len_nonneg p). lia.
Qed.

Lemma write_task_may fork pc i :
  write_fork fork → inside p pc → (writeChunkHeaderLen < q → writeChunkHeaderLen + pc.2 ≤ q) →
  may_fail (λ d' w, ∃ st, may st w ∧ halfway st ∧ content st = d') (λ _ d', put_piece p off d' pc) (λ _, pc.2)
    (fallen down halfway) i (write_task fork p off pc).
Proof.
  intros [_ Htw] Hpc Hq. pose proof Hpc as (Hs&Hk&He).
  assert (len (sub p pc.1 (pc.1 + pc.2)) = pc.2) as El by (rewrite len_sub; lia). set (x := sub p pc.1 (pc.1 + pc.2)) in *.
  assert (∀ st, halfway st → ∃ rp st', serve CmdWrite writeChunkHeaderLen (write_header fork (off + pc.1) x ++ x) st = (0, rp, st') ∧
    halfway st' ∧ content st' = put_piece p off (content st) pc) as Hst'.
  { intros st Hst. destruct (Htw (off + pc.1) x st) as (rp&st'&E&Hg'&Ec); rewrite ?El; try done; [apply Hst|lia..|].
    exists rp, st'. split; [exact E|]. split; [by eapply halfway_piece|exact Ec]. }
  split.
  - intros ctx d' w Hl (st&Hw&Hst&<-). destruct (Hst' st Hst) as (rp&st'&E&Hh&Ec).
    unfold write_task. destruct (commandWrite_may ctx _ _ _ _ _ _ _ Hw Hl E) as [(w'&Eq&Hw')|(e&w'&Eq&Hw')].
    + left. exists w'. split; [|by exists st'].
      erewrite M_bind_ret by (unfold lift; by rewrite slice_ok by lia). fold x. rewrite swrap_small by lia.
      unfold writeChunk. rewrite len_write_header. cbv zeta.
      erewrite M_bind_ret by (erewrite M_bind_ret by exact Eq; done). by rewrite El.
    + right. exists (Some 0), e, w'. split; [|destruct Hw' as [?|?]; [by exists st|by exists st']].
      erewrite M_bind_ret by (unfold lift; by rewrite slice_ok by lia). fold x. rewrite swrap_small by lia.
      unfold writeChunk. rewrite len_write_header. cbv zeta.
      by erewrite M_bind_ret by (erewrite M_bind_ret by exact Eq; done).
  - intros ctx w (st&Hst&Hw). destruct (Hst' st Hst) as (rp&st'&E&Hh&Ec). unfold write_task.
    destruct (commandWrite_down ctx _ _ _ _ _ _ _ Hw E) as (r&w'&Eq&Hw').
    assert (fallen down halfway w') as Hf by (destruct Hw' as [?|?]; [by exists st|by exists st']).
    assert (∃ y, writeChunk fork ctx (off + pc.1) x w = Ret (y, w')) as ([n err]&Ey).
    { unfold writeChunk. rewrite len_write_header. cbv zeta. erewrite M_bind_ret by exact Eq.
      destruct r as [[rp' c]|e]; [|by eexists]. by destruct (resultErr _ c); eexists. }
    erewrite M_bind_ret by (unfold lift; by rewrite slice_ok by lia). fold x. rewrite swrap_small by lia.
    rewrite (M_bind_ret _ _ _ _ _ Ey). do 3 eexists. split; [reflexivity|exact Hf].
Qed.

Lemma WriteAt_may fork st ctx w :
  write_fork fork → halfway st → may st w → live ctx = true →
  (∃ w' st', WriteAt fork ctx p off w = Ret ((len p, None), w') ∧ may st' w' ∧ good st' ∧ content st' = written) ∨
  (∃ n e w', WriteAt fork ctx p off w = Ret ((n, Some e), w') ∧ fallen down halfway w').
Proof.
  intros Hfork Hst Hw Hl. pose proof Hfork as [[Hc Hm] _]. pose proof (len_nonneg p). unfold WriteAt, written.
  case_bool_decide as Hz.
  { left. exists w, st. rewrite Hz. split_and!; try done; [apply Hst|by apply halfway_done]. }
  assert (∃ size, writeChunkSize fork w = Ret (size, w) ∧ 0 < size ≤ f_chunkSize fork ∧
    (writeChunkHeaderLen < q → writeChunkHeaderLen + size ≤ q)) as (size&Esz&Hsz&Hqs).
  { unfold writeChunkSize, serverQuantum. eexists. split; [reflexivity|].
    rewrite (bk_quantum st w Hw). unfold writeChunkHeaderLen. repeat case_bool_decide; cbn in *; lia. }
  erewrite M_bind_ret by exact Esz. destruct (pieces_tiles (len p) size) as (ps&Eps&Ht); [lia..|].
  erewrite M_bind_ret by (unfold lift; by rewrite Eps). pose proof (tiles_inside _ _ _ _ Ht) as Hin.
  destruct (group_may_fail (λ d' w, ∃ st, may st w ∧ halfway st ∧ content st = d')
    (λ i d', put_piece p off d' (default (0, 0) (ps !! i))) (λ i, (default (0, 0) (ps !! i)).2) (fallen down halfway)
    ctx (f_maxParallel fork) (write_task fork p off <$> ps) ((λ _, 0) <$> ps) (content st) w)
    as [(order&w'&Hord&Eg&(st'&Hw'&Hst'&Ec))|(e&sl&w'&Eg&Hw')]; try done.
  { by exists st. }
  { by rewrite !length_fmap. }
  { intros i m. rewrite list_lookup_fmap. destruct (ps !! i) as [pc|] eqn:Ei; [|done].
    intros [= <-]. rewrite Forall_lookup in Hin. specialize (Hin i pc Ei). cbn in Hin.
    assert (may_fail (λ d' w, ∃ st, may st w ∧ halfway st ∧ content st = d') (λ _ d', put_piece p off d' pc) (λ _, pc.2)
      (fallen down halfway) i (write_task fork p off pc)) as [Hm1 Hm2]
      by (apply write_task_may; [done|unfold inside; lia|lia]).
    split; [|exact Hm2]. intros ctx' u w0 Hl' Hw0. rewrite Ei. by apply Hm1. }
  - left. rewrite length_fmap in *. exists w', st'. split_and!; [|done|apply Hst'|].
    + erewrite M_bind_ret by exact Eg. cbn beta iota. rewrite (fmap_seq_lookup snd). unfold mret, M_ret. do 3 f_equal.
      change (foldl Z.add 0 ps.*2 = len p). rewrite (tiles_sum _ _ _ _ _ Ht). lia.
    + rewrite Ec. destruct Hst as [_ (l&Hl0&Ed)].
      rewrite <- (splice_again p off Hoff l d) by (done || lia). rewrite <- Ed.
      rewrite <- (put_pieces_all p off Hoff size ps ((λ i, default (0, 0) (ps !! i)) <$> order));
        [by rewrite foldl_fmap|lia|done|].
      pose proof (fmap_seq_lookup id (0, 0) ps) as E. rewrite list_fmap_id in E.
      rewrite Hord. by rewrite <- E at 2.
  - right. exists (foldl Z.add 0 sl), e, w'. split; [|done]. by erewrite M_bind_ret by exact Eg.
Qed.

End writing.
End breakable.

(** ** Operations on a file

    [Good] are the states that the server may be in, [GF] the forks that it
    opens the file as. *)

Section attempts.
Context {N St : Type} `{Network N} {serve : server St} {v : Volume} {q : Z}.
Context `{Norm} `{ErrgroupLaw}.

Abbreviation T c := (net_transport c).

Definition open_mode (f : File) : Z := if fl_writable f then Z.lor forkRead forkWrite else forkRead.

Lemma reopen_eq ctx l f w : l_vol l = v →
  reopen ctx (Some l) f w =
    match @openFork N (T (l_conn l)) _ v ctx RootDirID (fl_path f) (open_mode f) w with
    | Ret (Ok fork, w') => Ret ((set_fork (Some (fork, l)) f, Ok (fork, l)), w')
    | Ret (Err e, w') => Ret ((f, Err e), w')
    | Panics => Panics
    | NoFuel => NoFuel
    end.
Proof.
  intros Hv. unfold reopen, deref, open_mode. rewrite Hv. unfold mbind, M_bind.
  destruct (fl_writable f); unfold OpenForkRW, OpenFork; by destruct (openFork _ _ _ _ _ _) as [[[?|?]?]| |].
Qed.

(** A file that is not open on [l] is opened again. *)
Lemma File_open_other ctx l f w :
  (∀ fork l0, fl_fork f = Some (fork, l0) → l_conn l0 ≠ l_conn l) →
  File_open ctx (Some l) f w = reopen ctx (Some l) f w.
Proof.
  intros Hf. unfold File_open. destruct (fl_fork f) as [[fork l0]|]; [|done].
  rewrite bool_decide_eq_false_2; [done|]. unfold same_vol. cbn. intros [= E]. by apply (Hf fork l0).
Qed.

Lemma File_open_same ctx l f fork w :
  fl_fork f = Some (fork, l) → File_open ctx (Some l) f w = Ret ((f, Ok (fork, l)), w).
Proof. intros E. unfold File_open. rewrite E. by rewrite bool_decide_eq_true_2. Qed.

Section opening.
Context (Good : St → Prop) (GF : Fork → Prop).

(** The server opens the file, by its path and in this mode, as such a fork. *)
Definition path_opens (path : bytes) (mode : Z) : Prop :=
  ∀ st, Good st → ∃ bm id size tail st',
    serve CmdCommand 0 (open_fork_request v RootDirID path mode) st
      = (0, open_fork_payload bm id size tail, st') ∧
    0 ≤ id < 2 ^ 16 ∧ 0 ≤ size < 2 ^ 64 ∧ Good st' ∧ GF (MkFork v id size readChunkSize maxConcurrentReads).

(** The file is closed, or open on the link [l]. *)
Definition opened_on (l : link) (f : File) : Prop :=
  fl_fork f = None ∨ ∃ fork, fl_fork f = Some (fork, l) ∧ GF fork.

(** If it is open on the connection of [l], then on [l] itself. *)
Definition fits_link (l : link) (f : File) : Prop :=
  ∀ fork l0, fl_fork f = Some (fork, l0) → l_conn l0 = l_conn l → l0 = l ∧ GF fork.

Lemma opened_fits l f : opened_on l f → fits_link l f.
Proof. intros [E|(fork&E&Hf)] fork0 l0 E0 _; rewrite E0 in E; by simplify_eq. Qed.

Section link.
Context (l : link) (Hv : l_vol l = v) (may down : St → N → Prop).
Context `{!@Breakable N St (T (l_conn l)) serve q may down}.

Lemma openFork_may st w ctx path mode :
  Good st → may st w → live ctx = true → path_opens path mode →
  (∃ fork st' w', @openFork N (T (l_conn l)) _ v ctx RootDirID path mode w = Ret (Ok fork, w') ∧
     GF fork ∧ Good st' ∧ may st' w') ∨
  (∃ e w', @openFork N (T (l_conn l)) _ v ctx RootDirID path mode w = Ret (Err e, w') ∧ fallen down Good w').
Proof.
  intros Hg Hw Hl Hp. destruct (Hp st Hg) as (bm&fid&size&tail&st'&E&Hid&Hsz&Hg'&Hf).
  unfold openFork, query.
  destruct (command_may (H := T (l_conn l)) ctx _ st w _ _ _ Hw Hl E) as [(w'&Eq&Hw')|(e&w'&Eq&Hw')].
  - left. do 3 eexists. split; [|by split_and!].
    erewrite try_bind_ok by (by erewrite try_bind_ok by exact Eq).
    destruct (parse_open_fork_at v bm fid size tail Hid Hsz) as (r&Er).
    unfold reading. by erewrite M_bind_ret by (unfold lift; by rewrite Er).
  - right. exists e, w'. split; [by erewrite try_bind_err by (by erewrite try_bind_err by exact Eq)|].
    destruct Hw' as [?|?]; [by exists st|by exists st'].
Qed.

Lemma File_open_may st w ctx f :
  Good st → may st w → live ctx = true → fits_link l f → path_opens (fl_path f) (open_mode f) →
  (∃ fork st' w', File_open ctx (Some l) f w = Ret ((set_fork (Some (fork, l)) f, Ok (fork, l)), w') ∧
     GF fork ∧ Good st' ∧ may st' w') ∨
  (∃ e w', File_open ctx (Some l) f w = Ret ((f, Err e), w') ∧ fallen down Good w').
Proof.
  intros Hg Hw Hl Hf Hp.
  assert ((∃ fork l0, fl_fork f = Some (fork, l0) ∧ l_conn l0 = l_conn l) ∨
    (∀ fork l0, fl_fork f = Some (fork, l0) → l_conn l0 ≠ l_conn l)) as [(fork&l0&E&Ec)|Hn].
  { destruct (fl_fork f) as [[fork l0]|]; [|by right]. destruct (decide (l_conn l0 = l_conn l)); [left; by exists fork, l0|right].
    by intros ?? [= <- <-]. }
  - destruct (Hf fork l0 E Ec) as [-> Hfork]. left. exists fork, st, w. rewrite (File_open_same ctx l f fork w E). split_and!; try done.
    by destruct f; cbn in *; subst.
  - rewrite File_open_other by done. rewrite reopen_eq by done.
    destruct (openFork_may st w ctx _ _ Hg Hw Hl Hp) as [(fork&st'&w'&->&?)|(e&w'&->&?)];
      [left; by exists fork, st', w' | right; by exists e, w'].
Qed.

(** What an operation on the fork promises on such a connection: [Inv] of its
    variables whenever it returns, and [Final] of server, variables and error
    unless something failed. *)
Definition bears {A} (fn : Ctx → Fork * link → A → M N (A * option error)) (Inv : A → Prop) (Final : St → A → option error → Prop) : Prop :=
  ∀ ctx fork st a w, GF fork → Good st → may st w → live ctx = true → Inv a →
    ∃ a' err w', fn ctx (fork, l) a w = Ret ((a', err), w') ∧ Inv a' ∧
      ((∃ st', Good st' ∧ may st' w' ∧ Final st' a' err) ∨ (err ≠ None ∧ fallen down Good w')).

Lemma attempt_may {A} (fn : Ctx → Fork * link → A → M N (A * option error)) Inv Final st w f a ctx :
  bears fn Inv Final →
  Good st → may st w → live ctx = true → fits_link l f → path_opens (fl_path f) (open_mode f) → Inv a →
  ∃ f' a' err w', with_fork_op fn ctx (Some l) (f, a) w = Ret (((f', a'), err), w') ∧
    (f' = f ∨ ∃ fork, f' = set_fork (Some (fork, l)) f ∧ GF fork) ∧ Inv a' ∧
    ((∃ st', Good st' ∧ may st' w' ∧ Final st' a' err) ∨ (err ≠ None ∧ fallen down Good w')).
Proof.
  intros R Hg Hw Hl Hf Hp Ha. unfold with_fork_op.
  destruct (File_open_may st w ctx f Hg Hw Hl Hf Hp) as [(fork&st'&w1&E&HGF&Hg'&Hw1)|(e&w1&E&Hw1)].
  - destruct (R ctx fork st' a w1 HGF Hg' Hw1 Hl Ha) as (a'&err&w2&E2&Ha'&Hres).
    exists (set_fork (Some (fork, l)) f), a', err, w2. split; [|split; [right; by exists fork|done]].
    erewrite M_bind_ret by exact E. cbn beta iota. by erewrite M_bind_ret by exact E2.
  - exists f, a, (Some e), w1. split; [by erewrite M_bind_ret by exact E|]. split; [by left|]. split; [done|by right].
Qed.

End link.
End opening.

(** ** [Read] and [Write] *)

Section link.
Context (l : link) (may down : St → N → Prop) `{!@Breakable N St (T (l_conn l)) serve q may down}.

Lemma read_bears Good d off p : 0 ≤ off → off + len p < 2 ^ 63 →
  bears Good (good_fork (serve := serve) Good d) l may down (read_op off) (read_progress d off p) (λ _ a err, read_result d off p a err).
Proof.
  intros Hoff Hb ctx fork st a w [Hok Hgf] Hg Hw Hl [Ha Hn]. pose proof (len_refill d off p _ Hoff Ha) as El.
  unfold read_op. cbn [fst snd].
  destruct (ReadAt_may (H := T (l_conn l)) Good d fork st ctx a.1 off w Hok Hg (Hgf st Hg) Hw Hl Hoff) as [(w2&err&ER&Hw2&Herr)|(e&w2&ER&Hw2)];
    [by rewrite El|..].
  - do 3 eexists. split; [by erewrite M_bind_ret by exact ER|].
    assert (read_result d off p (sub d off (off + len a.1) ++ drop (length (sub d off (off + len a.1))) a.1,
      len (sub d off (off + len a.1))) err) as Hres by (by apply (read_result_again d off p a.1)).
    split; [|left; exists st; by split_and!]. split; [|right; by apply Hres].
    right. by destruct Hres as [[= <- _] _].
  - do 3 eexists. split; [by erewrite M_bind_ret by exact ER|]. split; [by split; [|left]|]. right. split; [done|]. by exists st.
Qed.

Lemma write_bears good content d p off : 0 ≤ off → off + len p < 2 ^ 63 →
  bears (halfway good content d p off) (write_fork (serve := serve) (q := q) good content) l may down (write_op p off) (λ _, True)
    (λ st a err, a = len p ∧ err = None ∧ content st = written d p off).
Proof.
  intros Hoff Hb ctx fork st a w Hfork Hst Hw Hl _. unfold write_op. cbn [fst snd].
  destruct (WriteAt_may (H := T (l_conn l)) good content d p off Hoff Hb fork st ctx w Hfork Hst Hw Hl) as [(w'&st'&E&Hw'&Hg'&Ec)|(n&e&w'&E&Hw')].
  - exists (len p), None, w'. split; [exact E|]. split; [done|]. left. exists st'.
    split_and!; try done. by apply halfway_written.
  - exists n, (Some e), w'. split; [exact E|]. split; [done|]. by right.
Qed.

End link.

(** The file opens for reading; it is closed, or open on [l]. *)
Definition path_served Good d := path_opens Good (good_fork (serve := serve) Good d).
Definition file_on Good d := opened_on (good_fork (serve := serve) Good d).

Section writable.
Context (good : St → Prop) (content : St → bytes).

(** The server opens the file, by its path and in this mode, for writing. *)
Definition path_writes (path : bytes) (mode : Z) : Prop :=
  ∀ st, good st → ∃ bm id size tail st',
    serve CmdCommand 0 (open_fork_request v RootDirID path mode) st
      = (0, open_fork_payload bm id size tail, st') ∧
    0 ≤ id < 2 ^ 16 ∧ 0 ≤ size < 2 ^ 64 ∧ good st' ∧ content st' = content st ∧
    write_fork (serve := serve) (q := q) good content (MkFork v id size readChunkSize maxConcurrentReads).

Lemma path_writes_opens d p off path mode :
  path_writes path mode → path_opens (halfway good content d p off) (write_fork (serve := serve) (q := q) good content) path mode.
Proof.
  intros Hpw st [Hg (l&Hl&E)]. destruct (Hpw st Hg) as (bm&id&size&tail&st'&Eo&?&?&Hg'&Ec&Hf).
  exists bm, id, size, tail, st'. do 3 (split; [done|]). split; [|exact Hf]. split; [done|]. exists l. by rewrite Ec.
Qed.

End writable.
End attempts.
