(* ===== verification/BridgeSpec.v ===== *)
(** * The filesystem over a link that drops

    A link may drop at any request, before or after the server has executed it.
    An operation on a file re-opens the fork over a new link; [Read] ends with
    the bytes of the file and [Write] with all of its own in it. *)

From S2P Require Import Prelude Header Result Wire Entry Conn Transport Session SessionSpec Errgroup Fork ForkSpec Ops OpsSpec Manager ManagerSpec Path Bridge Breaks.

Open Scope go_scope.

(** ** Links that may drop

    [fk_up c st w]: connection [c] answers from the server state [st], for
    good.  [fk_may c st w]: it answers too, but any request may be lost with the
    link instead, before or after the server has executed it.  [fk_down c st w]:
    it has dropped, every request on it fails, and [IsAlive] says so.  From both
    of the latter, a dial after the link's end gives a link that stays up, with
    the volume [v] open. *)
Class Flaky (N St : Type) `{Network N} (serve : server St) (v : Volume) (q : Z) : Type := {
  fk_served c : @Served N St (net_transport c) serve;
  fk_may : nat → St → N → Prop;
  fk_down : nat → St → N → Prop;
  fk_request c st w ctx cmd off payload code rp st' :
    fk_may c st w → live ctx = true → 0 ≤ cmd < 2 ^ 8 → serve cmd off payload st = (code, rp, st') →
    ∃ r w', @t_request N (net_transport c) ctx cmd off payload w = Ret (r, w') ∧
      ((∃ h, r = Ok (MkReply h rp) ∧ ErrCode h = code ∧ fk_may c st' w') ∨
       (∃ e, r = Err e ∧ (fk_down c st w' ∨ fk_down c st' w')));
  fk_quantum c st w : fk_may c st w → @t_quantum N (net_transport c) w = q;
  fk_dead c st w ctx cmd off payload :
    fk_down c st w → ∃ e w', @t_request N (net_transport c) ctx cmd off payload w = Ret (Err e, w') ∧ fk_down c st w';
  fk_alive c st w : fk_down c st w → net_alive c w = false;
  fk_redial c st w ctx :
    fk_may c st w ∨ fk_down c st w → net_alive c w = false → live ctx = true →
    ∃ l w', net_dial ctx (net_close c w) = Ret (Ok l, w') ∧ l_vol l = v ∧ l_conn l ≠ c ∧
      @at_state N St (net_transport (l_conn l)) serve (fk_served (l_conn l)) st q w';
}.

Section flaky.
Context {N St : Type} `{Network N} {serve : server St} {v : Volume} {q : Z} `{!Flaky N St serve v q}.
Context `{Norm} `{ErrgroupLaw}.

Abbreviation T c := (net_transport c).
Abbreviation up c st w := (@at_state N St (T c) serve (fk_served c) st q w).

#[local] Instance fk_breakable c : @Breakable N St (T c) serve q (fk_may c) (fk_down c).
Proof.
  split; [apply fk_request| |apply fk_quantum].
  intros st w ctx cmd off payload code rp st' Hw _ _. destruct (fk_dead c st w ctx cmd off payload Hw) as (e&w'&E&?).
  exists (Err e), w'. split; [exact E|by left].
Qed.

(** ** Operations on a file, whatever happens to the link

    [Good] are the states that the server may be in, [GF] the forks that it
    opens the file as. *)

Section opening.
Context (Good : St → Prop) (GF : Fork → Prop).

Lemma openFork_up c st w ctx path mode :
  Good st → up c st w → live ctx = true → path_opens (serve := serve) (v := v) Good GF path mode →
  ∃ fork st' w', @openFork N (T c) _ v ctx RootDirID path mode w = Ret (Ok fork, w') ∧
    GF fork ∧ Good st' ∧ up c st' w'.
Proof.
  intros Hg Hw Hl Hp. destruct (Hp st Hg) as (bm&fid&size&tail&st'&E&Hid&Hsz&Hg'&Hf).
  destruct (@openFork_at N St (T c) serve (fk_served c) _ v RootDirID path q ctx mode w st bm fid size tail st')
    as (w'&Eo&Hw'); try done. do 3 eexists. by split_and!.
Qed.

(** What an operation on the fork promises: that it bears the loss of the link
    ([bears]), and its [Final] on a link that stays up. *)
Record robust {A} (fn : Ctx → Fork * link → A → M N (A * option error)) (Inv : A → Prop) (Final : St → A → option error → Prop) : Prop := {
  ro_may l : bears Good GF l (fk_may (l_conn l)) (fk_down (l_conn l)) fn Inv Final;
  ro_up ctx l fork st a w :
    GF fork → Good st → up (l_conn l) st w → live ctx = true → Inv a →
    ∃ a' err st' w', fn ctx (fork, l) a w = Ret ((a', err), w') ∧ Good st' ∧ up (l_conn l) st' w' ∧ Final st' a' err;
}.

Section robust.
Context {A : Type} {fn : Ctx → Fork * link → A → M N (A * option error)} {Inv : A → Prop} {Final : St → A → option error → Prop}.
Context (R : robust fn Inv Final).

Lemma attempt_up l st w f a ctx :
  Good st → up (l_conn l) st w → live ctx = true → l_vol l = v →
  (∀ fork l0, fl_fork f = Some (fork, l0) → l_conn l0 ≠ l_conn l) →
  path_opens (serve := serve) (v := v) Good GF (fl_path f) (open_mode f) → Inv a →
  ∃ f' a' err st' w', with_fork_op fn ctx (Some l) (f, a) w = Ret (((f', a'), err), w') ∧
    (∃ fk, f' = set_fork fk f) ∧ opened_on GF l f' ∧ Good st' ∧ up (l_conn l) st' w' ∧ Final st' a' err.
Proof.
  intros Hg Hw Hl Hv Hf Hp Ha. unfold with_fork_op.
  destruct (openFork_up (l_conn l) st w ctx _ _ Hg Hw Hl Hp) as (fork&st'&w1&E&HGF&Hg'&Hw1).
  destruct (ro_up _ _ _ R ctx l fork st' a w1 HGF Hg' Hw1 Hl Ha) as (a'&err&st2&w2&E2&Hres).
  exists (set_fork (Some (fork, l)) f), a', err, st2, w2. split.
  - erewrite M_bind_ret by (rewrite File_open_other by done; rewrite reopen_eq by done; by rewrite E).
    cbn beta iota. by erewrite M_bind_ret by exact E2.
  - split; [by eexists|]. split; [right; by exists fork|done].
Qed.

(** What the operation reaches from link [l] of generation [gen]. *)
Definition survives (base : Ctx) (l : link) (gen : Z) (f : File) (a : A) (w : N) : Prop :=
  ∃ f' a' err l' m' w' st', do base (with_fork_op fn) (f, a) (installed gen l, w) = Ret (((f', a'), err), (m', w')) ∧
    (∃ fk, f' = set_fork fk f) ∧ opened_on GF l' f' ∧ Final st' a' err ∧ Good st' ∧
    (l' = l ∧ m' = installed gen l ∧ fk_may (l_conn l) st' w' ∨
     m' = installed (u64 (gen + 1)) l' ∧ l_conn l' ≠ l_conn l ∧ l_vol l' = v ∧ up (l_conn l') st' w').

(** The second attempt, after a first one on a link that is dead by then. *)
Lemma survives_retry base l gen f a w f1 fk1 a1 e w1 st1 :
  live base = true → path_opens (serve := serve) (v := v) Good GF (fl_path f) (open_mode f) →
  with_fork_op fn (withTimeout base) (Some l) (f, a) w = Ret (((f1, a1), Some e), w1) →
  f1 = set_fork fk1 f → opened_on GF l f1 → Good st1 → net_alive (l_conn l) w1 = false →
  fk_may (l_conn l) st1 w1 ∨ fk_down (l_conn l) st1 w1 → Inv a1 → survives base l gen f a w.
Proof.
  intros Hl Hp E1 Ef1 Hf1 Hg1 Hdead Hw1 Ha1.
  assert (live (withTimeout base) = true) as Hl' by done.
  destruct (fk_redial (l_conn l) st1 w1 (withTimeout base) Hw1 Hdead Hl') as (l2&w2&Edial&Hv2&Hc2&Hw2).
  destruct (attempt_up l2 st1 w2 f1 a1 (withTimeout base) Hg1 Hw2 Hl' Hv2)
    as (f2&a2&e2&st2&w3&E2&(fk2&Ef2)&Hf2&Hg2&Hw3&Hfin); [|by rewrite Ef1|done|].
  { intros fork l0 E Ec. apply Hc2. rewrite <- Ec.
    destruct Hf1 as [En|(fork'&En&_)]; rewrite En in E; congruence. }
  exists f2, a2, e2, l2, (installed (u64 (gen + 1)) l2), w3, st2. split_and!; try done.
  - eapply (do_retry base _ _ (installed gen l)); [done|exact E1| |exact Edial|exact E2].
    by intros c [= <-].
  - exists fk2. by rewrite Ef2, Ef1.
  - right. by split_and!.
Qed.

Lemma do_survives base l st w gen f a :
  Good st → fk_may (l_conn l) st w → live base = true → l_vol l = v → opened_on GF l f →
  path_opens (serve := serve) (v := v) Good GF (fl_path f) (open_mode f) → Inv a → survives base l gen f a w.
Proof.
  intros Hg Hw Hl Hv Hf Hp Ha.
  destruct (attempt_may Good GF l Hv (fk_may (l_conn l)) (fk_down (l_conn l)) fn Inv Final st w f a (withTimeout base)
    (ro_may _ _ _ R l) Hg Hw Hl (opened_fits GF l f Hf) Hp Ha)
    as (f1&a1&e1&w1&E1&Hf'&Ha1&[(st1&Hg1&Hw1&Hfin)|(Hne&(st1&Hg1&Hw1))]).
  all: assert (∃ fk1, f1 = set_fork fk1 f) as (fk1&Ef1)
    by (destruct Hf' as [->|(fork&->&_)]; [exists (fl_fork f); by destruct f|by eexists]).
  all: assert (opened_on GF l f1) as Hf1 by (destruct Hf' as [->|(fork&->&?)]; [done|right; by exists fork]).
  - destruct (decide (e1 = None ∨ net_alive (l_conn l) w1 = true)) as [Hdone|Hagain].
    + exists f1, a1, e1, l, (installed gen l), w1, st1. split_and!; try done; [|by exists fk1|left; by split_and!].
      eapply do_first; [done|exact E1|]. destruct Hdone as [->|?]; [by left|right]. by exists (l_conn l).
    + destruct e1 as [e|]; [|exfalso; tauto].
      eapply (survives_retry base l gen f a w f1 fk1 a1 e w1 st1); try done;
        [by apply not_true_is_false; tauto|by left].
  - destruct e1 as [e|]; [|done].
    eapply (survives_retry base l gen f a w f1 fk1 a1 e w1 st1); try done; [by eapply fk_alive|by right].
Qed.

End robust.
End opening.

(** ** Reading the fork *)

Section reading.
Context (Good : St → Prop) (d : bytes).

Lemma read_robust off p : 0 ≤ off → off + len p < 2 ^ 63 →
  robust Good (good_fork (serve := serve) Good d) (read_op off) (read_progress d off p) (λ _ a err, read_result d off p a err).
Proof.
  intros Hoff Hb. split; [intros l; apply (read_bears (q := q) l); [exact (fk_breakable (l_conn l))|done..]|].
  intros ctx l fork st a w [Hok Hgf] Hg Hw Hl [Ha _]. pose proof (len_refill d off p _ Hoff Ha) as El. unfold read_op. cbn [fst snd].
  destruct (@ReadAt_spec N St (T (l_conn l)) serve (fk_served (l_conn l)) _ _ fork d st q Hok (Hgf st Hg)
    ctx a.1 off w Hw Hl Hoff) as (w2&err&ER&Hw2&Herr); [by rewrite El|].
  do 4 eexists. split; [by erewrite M_bind_ret by exact ER|]. split_and!; try done. by apply (read_result_again d off p a.1).
Qed.

Lemma File_Read_survives base l st w gen f p :
  Good st → fk_may (l_conn l) st w → live base = true → l_vol l = v →
  file_on (serve := serve) Good d l f → path_served (serve := serve) (v := v) Good d (fl_path f) (open_mode f) → 0 ≤ fl_cursor f → fl_cursor f + len p < 2 ^ 63 →
  let x := sub d (fl_cursor f) (fl_cursor f + len p) in
  ∃ f' err l' m' w', File_Read base f p (installed gen l, w)
      = Ret ((f', (x ++ drop (length x) p, len x, err)), (m', w')) ∧
    (err = None ∧ len x = len p ∨ err = Some EEOF ∧ len d ≤ fl_cursor f + len p ∧ 0 < len p) ∧
    fl_cursor f' = fl_cursor f + len x ∧ fl_path f' = fl_path f ∧ file_on (serve := serve) Good d l' f' ∧
    (l' = l ∧ m' = installed gen l ∨ m' = installed (u64 (gen + 1)) l').
Proof.
  intros Hg Hw Hl Hv Hf Hp Hoff Hb x.
  destruct (do_survives Good (good_fork (serve := serve) Good d) (read_robust (fl_cursor f) p Hoff Hb) base l st w gen f (p, 0) Hg Hw Hl Hv Hf Hp)
    as (f1&r&err&l'&m'&w'&st'&E&(fk&->)&Hf'&[-> Herr]&Hg'&Hcase); [by split; [left|left]|].
  assert (len x ≤ len p) as Hx by (unfold x; etransitivity; [apply len_sub_le; pose proof (len_nonneg p); lia|lia]).
  pose proof (len_nonneg x). exists (set_cursor (fl_cursor f + len x) (set_fork fk f)), err, l', m', w'.
  split_and!; try done.
  - unfold File_Read, withFork. erewrite M_bind_ret by exact E. cbn beta iota. cbn [set_fork fl_cursor].
    fold x. by rewrite swrap_small by lia.
  - destruct Hcase as [(?&?&_)|(?&_)]; [by left|by right].
Qed.

End reading.

Lemma write_robust good content d p off : 0 ≤ off → off + len p < 2 ^ 63 →
  robust (halfway good content d p off) (write_fork (serve := serve) (q := q) good content) (write_op p off) (λ _, True)
    (λ st a err, a = len p ∧ err = None ∧ content st = written d p off).
Proof.
  intros Hoff Hb. split; [intros l; apply (write_bears (q := q) l); [exact (fk_breakable (l_conn l))|done..]|].
  intros ctx l fork st a w [Hok Htw] Hst Hw Hl _. unfold write_op. cbn [fst snd].
  destruct (@WriteAt_spec N St (T (l_conn l)) serve (fk_served (l_conn l)) _ _ fork q good content Hok Htw ctx p off (content st) w Hl)
    as (w'&E&(st'&Hw'&Hg'&Ec)); [exists st; split_and!; [done|apply Hst|done]|done..|].
  assert (content st' = written d p off) as Ec'.
  { rewrite Ec. unfold written. case_bool_decide as Hz; [by eapply halfway_done|].
    destruct Hst as [_ (l0&Hl0&->)]. apply splice_again; [done|pose proof (len_nonneg p); lia|done]. }
  exists (len p), None, st', w'. split; [exact E|]. split_and!; try done. by apply halfway_written.
Qed.

Lemma File_Write_survives good content base l st w gen f p :
  good st → fk_may (l_conn l) st w → live base = true → l_vol l = v →
  opened_on (write_fork (serve := serve) (q := q) good content) l f → path_writes (serve := serve) (v := v) (q := q) good content (fl_path f) (open_mode f) →
  0 ≤ fl_cursor f → fl_cursor f + len p < 2 ^ 63 →
  ∃ f' l' m' w' st', File_Write base f p (installed gen l, w) = Ret ((f', (len p, None)), (m', w')) ∧
    good st' ∧ content st' = written (content st) p (fl_cursor f) ∧
    fl_cursor f' = fl_cursor f + len p ∧ fl_size f' = Z.max (fl_size f) (fl_cursor f') ∧
    opened_on (write_fork (serve := serve) (q := q) good content) l' f' ∧
    (l' = l ∧ m' = installed gen l ∧ fk_may (l_conn l) st' w' ∨
     m' = installed (u64 (gen + 1)) l' ∧ l_vol l' = v ∧ up (l_conn l') st' w').
Proof.
  intros Hg Hw Hl Hv Hf Hp Hoff Hb. pose proof (len_nonneg p).
  destruct (do_survives _ _ (write_robust good content (content st) p (fl_cursor f) Hoff Hb) base l st w gen f 0)
    as (f1&n&err&l'&m'&w'&st'&E&(fk&->)&Hf'&(->&->&Ec)&Hg'&Hcase); try done.
  { split; [done|]. by exists []. }
  { by apply path_writes_opens. }
  set (f1 := set_cursor (fl_cursor f + len p) (set_fork fk f)).
  exists (if bool_decide (fl_size f < fl_cursor f + len p) then set_size (fl_cursor f + len p) f1 else f1), l', m', w', st'.
  split_and!; try done.
  - unfold File_Write, withFork. erewrite M_bind_ret by exact E. cbn beta iota. cbn [set_fork fl_cursor].
    by rewrite swrap_small by lia.
  - apply Hg'.
  - by case_bool_decide.
  - case_bool_decide; cbn; lia.
  - by case_bool_decide.
  - destruct Hcase as [?|(?&_&?&?)]; [by left|by right].
Qed.

End flaky.

(** ** A flaky network, for the examples

    One server behind numbered connections, and the fate of the next requests:
    served, or lost with the connection before or after the server has executed
    them ([Some executed]). *)
Record fnet (St : Type) : Type := MkFnet {
  fn_server : St;
  fn_next : nat;
  fn_up : gset nat;
  fn_fate : list (option bool);
}.
Arguments MkFnet {St}.
Arguments fn_server {St}.
Arguments fn_next {St}.
Arguments fn_up {St}.
Arguments fn_fate {St}.

Definition fnet_transport {St} (serve : server St) (q : Z) (c : nat) : Transport (fnet St) := {|
  t_request ctx cmd off payload n :=
    if bool_decide (c ∈ fn_up n) && live ctx then
      let '(code, rp, st') := serve cmd off payload (fn_server n) in
      match fn_fate n with
      | Some executed :: fate =>
        Ret (Err EEOF, MkFnet (if executed then st' else fn_server n) (fn_next n) (fn_up n ∖ {[ c ]}) fate)
      | fate =>
        Ret (Ok (MkReply (MkHeader flagReply cmd 0 code (len rp) 0) rp), MkFnet st' (fn_next n) (fn_up n) (tail fate))
      end
    else Ret (Err ENetClosed, n);
  t_quantum _ := q;
|}.

(** A new connection stays up. *)
#[global] Instance fnet_network {St} (serve : server St) (q : Z) (v : Volume) : Network (fnet St) := {|
  net_transport := fnet_transport serve q;
  net_alive c n := bool_decide (c ∈ fn_up n);
  net_close c n := MkFnet (fn_server n) (fn_next n) (fn_up n ∖ {[ c ]}) (fn_fate n);
  net_dial ctx n :=
    Ret (Ok (MkLink (fn_next n) v), MkFnet (fn_server n) (S (fn_next n)) ({[ fn_next n ]} ∪ fn_up n) []);
|}.

Definition fnet_served {St} (serve : server St) (q : Z) (c : nat) :
  @Served (fnet St) St (fnet_transport serve q c) serve.
Proof.
  refine (@Build_Served _ St (fnet_transport serve q c) serve fn_server (λ n, c ∈ fn_up n ∧ fn_fate n = []) _).
  intros ctx cmd off payload n code rp st [Hc Hf] Hl _ E. cbn. rewrite bool_decide_eq_true_2 by done.
  rewrite Hl, E, Hf. cbn. by repeat eexists.
Defined.

Definition fnet_flaky {St} (serve : server St) (q : Z) (v : Volume) :
  @Flaky (fnet St) St (fnet_network serve q v) serve v q.
Proof.
  refine (@Build_Flaky (fnet St) St (fnet_network serve q v) serve v q (fnet_served serve q)
    (λ c st n, fn_server n = st ∧ c ∈ fn_up n ∧ (c < fn_next n)%nat)
    (λ c st n, fn_server n = st ∧ c ∉ fn_up n ∧ (c < fn_next n)%nat) _ _ _ _ _).
  - intros c st n ctx cmd off payload code rp st' (Hs&Hc&Hn) Hl _ E. cbn.
    rewrite bool_decide_eq_true_2 by done. rewrite Hl, Hs, E. cbn.
    destruct (fn_fate n) as [|[executed|] fate]; do 2 eexists; (split; [reflexivity|]).
    + left. by eexists.
    + right. exists EEOF. split; [done|]. cbn.
      destruct executed; [right|left]; (split_and!; [done|set_solver|done]).
    + left. by eexists.
  - done.
  - intros c st n ctx cmd off payload (Hs&Hc&Hn). cbn. rewrite bool_decide_eq_false_2 by done. cbn. by repeat eexists.
  - intros c st n (Hs&Hc&Hn). by apply bool_decide_eq_false_2.
  - intros c st n ctx Hw Ha Hl. assert (c ∉ fn_up n) as Hc by by apply bool_decide_eq_false in Ha.
    assert (fn_server n = st ∧ (c < fn_next n)%nat) as [Hs Hn] by (destruct Hw as [(?&?&?)|(?&?&?)]; done).
    do 2 eexists. split; [reflexivity|]. cbn. split; [done|]. split; [lia|].
    split; [|done]. cbn. split; [|done]. apply elem_of_union_l, elem_of_singleton. done.
Defined.

(** A server with one file, which it opens by any name. *)
Definition disk_server : server bytes := λ cmd off payload d,
  if bool_decide (head payload = Some (byte_of_Z cmdOpenFork))
  then (0, open_fork_payload kFPExtDataForkLenBit 5 (len d) [], d)
  else file_server cmd off payload d.

Lemma disk_serves f d : serves_fork (serve := disk_server) f d d.
Proof. intros offset count H1 H2 H3. exact (file_server_serves f d offset count H1 H2 H3). Qed.

Lemma disk_path_served `{Norm} v path mode d :
  len d < 2 ^ 64 → path_served (serve := disk_server) (v := v) (.= d) d path mode.
Proof.
  intros Hd st ->. exists kFPExtDataForkLenBit, 5, (len d), [], d. pose proof (len_nonneg d).
  split; [|split; [lia|split; [lia|split; [done|]]]].
  - unfold open_fork_request. rewrite w_path_wire. reflexivity.
  - split; [by split|]. intros st ->. apply disk_serves.
Qed.

Lemma takes_bounded {serve : server bytes} f q :
  takes_writes (serve := serve) f q (λ _, True) id → takes_writes (serve := serve) f q (λ d, len d < 2 ^ 63) id.
Proof.
  intros Htw offset data st Hg H1 H2 H3 Hq. destruct (Htw offset data st I H1 H2 H3 Hq) as (rp&st'&E&_&Ec).
  exists rp, st'. split; [exact E|]. split; [|exact Ec]. cbn in Ec. rewrite Ec, len_splice by done. lia.
Qed.

Lemma disk_path_writes `{Norm} v path mode :
  path_writes (serve := disk_server) (v := v) (q := 23) (λ d, len d < 2 ^ 63) id path mode.
Proof.
  intros d Hd. exists kFPExtDataForkLenBit, 5, (len d), [], d. pose proof (len_nonneg d).
  split; [|split; [lia|split; [lia|split; [done|split; [done|]]]]].
  - unfold open_fork_request. rewrite w_path_wire. reflexivity.
  - split; [by split|]. apply takes_bounded. exact (file_server_takes _ 23).
Qed.

(** ** Properties *)

(** C15: writing survives a dropped link: when the link may drop at any request,
    before or after the server has executed it, a [Write] at the cursor reports
    all its bytes written and no error, and the server's file is the old one
    with exactly these bytes put in at the cursor, even when some of the
    concurrent chunks had been executed before the link was lost and all of
    them are sent again; the cursor moves past them, the size that the file
    knows of follows, the manager is left as it was or one generation on, and
    the file is ready for the next write. *)
Theorem write_survives_drop {N St : Type} `{Network N} {serve : server St} {v q} `{!Flaky N St serve v q}
    `{Norm} `{ErrgroupLaw} (good : St → Prop) (content : St → bytes) base l st w gen f p :
  good st → fk_may (l_conn l) st w → live base = true → l_vol l = v →
  opened_on (write_fork (serve := serve) (q := q) good content) l f →
  path_writes (serve := serve) (v := v) (q := q) good content (fl_path f) (open_mode f) →
  0 ≤ fl_cursor f → fl_cursor f + len p < 2 ^ 63 →
  ∃ f' l' m' w' st', File_Write base f p (installed gen l, w) = Ret ((f', (len p, None)), (m', w')) ∧
    good st' ∧ content st' = (if bool_decide (len p = 0) then content st else splice (content st) (fl_cursor f) p) ∧
    fl_cursor f' = fl_cursor f + len p ∧ fl_size f' = Z.max (fl_size f) (fl_cursor f') ∧
    opened_on (write_fork (serve := serve) (q := q) good content) l' f' ∧
    (l' = l ∧ m' = installed gen l ∧ fk_may (l_conn l) st' w' ∨
     m' = installed (u64 (gen + 1)) l' ∧ l_vol l' = v ∧
       @at_state N St (net_transport (l_conn l')) serve (fk_served (l_conn l')) st' q w').
Proof. intros. by apply (File_Write_survives (serve := serve)). Qed.

(** The quantum leaves room for three bytes a chunk.  The open and one chunk are
    served; another is executed, but its reply is lost with the link; the retry
    opens the fork again on connection 1 and writes all. *)
Lemma write_survives_drop_witness :
  let net := @fnet_network bytes disk_server 23 sample_volume in
  let f := MkFile (str "/f") (str "f") true None 3 11 in
  ∃ f' m' w', @File_Write _ net plain_norm last_first Background f (str "LO WORLD!")
      (installed 1 (MkLink 0 sample_volume), MkFnet (str "hello world") 1 {[ 0%nat ]} [None; None; Some true])
      = Ret ((f', (9, None)), (m', w')) ∧ fn_server w' = str "helLO WORLD!" ∧ fl_cursor f' = 12 ∧ fl_size f' = 12.
Proof.
  intros net f.
  destruct (@write_survives_drop (fnet bytes) bytes net disk_server sample_volume 23 (fnet_flaky disk_server 23 sample_volume)
    plain_norm last_first last_first_law (λ d, len d < 2 ^ 63) id Background
    (MkLink 0 sample_volume) (str "hello world")
    (MkFnet (str "hello world") 1 {[ 0%nat ]} [None; None; Some true]) 1 f (str "LO WORLD!"))
    as (f'&l'&m'&w'&d'&E&_&Ed&Ec&Es&_&Hw).
  - reflexivity.
  - split; [reflexivity|]. cbn. split; [set_solver|lia].
  - reflexivity.
  - reflexivity.
  - left. reflexivity.
  - apply disk_path_writes.
  - vm_compute. congruence.
  - reflexivity.
  - exists f', m', w'. split; [exact E|]. split.
    { assert (fn_server w' = d') as -> by (destruct Hw as [(_&_&Hs&_)|(_&_&_&Hs&_)]; exact Hs). exact Ed. }
    split; [exact Ec|]. rewrite Es, Ec. reflexivity.
Defined.

(** It did reconnect. *)
Example write_reconnects :
  let net := @fnet_network bytes disk_server 23 sample_volume in
  match @File_Write _ net plain_norm last_first Background (MkFile (str "/f") (str "f") true None 3 11) (str "LO WORLD!")
      (installed 1 (MkLink 0 sample_volume), MkFnet (str "hello world") 1 {[ 0%nat ]} [None; None; Some true]) with
  | Ret ((f, r), (m, w)) => (r, m_gen m, fn_server w, fn_next w)
  | _ => ((0, None), 0, [], 0%nat)
  end = ((9, None), 2, str "helLO WORLD!", 2%nat).
Proof. vm_compute. reflexivity. Qed.
