(* ===== verification/FsSpec.v ===== *)
(** * The filesystem's names and operations

    What [resolve] makes of a name; directories, privileges and files on a link
    that stays up. *)

From S2P Require Import Prelude Header Result Wire Entry Conn Transport Session SessionSpec Errgroup Fork ForkSpec Ops OpsSpec Manager ManagerSpec Path Bridge Breaks BridgeSpec.

Open Scope go_scope.

(** ** Names *)

(** Empty components vanish wherever they are. *)
Lemma clean_step_nil rooted out : clean_step rooted out [] = out.
Proof. done. Qed.

Lemma clean_comps_Split_nil cs : clean_comps true (Split slash [] ++ cs) = clean_comps true cs.
Proof. done. Qed.

Lemma clean_comps_snoc_nil cs : clean_comps true (cs ++ [[]]) = clean_comps true cs.
Proof. unfold clean_comps. by rewrite foldl_app. Qed.

Lemma Clean_rooted s : Clean (slash :: s) = slash :: Join slash (clean_comps true (Split slash s)).
Proof. unfold Clean. by rewrite bool_decide_eq_true_2. Qed.

Lemma resolve_comps base name :
  resolve base name = Join slash (clean_comps true (Split slash base ++ Split slash name)).
Proof.
  unfold resolve.
  assert (filter (λ e, e ≠ []) [[slash]; base; name] = [slash] :: filter (λ e, e ≠ []) [base] ++ filter (λ e, e ≠ []) [name])
    as Ef by (rewrite <- filter_app; by rewrite filter_cons_True).
  assert (∀ s, TrimPrefix (Clean (slash :: s)) = Join slash (clean_comps true (Split slash s))) as HC
    by (intros s; rewrite Clean_rooted; unfold TrimPrefix; by rewrite bool_decide_eq_true_2).
  assert (∀ e, filter (λ e : bytes, e ≠ []) [e] = if decide (e = []) then [] else [e]) as F1.
  { intros e. case_decide; [by rewrite filter_cons_False by tauto|by rewrite filter_cons_True]. }
  unfold path_Join. rewrite Ef, !F1.
  destruct (decide (base = [])) as [->|], (decide (name = [])) as [->|]; cbn [app Join].
  - by rewrite (HC []).
  - by rewrite (HC (slash :: name)).
  - rewrite (HC (slash :: base)). f_equal. by rewrite clean_comps_snoc_nil.
  - rewrite (HC (slash :: base ++ slash :: name)). f_equal. by rewrite <- Split_app.
Qed.

(** Cleaning resumes where it stopped: a clean prefix may be cut and joined. *)
Lemma clean_comps_resume cs1 cs2 : Forall (λ c, slash ∉ c) cs1 →
  clean_comps true (Split slash (Join slash (clean_comps true cs1)) ++ cs2) = clean_comps true (cs1 ++ cs2).
Proof.
  intros Hc. pose proof (clean_comps_proper cs1 Hc) as Hp.
  unfold clean_comps at 1 3. rewrite !foldl_app. f_equal. f_equal.
  assert (foldl (clean_step true) [] (Split slash (Join slash (clean_comps true cs1)))
    = foldl (clean_step true) [] (clean_comps true cs1)) as ->.
  { destruct (decide (clean_comps true cs1 = [])) as [->|Hne]; [done|].
    rewrite Split_Join; [done|done|]. eapply Forall_impl; [done|]. unfold proper. tauto. }
  rewrite foldl_keep by done. rewrite app_nil_r. unfold clean_comps. by rewrite reverse_involutive.
Qed.

(** Without ".." a name only goes down. *)
Lemma foldl_clean_down out cs : dotdot ∉ cs → ∃ down, foldl (clean_step true) out cs = down ++ out.
Proof.
  revert out. induction cs as [|c cs IH]; intros out Hc; cbn [foldl]; [by exists []|].
  destruct (IH (clean_step true out c)) as (down&->); [set_solver|].
  unfold clean_step. case_bool_decide; [by exists down|].
  rewrite bool_decide_eq_false_2 by set_solver. exists (down ++ [c]). by rewrite <- app_assoc.
Qed.

Lemma clean_comps_down cs1 cs2 : dotdot ∉ cs2 → clean_comps true cs1 `prefix_of` clean_comps true (cs1 ++ cs2).
Proof.
  intros Hc. unfold clean_comps. rewrite foldl_app.
  destruct (foldl_clean_down (foldl (clean_step true) [] cs1) cs2 Hc) as (down&->).
  rewrite reverse_app. by eexists.
Qed.

(** ** A link that stays up

    Its connection answers from the server's state and is alive whenever it is
    ready; operations then end with their first attempt. *)
Class Steady (N St : Type) `{Network N} (l : link) (serve : server St) : Type := {
  up_served : @Served N St (net_transport (l_conn l)) serve;
  up_alive w : @sv_ready N St (net_transport (l_conn l)) serve up_served w → net_alive (l_conn l) w = true;
}.

(** The manager of generation [g] on this link, with the server in state [st]. *)
Definition steady {N St : Type} `{Network N} (l : link) {serve : server St} `{!Steady N St l serve}
    (st : St) (q g : Z) (mw : connManager * N) : Prop :=
  mw.1 = installed g l ∧ @at_state N St (net_transport (l_conn l)) serve up_served st q mw.2.

Section steady.
Context {N St : Type} `{Network N} (l : link) {serve : server St} `{!Steady N St l serve}.
Context `{Norm} (base : Ctx) (Hl : live base = true) (q g : Z).

Abbreviation T := (net_transport (l_conn l)).
Abbreviation up st w := (@at_state N St T serve up_served st q w).

Lemma do_steady {A} (fn : operation (N := N) A) a w a' err w' st :
  fn (withTimeout base) (Some l) a w = Ret ((a', err), w') → up st w' →
  do base fn a (installed g l, w) = Ret ((a', err), (installed g l, w')).
Proof.
  intros E (Hr&_&_). eapply do_first; [done|exact E|]. right. exists (l_conn l). split; [done|]. by apply up_alive.
Qed.

(** One command through the manager. *)
Lemma vol_unit_steady op (request : Volume → bytes) st mw code rp st' :
  steady l st q g mw → serve CmdCommand 0 (request (l_vol l)) st = (code, rp, st') →
  ∃ mw', vol_unit base (λ T v ctx, @invoke N T ctx op (request v)) mw = Ret (lift_err (resultErr op (i32 code)), mw') ∧
    steady l st' q g mw'.
Proof.
  destruct mw as [m w]. intros [Em Hw] E. cbn [fst snd] in *. subst m.
  destruct (@invoke_served N St T serve up_served (withTimeout base) op _ w st q _ _ _ Hw Hl E) as (w'&Eq&Hw').
  exists (installed g l, w'). split; [|done]. unfold vol_unit.
  assert (do base (vol_op (λ T v ctx, @invoke N T ctx op (request v)) tt) tt (installed g l, w)
    = Ret ((tt, lift_err (resultErr op (i32 code))), (installed g l, w'))) as Ed; [|by rewrite (M_bind_ret _ _ _ _ _ Ed)].
  eapply do_steady; [|exact Hw']. unfold vol_op, deref. erewrite M_bind_ret by exact Eq.
  by destruct (resultErr op (i32 code)) as [[]|e].
Qed.

(** ** Directories

    The server keeps directories, among them those on the path of the
    components [cs]: [present st i] says that the first [i] of them name one.
    An FPCreateDir adds one that is not there, answers kFPObjectExists for one
    that is, and may refuse with any other code. *)
Definition makes_dirs (cs : list bytes) (present : St → nat → Prop) (refuses : St → nat → Z → Prop) : Prop :=
  ∀ st i, (0 < i ≤ length cs)%nat →
    ∃ code rp st',
      serve CmdCommand 0 (create_dir_request (l_vol l) RootDirID (Join slash (take i cs))) st = (u32 code, rp, st') ∧
      - 2 ^ 31 ≤ code < 2 ^ 31 ∧
      (code = ResNoErr ∧ (∀ j, present st' j ↔ present st j ∨ j = i) ∨
       (∀ j, present st' j ↔ present st j) ∧
         (code = ResObjectExists ∧ present st i ∨ code ≠ ResNoErr ∧ code ≠ ResObjectExists ∧ refuses st i code)).

Context (cs : list bytes) (present : St → nat → Prop) (refuses : St → nat → Z → Prop).
Context (Hm : makes_dirs cs present refuses).

(** The refusal of a directory as [MkdirAll] reports it. *)
Definition mkdir_refusal (sub : bytes) (code : Z) : error :=
  EPath "mkdir" sub (mapErr (EAfp (str "mkdir " ++ sub) code)).

(** What the loop leaves that starts with [from] components made: the prefixes
    up to [k], all of them or up to the one that was refused. *)
Definition mkdir_outcome (st : St) (from k : nat) (r : result unit) (st' : St) : Prop :=
  (∀ j, present st' j ↔ present st j ∨ (from < j ≤ k)%nat) ∧
  (r = Ok tt ∧ k = length cs ∨
   ∃ code stk, (k < length cs)%nat ∧ (∀ j, present stk j ↔ present st' j) ∧
     refuses stk (S k) code ∧ r = Err (mkdir_refusal (Join slash (take (S k) cs)) code)).

Lemma mkdir_step code sub :
  errors_is (mapErr (EAfp (str "mkdir " ++ sub) code)) EExist = bool_decide (code = ResObjectExists).
Proof.
  unfold mapErr. cbn [errors_as_afp]. case_bool_decide as H1.
  { rewrite (bool_decide_eq_false_2 (code = ResObjectExists)); [done|]. by intros ->; destruct H1 as [?|[?|?]]. }
  case_bool_decide as H2.
  { rewrite (bool_decide_eq_false_2 (code = ResObjectExists)); [done|]. by intros ->; destruct H2 as [?|?]. }
  case_bool_decide; done.
Qed.

Lemma mkdir_loop_spec before after st mw :
  cs = before ++ after → steady l st q g mw →
  ∃ r k st' mw', mkdir_loop base before after mw = Ret (r, mw') ∧ steady l st' q g mw' ∧
    (length before ≤ k)%nat ∧ mkdir_outcome st (length before) k r st'.
Proof.
  revert before st mw. induction after as [|c after IH]; intros before st mw Ecs Hw.
  { exists (Ok tt), (length before), st, mw. split; [done|]. split; [done|]. split; [done|]. split.
    - intros j. split; [by left|]. intros [?|?]; [done|lia].
    - left. split; [done|]. by rewrite Ecs, app_nil_r. }
  assert (take (S (length before)) cs = before ++ [c]) as Etk.
  { rewrite Ecs. replace (before ++ c :: after) with ((before ++ [c]) ++ after) by (by rewrite <- app_assoc).
    apply take_app_length'. rewrite length_app. cbn. lia. }
  destruct (Hm st (S (length before))) as (code&rp&st1&E&Hc&Hst); [rewrite Ecs, length_app; cbn; lia|].
  rewrite Etk in E.
  destruct (vol_unit_steady (str "mkdir " ++ Join slash (before ++ [c]))
    (λ v, create_dir_request v RootDirID (Join slash (before ++ [c]))) st mw _ rp st1 Hw E) as (mw1&Eq&Hw1).
  rewrite swrap_wrap, swrap_small in Eq by lia.
  set (sub := Join slash (before ++ [c])) in *.
  assert (∀ r, (code = ResNoErr ∨ code = ResObjectExists) → mkdir_loop base (before ++ [c]) after mw1 = r →
    mkdir_loop base before (c :: after) mw = r) as Hgo.
  { intros r Hcode <-. cbn [mkdir_loop]. fold sub. erewrite M_bind_ret by exact Eq.
    destruct Hcode as [->| ->]; done. }
  destruct (decide (code = ResNoErr ∨ code = ResObjectExists)) as [Hcode|Hcode].
  - destruct (IH (before ++ [c]) st1 mw1) as (r&k&st'&mw'&El&Hw'&Hk&Hd&Ho); [by rewrite <- app_assoc|done|].
    rewrite length_app in Hk, Hd. cbn [length] in Hk, Hd.
    exists r, k, st', mw'. split; [by apply Hgo|]. split; [done|]. split; [lia|]. split; [|done].
    intros j. rewrite Hd. assert (present st1 j ↔ present st j ∨ j = S (length before)) as ->.
    { destruct Hst as [[_ ->]|[-> [[-> Hh]|(?&?&_)]]]; [done| |tauto]. split; [by left|]. by intros [?| ->]. }
    split; [intros [[?|?]|?]; [by left|right; lia..]|].
    intros [?|?]; [by left; left|]. destruct (decide (j = S (length before))); [by left; right|right; lia].
  - destruct Hst as [[-> _]|[Hh [[-> _]|(Hc0&Hce&Hr)]]]; [tauto..|].
    exists (Err (mkdir_refusal sub code)), (length before), st1, mw1. split_and!; [|done|done|].
    + cbn [mkdir_loop]. fold sub. erewrite M_bind_ret by exact Eq. rewrite resultErr_err by done.
      cbn [lift_err]. rewrite mkdir_step, bool_decide_eq_false_2 by done. done.
    + split.
      * intros j. rewrite Hh. split; [by left|]. intros [?|?]; [done|lia].
      * right. exists code, st. rewrite Etk. fold sub. split_and!; [|done|done|done].
        rewrite Ecs, length_app. cbn. lia.
Qed.

(** ** Privileges *)

(** Looking an entry up and changing its privileges. *)
Lemma change_steady root name change st mw fbm dbm x st1 :
  steady l st q g mw → SupportsUnixPrivs (l_vol l) = true →
  0 ≤ fbm < 2 ^ 16 → 0 ≤ dbm < 2 ^ 16 → item_ok fbm dbm x →
  serve CmdCommand 0 (stat_request (l_vol l) RootDirID (resolve root name)) st = (0, stat_payload fbm dbm x, st1) →
  let '(uid, gid, mode) := change (e_UnixPrivs (item_entry fbm dbm x)) in
  ∀ code rp st2,
    serve CmdCommand 0 (unix_privs_request (l_vol l) RootDirID (resolve root name) uid gid mode) st1 = (code, rp, st2) →
    ∃ mw', change_privs base root name change mw
      = Ret (if bool_decide (i32 code = ResNoErr) then Ok tt
             else Err (mapErr (EAfp (str "set unix privs " ++ resolve root name) (i32 code))), mw') ∧
      steady l st2 q g mw'.
Proof.
  destruct mw as [m w]. intros [Em Hw] Hs Hf Hd Hp E1. cbn [fst snd] in *. subst m.
  set (p := resolve root name) in *.
  destruct (change (e_UnixPrivs (item_entry fbm dbm x))) as [[uid gid] mode] eqn:Ech. intros code rp st2 E2.
  destruct (@Stat_served N St T serve up_served _ (withTimeout base) _ _ p fbm dbm x w st q st1 Hw Hl Hf Hd Hp E1)
    as (w1&Es&Hw1).
  destruct (@invoke_served N St T serve up_served (withTimeout base) (str "set unix privs " ++ p) _ w1 st1 q _ _ _ Hw1 Hl E2)
    as (w2&Ei&Hw2).
  exists (installed g l, w2). split; [|done]. unfold change_privs.
  assert (supportsUnixPrivs base (installed g l, w) = Ret (true, (installed g l, w))) as Esu.
  { unfold supportsUnixPrivs.
    assert (do base (λ _ vol _, deref vol (λ l, mret (SupportsUnixPrivs (l_vol l), None))) false (installed g l, w)
      = Ret ((true, None), (installed g l, w))) as Ed; [|by rewrite (M_bind_ret _ _ _ _ _ Ed)].
    eapply do_steady; [|exact Hw]. unfold deref. by rewrite Hs. }
  rewrite (M_bind_ret _ _ _ _ _ Esu). cbn [negb].
  set (err := if bool_decide (i32 code = ResNoErr) then None
              else Some (mapErr (EAfp (str "set unix privs " ++ p) (i32 code)))).
  assert (do base (change_op p change) tt (installed g l, w) = Ret ((tt, err), (installed g l, w2))) as Ed;
    [|rewrite (M_bind_ret _ _ _ _ _ Ed); unfold err; by case_bool_decide].
  eapply do_steady; [|exact Hw2]. unfold change_op, deref.
  rewrite (M_bind_ret _ _ _ _ _ Es), Ech. unfold SetUnixPrivs.
  rewrite (M_bind_ret _ _ _ _ _ Ei). unfold err, resultErr. by case_bool_decide.
Qed.

(** The bits that [Chmod] sends. *)
Lemma chmod_bits mode old i : 0 ≤ i →
  Z.testbit (Z.lor (Z.land (u32 mode) 0xFFF) (Z.land old sIFMT)) i =
    (if bool_decide (i < 12) then Z.testbit mode i else bool_decide (i < 16) && Z.testbit old i).
Proof.
  intros Hi. rewrite Z.lor_spec, !Z.land_spec. change 0xFFF with (Z.ones 12).
  change sIFMT with (Z.shiftl (Z.ones 4) 12). rewrite Z.shiftl_spec by done.
  repeat case_bool_decide; try lia.
  - rewrite Z.ones_spec_low, (Z.testbit_neg_r (Z.ones 4)), !andb_false_r, andb_true_r, orb_false_r by lia.
    unfold wrap. rewrite Z.mod_pow2_bits_low by lia. done.
  - rewrite Z.ones_spec_high, (Z.ones_spec_low 4), andb_false_r, andb_true_r by lia. done.
  - rewrite !Z.ones_spec_high, !andb_false_r by lia. done.
Qed.

Lemma change_unsupported root name change st mw :
  steady l st q g mw → SupportsUnixPrivs (l_vol l) = false →
  change_privs base root name change mw = Ret (Ok tt, mw).
Proof.
  destruct mw as [m w]. intros [Em Hw] Hs. cbn [fst snd] in *. subst m. unfold change_privs.
  assert (supportsUnixPrivs base (installed g l, w) = Ret (false, (installed g l, w))) as Esu;
    [|by rewrite (M_bind_ret _ _ _ _ _ Esu)].
  unfold supportsUnixPrivs.
  assert (do base (λ _ vol _, deref vol (λ l, mret (SupportsUnixPrivs (l_vol l), None))) false (installed g l, w)
    = Ret ((false, None), (installed g l, w))) as Ed; [|by rewrite (M_bind_ret _ _ _ _ _ Ed)].
  eapply do_steady; [|exact Hw]. unfold deref. by rewrite Hs.
Qed.

(** ** Files

    What the server makes of one path: [Before] the file may or may not be
    there, [Closed] it is, [Open id] it is open under this fork. *)
Context `{ErrgroupLaw} (p : bytes) (Before Closed : St → Prop) (Open : Z → St → Prop) (content : St → bytes).

Record file_laws : Prop := {
  fl_create st : Before st → ∃ code rp st',
    serve CmdCommand 0 (create_file_request (l_vol l) RootDirID p false) st = (u32 code, rp, st') ∧
    (code = ResNoErr ∨ code = ResObjectExists) ∧ Closed st';
  fl_open st : Closed st → ∃ bm id tail st',
    serve CmdCommand 0 (open_fork_request (l_vol l) RootDirID p (Z.lor forkRead forkWrite)) st
      = (0, open_fork_payload bm id (len (content st)) tail, st') ∧
    0 ≤ id < 2 ^ 16 ∧ len (content st) < 2 ^ 64 ∧ Open id st';
  fl_truncate f st : Open (f_ID f) st → ∃ rp st',
    serve CmdCommand 0 (truncate_request f 0) st = (0, rp, st') ∧ Open (f_ID f) st' ∧ content st' = [];
  fl_write f : takes_writes (serve := serve) f q (Open (f_ID f)) content;
  fl_read f st : Open (f_ID f) st → serves_fork (serve := serve) f (content st) st;
}.

Context (L : file_laws).

(** The file is open on the link, for reading and writing [d]. *)
Definition open_on (f : File) (d : bytes) (mw : connManager * N) : Prop :=
  ∃ fork st, fl_fork f = Some (fork, l) ∧ fork_ok fork ∧ steady l st q g mw ∧ Open (f_ID fork) st ∧ content st = d.

(** [do] on an operation of an open file. *)
Lemma with_fork_steady {A} fn f (a a' : A) err fork w w' st :
  fl_fork f = Some (fork, l) → fn (withTimeout base) (fork, l) a w = Ret ((a', err), w') → up st w' →
  withFork base fn f a (installed g l, w) = Ret ((f, a', err), (installed g l, w')).
Proof.
  intros Ef E Hw. unfold withFork. eapply do_steady; [|exact Hw].
  unfold with_fork_op. rewrite (M_bind_ret _ _ _ _ _ (File_open_same (withTimeout base) l f fork w Ef)).
  by rewrite (M_bind_ret _ _ _ _ _ E).
Qed.

Lemma File_Write_steady f b d mw :
  open_on f d mw → 0 ≤ fl_cursor f → fl_cursor f + len b < 2 ^ 63 → b ≠ [] →
  ∃ mw', File_Write base f b mw
      = Ret ((set_size (fl_size f `max` (fl_cursor f + len b)) (set_cursor (fl_cursor f + len b) f), (len b, None)), mw') ∧
    open_on (set_size (fl_size f `max` (fl_cursor f + len b)) (set_cursor (fl_cursor f + len b) f))
      (splice d (fl_cursor f) b) mw'.
Proof.
  destruct mw as [m w]. intros (fork&st&Ef&Hok&[Em Hw]&Ho&Hd) Hc Hb Hne. cbn [fst snd] in *. subst m.
  pose proof (len_nonneg b).
  destruct (@WriteAt_spec N St T serve up_served _ _ fork q (Open (f_ID fork)) content Hok (fl_write L fork)
    (withTimeout base) b (fl_cursor f) d w Hl) as (w'&E&st'&Hw'&Ho'&Hd'); [by exists st|done|done|].
  rewrite bool_decide_eq_false_2 in Hd' by (destruct b; [done|rewrite len_cons; pose proof (len_nonneg b0); lia]).
  exists (installed g l, w'). split.
  - unfold File_Write. rewrite (M_bind_ret _ _ _ _ _ (with_fork_steady (write_op b (fl_cursor f)) f 0 _ None fork w w' st' Ef E Hw')).
    cbn [fl_cursor]. rewrite swrap_small by lia. cbn [set_cursor fl_size fl_cursor].
    unfold mret, M_ret. do 3 f_equal. case_bool_decide; unfold set_size, set_cursor; cbn; f_equal; f_equal; lia.
  - exists fork, st'. by split_and!.
Qed.

Lemma File_Read_steady f b d mw :
  open_on f d mw → 0 ≤ fl_cursor f → fl_cursor f + len b < 2 ^ 63 →
  let x := sub d (fl_cursor f) (fl_cursor f + len b) in
  ∃ err mw', File_Read base f b mw
      = Ret ((set_cursor (fl_cursor f + len x) f, (x ++ drop (length x) b, len x, err)), mw') ∧
    (err = None ∧ len x = len b ∨ err = Some EEOF ∧ len d ≤ fl_cursor f + len b ∧ 0 < len b).
Proof.
  destruct mw as [m w]. intros (fork&st&Ef&Hok&[Em Hw]&Ho&Hd) Hc Hb x. cbn [fst snd] in *. subst m.
  pose proof (len_nonneg b). pose proof (len_nonneg x).
  assert (len x ≤ len b) as Hx by (unfold x; etransitivity; [apply len_sub_le; lia|lia]).
  pose proof (fl_read L fork st Ho) as Hr. rewrite Hd in Hr.
  destruct (@ReadAt_spec N St T serve up_served _ _ fork d st q Hok Hr (withTimeout base) b (fl_cursor f) w Hw Hl Hc Hb)
    as (w'&err&E&Hw'&Herr).
  assert (read_op (fl_cursor f) (withTimeout base) (fork, l) (b, 0) w = Ret ((x ++ drop (length x) b, len x, err), w')) as E'
    by (unfold read_op; by rewrite (M_bind_ret _ _ _ _ _ E)).
  exists err, (installed g l, w'). split; [|done]. unfold File_Read.
  rewrite (M_bind_ret _ _ _ _ _ (with_fork_steady (read_op (fl_cursor f)) f (b, 0) _ err fork w w' st Ef E' Hw')).
  cbn [fl_cursor]. by rewrite swrap_small by lia.
Qed.

Lemma Create_steady root name st mw :
  steady l st q g mw → resolve root name = p → Before st →
  ∃ fork mw', Create base root name mw = Ret (Ok (MkFile name p true (Some (fork, l)) 0 0), mw') ∧
    open_on (MkFile name p true (Some (fork, l)) 0 0) [] mw'.
Proof.
  destruct mw as [m w]. intros [Em Hw] Ep Hb. cbn [fst snd] in *. subst m.
  destruct (fl_create L st Hb) as (code&rp1&s1&E1&Hcode&Hc1).
  destruct (@invoke_served N St T serve up_served (withTimeout base) (str "create " ++ p) _ w st q _ _ _ Hw Hl E1) as (w1&Q1&W1).
  assert (i32 (u32 code) = code) as Ecode by (by destruct Hcode as [->| ->]).
  rewrite Ecode in Q1.
  destruct (fl_open L s1 Hc1) as (bm&id&tail&s2&E2&Hid&Hlen&Ho2). pose proof (len_nonneg (content s1)).
  destruct (@openFork_at N St T serve up_served _ (l_vol l) RootDirID p q (withTimeout base) _ w1 s1 bm id (len (content s1))
    tail s2 W1 Hl Hid ltac:(done) E2) as (w2&Q2&W2).
  set (fork := MkFork (l_vol l) id (len (content s1)) readChunkSize maxConcurrentReads) in *.
  destruct (fl_truncate L fork s2 Ho2) as (rp3&s3&E3&Ho3&C3).
  destruct (@invoke_ok N St T serve up_served q (withTimeout base) (str "truncate") _ w2 s2 rp3 s3 W2 Hl E3) as (w3&Q3&W3).
  exists fork, (installed g l, w3). split; [|by exists fork, s3].
  unfold Create, OpenFile. rewrite Ep.
  set (f0 := MkFile name p (has _ _) None 0 0).
  assert (do base (open_op name (Z.lor (Z.lor O_RDWR O_CREATE) O_TRUNC)) f0 (installed g l, w)
    = Ret ((MkFile name p true (Some (fork, l)) 0 0, None), (installed g l, w3))) as Ed;
    [|by rewrite (M_bind_ret _ _ _ _ _ Ed)].
  eapply do_steady; [|exact W3]. unfold open_op. change (has _ O_CREATE) with true. cbn beta iota.
  assert (deref (Some l) (λ l,
      r ← @CreateFile N T _ (l_vol l) (withTimeout base) RootDirID p false;
      mret (match r with
            | Ok _ => None
            | Err err =>
              let e := mapErr err in
              if errors_is e EExist then
                if has (Z.lor (Z.lor O_RDWR O_CREATE) O_TRUNC) O_EXCL then Some (EPath "open" name EExist) else None
              else Some (EPath "open" name e)
            end)) w = Ret (None, w1)) as Ecr.
  { unfold deref, CreateFile. rewrite (M_bind_ret _ _ _ _ _ Q1). by destruct Hcode as [->| ->]. }
  cbn [fl_path f0]. rewrite (M_bind_ret _ _ _ _ _ Ecr). cbn beta iota.
  assert (File_open (withTimeout base) (Some l) f0 w1
    = Ret ((MkFile name p true (Some (fork, l)) 0 0, Ok (fork, l)), w2)) as Eop.
  { unfold File_open, reopen, deref, f0. cbn [fl_fork fl_writable fl_path]. change (has _ _) with true. cbn iota.
    unfold OpenForkRW. by rewrite (M_bind_ret _ _ _ _ _ Q2). }
  rewrite (M_bind_ret _ _ _ _ _ Eop). cbn beta iota.
  cbn [set_size fl_writable fl_name fl_path fl_fork fl_cursor]. change (has _ O_TRUNC) with true. cbn [andb].
  unfold Truncate. by rewrite (M_bind_ret _ _ _ _ _ Q3).
Qed.

End steady.

(** ** Examples of links and servers *)

#[global] Instance sim_steady {St : Type} (serve : server St) q v c : @Steady (net St) St (sim_network serve q v) (Manager.MkLink c v) serve.
Proof.
  refine (@Build_Steady (net St) St (sim_network serve q v) (Manager.MkLink c v) serve (sim_served serve q c) _).
  intros w Hw. by apply bool_decide_eq_true_2.
Defined.

(** Three nested directories, by the number of their components: the server
    refuses one that comes without its parent. *)
Definition dirs_server (v : Volume) (cs : list bytes) : server (list nat) := λ _ _ payload st,
  let asks i := bool_decide (payload = @create_dir_request plain_norm v RootDirID (Join slash (take i cs))) in
  let i := if asks 1%nat then 1%nat else if asks 2%nat then 2%nat else 3%nat in
  if bool_decide (i ∈ st) then (u32 ResObjectExists, [], st)
  else if bool_decide (i ≠ 1%nat ∧ pred i ∉ st) then (u32 ResDirNotFound, [], st)
  else (0, [], i :: st).

Definition abc : list bytes := [str "a"; str "b"; str "c"].

Lemma dirs_server_asked i st : (0 < i ≤ 3)%nat →
  dirs_server sample_volume abc CmdCommand 0 (@create_dir_request plain_norm sample_volume RootDirID (Join slash (take i abc))) st =
    if bool_decide (i ∈ st) then (u32 ResObjectExists, [], st)
    else if bool_decide (i ≠ 1%nat ∧ pred i ∉ st) then (u32 ResDirNotFound, [], st)
    else (0, [], i :: st).
Proof. intros Hi. destruct i as [|[|[|[|i]]]]; [lia|vm_compute; reflexivity..|lia]. Qed.

Lemma dirs_server_makes c :
  @makes_dirs _ (Manager.MkLink c sample_volume)
    (dirs_server sample_volume abc) plain_norm abc (λ st i, i ∈ st) (λ st i _, i ≠ 1%nat ∧ pred i ∉ st).
Proof.
  intros st i Hi. cbn [l_vol]. rewrite dirs_server_asked by done.
  case_bool_decide as H1; [|case_bool_decide as H2].
  - exists ResObjectExists, [], st. split; [done|]. split; [done|]. right. split; [done|]. by left.
  - exists ResDirNotFound, [], st. split; [done|]. split; [done|]. right. split; [done|]. by right.
  - exists ResNoErr, [], (i :: st). split; [done|]. split; [done|]. left. split; [done|]. set_solver.
Qed.

(** It shows every entry as the same file and keeps the last request that was
    no FPGetFileDirParms. *)
Definition privs_server : server bytes := λ _ _ payload st,
  if bool_decide (head payload = Some (byte_of_Z cmdGetFileDirParms))
  then (0, stat_payload 0xA92E 0x0100 (sample_item x00 (str "f")), st)
  else (0, [], payload).

(** The disk of one file, which exists and can be truncated. *)
Definition disk_file_server : server bytes := λ cmd off payload d,
  if bool_decide (head payload = Some (byte_of_Z cmdCreateFile)) then (u32 ResObjectExists, [], d)
  else if bool_decide (head payload = Some (byte_of_Z cmdSetForkParms)) then (0, [], [])
  else disk_server cmd off payload d.

Lemma disk_file_laws `{Norm} l q p :
  @file_laws _ l disk_file_server _ q p (λ d, len d < 2 ^ 64) (λ d, len d < 2 ^ 64) (λ _ _, True) id.
Proof.
  split.
  - intros d Hd. exists ResObjectExists, [], d. split; [|by split; [right|]].
    unfold create_file_request. by rewrite w_path_wire.
  - intros d Hd. exists kFPExtDataForkLenBit, 5, [], d. split; [|done].
    unfold open_fork_request. by rewrite w_path_wire.
  - intros f d _. by exists [], [].
  - intros f offset data d Hd H1 H2 H3 H4. exact (file_server_takes f q offset data d I H1 H2 H3 H4).
  - intros f d _ offset count H1 H2 H3. exact (file_server_serves f d offset count H1 H2 H3).
Qed.

(** ** Properties *)

(** C39: a name of the filesystem resolves to the path of proper components that
    its lexical reading from the root of the filesystem gives: no component is
    empty, "." or "..", resolving is idempotent, filesystems made by [Chroot]
    compose, and a name without ".." stays below the root that it is given to;
    one with ".." may leave it, so a [Chroot] does not confine. *)
Theorem resolve_exact root p name :
  let cs := clean_comps true (Split slash root ++ Split slash name) in
  resolve root name = Join slash cs ∧ Forall proper cs ∧
  resolve [] (resolve root name) = resolve root name ∧
  resolve (Chroot root p) name = Join slash (clean_comps true (Split slash root ++ Split slash p ++ Split slash name)) ∧
  (dotdot ∉ Split slash name → clean_comps true (Split slash root) `prefix_of` cs) ∧
  resolve (Chroot [] (str "share")) (str "../secret") = str "secret".
Proof.
  intros cs. pose proof (Split_no_sep slash root) as Hr. pose proof (Split_no_sep slash name) as Hn.
  assert (Forall (λ c, slash ∉ c) (Split slash root ++ Split slash name)) as Hrn by by apply Forall_app.
  split; [apply resolve_comps|]. split; [by apply clean_comps_proper|]. split_and!.
  - rewrite (resolve_comps [] (resolve root name)), clean_comps_Split_nil, resolve_comps.
    f_equal. rewrite <- (app_nil_r (Split slash (Join _ _))), clean_comps_resume by done. by rewrite app_nil_r.
  - unfold Chroot. rewrite (resolve_comps (resolve root p) name), (resolve_comps root p).
    rewrite clean_comps_resume by (apply Forall_app; split; [done|apply Split_no_sep]). by rewrite <- app_assoc.
  - apply clean_comps_down.
  - by vm_compute.
Qed.

Lemma resolve_exact_witness :
  resolve (str "pub") (str "a/./b//c") = str "pub/a/b/c" ∧ [str "pub"] `prefix_of` [str "pub"; str "a"; str "b"; str "c"].
Proof.
  pose proof (resolve_exact (str "pub") [] (str "a/./b//c")) as (E&_&_&_&H&_). split.
  - rewrite E. vm_compute. reflexivity.
  - assert (dotdot ∉ Split slash (str "a/./b//c")) as Hn.
    { apply (bool_decide_unpack _). vm_compute. exact I. }
    specialize (H Hn). vm_compute in H. exact H.
Defined.

(** C27: [MkdirAll] makes every directory on the path: whichever of them exist
    already, it leaves each prefix of the resolved path a directory and returns
    nil, or it stops at the first prefix that the server refuses, with the
    shorter ones made, the longer ones untouched, and that prefix and the mapped
    error in its error; a name that resolves to the root asks for nothing. *)
Theorem MkdirAll_makes {N St : Type} `{Network N} l {serve : server St} `{!Steady N St l serve} `{Norm}
    base q g root name st mw present refuses :
  let cs := clean_comps true (Split slash root ++ Split slash name) in
  live base = true → makes_dirs l (serve := serve) cs present refuses → steady l st q g mw →
  ∃ r k st' mw', MkdirAll base root name mw = Ret (r, mw') ∧ steady l st' q g mw' ∧
    (∀ j, present st' j ↔ present st j ∨ (0 < j ≤ k)%nat) ∧
    (r = Ok tt ∧ k = length cs ∨
     ∃ code stk, (k < length cs)%nat ∧ (∀ j, present stk j ↔ present st' j) ∧ refuses stk (S k) code ∧
       r = Err (mkdir_refusal (Join slash (take (S k) cs)) code)).
Proof.
  intros cs Hl Hm Hw. unfold MkdirAll. rewrite resolve_comps. fold cs.
  assert (Forall proper cs) as Hp by (apply clean_comps_proper, Forall_app; split; apply Split_no_sep).
  destruct (decide (cs = [])) as [E|Hne].
  - exists (Ok tt), 0%nat, st, mw. rewrite E. split; [done|]. split; [done|]. split; [|by left].
    intros j. split; [by left|]. intros [?|?]; [done|lia].
  - assert (Split slash (Join slash cs) = cs) as Es
      by (apply Split_Join; [done|]; eapply Forall_impl; [done|]; unfold proper; tauto).
    rewrite bool_decide_eq_false_2, Es.
    2:{ intros E0. rewrite E0 in Es. rewrite <- Es in Hp. cbn in Hp. apply Forall_inv in Hp. by destruct Hp. }
    destruct (mkdir_loop_spec l base Hl q g cs present refuses Hm [] cs st mw eq_refl Hw) as (r&k&st'&mw'&?&?&_&?&?).
    by exists r, k, st', mw'.
Qed.

Lemma MkdirAll_makes_witness :
  let net := @sim_network (list nat) (dirs_server sample_volume abc) 0 sample_volume in
  ∃ mw', @MkdirAll _ net plain_norm Background [] (str "/a/b/../b/c")
      (installed 1 (Manager.MkLink 4 sample_volume), MkNet [1%nat] 5 {[ 4%nat ]} false) = Ret (Ok tt, mw') ∧
    ∀ i, (0 < i ≤ 3)%nat → i ∈ n_server mw'.2.
Proof.
  intros net.
  destruct (@MkdirAll_makes (ManagerSpec.net (list nat)) (list nat) net (Manager.MkLink 4 sample_volume)
    (dirs_server sample_volume abc) (sim_steady _ _ _ _) plain_norm Background 0 1 [] (str "/a/b/../b/c") [1%nat]
    (installed 1 (Manager.MkLink 4 sample_volume), MkNet [1%nat] 5 {[ 4%nat ]} false)
    (λ st i, i ∈ st) (λ st i code, i ≠ 1%nat ∧ pred i ∉ st)) as (r&k&st'&mw'&E&[_ (_&Est&_)]&Hp&Hr).
  - reflexivity.
  - exact (dirs_server_makes 4).
  - split; [reflexivity|]. split; [|split; reflexivity]. cbn. set_solver.
  - destruct Hr as [[-> Hk]|(code&stk&_&Hs&[H1 H2]&_)].
    + exists mw'. split; [exact E|]. intros i Hi. cbn in Est. rewrite Est. apply Hp. right.
      rewrite Hk. exact Hi.
    + destruct H2. apply Hs, Hp. right. cbn. split; [|reflexivity]. destruct k; [destruct H1; reflexivity|lia].
Defined.

(** Changing privileges changes what was asked and nothing else: [Chmod] sends
    the entry's owner and group as they are, the low 12 bits of the mode and the
    file-type bits that the entry has; [chown] sends the mode as it is and each
    id that is not negative; the server's refusal comes back with the mapped
    error; and on a volume without privileges both are no-ops. *)
Theorem change_privs_exact {N St : Type} `{Network N} l {serve : server St} `{!Steady N St l serve} `{Norm}
    base q g root name st mw fbm dbm x st1 :
  live base = true → steady l st q g mw →
  0 ≤ fbm < 2 ^ 16 → 0 ≤ dbm < 2 ^ 16 → item_ok fbm dbm x →
  serve CmdCommand 0 (stat_request (l_vol l) RootDirID (resolve root name)) st = (0, stat_payload fbm dbm x, st1) →
  let u := e_UnixPrivs (item_entry fbm dbm x) in
  let sends op uid gid mode := ∀ code rp st2,
    serve CmdCommand 0 (unix_privs_request (l_vol l) RootDirID (resolve root name) uid gid mode) st1 = (code, rp, st2) →
    ∃ mw', op mw = Ret (if bool_decide (i32 code = ResNoErr) then Ok tt
                        else Err (mapErr (EAfp (str "set unix privs " ++ resolve root name) (i32 code))), mw') ∧
      steady l st2 q g mw' in
  if SupportsUnixPrivs (l_vol l) then
    (∀ mode, ∃ perm, sends (Chmod base root name mode) (UID u) (GID u) perm ∧
       ∀ i, 0 ≤ i → Z.testbit perm i =
         (if bool_decide (i < 12) then Z.testbit mode i
          else bool_decide (i < 16) && Z.testbit (Permissions u) i)) ∧
    (∀ uid gid, sends (chown base root name uid gid) (if bool_decide (0 ≤ uid) then u32 uid else UID u)
       (if bool_decide (0 ≤ gid) then u32 gid else GID u) (Permissions u))
  else ∀ mode uid gid, Chmod base root name mode mw = Ret (Ok tt, mw) ∧ chown base root name uid gid mw = Ret (Ok tt, mw).
Proof.
  intros Hl Hw Hf Hd Hx E u sends. destruct (SupportsUnixPrivs (l_vol l)) eqn:Hs.
  - split.
    + intros mode. exists (Z.lor (Z.land (u32 mode) 0xFFF) (Z.land (Permissions u) sIFMT)). split.
      * intros code rp st2 E2.
        by apply (change_steady l base Hl q g root name (chmod_privs mode) st mw fbm dbm x st1 Hw Hs Hf Hd Hx E code rp st2).
      * intros i Hi. apply chmod_bits. done.
    + intros uid gid code rp st2 E2.
      by apply (change_steady l base Hl q g root name (chown_privs uid gid) st mw fbm dbm x st1 Hw Hs Hf Hd Hx E code rp st2).
  - intros mode uid gid. split; by eapply change_unsupported.
Qed.

Lemma change_privs_exact_witness :
  let net := @sim_network bytes privs_server 0 sample_volume in
  ∃ mw', @Chmod _ net plain_norm Background [] (str "f") 0x1A0
      (installed 1 (Manager.MkLink 4 sample_volume), MkNet [] 5 {[ 4%nat ]} false) = Ret (Ok tt, mw').
Proof.
  intros net.
  pose proof (@change_privs_exact (ManagerSpec.net bytes) bytes net (Manager.MkLink 4 sample_volume)
    privs_server (sim_steady _ _ _ _) plain_norm Background 0 1 [] (str "f") []
    (installed 1 (Manager.MkLink 4 sample_volume), MkNet [] 5 {[ 4%nat ]} false)
    0xA92E 0x0100 (sample_item x00 (str "f")) []) as C.
  cbv zeta in C. destruct C as [C _].
  - reflexivity.
  - split; [reflexivity|]. split; [|split; reflexivity]. cbn. set_solver.
  - split; [vm_compute; congruence|reflexivity].
  - split; [vm_compute; congruence|reflexivity].
  - repeat split; vm_compute; congruence.
  - vm_compute. reflexivity.
  - destruct (C 0x1A0) as (perm&S&_). edestruct (S 0 []) as (mw'&E&_); [reflexivity|exists mw'; exact E].
Defined.

(** C16: what is written is read back: on a link that stays up, against a server
    that keeps the bytes of the file, [Create] opens the file empty whether it
    existed or not, a [Write] of any bytes reports them all and sets the size,
    and after a [Seek] to the start a [Read] into a buffer of any length returns
    exactly the written bytes, as many as fit, with [io.EOF] only at their end. *)
Theorem create_write_read {N St : Type} `{Network N} l {serve : server St} `{!Steady N St l serve}
    `{Norm} `{ErrgroupLaw} base q g p Before Closed Open content root name st mw data buf :
  live base = true → file_laws l (serve := serve) q p Before Closed Open content →
  steady l st q g mw → resolve root name = p → Before st →
  data ≠ [] → len data < 2 ^ 63 → len buf < 2 ^ 63 →
  let x := take (length buf) data in
  ∃ f0 mw1 f1 mw2 f2 err mw3,
    Create base root name mw = Ret (Ok f0, mw1) ∧
    File_Write base f0 data mw1 = Ret ((f1, (len data, None)), mw2) ∧ fl_size f1 = len data ∧
    File_Read base (File_Seek f1 0 SeekStart).1 buf mw2 = Ret ((f2, (x ++ drop (length x) buf, len x, err)), mw3) ∧
    (err = None ∧ len x = len buf ∨ err = Some EEOF ∧ len data ≤ len buf ∧ 0 < len buf).
Proof.
  intros Hl L Hw Hp Hb Hne Hd Hbuf x. pose proof (len_nonneg data).
  destruct (Create_steady l base Hl q g p Before Closed Open content L root name st mw Hw Hp Hb) as (fork&mw1&E1&Ho1).
  set (f0 := MkFile name p true (Some (fork, l)) 0 0) in *.
  destruct (File_Write_steady l base Hl q g p Before Closed Open content L f0 data [] mw1 Ho1) as (mw2&E2&Ho2); try done.
  cbn [fl_cursor f0] in E2, Ho2. rewrite splice_empty in Ho2. rewrite Z.add_0_l in *.
  set (f1 := set_size _ _) in *.
  assert (open_on l q g Open content (File_Seek f1 0 SeekStart).1 data mw2) as Ho2' by exact Ho2.
  destruct (File_Read_steady l base Hl q g p Before Closed Open content L (File_Seek f1 0 SeekStart).1 buf data mw2 Ho2')
    as (err&mw3&E3&Herr); [done|done|].
  change (fl_cursor (File_Seek f1 0 SeekStart).1) with 0 in *.
  assert (sub data 0 (0 + len buf) = x) as Ex by (unfold sub, x, len; cbn; f_equal; lia).
  rewrite Ex in *. do 7 eexists. split; [exact E1|]. split; [exact E2|].
  split; [cbn [f1 set_size fl_size f0]; lia|]. split; [exact E3|]. done.
Qed.

Lemma create_write_read_witness :
  let net := @sim_network bytes disk_file_server 0 sample_volume in
  ∃ f0 mw1 f1 mw2 f2 err mw3,
    @Create _ net plain_norm Background (str "pub") (str "notes.txt")
      (installed 1 (Manager.MkLink 4 sample_volume), MkNet (str "old") 5 {[ 4%nat ]} false) = Ret (Ok f0, mw1) ∧
    @File_Write _ net plain_norm in_order Background f0 (str "hello") mw1 = Ret ((f1, (5, None)), mw2) ∧
    @File_Read _ net plain_norm in_order Background (File_Seek f1 0 SeekStart).1 (str "........") mw2
      = Ret ((f2, (str "hello...", 5, err)), mw3).
Proof.
  intros net.
  destruct (@create_write_read (ManagerSpec.net bytes) bytes net (Manager.MkLink 4 sample_volume)
    disk_file_server (sim_steady _ _ _ _) plain_norm in_order in_order_law Background 0 1 (str "pub/notes.txt")
    (λ d, len d < 2 ^ 64) (λ d, len d < 2 ^ 64) (λ _ _, True) id (str "pub") (str "notes.txt") (str "old")
    (installed 1 (Manager.MkLink 4 sample_volume), MkNet (str "old") 5 {[ 4%nat ]} false) (str "hello") (str "........"))
    as (f0&mw1&f1&mw2&f2&err&mw3&E1&E2&_&E3&_).
  - reflexivity.
  - apply disk_file_laws.
  - split; [reflexivity|]. split; [|split; reflexivity]. cbn. set_solver.
  - vm_compute. reflexivity.
  - vm_compute. reflexivity.
  - discriminate.
  - reflexivity.
  - reflexivity.
  - exists f0, mw1, f1, mw2, f2, err, mw3. split; [exact E1|]. split; [exact E2|exact E3].
Defined.

(** A server of one file that is there or not. *)
Definition one_file_server : server bool := λ _ _ payload there,
  if bool_decide (head payload = Some (byte_of_Z cmdDelete))
  then if there then (0, [], false) else (u32 ResObjectNotFound, [], false)
  else (u32 ResParamErr, [], there).

(** The retry repeats operations that are not idempotent: when the link drops
    after the server has executed an FPDelete and before its reply arrives, the
    second attempt finds nothing and [Remove] reports that the file did not
    exist, although it has removed it. *)
Theorem retry_repeats name :
  let net := @fnet_network bool one_file_server 0 sample_volume in
  ∃ mw', @FS_Remove _ net plain_norm Background [] name
      (installed 1 (Manager.MkLink 0 sample_volume), MkFnet true 1 {[ 0%nat ]} [Some true])
      = Ret (Err (EPath "remove" name ENotExist), mw') ∧ fn_server mw'.2 = false.
Proof. eexists. split; vm_compute; reflexivity. Qed.

(** Goroutines 1 and 2 fail on link 0 and 1 replaces it; before 2 reads the
    volume again, 3 finds the new link dead and fails to replace that. *)
Definition race : list maction :=
  [MStart 1; MStart 2; MDrop 0; MFirst 1 (Some EEOF); MFirst 2 (Some EEOF);
   MReconnect 1; MDialled 1 (Ok (some_link 7)); MReconnect 2;
   MStart 3; MDrop 7; MFirst 3 (Some EEOF); MReconnect 3; MDialled 3 (Err EEOF); MReload 2; MRetry 2 None].

(** C35: the window between reconnecting and reading the volume again: without a
    failed dial no operation is ever given a nil volume, and with one it can be:
    an operation whose reconnect found a newer generation goes on to read the
    volume that another goroutine's failed dial has just set to nil.  Every
    operation of the bridge then dereferences it (methods of the volume, reading,
    writing and truncating a file, opening one, changing times or privileges or
    asking for them), but for closing a file, which compares the volume first. *)
Theorem nil_volume_race :
  (∀ s, mreachable s → ms_nil s = true → (0 < ms_failed s)%nat) ∧
  (∃ s, mreachable s ∧ ms_nil s = true) ∧
  (∀ (N : Type) `{Network N} `{Norm} `{Errgroup} ctx w,
     (∀ A op (a0 a : A), vol_op op a0 ctx None a w = Panics) ∧
     (∀ A fn f (a : A), with_fork_op fn ctx None (f, a) w = Panics) ∧
     (∀ filename flag f, open_op filename flag ctx None f w = Panics) ∧
     (∀ p change, change_op p change ctx None tt w = Panics) ∧
     (∀ p mtime, chtimes_op p mtime ctx None tt w = Panics) ∧
     supports_op ctx None false w = Panics ∧
     (∀ fork vol, close_op fork vol ctx None tt w = Ret ((tt, None), w))).
Proof.
  split; [intros s Hs; apply (i_nil s), mreachable_inv, Hs|]. split.
  - destruct (mrun race (init_msys (some_link 0))) as [s|] eqn:E; [|vm_compute in E; discriminate].
    exists s. split; [exists (some_link 0); by eapply mrun_rtc|].
    vm_compute in E. by injection E as <-.
  - intros N HN Hn He ctx w.
    assert (∀ f, File_open ctx None f w = Panics) as Hopen by (intros f; unfold File_open; by destruct (fl_fork f) as [[fork l]|]).
    split_and!; try done.
    + intros A fn f a. unfold with_fork_op, mbind, M_bind. by rewrite Hopen.
    + intros filename flag f. unfold open_op, mbind, M_bind. destruct (has flag O_CREATE); [done|]. cbn. by rewrite Hopen.
Qed.
