(* ===== verification/Url.v ===== *)
(** * Addresses and URLs

    [parseTarget] of src/cmd/goafp/main.go, with what it uses of net/url
    (as of Go 1.26), and the address of [Dial] in src/internal/dsi/conn.go,
    with what it uses of package net.  Whether the text between square brackets
    is an IPv6 address is left to a parameter, [NetIP]. *)

From S2P Require Import Prelude Wire Session Ops.

Open Scope go_scope.

(** ** Strings *)

(** [strings.Cut] at a byte: before, after, and whether it was found. *)
Fixpoint Cut (c : byte) (s : bytes) : bytes * bytes * bool :=
  match s with
  | [] => ([], [], false)
  | x :: s' =>
    if bool_decide (x = c) then ([], s', true)
    else let '(a, b, found) := Cut c s' in (x :: a, b, found)
  end.

Fixpoint HasPrefix (p s : bytes) : bool :=
  match p, s with
  | [], _ => true
  | x :: p', y :: s' => bool_decide (x = y) && HasPrefix p' s'
  | _, _ => false
  end.

Fixpoint Contains (p s : bytes) : bool :=
  HasPrefix p s || match s with [] => false | _ :: s' => Contains p s' end.

Definition in_range (lo hi : Z) (c : byte) : bool := bool_decide (lo ≤ bZ c) && bool_decide (bZ c ≤ hi).
Definition is_upper : byte → bool := in_range 65 90.
Definition is_lower : byte → bool := in_range 97 122.
Definition is_digit : byte → bool := in_range 48 57.
Definition is_alnum (c : byte) : bool := is_upper c || is_lower c || is_digit c.
Definition one_of (l : bytes) (c : byte) : bool := bool_decide (c ∈ l).

Definition ToLower (s : bytes) : bytes :=
  (λ c, if is_upper c then byte_of_Z (bZ c + 32) else c) <$> s.

(** ** net/url *)

Definition percent : byte := x25.

Inductive encoding : Type := encodePath | encodeUserPassword | encodeHost | encodeZone | encodeFragment.
#[global] Instance encoding_eq_dec : EqDecision encoding.
Proof. solve_decision. Defined.

Definition unhex (c : byte) : option Z :=
  if is_digit c then Some (bZ c - 48)
  else if in_range 97 102 c then Some (bZ c - 87)
  else if in_range 65 70 c then Some (bZ c - 55)
  else None.

(** [shouldEscape] in the two modes of the host that [unescape] asks about. *)
Definition shouldEscape_host (c : byte) : bool :=
  negb (is_alnum c || one_of (str "!$&'()*+,;=:[]<>" ++ [x22] ++ str "-_.~") c).

Definition EscapeError (s : bytes) : error := EErrorf "invalid URL escape %q" [FS (take 3 s)].

Definition host_mode (mode : encoding) : bool := bool_decide (mode = encodeHost ∨ mode = encodeZone).

(** The escapes that a host may not use. *)
Definition escape_refused (mode : encoding) (x y : Z) : bool :=
  match mode with
  | encodeHost => bool_decide (x < 8) && negb (bool_decide (x = 2 ∧ y = 5))
  | encodeZone =>
    let v := 16 * x + y in
    negb (bool_decide (x = 2 ∧ y = 5)) && negb (bool_decide (v = 32)) && shouldEscape_host (byte_of_Z v)
  | _ => false
  end.

Fixpoint unescape (mode : encoding) (s : bytes) : result bytes :=
  match s with
  | [] => Ok []
  | c :: s1 =>
    if bool_decide (c = percent) then
      match s1 with
      | a :: b :: s2 =>
        match unhex a, unhex b with
        | Some x, Some y =>
          if escape_refused mode x y then Err (EscapeError s)
          else r ← unescape mode s2; Ok (byte_of_Z (16 * x + y) :: r)
        | _, _ => Err (EscapeError s)
        end
      | _ => Err (EscapeError s)
      end
    else if host_mode mode && bool_decide (bZ c < 0x80) && shouldEscape_host c then
      Err (EErrorf "invalid character %q in host name" [FS [c]])
    else r ← unescape mode s1; Ok (c :: r)
  end.

(** [getScheme]: the scheme and the rest. *)
Fixpoint scheme_loop (first : bool) (s : bytes) : result (option (bytes * bytes)) :=
  match s with
  | [] => Ok None
  | c :: s' =>
    if is_upper c || is_lower c || (is_digit c || one_of (str "+-.") c) && negb first then
      r ← scheme_loop false s';
      Ok (match r with Some (scheme, rest) => Some (c :: scheme, rest) | None => None end)
    else if bool_decide (c = x3a) then
      if first then Err (EErrorf "missing protocol scheme" []) else Ok (Some ([], s'))
    else Ok None
  end.

Definition getScheme (s : bytes) : result (bytes * bytes) :=
  r ← scheme_loop true s; Ok (match r with Some p => p | None => ([], s) end).

Definition validOptionalPort (port : bytes) : bool :=
  match port with
  | [] => true
  | c :: port' => bool_decide (c = x3a) && forallb is_digit port'
  end.

Definition validUserinfo (s : bytes) : bool :=
  forallb (λ c, is_alnum c || one_of (str "-._:~!$&'()*+,;=%@") c) s.

(** [netip.ParseAddr] accepts the text, as an IPv6 address. *)
Class NetIP : Type := { ParseAddr6 : bytes → bool }.

(** The first occurrence of a substring splits a string. *)
Fixpoint split_at (p s : bytes) : option (bytes * bytes) :=
  if HasPrefix p s then Some ([], s)
  else match s with
       | [] => None
       | c :: s' => match split_at p s' with Some (a, b) => Some (c :: a, b) | None => None end
       end.

Record URL : Type := MkURL {
  u_Scheme : bytes;
  u_User : option (bytes * bytes);   (* Username, Password *)
  u_Host : bytes;
  u_Path : bytes;
}.

Section url.
Context `{NetIP}.

(** [parseHost]: an IPv6 literal in brackets, or a name with at most a port. *)
Definition parseHost (host : bytes) : result bytes :=
  match LastIndex x5b host with
  | Some (S _) => Err (EErrorf "invalid IP-literal" [])
  | Some O =>
    match LastIndex x5d host with
    | None => Err (EErrorf "missing ']' in host" [])
    | Some i =>
      let colonPort := drop (S i) host in
      if negb (validOptionalPort colonPort) then
        Err (EErrorf "invalid port %q after host" [FS colonPort]) else
      port ← unescape encodeHost colonPort;
      let hostname := drop 1 (take i host) in
      name ← (match split_at (str "%25") hostname with
              | Some (host_part, zone_part) =>
                a ← unescape encodeHost host_part;
                z ← unescape encodeZone zone_part;
                Ok (a ++ z)
              | None => unescape encodeHost hostname
              end);
      if ParseAddr6 name then Ok ([x5b] ++ name ++ [x5d] ++ port)
      else Err (EErrorf "invalid IP-literal" [])
    end
  | None =>
    let '(_, port, found) := Cut x3a host in
    if found && negb (validOptionalPort (x3a :: port)) then
      Err (EErrorf "invalid port %q after host" [FS (x3a :: port)])
    else unescape encodeHost host
  end.

Definition parseAuthority (authority : bytes) : result (option (bytes * bytes) * bytes) :=
  match LastIndex x40 authority with
  | None => host ← parseHost authority; Ok (None, host)
  | Some i =>
    host ← parseHost (drop (S i) authority);
    let userinfo := take i authority in
    if negb (validUserinfo userinfo) then Err (EErrorf "net/url: invalid userinfo" []) else
    let '(username, password, found) := Cut x3a userinfo in
    user ← unescape encodeUserPassword username;
    pass ← unescape encodeUserPassword password;
    Ok (Some (user, pass), host)
  end.

(** [parse], and [Parse] with its fragment.  An opaque URL has no path. *)
Definition parse (raw : bytes) : result URL :=
  if existsb (λ c, bool_decide (bZ c < 0x20) || bool_decide (bZ c = 0x7f)) raw then
    Err (EErrorf "net/url: invalid control character in URL" [])
  else if bool_decide (raw = str "*") then Ok (MkURL [] None [] (str "*")) else
  '(scheme, rest) ← getScheme raw;
  let scheme := ToLower scheme in
  let '(rest, _, _) := Cut x3f rest in
  if negb (HasPrefix [slash] rest) && negb (bool_decide (scheme = [])) then Ok (MkURL scheme None [] [])
  else if negb (HasPrefix [slash] rest) && bool_decide (x3a ∈ (Cut slash rest).1.1) then
    Err (EErrorf "first path segment in URL cannot contain colon" [])
  else if (negb (bool_decide (scheme = [])) || negb (HasPrefix [slash; slash; slash] rest))
          && HasPrefix [slash; slash] rest then
    let '(authority, path, found) := Cut slash (drop 2 rest) in
    '(user, host) ← parseAuthority authority;
    path ← unescape encodePath (if found then slash :: path else []);
    Ok (MkURL scheme user host path)
  else
    path ← unescape encodePath rest;
    Ok (MkURL scheme None [] path).

Definition url_Parse (raw : bytes) : result URL :=
  let '(u, frag, _) := Cut x23 raw in
  match parse u with
  | Err e => Err (EWrapf "parse %q: %w" [FS u] e)
  | Ok url =>
    match unescape encodeFragment frag with
    | Err e => Err (EWrapf "parse %q: %w" [FS raw] e)
    | Ok _ => Ok url
    end
  end.

(** ** Targets *)

Record target : Type := MkTarget {
  t_host : bytes;
  t_username : bytes;
  t_password : bytes;
  t_volume : bytes;
  t_path : bytes;
}.

(** The checks and fields of [parseTarget] once the URL is parsed. *)
Definition target_of (u : URL) : result target :=
  if bool_decide (u_Scheme u ≠ str "afp") then
    Err (EErrorf "unsupported scheme %q (want afp://)" [FS (u_Scheme u)])
  else
  let '(username, password) := default ([], []) (u_User u) in
  let '(volume, path, _) := Cut slash (Trim slash (u_Path u)) in
  Ok (MkTarget (u_Host u) username password volume path).

Definition parseTarget (raw : bytes) : result target :=
  let raw := if Contains (str "://") raw then raw else str "afp://" ++ raw in
  u ← url_Parse raw;
  target_of u.

End url.

(** ** The address of [Dial] *)

(** Whether [net.SplitHostPort] succeeds: the last colon ends the host, which is
    in brackets or has no other colon, and there are no stray brackets. *)
Definition SplitHostPort_ok (hostport : bytes) : bool :=
  match LastIndex x3a hostport with
  | None => false
  | Some i =>
    if bool_decide (head hostport = Some x5b) then
      match split_at [x5d] hostport with
      | None => false
      | Some (before, _) =>
        let close := length before in
        bool_decide (S close = i) && negb (bool_decide (x5b ∈ drop 1 hostport))
        && negb (bool_decide (x5d ∈ drop (S close) hostport))
      end
    else negb (bool_decide (x3a ∈ take i hostport)) && negb (bool_decide (x5b ∈ hostport))
         && negb (bool_decide (x5d ∈ hostport))
  end.

Definition JoinHostPort (host port : bytes) : bytes :=
  if bool_decide (x3a ∈ host) then [x5b] ++ host ++ [x5d; x3a] ++ port else host ++ [x3a] ++ port.

(** The address that [Dial] connects to. *)
Definition dial_addr (addr : bytes) : bytes :=
  if SplitHostPort_ok addr then addr else JoinHostPort addr (str "548").
