(* ===== verification/UrlSpec.v ===== *)
(** * Addresses and URLs: what is parsed back

    A target formatted as a URL parses to itself, whatever bytes its names have;
    and the addresses that [Dial] connects to. *)

From S2P Require Import Prelude Wire Session Ops OpsSpec Url.

Open Scope go_scope.

(** ** Percent-encoding *)





(** [spelled lit s e]: the text [e] spells the bytes [s]: each is written as it
    is, where [lit] allows that, or as a percent sign and two hexadecimal digits
    of either case. *)
Inductive spelled (lit : byte → bool) : bytes → bytes → Prop :=
| spelled_nil : spelled lit [] []
| spelled_lit c s e : lit c = true → spelled lit s e → spelled lit (c :: s) (c :: e)
| spelled_hex a b x y s e : unhex a = Some x → unhex b = Some y → spelled lit s e →
    spelled lit (byte_of_Z (16 * x + y) :: s) (percent :: a :: b :: e).






Lemma spelled_app lit s1 e1 s2 e2 : spelled lit s1 e1 → spelled lit s2 e2 → spelled lit (s1 ++ s2) (e1 ++ e2).
Proof. induction 1; cbn; [done|by constructor; auto|intros; constructor; auto]. Qed.


(** ** Cutting *)



Lemma LastIndex_app c a b : c ∉ b → LastIndex c (a ++ c :: b) = Some (length a).
Proof.
  intros Hb. assert (LastIndex c b = None) as E by by apply LastIndex_None.
  induction a as [|x a IH]; cbn; [by rewrite E, bool_decide_eq_true_2|by rewrite IH].
Qed.

Lemma LastIndex_app_absent c a b : c ∉ b → LastIndex c (a ++ b) = LastIndex c a.
Proof. intros Hb. induction a as [|x a IH]; cbn; [by apply LastIndex_None|by rewrite IH]. Qed.

Lemma LastIndex_lt c s i : LastIndex c s = Some i → (i < length s)%nat.
Proof.
  revert i. induction s as [|x s IH]; intros i; cbn; [done|].
  destruct (LastIndex c s) as [j|]; [intros [= <-]; specialize (IH j eq_refl); lia|].
  case_bool_decide; [intros [= <-]; lia|done].
Qed.

Lemma split_at_byte c a b : c ∉ a → split_at [c] (a ++ c :: b) = Some (a, c :: b).
Proof.
  induction a as [|x a IH]; intros Hc; cbn; [by rewrite bool_decide_eq_true_2|].
  rewrite bool_decide_eq_false_2 by set_solver. cbn [andb]. by rewrite IH by set_solver.
Qed.

Lemma TrimLeft_id c s : head s ≠ Some c → TrimLeft c s = s.
Proof. destruct s as [|x s]; cbn; intros Hh; [done|]. rewrite bool_decide_eq_false_2; [done|congruence]. Qed.

Lemma Trim_inside c s : head s ≠ Some c → last s ≠ Some c → Trim c (c :: s) = s.
Proof.
  intros Hh Hl. unfold Trim. cbn [TrimLeft]. rewrite bool_decide_eq_true_2 by done.
  rewrite TrimLeft_id by done. unfold TrimRight.
  rewrite TrimLeft_id by (by rewrite head_reverse). apply reverse_involutive.
Qed.

(** ** Targets as URLs *)







(** ** Hosts *)

(** The bytes of a host, which end neither the authority nor the user information. *)
Definition host_byte (c : byte) : bool := is_alnum c || one_of (str "-.:[]%_~") c.





Lemma host_byte_of P c : P c = true → (∀ c, P c = true → host_byte c = true) → host_byte c = true.
Proof. auto. Qed.









Section parsing.
Context `{NetIP}.



(** ** The authority *)




(** ** The path *)




(** ** The whole URL *)



End parsing.




(** ** Properties *)




(** C40: [Dial] completes exactly the addresses that lack a port: a host name
    without colon or bracket and a bare IPv6 address (two colons or more) get
    the AFP port 548, an address with a port is used as it is; but an IPv6
    literal in brackets without a port, the form that a URL gives, is put into
    brackets once more. *)
Theorem dial_addr_exact h port :
  x5b ∉ h → x5d ∉ h → x3a ∉ port → x5b ∉ port → x5d ∉ port →
  (x3a ∉ h → dial_addr h = h ++ str ":548" ∧ dial_addr (h ++ x3a :: port) = h ++ x3a :: port) ∧
  dial_addr (x5b :: h ++ x5d :: x3a :: port) = x5b :: h ++ x5d :: x3a :: port ∧
  (∀ a b c, h = a ++ x3a :: b ++ x3a :: c → x3a ∉ c → dial_addr h = x5b :: h ++ str "]:548") ∧
  (x3a ∈ h → dial_addr (x5b :: h ++ [x5d]) = str "[[" ++ h ++ str "]]:548").
Proof.
  intros Ho Hc Hp Hpo Hpc. split_and!.
  - intros Hh. split.
    + unfold dial_addr, SplitHostPort_ok. rewrite (proj2 (LastIndex_None x3a h)) by done.
      unfold JoinHostPort. by rewrite bool_decide_eq_false_2.
    + unfold dial_addr. assert (SplitHostPort_ok (h ++ x3a :: port) = true) as ->; [|done].
      unfold SplitHostPort_ok. rewrite LastIndex_app by done.
      rewrite bool_decide_eq_false_2 by (destruct h; cbn; set_solver).
      rewrite take_app_length, !bool_decide_eq_false_2 by set_solver. done.
  - unfold dial_addr. assert (SplitHostPort_ok (x5b :: h ++ x5d :: x3a :: port) = true) as ->; [|done].
    unfold SplitHostPort_ok.
    replace (x5b :: h ++ x5d :: x3a :: port) with ((x5b :: h ++ [x5d]) ++ x3a :: port) by (cbn; by rewrite <- app_assoc).
    rewrite LastIndex_app by done. rewrite bool_decide_eq_true_2 by done.
    replace ((x5b :: h ++ [x5d]) ++ x3a :: port) with ((x5b :: h) ++ x5d :: x3a :: port) by (cbn; by rewrite <- app_assoc).
    rewrite split_at_byte by set_solver. rewrite bool_decide_eq_true_2 by (cbn; rewrite length_app; cbn; lia).
    rewrite (drop_app_ge _ _ (S (length (x5b :: h)))) by lia.
    replace (S (length (x5b :: h)) - length (x5b :: h))%nat with 1%nat by lia.
    cbn [app drop]. rewrite drop_0. rewrite !bool_decide_eq_false_2; [done|set_solver..].
  - intros a b c Eh Hcc. unfold dial_addr, SplitHostPort_ok. subst h.
    replace (a ++ x3a :: b ++ x3a :: c) with ((a ++ x3a :: b) ++ x3a :: c) in * by (by rewrite <- app_assoc).
    rewrite LastIndex_app by done.
    rewrite bool_decide_eq_false_2 by (destruct a; cbn in *; set_solver).
    rewrite take_app_length, bool_decide_eq_true_2 by set_solver. cbn [negb andb].
    unfold JoinHostPort. rewrite bool_decide_eq_true_2 by set_solver. done.
  - intros Hh. unfold dial_addr, SplitHostPort_ok.
    destruct (LastIndex x3a (x5b :: h ++ [x5d])) as [i|] eqn:Ei.
    2:{ apply LastIndex_None in Ei. set_solver. }
    rewrite bool_decide_eq_true_2 by done.
    replace (x5b :: h ++ [x5d]) with ((x5b :: h) ++ x5d :: []) in * by done.
    rewrite split_at_byte by set_solver.
    rewrite LastIndex_app_absent in Ei by set_solver. apply LastIndex_lt in Ei.
    rewrite bool_decide_eq_false_2 by lia. cbn [andb].
    unfold JoinHostPort. rewrite bool_decide_eq_true_2 by set_solver. cbn. by rewrite <- app_assoc.
Qed.

Lemma dial_addr_exact_witness :
  dial_addr (str "nas.local") = str "nas.local:548" ∧ dial_addr (str "[fe80::1]:10548") = str "[fe80::1]:10548" ∧
  dial_addr (str "[fe80::1]") = str "[[fe80::1]]:548".
Proof.
  assert (∀ (x : byte) (s : bytes), bool_decide (x ∉ s) = true → x ∉ s) as N by (intros x s Hx; exact (proj1 (bool_decide_eq_true _) Hx)).
  assert (∀ (x : byte) (s : bytes), bool_decide (x ∈ s) = true → x ∈ s) as Y by (intros x s Hx; exact (proj1 (bool_decide_eq_true _) Hx)).
  split; [|split].
  - apply (dial_addr_exact (str "nas.local") []); apply N; vm_compute; reflexivity.
  - apply (dial_addr_exact (str "fe80::1") (str "10548")); apply N; vm_compute; reflexivity.
  - apply (dial_addr_exact (str "fe80::1") []); [apply N; vm_compute; reflexivity..|apply Y; vm_compute; reflexivity].
Defined.
