(* ===== verification/Keeps.v ===== *)
(** * Programs that leave an observation of their state alone

    [keeps o m]: whatever [m] returns, [o] of the state is as before.  When the
    requests on a connection keep [o], so do all operations of package afp on
    it: sessions, volumes, forks (whatever the order of their groups) and
    logins. *)

From S2P Require Import Prelude Header Result Wire Entry ServerInfo Conn Transport Session Errgroup Fork Ops Login.

Open Scope go_scope.

Definition keeps {S T A : Type} (o : S → T) (m : M S A) : Prop :=
  ∀ s a s', m s = Ret (a, s') → o s' = o s.

Create HintDb keeps discriminated.

Section combinators.
Context {S T : Type} (o : S → T).

Lemma keeps_ret {A} (a : A) : keeps o (mret a).
Proof. by intros s b s' [= _ ->]. Qed.

Lemma keeps_lift {A} (m : outcome A) : keeps o (lift m).
Proof. intros s a s'. unfold lift. destruct m; [by intros [= _ ->]|done..]. Qed.

Lemma keeps_get : keeps o get.
Proof. by intros s a s' [= _ ->]. Qed.

Lemma keeps_no_fuel {A} : keeps o (@no_fuel S A).
Proof. done. Qed.

Lemma keeps_modify (f : S → S) : (∀ s, o (f s) = o s) → keeps o (modify f).
Proof. intros Hf s a s' [= _ <-]. apply Hf. Qed.

Lemma keeps_bind {A B} (m : M S A) (f : A → M S B) : keeps o m → (∀ a, keeps o (f a)) → keeps o (m ≫= f).
Proof. intros Hm Hf s b s'' (a&s'&E&F)%M_bind_inv. by rewrite (Hf a _ _ _ F), (Hm _ _ _ E). Qed.

Lemma keeps_try {A B} (m : M S (result A)) (f : A → M S (result B)) :
  keeps o m → (∀ a, keeps o (f a)) → keeps o (try_bind m f).
Proof. intros Hm Hf. unfold try_bind. apply keeps_bind; [done|]. intros [a|e]; [apply Hf|apply keeps_ret]. Qed.

(** With something known of the value in between. *)
Lemma keeps_try_post {A B} (P : A → Prop) (m : M S (result A)) (f : A → M S (result B)) :
  keeps o m → (∀ s a s', m s = Ret (Ok a, s') → P a) → (∀ a, P a → keeps o (f a)) → keeps o (try_bind m f).
Proof.
  intros Hm HP Hf s b s''. unfold try_bind. intros ([a|e]&s'&E&F)%M_bind_inv.
  - by rewrite (Hf a (HP _ _ _ E) _ _ _ F), (Hm _ _ _ E).
  - injection F as <- <-. by rewrite (Hm _ _ _ E).
Qed.

Lemma keeps_reading {A} payload (m : M reader A) : keeps o (reading payload m).
Proof. unfold reading. apply keeps_bind; [apply keeps_lift|]. intros [a r]. apply keeps_ret. Qed.

End combinators.

(** The second component of a state does not count, the first may. *)
Lemma keeps_zoom1 {S U T A} (o : S → T) (m : M S A) : keeps o m → keeps (λ s : S * U, o s.1) (zoom1 m).
Proof.
  intros Hm [s u] a [s' u']. unfold zoom1. cbn [fst]. destruct (m s) as [[b s1]| |] eqn:E; [|done..].
  intros [= -> -> ->]. cbn. by apply (Hm _ _ _ E).
Qed.

Lemma keeps_zoom2 {S U T A} (o : S → T) (m : M U A) : keeps (λ s : S * U, o s.1) (zoom2 m).
Proof.
  intros [s u] a [s' u']. unfold zoom2. cbn [snd]. destruct (m u) as [[b u1]| |]; [|done..]. by intros [= -> -> ->].
Qed.

#[export] Hint Resolve keeps_ret keeps_lift keeps_get keeps_no_fuel keeps_reading keeps_zoom1 keeps_zoom2 : keeps.

(** Splits a program at its binds and branches. *)
Ltac keeps_step :=
  match goal with
  | |- keeps _ (try_bind _ _) => apply keeps_try; [|intros ?]
  | |- keeps _ (_ ≫= _) => apply keeps_bind; [|intros ?]
  | |- keeps _ (let '(_, _) := ?x in _) => destruct x
  | |- keeps _ (match ?x with _ => _ end) => destruct x
  | |- keeps _ (if ?x then _ else _) => destruct x
  | |- _ => progress cbv zeta
  end.
Ltac solve_keeps := repeat first [solve [eauto with keeps nocore] | keeps_step].

(** ** The operations of package afp *)

Section operations.
Context {W T : Type} `{Transport W} (o : W → T).
Context (Hreq : ∀ ctx cmd off payload, keeps o (t_request ctx cmd off payload)).
Context `{Norm}.
#[local] Hint Resolve Hreq : keeps.

Lemma keeps_command ctx payload : keeps o (command ctx payload).
Proof. unfold command. solve_keeps. Qed.
Lemma keeps_commandWrite ctx off payload : keeps o (commandWrite ctx off payload).
Proof. unfold commandWrite. solve_keeps. Qed.
#[local] Hint Resolve keeps_command keeps_commandWrite : keeps.

Lemma keeps_invoke ctx op payload : keeps o (invoke ctx op payload).
Proof. unfold invoke. solve_keeps. Qed.
Lemma keeps_query ctx op payload : keeps o (query ctx op payload).
Proof. unfold query. solve_keeps. Qed.
#[local] Hint Resolve keeps_invoke keeps_query : keeps.

Lemma keeps_ListVolumes ctx : keeps o (ListVolumes ctx).
Proof. unfold ListVolumes. solve_keeps. Qed.
Lemma keeps_OpenVolume ctx name : keeps o (OpenVolume ctx name).
Proof. unfold OpenVolume. solve_keeps. Qed.
Lemma keeps_ReadDir fuel v ctx dirID path : keeps o (ReadDir fuel v ctx dirID path).
Proof.
  unfold ReadDir. generalize 1, (@nil DirEntry).
  induction fuel as [|fuel IH]; intros start all; cbn [ReadDir_loop]; solve_keeps.
Qed.
Lemma keeps_openFork v ctx dirID path mode : keeps o (openFork v ctx dirID path mode).
Proof. unfold openFork. solve_keeps. Qed.

(** Groups, in every order. *)
Context `{ErrgroupLaw}.

Lemma keeps_run_tasks {S} (p : S → T) ctx ts err :
  Forall (λ t : task S, ∀ ctx, keeps p (t ctx)) ts → keeps p (run_tasks ctx ts err).
Proof. intros Ht. revert err. induction Ht; intros err; cbn [run_tasks]; solve_keeps. Qed.

Lemma keeps_group {B} ctx limit (ms : list (Ctx → M W (option B * option error))) slots :
  0 < limit → Forall (λ m, ∀ ctx, keeps o (m ctx)) ms → keeps o (group ctx limit ms slots).
Proof.
  intros Hl Hms w [e sl] w'. unfold group.
  destruct (eg_law _ ctx limit (slot_tasks ms) (w, slots) Hl) as (ts&Hp&->).
  destruct (run_tasks ctx ts None (w, slots)) as [[e' [w1 sl1]]| |] eqn:E; [|done..]. intros [= -> -> ->].
  eapply (keeps_run_tasks (λ s : W * list B, o s.1)) in E; [exact E|].
  rewrite Hp. apply Forall_forall. intros t Ht ctx'. apply list_elem_of_lookup in Ht as (i&Hi).
  unfold slot_tasks in Hi. rewrite list_lookup_imap in Hi. destruct (ms !! i) as [m|] eqn:Em; [|done].
  injection Hi as <-. unfold slot_task.
  apply keeps_bind; [apply keeps_zoom1; by eapply (Forall_lookup_1 _ _ _ _ Hms)|]. intros [b e0]. solve_keeps.
Qed.

Lemma keeps_ReadAt f ctx p off : 0 < f_maxParallel f → keeps o (ReadAt f ctx p off).
Proof.
  intros Hm. unfold ReadAt. keeps_step; [apply keeps_ret|]. keeps_step; [apply keeps_lift|].
  keeps_step; [|solve_keeps]. apply keeps_group; [done|]. apply Forall_fmap, Forall_forall.
  intros pc _ ctx'. cbn. unfold read_task, readChunk. solve_keeps.
Qed.

Lemma keeps_WriteAt f ctx p off : 0 < f_maxParallel f → keeps o (WriteAt f ctx p off).
Proof.
  intros Hm. unfold WriteAt, writeChunkSize, serverQuantum. keeps_step; [apply keeps_ret|].
  keeps_step; [solve_keeps|]. keeps_step; [apply keeps_lift|].
  keeps_step; [|solve_keeps]. apply keeps_group; [done|]. apply Forall_fmap, Forall_forall.
  intros pc _ ctx'. cbn. unfold write_task, writeChunk. solve_keeps.
Qed.

Lemma keeps_writeTo {Out} (write : bytes → M Out (option error)) fuel f ctx :
  0 < f_maxParallel f → keeps (λ s : W * Out, o s.1) (writeTo write fuel f ctx).
Proof.
  intros Hm. unfold writeTo. keeps_step; [apply keeps_lift|]. generalize 0 at 1. generalize 0. revert a.
  induction fuel as [|fuel IH]; intros buf off total; cbn [writeTo_loop]; [apply keeps_no_fuel|].
  keeps_step; [by apply keeps_zoom1, keeps_ReadAt|]. solve_keeps.
Qed.

Lemma keeps_readFrom fuel f ctx :
  0 < f_maxParallel f → keeps (λ s : W * source, o s.1) (readFrom fuel f ctx).
Proof.
  intros Hm. unfold readFrom. keeps_step; [apply keeps_zoom1; unfold writeChunkSize, serverQuantum; solve_keeps|].
  keeps_step; [apply keeps_lift|]. generalize (len a0). generalize 0.
  induction fuel as [|fuel IH]; intros total n; cbn [readFrom_loop]; [apply keeps_no_fuel|].
  keeps_step; [apply keeps_zoom2|]. keeps_step.
  keeps_step; [|solve_keeps]. keeps_step; [by apply keeps_zoom1, keeps_WriteAt|apply keeps_ret].
Qed.

(** Logins. *)
Context `{Entropy W} `{Cast5} (Hrand : ∀ n, keeps o (rand_Read n)).
#[local] Hint Resolve Hrand : keeps.

Lemma keeps_Login ctx info username password s : keeps o (Login ctx info username password s).
Proof.
  unfold Login, loginGuest, loginDHX2, loginSRP, loginCleartext, login, loginCont. solve_keeps.
Qed.

End operations.
