(* ===== verification/Command.v ===== *)
(** * The command line client (src/cmd/goafp/main.go)

    The commands as programs over two worlds: the network, in which connections
    are dialled and closed, and the local machine with its files and terminal.
    What Go defers runs after the body, last deferred first. *)

From S2P Require Import Prelude Header Result Wire Entry ServerInfo Conn Transport Session Errgroup Fork Ops Login Manager Path Bridge Serve Url.

Open Scope go_scope.

(** ** The worlds *)

(** The network of [Dial] and the connections that it makes: requests on each,
    [Close], [IsAlive], the assignment to [ServerQuantum], and the goroutine
    that [OpenSession] starts. *)
Class Machine (W : Type) : Type := {
  mc_transport : nat → Transport W;
  mc_connect : Ctx → bytes → M W (result nat);
  mc_close : nat → W → W;
  mc_alive : nat → W → bool;
  mc_set_quantum : nat → Z → W → W;
  mc_tickle : nat → W → W;   (* go c.tickleLoop(TickleInterval) *)
}.

(** A [*net.TCPAddr]; the IP as its [String]. *)
Record TCPAddr : Type := MkTCPAddr {
  a_IP : bytes;
  a_Port : Z;
  a_Zone : bytes;
}.

(** The terminal, local files, a listening socket, the local time zone, the
    operating system's name, and the verb [%q] (whose escapes depend on the
    tables of Unicode). *)
Class Local (L : Type) : Type := {
  lc_stdout : bytes → M L (option error);
  lc_stderr : bytes → M L (option error);
  lc_create : bytes → M L (result nat);
  lc_write : nat → bytes → M L (option error);
  lc_open : bytes → M L (result (nat * source));
  lc_close : nat → M L (option error);
  lc_listen : bytes → M L (result TCPAddr);       (* the address bound *)
  lc_format_time : Z → bytes;                     (* Format("2006-01-02 15:04") *)
  lc_report : error → M L unit;                   (* what [main] prints of an error *)
  lc_GOOS : bytes;
  lc_quote : bytes → bytes;
}.

(** ** fmt *)

Definition digit (z : Z) : byte := byte_of_Z (if bool_decide (z < 10) then 48 + z else 87 + z).

(** The text printed for a command line that names no command. *)
Definition usage : bytes := str "usage: goafp <command> [arguments]

Commands:
  status  <host[:port]>                              query a server, no auth
  volumes <afp://[user[:pass]@]host>                 list volumes on a server
  ls      <afp://[user[:pass]@]host/volume[/path]>   list a directory
  cat     <afp://[user[:pass]@]host/volume/path>     stream a file to stdout
  get     <afp://[user[:pass]@]host/volume/path> [localfile]
                                                     download a file
  put     <localfile> <afp://[user[:pass]@]host/volume/path>
                                                     upload a file
  mkdir   <afp://[user[:pass]@]host/volume/path>     create a directory
  rm      <afp://[user[:pass]@]host/volume/path>     delete a file or empty dir
  mv      <afp://[user[:pass]@]host/volume/path> <newpath>
                                                     rename within the volume
  mount   <afp://[user[:pass]@]host/volume> [addr]   serve the volume over NFS
                                                     (default addr 127.0.0.1:2049)

With no user in the URL, goafp connects as a guest.
".

(** The digits of an unsigned 64-bit number: 64 are enough in any base. *)
Fixpoint digits_loop (fuel : nat) (base z : Z) (acc : bytes) : bytes :=
  match fuel with
  | O => acc
  | S fuel' => if bool_decide (z < base) then digit z :: acc
               else digits_loop fuel' base (z / base) (digit (z mod base) :: acc)
  end.
Definition digits (base z : Z) : bytes := digits_loop 64 base z [].

Definition pad_left (c : byte) (width : nat) (s : bytes) : bytes := replicate (width - length s) c ++ s.
Definition pad_right (width : nat) (s : bytes) : bytes := s ++ replicate (width - length s) x20.

Definition newline : bytes := [x0a].

Definition formatEntry {L} `{Local L} (e : DirEntry) : bytes :=
  let kind := if e_IsDir e then str "d" else str "-" in
  let size := if e_IsDir e then digits 10 (e_Offspring e) ++ str " items" else digits 10 (e_Size e) in
  let u := e_UnixPrivs e in
  let perms := if e_HasUnix e then
      str " " ++ pad_left x30 4 (digits 8 (Z.land (Permissions u) 0xFFF)) ++ str " " ++ pad_left x20 5 (digits 10 (UID u))
      ++ str ":" ++ pad_right 5 (digits 10 (GID u))
    else [] in
  let when := match e_ModTime e with Some t => lc_format_time t | None => [] end in
  kind ++ perms ++ str " " ++ pad_left x20 12 size ++ str "  " ++ when ++ str "  " ++ e_Name e.

(** [strings.Join(l, ", ")]. *)
Fixpoint join_comma (l : list bytes) : bytes :=
  match l with
  | [] => []
  | [s] => s
  | s :: l' => s ++ str ", " ++ join_comma l'
  end.

(** [defer d], then the rest of the function; what [d] returns is dropped. *)
Definition finally {S A B} (d : M S B) (m : M S A) : M S A := a ← m; _ ← d; mret a.

Lemma finally_ret {S A B} (d : M S B) (m : M S A) s a s1 b s2 :
  m s = Ret (a, s1) → d s1 = Ret (b, s2) → finally d m s = Ret (a, s2).
Proof. intros Em Ed. unfold finally. rewrite (M_bind_ret _ _ _ _ _ Em). by rewrite (M_bind_ret _ _ _ _ _ Ed). Qed.

(** ** Connecting *)

Section network.
Context {W : Type} `{Machine W} `{Entropy W} `{Cast5} `{Norm}.

Abbreviation on c := (mc_transport c).

Definition Dial (ctx : Ctx) (addr : bytes) : M W (result nat) := mc_connect ctx (dial_addr addr).

Definition Conn_Close (c : nat) : M W unit := modify (mc_close c).

Definition GetStatus (c : nat) (ctx : Ctx) : M W (result bytes) :=
  r ←? @t_request W (on c) ctx CmdGetStatus 0 [];
  mret (Ok (rp_Payload r)).

Definition OpenSession (c : nat) (ctx : Ctx) : M W (result unit) :=
  r ←? @t_request W (on c) ctx CmdOpenSession 0 open_session_payload;
  _ ← modify (mc_tickle c);
  w ← get;
  '(res, q) ← lift (parse_options (S (length (rp_Payload r))) (rp_Payload r) 0 (@t_quantum W (on c) w));
  _ ← modify (mc_set_quantum c q);
  mret res.

Definition fetchStatus (ctx : Ctx) (host : bytes) : M W (result ServerInfo) :=
  conn ←? Dial ctx host;
  finally (Conn_Close conn)
    (block ←? GetStatus conn ctx;
     lift (ParseServerInfo block)).

Definition connect (ctx : Ctx) (t : target) : M W (result nat) :=
  info ←? fetchStatus ctx (t_host t);
  conn ←? Dial ctx (t_host t);
  r ← OpenSession conn ctx;
  match r with
  | Err e => _ ← Conn_Close conn; mret (Err e)
  | Ok _ =>
    '(_, r) ← @Login W (on conn) _ _ ctx info (t_username t) (t_password t) NewSession;
    match r with
    | Err e => _ ← Conn_Close conn; mret (Err e)
    | Ok _ => mret (Ok conn)
    end
  end.

(** The [Dialer] of [runMount]. *)
Definition mount_dial (t : target) (ctx : Ctx) : M W (result link) :=
  conn ←? connect ctx t;
  r ← @OpenVolume W (on conn) ctx (t_volume t);
  match r with
  | Err e => _ ← Conn_Close conn; mret (Err e)
  | Ok vol => mret (Ok (MkLink conn vol))
  end.

#[local] Instance mount_network (t : target) : Network W := {|
  net_transport := mc_transport;
  net_alive := mc_alive;
  net_close := mc_close;
  net_dial := mount_dial t;
|}.

End network.

(** ** Commands *)

Section commands.
Context {W L : Type} `{Machine W} `{Local L} `{Entropy W} `{Cast5} `{Norm} `{Errgroup} `{NetIP} (fuel : nat).

Abbreviation on c := (mc_transport c).

(** The network and the local machine in one state. *)
Definition net {A} (m : M W A) : M (W * L) A := zoom1 m.
Definition local {A} (m : M L A) : M (W * L) A := zoom2 m.

Definition print (s : bytes) : M (W * L) unit := _ ← local (lc_stdout s); mret tt.
Definition eprint (s : bytes) : M (W * L) unit := _ ← local (lc_stderr s); mret tt.

Fixpoint print_lines (l : list bytes) : M (W * L) unit :=
  match l with
  | [] => mret tt
  | s :: l' => _ ← print (s ++ newline); print_lines l'
  end.

Definition errorf {S A} (s : string) : M S (result A) := mret (Err (EErrorf s [])).

(** [context.WithTimeout(context.Background(), ...)]. *)
Definition command_ctx : Ctx := withTimeout Background.

Definition runStatus (addr : bytes) : M (W * L) (result unit) :=
  info ←? net (fetchStatus command_ctx addr);
  _ ← print (str "Server name:  " ++ ServerName info ++ newline);
  _ ← print (str "Machine type: " ++ MachineType info ++ newline);
  _ ← print (str "AFP versions: " ++ join_comma (AFPVersions info) ++ newline);
  _ ← print (str "UAMs:         " ++ join_comma (UAMs info) ++ newline);
  _ ← print (str "Flags:        0x" ++ pad_left x30 4 (digits 16 (si_Flags info)) ++ newline);
  mret (Ok tt).

(** Connect and log in; afterwards log out and close the connection. *)
Definition with_session (t : target) (fn : nat → M (W * L) (result unit)) : M (W * L) (result unit) :=
  conn ←? net (connect command_ctx t);
  finally (net (Conn_Close conn)) (finally (net (@Logout W (on conn) command_ctx)) (fn conn)).

Definition with_open_volume (t : target) (fn : nat → Volume → M (W * L) (result unit)) : M (W * L) (result unit) :=
  with_session t (λ conn,
    vol ←? net (@OpenVolume W (on conn) command_ctx (t_volume t));
    finally (net (@Volume_Close W (on conn) vol command_ctx)) (fn conn vol)).

Definition runVolumes (raw : bytes) : M (W * L) (result unit) :=
  t ←? mret (parseTarget raw);
  with_session t (λ conn,
    vols ←? net (@ListVolumes W (on conn) command_ctx);
    _ ← print_lines ((λ v, vi_Name v ++ if vi_HasPassword v then str " (password protected)" else []) <$> vols);
    mret (Ok tt)).

Definition runLs (raw : bytes) : M (W * L) (result unit) :=
  t ←? mret (parseTarget raw);
  if bool_decide (t_volume t = []) then errorf "URL must name a volume, e.g. afp://server/Volume" else
  with_open_volume t (λ conn vol,
    entries ←? net (@ReadDir W (on conn) _ fuel vol command_ctx RootDirID (t_path t));
    _ ← print_lines (formatEntry <$> entries);
    mret (Ok tt)).

Definition withVolume (raw : bytes) (fn : nat → Volume → target → M (W * L) (result unit)) : M (W * L) (result unit) :=
  t ←? mret (parseTarget raw);
  if bool_decide (t_volume t = []) then errorf "URL must name a volume" else
  with_open_volume t (λ conn vol, fn conn vol t).

Definition withFork (raw : bytes) (fn : nat → Fork → M (W * L) (result unit)) : M (W * L) (result unit) :=
  t ←? mret (parseTarget raw);
  if bool_decide (t_volume t = [] ∨ t_path t = []) then errorf "URL must name a volume and a file path" else
  with_open_volume t (λ conn vol,
    fork ←? net (@OpenFork W (on conn) _ vol command_ctx RootDirID (t_path t));
    finally (net (@Fork_Close W (on conn) fork command_ctx)) (fn conn fork)).

(** [WriteToContext] to a local writer. *)
Definition copy_to (conn : nat) (f : Fork) (write : bytes → M L (option error)) : M (W * L) (Z * option error) :=
  @WriteToContext W (on conn) _ L write fuel f command_ctx.

(** [ReadFromContext] from an open local file. *)
Definition copy_from (conn : nat) (f : Fork) (src : source) : M (W * L) (Z * option error) := λ '(w, l),
  match @ReadFromContext W (on conn) _ fuel f command_ctx (w, src) with
  | Ret (r, (w', _)) => Ret (r, (w', l))
  | Panics => Panics
  | NoFuel => NoFuel
  end.

Definition error_result (e : option error) : result unit := match e with Some e => Err e | None => Ok tt end.

Definition cat_fork (conn : nat) (f : Fork) : M (W * L) (result unit) :=
  '(_, err) ← copy_to conn f lc_stdout;
  mret (error_result err).

Definition runCat (raw : bytes) : M (W * L) (result unit) := withFork raw cat_fork.

Definition wrote (name : bytes) (n : Z) : bytes :=
  str "wrote " ++ name ++ str " (" ++ digits 10 n ++ str " bytes)" ++ newline.

Definition runGet (args : list bytes) : M (W * L) (result unit) :=
  raw ← lift (index args 0);
  t ←? mret (parseTarget raw);
  let name := match args with
              | _ :: name :: _ => name
              | _ => if bool_decide (t_path t = []) then [] else path_Base (t_path t)
              end in
  if bool_decide (name = [] ∨ name = dot ∨ name = [slash]) then
    errorf "cannot infer a local filename; pass one explicitly"
  else withFork raw (λ conn f,
    out ←? local (lc_create name);
    finally (local (lc_close out))
      ('(n, err) ← copy_to conn f (lc_write out);
       match err with
       | Some e => mret (Err e)
       | None =>
         _ ← eprint (wrote name n);
         e ← local (lc_close out);
         mret (error_result e)
       end)).

(** What [runPut] does with the volume: a hard create, then the stream. *)
Definition put_fork (t : target) (src : source) (conn : nat) (f : Fork) : M (W * L) (result unit) :=
  '(n, err) ← copy_from conn f src;
  match err with
  | Some e => mret (Err e)
  | None => _ ← eprint (wrote (t_path t) n); mret (Ok tt)
  end.

Definition put_file (t : target) (src : source) (conn : nat) (vol : Volume) : M (W * L) (result unit) :=
  _ ←? net (@CreateFile W (on conn) _ vol command_ctx RootDirID (t_path t) true);
  fork ←? net (@OpenForkRW W (on conn) _ vol command_ctx RootDirID (t_path t));
  finally (net (@Fork_Close W (on conn) fork command_ctx)) (put_fork t src conn fork).

Definition runPut (args : list bytes) : M (W * L) (result unit) :=
  match args with
  | name :: raw :: _ =>
    t ←? mret (parseTarget raw);
    if bool_decide (t_volume t = [] ∨ t_path t = []) then
      errorf "destination URL must name a volume and a file path"
    else
    '(file, src) ←? local (lc_open name);
    finally (local (lc_close file)) (with_open_volume t (put_file t src))
  | _ => errorf "usage: goafp put <localfile> <afp://.../volume/path>"
  end.

Definition runMkdir (raw : bytes) : M (W * L) (result unit) :=
  withVolume raw (λ conn vol t,
    if bool_decide (t_path t = []) then errorf "URL must name a directory path"
    else net (@Mkdir W (on conn) _ vol command_ctx RootDirID (t_path t))).

Definition runRm (raw : bytes) : M (W * L) (result unit) :=
  withVolume raw (λ conn vol t,
    if bool_decide (t_path t = []) then errorf "URL must name a path to delete"
    else net (@Delete W (on conn) _ vol command_ctx RootDirID (t_path t))).

Definition runMv (args : list bytes) : M (W * L) (result unit) :=
  match args with
  | raw :: newpath :: _ =>
    withVolume raw (λ conn vol t,
      if bool_decide (t_path t = []) then errorf "source URL must name a path"
      else net (@Rename W (on conn) _ vol command_ctx RootDirID (t_path t) (Trim slash newpath)))
  | _ => errorf "usage: goafp mv <afp://.../volume/path> <newpath>"
  end.

(** The NFS server of the bridge runs until its listener fails; it is handed
    the manager of the mount and leaves it as its operations have made it. *)
Context (nfs : TCPAddr → Z → session L).

(** [nfsfs.Serve(l, fsys, 4096)]. *)
Definition serve_on (t : target) (bound : TCPAddr) (m : connManager) : M (W * L) (result unit * connManager) := λ s,
  match @Serve W (mount_network t) _ _ _ Background fuel L TCPAddr nfs bound 4096 (m, s) with
  | Ret (r, (m, s)) => Ret ((r, m), s)
  | Panics => Panics
  | NoFuel => NoFuel
  end.

(** [a.String()]. *)
Definition TCPAddr_String (a : TCPAddr) : bytes :=
  JoinHostPort (a_IP a ++ (if bool_decide (a_Zone a = []) then [] else percent :: a_Zone a)) (digits 10 (a_Port a)).

Definition printMountHelp (a : TCPAddr) (volume : bytes) : M (W * L) unit :=
  let port := digits 10 (a_Port a) in
  _ ← print (str "Serving AFP volume " ++ lc_quote volume ++ str " over NFS on " ++ TCPAddr_String a ++ newline ++ newline);
  _ ← print (str "Mount it from another terminal (needs sudo):" ++ newline);
  _ ← (if bool_decide (lc_GOOS = str "darwin") then
         print (str "  sudo mount_nfs -o vers=3,tcp,port=" ++ port ++ str ",mountport=" ++ port
                ++ str ",noowners,resvport \" ++ newline ++ str "    " ++ a_IP a ++ str ":/ /path/to/mountpoint" ++ newline)
       else
         print (str "  sudo mount -t nfs -o vers=3,tcp,port=" ++ port ++ str ",mountport=" ++ port
                ++ str ",nolock \" ++ newline ++ str "    " ++ a_IP a ++ str ":/ /path/to/mountpoint" ++ newline));
  print (newline ++ str "Press Ctrl-C to stop serving." ++ newline).

Definition runMount (args : list bytes) : M (W * L) (result unit) :=
  match args with
  | [] => errorf "usage: goafp mount <afp://.../volume> [listen-addr]"
  | raw :: args' =>
    t ←? mret (parseTarget raw);
    if bool_decide (t_volume t = []) then errorf "URL must name a volume" else
    let addr := match args' with addr :: _ => addr | [] => str "127.0.0.1:2049" end in
    m ←? net (@New W (mount_network t) Background);
    l ← local (lc_listen addr);
    '(r, m) ← (match l with
               | Err e => mret (Err e, m)
               | Ok bound => _ ← printMountHelp bound (t_volume t); serve_on t bound m
               end);
    _ ← net (modify (λ w, match m_conn m with Some c => mc_close c w | None => w end));
    mret r
  end.

(** [main]: the exit status for the arguments after the program's name. *)
Definition main (args : list bytes) : M (W * L) Z :=
  match args with
  | cmd :: ((arg :: _) as rest) =>
    let run (r : M (W * L) (result unit)) :=
      r ← r;
      match r with
      | Ok _ => mret 0
      | Err e => _ ← local (lc_report e); mret 1
      end in
    if bool_decide (cmd = str "status") then run (runStatus arg)
    else if bool_decide (cmd = str "volumes") then run (runVolumes arg)
    else if bool_decide (cmd = str "ls") then run (runLs arg)
    else if bool_decide (cmd = str "cat") then run (runCat arg)
    else if bool_decide (cmd = str "get") then run (runGet rest)
    else if bool_decide (cmd = str "put") then run (runPut rest)
    else if bool_decide (cmd = str "mkdir") then run (runMkdir arg)
    else if bool_decide (cmd = str "rm") then run (runRm arg)
    else if bool_decide (cmd = str "mv") then run (runMv rest)
    else if bool_decide (cmd = str "mount") then run (runMount rest)
    else _ ← eprint usage; mret 2
  | _ => _ ← eprint usage; mret 2
  end.

End commands.
