(* ===== verification/Tracked.v ===== *)
(** * Which connections are open

    A world that counts its open connections ([Tracked]); what signing on and a
    mount's manager do to that count. *)

From S2P Require Import Prelude Header Result Wire Entry ServerInfo Conn Transport Session SessionSpec Errgroup Fork ForkSpec Ops OpsSpec Login Manager ManagerSpec Path Bridge Serve Url Keeps Command.

Open Scope go_scope.

(** ** Open connections

    A world in which dialling opens a connection, [Close] closes it, and nothing
    else that the client does opens or closes one. *)
Class Tracked (W : Type) `{Machine W} `{Entropy W} : Type := {
  open_conns : W → gset nat;
  tr_request c ctx cmd off payload : keeps open_conns (@t_request W (mc_transport c) ctx cmd off payload);
  tr_rand n : keeps open_conns (rand_Read n);
  tr_quantum c q w : open_conns (mc_set_quantum c q w) = open_conns w;
  tr_tickle c w : open_conns (mc_tickle c w) = open_conns w;
  tr_close c w : open_conns (mc_close c w) = open_conns w ∖ {[ c ]};
  tr_connect ctx addr w r w' : mc_connect ctx addr w = Ret (r, w') →
    match r with
    | Ok c => c ∉ open_conns w ∧ open_conns w' = {[ c ]} ∪ open_conns w
    | Err _ => open_conns w' = open_conns w
    end;
}.

Section network.
Context {W : Type} `{Tracked W} `{Cast5} `{Norm}.

Abbreviation on c := (mc_transport c).

(** A program that opens the connection it returns, and none when it fails. *)
Definition opens {A} (conn_of : A → nat) (m : M W (result A)) : Prop :=
  ∀ w r w', m w = Ret (r, w') →
    match r with
    | Ok a => conn_of a ∉ open_conns w ∧ open_conns w' = {[ conn_of a ]} ∪ open_conns w
    | Err _ => open_conns w' = open_conns w
    end.

(** A program that is entered with one more connection open and closes it. *)
Definition closes {S A} (o : S → gset nat) (c : nat) (m : M S A) : Prop :=
  ∀ s a s', m s = Ret (a, s') → o s' = o s ∖ {[ c ]}.

Lemma closes_finally {S A B} (o : S → gset nat) c (d : M S B) (m : M S A) :
  keeps o m → closes o c d → closes o c (finally d m).
Proof.
  intros Hm Hd s a s' (b&s1&E1&(b'&s2&E2&E3)%M_bind_inv)%M_bind_inv. injection E3 as -> ->.
  by rewrite (Hd _ _ _ E2), (Hm _ _ _ E1).
Qed.

Lemma keeps_finally {S T A B} (o : S → T) (d : M S B) (m : M S A) : keeps o m → keeps o d → keeps o (finally d m).
Proof. intros. unfold finally. solve_keeps. Qed.

Lemma Conn_Close_closes c : closes open_conns c (Conn_Close c).
Proof. intros w a w' [= _ <-]. apply tr_close. Qed.

(** Opening and then closing is keeping. *)
Lemma opens_closes {A} (f : A → nat) (m : M W (result A)) {B} (k : A → M W (result B)) :
  opens f m → (∀ a, closes open_conns (f a) (k a)) → keeps open_conns (try_bind m k).
Proof.
  intros Hm Hk w r w'. unfold try_bind. intros ([a|e]&w1&E1&E2)%M_bind_inv.
  - destruct (Hm _ _ _ E1) as [Hc Ho]. rewrite (Hk a _ _ _ E2), Ho. set_solver.
  - injection E2 as <- <-. exact (Hm _ _ _ E1).
Qed.

Lemma Dial_opens ctx addr : opens id (Dial ctx addr).
Proof. intros w r w' E. by apply tr_connect in E. Qed.

#[local] Hint Resolve tr_request tr_rand : keeps.

Lemma keeps_GetStatus c ctx : keeps open_conns (GetStatus c ctx).
Proof. unfold GetStatus. solve_keeps. Qed.

Lemma keeps_OpenSession c ctx : keeps open_conns (OpenSession c ctx).
Proof.
  unfold OpenSession. keeps_step; [solve_keeps|].
  keeps_step; [apply keeps_modify; intros w; apply tr_tickle|]. keeps_step; [solve_keeps|]. keeps_step; [solve_keeps|].
  keeps_step. keeps_step; [|solve_keeps]. apply keeps_modify. intros w. apply tr_quantum.
Qed.

Lemma keeps_fetchStatus ctx host : keeps open_conns (fetchStatus ctx host).
Proof.
  unfold fetchStatus. apply (opens_closes id); [apply Dial_opens|]. intros c.
  apply closes_finally; [|apply Conn_Close_closes]. pose proof (keeps_GetStatus c ctx). solve_keeps.
Qed.

(** Keeping, then opening. *)
Lemma opens_after {A B} (f : B → nat) (m : M W (result A)) (k : A → M W (result B)) :
  keeps open_conns m → (∀ a, opens f (k a)) → opens f (try_bind m k).
Proof.
  intros Hm Hk w r w'. unfold try_bind. intros ([a|e]&w1&E1&E2)%M_bind_inv.
  - specialize (Hk a _ _ _ E2). by rewrite (Hm _ _ _ E1) in Hk.
  - injection E2 as <- <-. exact (Hm _ _ _ E1).
Qed.

(** Opening, then a program that hands the connection over or closes it. *)
Definition hands_over {B} (g : B → nat) (c : nat) (m : M W (result B)) : Prop :=
  ∀ w r w', m w = Ret (r, w') →
    match r with
    | Ok b => g b = c ∧ open_conns w' = open_conns w
    | Err _ => open_conns w' = open_conns w ∖ {[ c ]}
    end.

Lemma opens_then {A B} (f : A → nat) (g : B → nat) (m : M W (result A)) (k : A → M W (result B)) :
  opens f m → (∀ a, hands_over g (f a) (k a)) → opens g (try_bind m k).
Proof.
  intros Hm Hk w r w'. unfold try_bind. intros ([a|e]&w1&E1&E2)%M_bind_inv.
  - destruct (Hm _ _ _ E1) as [Hc Ho]. specialize (Hk a _ _ _ E2). destruct r as [b|e].
    + destruct Hk as [-> ->]. done.
    + rewrite Hk, Ho. set_solver.
  - injection E2 as <- <-. exact (Hm _ _ _ E1).
Qed.

(** A step that keeps; its failure closes the connection, its success goes on. *)
Lemma hands_over_step {A B} (g : B → nat) c (m : M W A) (k : A → M W (result B)) :
  keeps open_conns m → (∀ a, hands_over g c (k a)) → hands_over g c (m ≫= k).
Proof.
  intros Hm Hk w r w' (a&w1&E1&E2)%M_bind_inv. specialize (Hk a _ _ _ E2). by rewrite (Hm _ _ _ E1) in Hk.
Qed.

Lemma hands_over_close {B} (g : B → nat) c e : hands_over g c (_ ← Conn_Close c; mret (Err e)).
Proof.
  intros w r w' (a&w1&E1&E2)%M_bind_inv. injection E2 as <- <-. by apply Conn_Close_closes in E1.
Qed.

Lemma connect_opens ctx t : opens id (connect ctx t).
Proof.
  unfold connect. apply opens_after; [apply keeps_fetchStatus|]. intros info.
  apply (opens_then id); [apply Dial_opens|]. intros c.
  apply hands_over_step; [apply keeps_OpenSession|]. intros [[]|e]; [|apply hands_over_close].
  apply hands_over_step.
  { apply (@keeps_Login W _ (on c)); [intros; apply tr_request|intros; apply tr_rand]. }
  intros [s [[]|e]]; [|apply hands_over_close]. by intros w r w' [= <- <-].
Qed.

Lemma mount_dial_opens t ctx : opens l_conn (mount_dial t ctx).
Proof.
  unfold mount_dial. apply (opens_then id); [apply connect_opens|]. intros c.
  apply hands_over_step; [apply (@keeps_OpenVolume W _ (on c)); intros; apply tr_request|].
  intros [v|e]; [|apply hands_over_close]. by intros w r w' [= <- <-].
Qed.

(** ** Operations on a connection *)

(** The operations of the client on one of its connections. *)
Lemma keeps_on_Logout c ctx : keeps open_conns (@Logout W (on c) ctx).
Proof. apply keeps_invoke. intros. apply tr_request. Qed.
Lemma keeps_on_ListVolumes c ctx : keeps open_conns (@ListVolumes W (on c) ctx).
Proof. apply keeps_ListVolumes. intros. apply tr_request. Qed.
Lemma keeps_on_OpenVolume c ctx v : keeps open_conns (@OpenVolume W (on c) ctx v).
Proof. apply keeps_OpenVolume. intros. apply tr_request. Qed.
Lemma keeps_on_Volume_Close c v ctx : keeps open_conns (@Volume_Close W (on c) v ctx).
Proof. apply keeps_invoke. intros. apply tr_request. Qed.
Lemma keeps_on_ReadDir c n v ctx d p : keeps open_conns (@ReadDir W (on c) _ n v ctx d p).
Proof. apply keeps_ReadDir. intros. apply tr_request. Qed.
Lemma keeps_on_invoke c ctx op p : keeps open_conns (@invoke W (on c) ctx op p).
Proof. apply keeps_invoke. intros. apply tr_request. Qed.
Lemma keeps_on_openFork c v ctx d p mode : keeps open_conns (@openFork W (on c) _ v ctx d p mode).
Proof. apply keeps_openFork. intros. apply tr_request. Qed.

(** A fork that is opened has the default limit. *)
Lemma openFork_limit c v ctx d p mode w f w' :
  @openFork W (on c) _ v ctx d p mode w = Ret (Ok f, w') → 0 < f_maxParallel f.
Proof.
  unfold openFork, reading, try_bind.
  intros ([a|e]&w1&_&E)%M_bind_inv; [|done].
  apply M_bind_inv in E as ([x r]&w2&E&F). injection F as -> ->.
  unfold lift in E. destruct (parse_open_fork v (new_reader a)) as [[x r']| |] eqn:Er; [|done..]. injection E as -> -> ->.
  unfold parse_open_fork in Er. apply M_bind_inv in Er as (?&?&_&Er). apply M_bind_inv in Er as (?&?&_&Er).
  apply M_bind_inv in Er as (?&?&_&Er). unfold r_check in Er. apply M_bind_inv in Er as (r1&?&_&Er).
  destruct (rerr r1); [done|]. by injection Er as <- _.
Qed.

(** ** The connections of a mount *)

(** Beyond those of [base], only the manager's connection is open. *)
Definition mounted (base : gset nat) (mw : connManager * W) : Prop :=
  match m_conn mw.1 with
  | Some c => c ∉ base ∧ open_conns mw.2 = {[ c ]} ∪ base
  | None => open_conns mw.2 = base
  end.

Lemma mounted_keeps base m w w' : mounted base (m, w) → open_conns w' = open_conns w → mounted base (m, w').
Proof. unfold mounted. cbn. by intros Hm ->. Qed.

(** Closing the manager's connection, if it has one. *)
Definition unmount (m : connManager) (w : W) : W := match m_conn m with Some c => mc_close c w | None => w end.

Lemma mounted_close base m w : mounted base (m, w) → open_conns (unmount m w) = base.
Proof.
  unfold mounted, unmount. cbn. destruct (m_conn m); [|done]. intros [Hc E]. rewrite tr_close, E. set_solver.
Qed.

(** An operation that leaves the connections alone, and [P] of its variables. *)
Definition op_keeps {A} (P : A → Prop) (fn : @operation W A) : Prop :=
  ∀ ctx vol a w x w', P a → fn ctx vol a w = Ret (x, w') → open_conns w' = open_conns w ∧ P x.1.

Lemma do_mounted {A} (P : A → Prop) t base ctx (fn : @operation W A) a m w x m' w' :
  mounted base (m, w) → P a → op_keeps P fn →
  @do W (mount_network t) ctx A fn a (m, w) = Ret (x, (m', w')) → mounted base (m', w') ∧ P x.1.
Proof.
  intros Hm Ha Hfn Hdo. destruct x as [a' err].
  assert (∀ w1 w2 dial a1, open_conns w1 = open_conns w → P a1 →
    mount_dial t (withTimeout ctx) (unmount m w1) = Ret (dial, w2) →
    match dial with
    | Err e => a' = a1 ∧ err = Some e ∧ m' = MkMgr (m_gen m) None None ∧ w' = w2
    | Ok l' => fn (withTimeout ctx) (Some l') a1 w2 = Ret ((a', err), w') ∧ m' = installed (u64 (m_gen m + 1)) l'
    end → mounted base (m', w') ∧ P a') as Hdial.
  { intros w1 w2 dial a1 Hw1 Ha1 Hd Hr. apply mount_dial_opens in Hd.
    rewrite (mounted_close base m w1) in Hd by (by eapply mounted_keeps). destruct dial as [l'|e].
    - destruct Hr as [Hr ->]. destruct Hd as [Hc Ho]. destruct (Hfn _ _ _ _ _ _ Ha1 Hr) as [Ho' Ha'].
      split; [|done]. split; [done|]. cbn. by rewrite Ho'.
    - by destruct Hr as (->&_&->&->). }
  apply (do_inv (H := mount_network t)) in Hdo as
    [(l&a1&e1&w1&_&Hf&[(_&->&_&->&->)|(_&_&dial&w2&Hd&Hr)])|(_&dial&w2&Hd&Hr)].
  - destruct (Hfn _ _ _ _ _ _ Ha Hf) as [Ho Ha1]. split; [by eapply mounted_keeps|done].
  - destruct (Hfn _ _ _ _ _ _ Ha Hf) as [Ho Ha1]. by eapply (Hdial w1 w2 dial a1).
  - by eapply (Hdial w w2 dial a).
Qed.

End network.

