(* ===== verification/ServeSpec.v ===== *)
(** * Serving a mount: its connections

    Whatever calls the NFS library makes, in whatever order, the manager of the
    mount has the only connection that the mount has added. *)

From S2P Require Import Prelude Header Result Wire Entry ServerInfo Conn Transport Session SessionSpec Errgroup Fork ForkSpec Ops OpsSpec Login Manager ManagerSpec Path Bridge Serve Url Keeps Command Tracked.

Open Scope go_scope.

Section serve.
Context {W : Type} `{Tracked W} `{Cast5} `{Norm} `{ErrgroupLaw}.

Abbreviation on c := (mc_transport c).

(** ** Operations on forks and links *)

Lemma keeps_on_ReadAt c f ctx p off : 0 < f_maxParallel f → keeps open_conns (@ReadAt W (on c) _ f ctx p off).
Proof. intros Hf. apply (keeps_ReadAt (H := on c)); [intros; apply tr_request|done|done]. Qed.
Lemma keeps_on_WriteAt c f ctx p off : 0 < f_maxParallel f → keeps open_conns (@WriteAt W (on c) _ f ctx p off).
Proof. intros Hf. apply (keeps_WriteAt (H := on c)); [intros; apply tr_request|done|done]. Qed.

#[local] Hint Resolve keeps_on_openFork keeps_on_invoke keeps_on_ReadDir keeps_on_ReadAt keeps_on_WriteAt : keeps.

(** Opening a fork, then a program that uses it. *)
Lemma keeps_fork {B} c v ctx d p mode (k : Fork → M W (result B)) :
  (∀ f, 0 < f_maxParallel f → keeps open_conns (k f)) → keeps open_conns (try_bind (@openFork W (on c) _ v ctx d p mode) k).
Proof. intros Hk. apply (keeps_try_post _ (λ f, 0 < f_maxParallel f)); [solve_keeps|intros ???; apply openFork_limit|done]. Qed.

Lemma keeps_on_query c ctx op p : keeps open_conns (@query W (on c) ctx op p).
Proof. apply keeps_query. intros. apply tr_request. Qed.
#[local] Hint Resolve keeps_on_query : keeps.

Lemma keeps_on_Stat c v ctx d p : keeps open_conns (@Stat W (on c) _ v ctx d p).
Proof. unfold Stat. solve_keeps. Qed.

Lemma keeps_on_StatFS c v ctx : keeps open_conns (@StatFS W (on c) v ctx).
Proof. unfold StatFS. solve_keeps. Qed.

Lemma keeps_on_Symlink c v ctx d link target : keeps open_conns (@Symlink W (on c) _ _ v ctx d link target).
Proof.
  unfold Symlink, setFinderInfo. keeps_step; [unfold CreateFile; solve_keeps|]. apply keeps_fork. intros f Hf.
  keeps_step; [by apply keeps_on_WriteAt|]. unfold Fork_Close. solve_keeps.
Qed.

Lemma keeps_on_ReadLink c v ctx d p : keeps open_conns (@ReadLink W (on c) _ _ v ctx d p).
Proof.
  unfold ReadLink. apply keeps_fork. intros f Hf. unfold Fork_Close.
  keeps_step; [solve_keeps|]. keeps_step; [solve_keeps|]. keeps_step; [by apply keeps_on_ReadAt|]. solve_keeps.
Qed.
#[local] Hint Resolve keeps_on_Stat keeps_on_StatFS keeps_on_Symlink keeps_on_ReadLink : keeps.

(** ** Operations of the bridge *)

Context (t : target) (base : Ctx) (opened : gset nat).
#[local] Instance mnt : Network W := mount_network t.

Lemma op_keeps_any {A} (fn : operation A) : (∀ ctx vol a, keeps open_conns (fn ctx vol a)) → op_keeps (λ _, True) fn.
Proof. intros Hfn ctx vol a w x w' _ E. split; [by apply Hfn in E|done]. Qed.

(** A program of the mount; its results satisfy [Q]. *)
Definition sound {A} (Q : A → Prop) (m : M (connManager * W) A) : Prop :=
  ∀ s a s', mounted opened s → m s = Ret (a, s') → mounted opened s' ∧ Q a.

Lemma sound_ret {A} (Q : A → Prop) a : Q a → sound Q (mret a).
Proof. by intros Ha s b s' Hs [= <- <-]. Qed.

Lemma sound_bind {A B} (Q : A → Prop) (R : B → Prop) (m : M (connManager * W) A) (k : A → M (connManager * W) B) :
  sound Q m → (∀ a, Q a → sound R (k a)) → sound R (m ≫= k).
Proof. intros Hm Hk s b s' Hs (a&s1&E1&E2)%M_bind_inv. destruct (Hm _ _ _ Hs E1) as [Hs1 Ha]. by eapply Hk. Qed.

Lemma sound_do {A} (P : A → Prop) (fn : operation A) a : op_keeps P fn → P a → sound (λ x, P x.1) (do base fn a).
Proof. intros Hfn Ha [m w] x [m' w'] Hs E. by eapply do_mounted. Qed.

Lemma sound_do_any {A} (fn : operation A) a :
  (∀ ctx vol a, keeps open_conns (fn ctx vol a)) → sound (λ _, True) (do base fn a).
Proof.
  intros Hfn s x s' Hs E. by apply (sound_do (λ _, True) fn a (op_keeps_any _ Hfn) I s x s' Hs) in E as [? _].
Qed.

(** Methods of the volume. *)
Lemma sound_vol_op {A} (op : Transport W → Volume → Ctx → M W (result A)) a0 :
  (∀ c v ctx, keeps open_conns (op (on c) v ctx)) → sound (λ _, True) (do base (vol_op op a0) a0).
Proof.
  intros Hop. apply sound_do_any. intros ctx vol a. unfold vol_op, deref.
  destruct vol as [l|]; [|apply keeps_lift]. keeps_step; [apply Hop|solve_keeps].
Qed.

Lemma sound_vol_unit op : (∀ c v ctx, keeps open_conns (op (on c) v ctx)) → sound (λ _, True) (vol_unit base op).
Proof. intros Hop. eapply sound_bind; [by apply sound_vol_op|]. intros [[] err] _. by apply sound_ret. Qed.

(** Files: a fork has room for tasks. *)
Definition file_ok (f : File) : Prop := ∀ fk, fl_fork f = Some fk → 0 < f_maxParallel fk.1.

Lemma File_open_keeps ctx vol f w f' r w' : file_ok f → File_open ctx vol f w = Ret ((f', r), w') →
  open_conns w' = open_conns w ∧ file_ok f' ∧ (∀ fk, r = Ok fk → 0 < f_maxParallel fk.1).
Proof.
  intros Hf. assert (reopen ctx vol f w = Ret ((f', r), w') →
    open_conns w' = open_conns w ∧ file_ok f' ∧ (∀ fk, r = Ok fk → 0 < f_maxParallel fk.1)) as Hre.
  { unfold reopen, deref. destruct vol as [l|]; [|done]. intros (r1&w1&E1&E2)%M_bind_inv.
    assert (∃ mode, @openFork W (on (l_conn l)) _ (l_vol l) ctx RootDirID (fl_path f) mode w = Ret (r1, w1)) as [mode Eo]
      by (destruct (fl_writable f); by eexists).
    pose proof (keeps_on_openFork _ _ _ _ _ _ _ _ _ Eo) as Ho. destruct r1 as [fork|e]; injection E2 as <- <- <-; [|done].
    apply openFork_limit in Eo. split; [exact Ho|]. split; [by intros fk [= <-]|by intros fk [= <-]]. }
  unfold File_open. destruct (fl_fork f) as [[fork l]|] eqn:Ef; [|exact Hre]. case_bool_decide; [|exact Hre].
  intros [= <- <- <-]. split; [done|]. split; [done|]. intros fk [= <-]. by apply (Hf (fork, l)).
Qed.

Lemma sound_withFork {A} (fn : Ctx → Fork * link → A → M W (A * option error)) f a :
  (∀ ctx fk a, 0 < f_maxParallel fk.1 → keeps open_conns (fn ctx fk a)) → file_ok f →
  sound (λ x, file_ok x.1.1) (Bridge.withFork base fn f a).
Proof.
  intros Hfn Hf. apply (sound_do (λ x, file_ok x.1)); [|done].
  intros ctx vol [g b] w x w' Hg. cbn [fst] in Hg. intros ([g' r]&w1&E1&E2)%M_bind_inv.
  destruct (File_open_keeps _ _ _ _ _ _ _ Hg E1) as (Ho&Hg'&Hr). destruct r as [fk|e]; [|by injection E2 as <- <-].
  apply M_bind_inv in E2 as ([a' err]&w2&E2&E3). injection E3 as <- <-. apply Hfn in E2; [|by apply Hr].
  split; [by rewrite E2, Ho|done].
Qed.

Lemma file_ok_fields f g : file_ok f → fl_fork g = fl_fork f → file_ok g.
Proof. intros Hf E fk. rewrite E. apply Hf. Qed.

(** A file operation ends with a sound file. *)
Lemma sound_file {A B} (fn : Ctx → Fork * link → A → M W (A * option error)) f a (k : File * A * option error → M (connManager * W) (File * B)) :
  (∀ ctx fk a, 0 < f_maxParallel fk.1 → keeps open_conns (fn ctx fk a)) → file_ok f →
  (∀ x, file_ok x.1.1 → sound (λ y, file_ok y.1) (k x)) → sound (λ y, file_ok y.1) (Bridge.withFork base fn f a ≫= k).
Proof. intros Hfn Hf Hk. eapply sound_bind; [by apply sound_withFork|exact Hk]. Qed.

Lemma keeps_read_op off ctx fk a : 0 < f_maxParallel fk.1 → keeps open_conns (read_op off ctx fk a).
Proof. intros Hf. unfold read_op. keeps_step; [by apply keeps_on_ReadAt|solve_keeps]. Qed.

Lemma sound_File_Read f p : file_ok f → sound (λ x, file_ok x.1) (File_Read base f p).
Proof.
  intros Hf. apply sound_file; [apply keeps_read_op|done|]. intros [[g [p' n]] err] Hg. apply sound_ret.
  by eapply file_ok_fields.
Qed.

Lemma sound_File_ReadAt f p off : file_ok f → sound (λ x, file_ok x.1) (File_ReadAt base f p off).
Proof.
  intros Hf. apply sound_file; [apply keeps_read_op|done|]. intros [[g [p' n]] err] Hg. by apply sound_ret.
Qed.

Lemma sound_File_Write f p : file_ok f → sound (λ x, file_ok x.1) (File_Write base f p).
Proof.
  intros Hf. apply sound_file; [|done|].
  - intros ctx fk a Hfk. by apply keeps_on_WriteAt.
  - intros [[g n] err] Hg. apply sound_ret. cbn. case_bool_decide; by eapply file_ok_fields.
Qed.

Lemma sound_File_Truncate f size : file_ok f → sound (λ x, file_ok x.1) (File_Truncate base f size).
Proof.
  intros Hf. apply sound_file; [|done|].
  - intros ctx fk a Hfk. unfold Truncate. solve_keeps.
  - intros [[g n] err] Hg. apply sound_ret. destruct err; [done|]. by eapply file_ok_fields.
Qed.

Lemma sound_File_Close f : file_ok f → sound (λ x, file_ok x.1) (File_Close base f).
Proof.
  intros Hf. unfold File_Close. destruct (fl_fork f) as [[fork l]|]; [|by apply sound_ret].
  eapply sound_bind; [apply sound_do_any; intros ctx vol a; unfold close_op, Fork_Close; solve_keeps|].
  intros [[] err] _. by apply sound_ret.
Qed.

(** Files that are opened. *)
Definition opens_file (r : result File) : Prop := match r with Ok f => file_ok f | Err _ => True end.

Lemma open_op_keeps filename flag : op_keeps file_ok (open_op filename flag).
Proof.
  intros ctx vol f w x w' Hf (created&w1&E1&E2)%M_bind_inv.
  assert (open_conns w1 = open_conns w) as Ho1.
  { revert E1. apply (λ K : keeps open_conns _, K w created w1). destruct (has flag O_CREATE); [|solve_keeps]. unfold deref, CreateFile.
    destruct vol as [l|]; [|solve_keeps]. solve_keeps. }
  destruct created as [e|]; [by injection E2 as <- <-|].
  apply M_bind_inv in E2 as ([f' r]&w2&E2&E3). destruct (File_open_keeps _ _ _ _ _ _ _ Hf E2) as (Ho2&Hf'&Hr).
  rewrite <- Ho1, <- Ho2. destruct r as [[fork l]|e]; [|by injection E3 as <- <-].
  cbv zeta in E3. set (g := set_size (i64 (f_Size fork)) f') in *. assert (file_ok g) as Hg by (by eapply file_ok_fields).
  destruct (has flag O_TRUNC && fl_writable g); [|by injection E3 as <- <-].
  apply M_bind_inv in E3 as (r&w3&E3&E4). unfold Truncate in E3. apply keeps_on_invoke in E3. rewrite <- E3.
  destruct r; injection E4 as <- <-; split; try done.
Qed.

Lemma sound_OpenFile root filename flag : sound opens_file (OpenFile base root filename flag).
Proof.
  unfold OpenFile. eapply sound_bind; [apply sound_do; [apply open_op_keeps|by intros fk]|].
  intros [f err] Hf. apply sound_ret. cbn in *. destruct err; [done|]. cbn. case_match; [by eapply file_ok_fields|done].
Qed.

Lemma sound_TempFile r root dir prefix : sound opens_file (TempFile base r root dir prefix).
Proof. unfold TempFile. destruct r; [apply sound_OpenFile|by apply sound_ret]. Qed.

(** The other methods. *)
Abbreviation fine := (sound (λ _, True)).

Lemma sound_map {A B} (m : M (connManager * W) A) (k : A → B) : fine m → fine (m ≫= λ a, mret (k a)).
Proof. intros Hm. eapply sound_bind; [exact Hm|]. intros a _. by apply sound_ret. Qed.

Lemma sound_FSStat : fine (FSStat base).
Proof.
  unfold FSStat, statFS. eapply sound_bind; [apply sound_vol_op; intros; apply keeps_on_StatFS|].
  intros [info err] _. by apply sound_ret.
Qed.

Lemma sound_FS_Stat root filename : fine (FS_Stat base root filename).
Proof.
  unfold FS_Stat. cbv zeta. case_bool_decide; [by apply sound_ret|].
  eapply sound_bind; [apply sound_vol_op; intros; apply keeps_on_Stat|]. intros [e err] _. by apply sound_ret.
Qed.

Lemma sound_mkdir_loop ds parts : fine (mkdir_loop base ds parts).
Proof.
  revert ds. induction parts as [|part parts IH]; intros ds; cbn [mkdir_loop]; [by apply sound_ret|].
  eapply sound_bind; [apply sound_vol_unit; intros; apply keeps_on_invoke|]. intros [er|] _; [|apply IH].
  cbv zeta. case_match; [apply IH|by apply sound_ret].
Qed.

Lemma sound_change_privs root name change : fine (change_privs base root name change).
Proof.
  unfold change_privs, supportsUnixPrivs. eapply sound_bind.
  - eapply sound_bind; [apply sound_do_any; intros ctx vol a; unfold supports_op, deref; solve_keeps|]. intros [su err] _. by apply (sound_ret (λ _, True)).
  - intros su _. destruct (negb su); [by apply sound_ret|]. eapply sound_bind; [|intros [[] err] _; by apply sound_ret].
    apply sound_do_any. intros ctx vol a. unfold change_op, deref, SetUnixPrivs. solve_keeps.
Qed.

Lemma sound_Chtimes root name mtime : fine (Chtimes base root name mtime).
Proof.
  unfold Chtimes. eapply sound_bind; [|intros [[] err] _; by apply sound_ret].
  apply sound_do_any. intros ctx vol a. unfold chtimes_op, deref, SetModTime. solve_keeps.
Qed.

(** ** The handler *)

Variable fuel : nat.

(** What holds of a mount that is being served. *)
Definition serving (s : (connManager * W) * list File) : Prop := mounted opened s.1 ∧ Forall file_ok s.2.

Lemma zoom1_serving {A} (m : M (connManager * W) A) s x s' : fine m → serving s → zoom1 m s = Ret (x, s') → serving s'.
Proof.
  intros Hm [Hs Hf]. unfold zoom1. destruct (m s.1) as [[a s1]| |] eqn:E; [|done..]. intros [= _ <-].
  split; [|exact Hf]. by apply (Hm _ _ _ Hs E).
Qed.

Lemma new_file_serving m s x s' : sound opens_file m → serving s → new_file m s = Ret (x, s') → serving s'.
Proof.
  intros Hm [Hs Hf]. destruct s as [s files]. unfold new_file. destruct (m s) as [[r s1]| |] eqn:E; [|done..].
  destruct (Hm _ _ _ Hs E) as [Hs1 Hr]. destruct r as [f|e]; intros [= _ <-]; (split; [exact Hs1|]); [|exact Hf].
  apply Forall_app. split; [exact Hf|]. by apply Forall_singleton.
Qed.

Lemma on_file_serving {A} i (m : File → M (connManager * W) (File * A)) s x s' :
  (∀ f, file_ok f → sound (λ y, file_ok y.1) (m f)) → serving s → on_file i m s = Ret (x, s') → serving s'.
Proof.
  intros Hm [Hs Hf]. destruct s as [s files]. unfold on_file. cbn [fst snd] in *. destruct (files !! i) as [f|] eqn:Ef; [|done].
  destruct (m f s) as [[[f' a] s1]| |] eqn:E; [|done..]. intros [= _ <-].
  destruct (Hm f (Forall_lookup_1 _ _ _ _ Hf Ef) _ _ _ Hs E) as [Hs1 Hf']. split; [exact Hs1|]. by apply Forall_insert.
Qed.

Lemma random8_sound : fine random8.
Proof.
  intros [m w] r s' Hs. unfold random8. destruct (rand_Read 8 w) as [[r' w']| |] eqn:E; [|done..]. intros [= _ <-].
  split; [|done]. eapply mounted_keeps; [exact Hs|]. by apply tr_rand in E.
Qed.

Lemma handle_serving c s x s' : serving s → handle base fuel c s = Ret (x, s') → serving s'.
Proof.
  intros Hs. destruct c; cbn [handle];
    first [ apply new_file_serving; [|exact Hs] | apply on_file_serving; [intros f Hf|exact Hs] | apply zoom1_serving; [|exact Hs] ].
  - apply sound_FSStat.
  - apply sound_OpenFile.
  - apply sound_OpenFile.
  - apply sound_OpenFile.
  - eapply sound_bind; [apply random8_sound|]. intros r _. apply sound_TempFile.
  - apply sound_FS_Stat.
  - apply sound_FS_Stat.
  - apply sound_map, sound_vol_unit. intros. apply keeps_on_invoke.
  - apply sound_map, sound_vol_unit. intros. apply keeps_on_invoke.
  - unfold FS_ReadDir. eapply sound_bind; [apply sound_vol_op; intros; apply keeps_on_ReadDir|]. intros [l err] _. by apply sound_ret.
  - unfold MkdirAll. cbv zeta. case_bool_decide; [by apply sound_ret|apply sound_mkdir_loop].
  - apply sound_map, sound_vol_unit. intros. apply keeps_on_Symlink.
  - unfold Readlink. eapply sound_bind; [apply sound_vol_op; intros; apply keeps_on_ReadLink|]. intros [l err] _. by apply sound_ret.
  - apply sound_change_privs.
  - apply sound_change_privs.
  - apply sound_change_privs.
  - apply sound_Chtimes.
  - by apply sound_File_Read.
  - by apply sound_File_ReadAt.
  - by apply sound_File_Write.
  - apply sound_ret. by eapply file_ok_fields.
  - by apply sound_File_Truncate.
  - by apply sound_File_Close.
Qed.

Lemma run_session_serving {L} (p : session L) s l x s' l' :
  serving s → run_session base fuel p (s, l) = Ret (x, (s', l')) → serving s'.
Proof.
  revert s l. induction p as [r|c k IH|m IH] using session_induction; intros s l Hs; cbn [run_session].
  - by intros [= _ <- _].
  - intros (y&[s1 l1]&E1&E2)%M_bind_inv. unfold zoom1 in E1. cbn [fst snd] in E1.
    destruct (handle base fuel c s) as [[y' s2]| |] eqn:E; [|done..]. injection E1 as -> -> ->.
    eapply IH; [|exact E2]. by eapply handle_serving.
  - specialize (IH l). destruct (m l) as [[p l1]| |]; [|done..]. by apply IH.
Qed.

Lemma Serve_mounted {L Listener} (nfs : Listener → Z → session L) a n m w l r m' w' l' :
  mounted opened (m, w) → Serve base fuel nfs a n (m, (w, l)) = Ret (r, (m', (w', l'))) → mounted opened (m', w').
Proof.
  intros Hm. unfold Serve. destruct (run_session _ _ _ _) as [[r1 [[[m1 w1] files] l1]]| |] eqn:E; [|done..].
  intros [= _ <- <- _]. eapply run_session_serving in E; [apply E|]. split; [exact Hm|constructor].
Qed.

End serve.
