(* ===== verification/CommandSpec.v ===== *)
(** * The command line client: what it guarantees

    Every command closes the connections that it dialled, whatever fails on the
    way. *)

From S2P Require Import Prelude Header Result Wire Entry ServerInfo Conn Transport Session SessionSpec Errgroup Fork ForkSpec Ops OpsSpec Login Manager ManagerSpec Path Bridge Serve Url Keeps Command Tracked ServeSpec.

Open Scope go_scope.

(** ** Commands *)

Section commands.
Context {W L : Type} `{Tracked W} `{Local L} `{Cast5} `{Norm} `{ErrgroupLaw} `{NetIP} (fuel : nat).

Abbreviation on c := (mc_transport c).
Abbreviation o := (λ s : W * L, open_conns s.1).

Lemma keeps_net {A} (m : M W A) : keeps open_conns m → keeps o (net m).
Proof. apply keeps_zoom1. Qed.

Lemma keeps_local {A} (m : M L A) : keeps o (local m).
Proof. apply (keeps_zoom2 open_conns). Qed.

Lemma keeps_print s : keeps o (print s).
Proof. unfold print. keeps_step; [apply keeps_local|apply keeps_ret]. Qed.

Lemma keeps_eprint s : keeps o (eprint s).
Proof. unfold eprint. keeps_step; [apply keeps_local|apply keeps_ret]. Qed.

Lemma keeps_print_lines l : keeps o (print_lines l).
Proof. induction l as [|x l IH]; cbn [print_lines]; [apply keeps_ret|]. keeps_step; [apply keeps_print|done]. Qed.

Lemma keeps_errorf {A} s : keeps o (@errorf (W * L) A s).
Proof. apply keeps_ret. Qed.

#[local] Hint Resolve keeps_net keeps_local keeps_print keeps_eprint keeps_print_lines keeps_errorf
  keeps_on_Logout keeps_on_ListVolumes keeps_on_OpenVolume keeps_on_Volume_Close keeps_on_ReadDir keeps_on_invoke
  keeps_on_openFork keeps_finally : keeps.

Lemma keeps_with_session t fn : (∀ c, keeps o (fn c)) → keeps o (with_session t fn).
Proof.
  intros Hfn [w l] r [w' l']. unfold with_session, try_bind. intros ([c|e]&[w1 l1]&E1&E2)%M_bind_inv.
  - unfold net, zoom1 in E1. cbn [fst snd] in E1.
    destruct (connect command_ctx t w) as [[r1 w2]| |] eqn:Ec; [|done..]. injection E1 as -> -> ->.
    apply connect_opens in Ec as [Hc Ho].
    assert (closes o c (finally (net (Conn_Close c)) (finally (net (@Logout W (on c) command_ctx)) (fn c)))) as Hcl.
    { apply closes_finally; [apply keeps_finally; [apply Hfn|eauto with keeps]|].
      intros [wa la] a [wb lb] E. unfold net, zoom1 in E. cbn in E. injection E as _ <- <-. apply tr_close. }
    rewrite (Hcl _ _ _ E2). cbn [fst]. rewrite Ho. unfold id in *. set_solver.
  - injection E2 as <- <- <-. unfold net, zoom1 in E1. cbn [fst snd] in E1.
    destruct (connect command_ctx t w) as [[r1 w2]| |] eqn:Ec; [|done..]. injection E1 as -> -> ->.
    by apply connect_opens in Ec.
Qed.

Lemma keeps_with_open_volume t fn : (∀ c v, keeps o (fn c v)) → keeps o (with_open_volume t fn).
Proof. intros Hfn. apply keeps_with_session. intros c. pose proof (Hfn c). solve_keeps. Qed.

Lemma net_openFork_limit c v ctx d p mode (s : W * L) f s' :
  net (@openFork W (on c) _ v ctx d p mode) s = Ret (Ok f, s') → 0 < f_maxParallel f.
Proof.
  unfold net, zoom1. destruct (@openFork W (on c) _ v ctx d p mode s.1) as [[r w1]| |] eqn:E; [|done..].
  intros [= -> _]. by apply openFork_limit in E.
Qed.

Lemma keeps_copy_to c f write : 0 < f_maxParallel f → keeps o (copy_to fuel c f write).
Proof. intros Hm. apply (keeps_writeTo (H := on c) open_conns); [intros; apply tr_request|done|done]. Qed.

Lemma keeps_copy_from c f src : 0 < f_maxParallel f → keeps o (copy_from (L := L) fuel c f src).
Proof.
  intros Hm [w l] a [w' l']. unfold copy_from, ReadFromContext.
  destruct (@readFrom W (on c) _ fuel f command_ctx (w, src)) as [[r [w1 src1]]| |] eqn:E; [|done..].
  intros [= -> -> ->]. cbn.
  pose proof (@keeps_readFrom W _ (on c) open_conns (λ ctx cmd off p, tr_request c ctx cmd off p) _ _ fuel f command_ctx Hm _ _ _ E) as Hk. exact Hk.
Qed.

(** ** The commands themselves *)

Lemma keeps_withVolume raw fn : (∀ c v t, keeps o (fn c v t)) → keeps o (withVolume raw fn).
Proof.
  intros Hfn. unfold withVolume. keeps_step; [solve_keeps|]. keeps_step; [solve_keeps|].
  apply keeps_with_open_volume. intros. apply Hfn.
Qed.

Lemma keeps_withFork raw fn : (∀ c f, 0 < f_maxParallel f → keeps o (fn c f)) → keeps o (withFork raw fn).
Proof.
  intros Hfn. unfold withFork. keeps_step; [solve_keeps|]. keeps_step; [solve_keeps|].
  apply keeps_with_open_volume. intros c v.
  apply (keeps_try_post o (λ f, 0 < f_maxParallel f)); [solve_keeps|intros ???; apply net_openFork_limit|].
  intros f Hf. apply keeps_finally; [by apply Hfn|solve_keeps].
Qed.

Lemma keeps_runPut args : keeps o (runPut (L := L) fuel args).
Proof.
  unfold runPut. destruct args as [|name [|raw args]]; [solve_keeps..|].
  keeps_step; [solve_keeps|]. keeps_step; [solve_keeps|].
  keeps_step; [solve_keeps|]. keeps_step.
  apply keeps_finally; [|solve_keeps]. apply keeps_with_open_volume. intros c v. unfold put_file, put_fork.
  keeps_step; [solve_keeps|].
  apply (keeps_try_post o (λ f, 0 < f_maxParallel f)); [solve_keeps|intros ???; apply net_openFork_limit|].
  intros f Hf. apply keeps_finally; [|solve_keeps]. keeps_step; [by apply keeps_copy_from|]. solve_keeps.
Qed.

Lemma keeps_runGet args : keeps o (runGet fuel args).
Proof.
  unfold runGet. keeps_step; [solve_keeps|]. keeps_step; [solve_keeps|]. cbv zeta. keeps_step; [solve_keeps|].
  apply keeps_withFork. intros c f Hf. keeps_step; [solve_keeps|].
  apply keeps_finally; [|solve_keeps]. keeps_step; [by apply keeps_copy_to|]. solve_keeps.
Qed.

Lemma keeps_runCat raw : keeps o (runCat fuel raw).
Proof.
  apply keeps_withFork. intros c f Hf. unfold cat_fork. keeps_step; [by apply keeps_copy_to|]. solve_keeps.
Qed.

Lemma keeps_runLs raw : keeps o (runLs (L := L) fuel raw).
Proof.
  unfold runLs. keeps_step; [solve_keeps|]. keeps_step; [solve_keeps|].
  apply keeps_with_open_volume. intros c v. solve_keeps.
Qed.

Lemma keeps_runVolumes raw : keeps o (runVolumes (L := L) raw).
Proof. unfold runVolumes. keeps_step; [solve_keeps|]. apply keeps_with_session. intros c. solve_keeps. Qed.

Lemma keeps_runStatus addr : keeps o (runStatus (L := L) addr).
Proof.
  unfold runStatus. keeps_step; [|solve_keeps]. apply keeps_net, keeps_fetchStatus.
Qed.

Context (nfs : TCPAddr → Z → session L).

Lemma New_mounted t ctx (s s' : W * L) r :
  net (@New W (mount_network t) ctx) s = Ret (r, s') →
  match r with Ok m => mounted (open_conns s.1) (m, s'.1) | Err _ => open_conns s'.1 = open_conns s.1 end.
Proof.
  unfold net, zoom1, New.
  destruct (@newConnManager W (mount_network t) ctx s.1) as [[r1 w1]| |] eqn:E1; [|done..]. intros [= -> <-].
  unfold newConnManager, try_bind in E1. apply M_bind_inv in E1 as ([l|e]&w2&Ed&E2); apply mount_dial_opens in Ed; injection E2 as <- <-; [|done].
  cbn. done.
Qed.

Lemma keeps_printMountHelp a volume : keeps o (printMountHelp a volume).
Proof. unfold printMountHelp. solve_keeps. Qed.

Lemma keeps_runMount args : keeps o (runMount fuel nfs args).
Proof.
  unfold runMount. destruct args as [|raw args]; [solve_keeps|].
  keeps_step; [solve_keeps|]. keeps_step; [solve_keeps|]. cbv zeta.
  intros [w l] r [w' l']. unfold try_bind. intros ([m|e]&[w1 l1]&E1&E2)%M_bind_inv.
  - apply New_mounted in E1.
    apply M_bind_inv in E2 as (bound&[w2 l2]&El&E2). apply keeps_local in El. cbn [fst] in El.
    apply M_bind_inv in E2 as ([r1 m1]&[w3 l3]&Es&E3).
    assert (mounted (open_conns w) (m1, w3)) as Hm.
    { eapply mounted_keeps in E1; [|exact El]. destruct bound as [bound|e]; [|by injection Es as <- <- <- <-].
      apply M_bind_inv in Es as ([]&[w4 l4]&Eh&Es). apply keeps_printMountHelp in Eh. cbn [fst] in Eh.
      eapply mounted_keeps in E1; [|exact Eh]. unfold serve_on in Es.
      destruct (Serve _ _ _ _ _ _) as [[r2 [m2 [w5 l5]]]| |] eqn:En; [|done..].
      injection Es as <- <- <- <-. by eapply Serve_mounted. }
    apply M_bind_inv in E3 as ([]&[w6 l6]&Eu&E3). injection E3 as <- <- <-.
    injection Eu as <- <-. by apply (mounted_close _ m1).
  - injection E2 as <- <- <-. by apply New_mounted in E1.
Qed.

Lemma keeps_main args : keeps o (main fuel nfs args).
Proof.
  unfold main. pose proof keeps_runMount. pose proof keeps_runStatus. pose proof keeps_runVolumes.
  pose proof keeps_runLs. pose proof keeps_runCat. pose proof keeps_runGet. pose proof keeps_runPut.
  assert (∀ raw, keeps o (runMkdir (L := L) raw)) by (intros; apply keeps_withVolume; intros; solve_keeps).
  assert (∀ raw, keeps o (runRm (L := L) raw)) by (intros; apply keeps_withVolume; intros; solve_keeps).
  assert (∀ args, keeps o (runMv (L := L) args)).
  { intros [|raw [|p args']]; [solve_keeps..|]. apply keeps_withVolume. intros. solve_keeps. }
  solve_keeps.
Qed.

End commands.

(** ** A network and a terminal for the examples

    One server behind numbered connections; every dial succeeds. *)
Record mnet (St : Type) : Type := MkMnet {
  mn_server : St;
  mn_next : nat;
  mn_open : gset nat;
  mn_quantum : gmap nat Z;
}.
Arguments MkMnet {St}.
Arguments mn_server {St}.
Arguments mn_next {St}.
Arguments mn_open {St}.
Arguments mn_quantum {St}.

Definition mnet_transport {St} (serve : server St) (c : nat) : Transport (mnet St) := {|
  t_request ctx cmd off payload n :=
    if bool_decide (c ∈ mn_open n) && live ctx then
      let '(code, rp, st') := serve cmd off payload (mn_server n) in
      Ret (Ok (MkReply (MkHeader flagReply cmd 0 code (len rp) 0) rp),
           MkMnet st' (mn_next n) (mn_open n) (mn_quantum n))
    else Ret (Err ENetClosed, n);
  t_quantum n := default 0 (mn_quantum n !! c);
|}.

(** The next number that is not the one of an open connection. *)
Definition mnet_machine {St} (serve : server St) : Machine (mnet St) := {|
  mc_transport := mnet_transport serve;
  mc_connect _ _ n :=
    if bool_decide (mn_next n ∈ mn_open n) then Ret (Err (EIO 0), n) else
    Ret (Ok (mn_next n), MkMnet (mn_server n) (S (mn_next n)) ({[ mn_next n ]} ∪ mn_open n) (mn_quantum n));
  mc_close c n := MkMnet (mn_server n) (mn_next n) (mn_open n ∖ {[ c ]}) (mn_quantum n);
  mc_alive c n := bool_decide (c ∈ mn_open n);
  mc_set_quantum c q n := MkMnet (mn_server n) (mn_next n) (mn_open n) (<[ c := q ]> (mn_quantum n));
  mc_tickle _ n := n;
|}.

Definition mnet_entropy {St} : Entropy (mnet St) := {| rand_Read n w := Ret (Ok (replicate (Z.to_nat n) x00), w) |}.

Definition mnet_tracked {St} (serve : server St) : @Tracked (mnet St) (mnet_machine serve) mnet_entropy.
Proof.
  refine (@Build_Tracked (mnet St) (mnet_machine serve) mnet_entropy mn_open _ _ _ _ _ _).
  - intros c ctx cmd off payload n r n'. cbn. destruct (bool_decide _ && _); [|by intros [= _ ->]].
    destruct (serve cmd off payload (mn_server n)) as [[code rp] st']. by intros [= _ <-].
  - by intros m n r n' [= _ ->].
  - done.
  - done.
  - done.
  - intros ctx addr n r n'. cbn. case_bool_decide; by intros [= <- <-].
Defined.

(** What the terminal shows, and the content of the only local file. *)
Record loc : Type := MkLoc {
  lo_out : bytes;
  lo_err : bytes;
  lo_file : bytes;
}.

Definition loc_local : Local loc := {|
  lc_stdout b l := Ret (None, MkLoc (lo_out l ++ b) (lo_err l) (lo_file l));
  lc_stderr b l := Ret (None, MkLoc (lo_out l) (lo_err l ++ b) (lo_file l));
  lc_create _ l := Ret (Ok 1%nat, MkLoc (lo_out l) (lo_err l) []);
  lc_write _ b l := Ret (None, MkLoc (lo_out l) (lo_err l) (lo_file l ++ b));
  lc_open _ l := Ret (Ok (1%nat, MkSource (lo_file l) EEOF), l);
  lc_close _ l := Ret (None, l);
  lc_listen addr l := Ret (Ok (MkTCPAddr (str "127.0.0.1") 2049 []), l);
  lc_format_time _ := str "2026-01-01 00:00";
  lc_report _ l := Ret (tt, MkLoc (lo_out l) (lo_err l ++ str "goafp: error" ++ newline) (lo_file l));
  lc_GOOS := str "linux";
  lc_quote s := [x22] ++ s ++ [x22];
|}.

(** A server with one guest volume and one file, by any name. *)
Definition nas_block : bytes :=
  info_block (Build_info_layout (str "nas") (str "Netatalk") [str "AFP3.4"] [str "No User Authent"] 0x220 0 [] [] [] []).

Definition nas_server : server bytes := λ cmd off payload d,
  let c := match head payload with Some c => bZ c | None => 0 end in
  if bool_decide (cmd = CmdGetStatus) then (0, nas_block, d)
  else if bool_decide (cmd = CmdOpenSession) then (0, [x00; x04] ++ be_bytes 4 0x10000, d)
  else if bool_decide (c = cmdOpenVol) then (0, open_vol_payload 0x21 0 7 [], d)
  else if bool_decide (c = cmdCreateFile) then (0, [], [])
  else if bool_decide (c = cmdOpenFork) then (0, open_fork_payload kFPExtDataForkLenBit 5 (len d) [], d)
  else if bool_decide (c = cmdLogin ∨ c = cmdLogout ∨ c = cmdCloseVol ∨ c = cmdCloseFork ∨ c = cmdDelete) then (0, [], d)
  else file_server cmd off payload d.

Definition no_ciphers : Cast5 := {| cast5_NewCipher _ := Err (EIO 0) |}.
Definition no_literals : NetIP := {| ParseAddr6 _ := false |}.

(** ** Properties *)

(** C7: no command leaks a connection: whatever the arguments are and whatever
    fails (the URL, a dial, the session, the login, the volume, a file, a
    transfer, the listener), when a command ends the connections that are open
    are those that were open when it began; that includes a mount, whatever the
    NFS clients ask for.  While a mount is served, calls being made one at a
    time, each call leaves at most one connection added to those: the manager's,
    or none after a reconnect whose dial failed. *)
Theorem commands_close {W L : Type} `{Tracked W} `{Local L} `{Cast5} `{Norm} `{ErrgroupLaw} `{NetIP} fuel
    (nfs : TCPAddr → Z → session L) args w l code w' l' :
  main fuel nfs args (w, l) = Ret (code, (w', l')) →
  open_conns w' = open_conns w ∧
  (∀ t opened base c s x s', serving opened s → @handle W (mount_network t) _ _ _ base fuel c s = Ret (x, s') → serving opened s').
Proof.
  intros E. split; [exact (keeps_main fuel nfs args _ _ _ E)|].
  intros t opened base c s x s'. apply (handle_serving t).
Qed.

(** An NFS server whose client asks for the capacity, reads a file to the terminal
    and hangs up. *)
Definition nfs_cat : TCPAddr → Z → session loc := λ _ _,
  Issue CallFSStat (λ _, Issue (CallOpen [] (str "/old.txt")) (λ r,
    match r with
    | Ok i => Issue (CallRead i (str "..........")) (λ '(p, n, _),
        Wait (λ l, Ret (Issue (CallClose i) Finish, MkLoc (lo_out l ++ take (Z.to_nat n) p) (lo_err l) (lo_file l))))
    | Err e => Finish (Err e)
    end)).

(** "goafp mount", from the status query to the end of the NFS server. *)
Lemma commands_close_witness :
  ∃ w' l', @main (mnet bytes) loc (mnet_machine nas_server) loc_local mnet_entropy no_ciphers plain_norm in_order no_literals
      10 nfs_cat [str "mount"; str "afp://nas/Data"]
      (MkMnet (str "hello") 3 {[ 1%nat ]} ∅, MkLoc [] [] []) = Ret (0, (w', l')) ∧
    mn_open w' = {[ 1%nat ]} ∧ mn_next w' = 5%nat ∧ drop (length (lo_out l') - 5) (lo_out l') = str "hello".
Proof.
  destruct (@main (mnet bytes) loc (mnet_machine nas_server) loc_local mnet_entropy no_ciphers plain_norm in_order no_literals
      10 nfs_cat [str "mount"; str "afp://nas/Data"]
      (MkMnet (str "hello") 3 {[ 1%nat ]} ∅, MkLoc [] [] [])) as [[code [w' l']]| |] eqn:E;
    [|vm_compute in E; discriminate..].
  exists w', l'. split; [|split; [|split]].
  - vm_compute in E. injection E as <- <- <-. reflexivity.
  - destruct (@commands_close (mnet bytes) loc (mnet_machine nas_server) mnet_entropy (mnet_tracked nas_server) loc_local
      no_ciphers plain_norm in_order in_order_law no_literals 10 nfs_cat
      [str "mount"; str "afp://nas/Data"] (MkMnet (str "hello") 3 {[ 1%nat ]} ∅) (MkLoc [] [] []) code w' l') as [Ho _].
    + exact E.
    + exact Ho.
  - vm_compute in E. injection E as _ <- _. reflexivity.
  - vm_compute in E. injection E as _ _ <-. reflexivity.
Defined.
