(* ===== verification/SignOn.v ===== *)
(** * Signing on as a guest

    What [connect] and the deferred calls of a command do on a network whose
    server answers: the status query on a connection of its own, the session,
    the guest login, the volume, and the way back. *)

From S2P Require Import Prelude Header Result Wire Entry ServerInfo Conn Transport Session SessionSpec Errgroup Fork Ops Login Manager Path Bridge Serve Url Command.

Open Scope go_scope.

(** ** A network that works: every dial reaches the server *)

Class Nas (W St : Type) `{Machine W} (serve : server St) : Type := {
  ns_served c : @Served W St (mc_transport c) serve;
  ns_idle : St → W → Prop;
  ns_connect ctx addr st w : ns_idle st w → live ctx = true →
    ∃ c q w', mc_connect ctx addr w = Ret (Ok c, w') ∧ @at_state W St (mc_transport c) serve (ns_served c) st q w';
  ns_close c st q w : @at_state W St (mc_transport c) serve (ns_served c) st q w → ns_idle st (mc_close c w);
  ns_quantum c st q q' w : @at_state W St (mc_transport c) serve (ns_served c) st q w →
    @at_state W St (mc_transport c) serve (ns_served c) st q' (mc_set_quantum c q' w);
  ns_tickle c st q w : @at_state W St (mc_transport c) serve (ns_served c) st q w →
    @at_state W St (mc_transport c) serve (ns_served c) st q (mc_tickle c w);
}.

Section sign_on.
Context {W St : Type} `{Machine W} {serve : server St} `{!Nas W St serve}.
Context `{Entropy W} `{Cast5} `{Norm}.

Abbreviation on c := (mc_transport c).
Abbreviation ready c st q w := (@at_state W St (mc_transport c) serve (ns_served c) st q w).

(** A request that leaves the server within [P]; [R] is what is known of the
    reply. *)
Definition harmless (P : St → Prop) (cmd : Z) (payload : bytes) (R : Z → bytes → Prop) : Prop :=
  ∀ st, P st → ∃ code rp st', serve cmd 0 payload st = (code, rp, st') ∧ R code rp ∧ P st'.

Context (t : target) (block : bytes) (info : ServerInfo) (version : bytes) (q : Z).

(** A server within [P] that tells what it is and admits guests. *)
Record admits (P : St → Prop) : Prop := {
  ad_guest : t_username t = [];
  ad_status : harmless P CmdGetStatus [] (λ _ rp, rp = block);
  ad_info : ParseServerInfo block = Ret (Ok info);
  ad_version : pickVersion (AFPVersions info) = Ok version;
  ad_uam : uamNoAuth ∈ UAMs info;
  ad_session : harmless P CmdOpenSession open_session_payload
    (λ _ rp, ∀ q0, parse_options (S (length rp)) rp 0 q0 = Ret (Ok tt, q));
  ad_login : harmless P CmdCommand (login_request (MkSession version) uamNoAuth []) (λ code _, code = 0);
}.

Definition logout_request : bytes := [byte_of_Z cmdLogout; x00].

(** A harmless request on a ready connection. *)
Lemma harmless_request P cmd payload R ctx c st q0 w :
  harmless P cmd payload R → 0 ≤ cmd < 2 ^ 8 → ready c st q0 w → live ctx = true → P st →
  ∃ h rp w' st', @t_request W (on c) ctx cmd 0 payload w = Ret (Ok (MkReply h rp), w') ∧ R (ErrCode h) rp ∧
    ready c st' q0 w' ∧ P st'.
Proof.
  intros Hh Hcmd (Hr&<-&<-) Hl Hc. destruct (Hh _ Hc) as (code&rp&st'&E&HR&Hc').
  destruct (@sv_request W St (on c) serve (ns_served c) ctx cmd 0 payload w code rp st' Hr Hl Hcmd E)
    as (w'&h&Eq&<-&?&?&?).
  exists h, rp, w', st'. by split_and!.
Qed.

Lemma harmless_command P payload R ctx c st q0 w :
  harmless P CmdCommand payload R → ready c st q0 w → live ctx = true → P st →
  ∃ code rp w' st', @command W (on c) ctx payload w = Ret (Ok (rp, i32 code), w') ∧ R code rp ∧
    ready c st' q0 w' ∧ P st'.
Proof.
  intros Hh Hr Hl Hc.
  destruct (harmless_request P CmdCommand payload R ctx c st q0 w Hh) as (h&rp&w'&st'&E&?&?&?); [by cbv|done..|].
  exists (ErrCode h), rp, w', st'. split; [|done]. unfold command. by erewrite try_bind_ok by exact E.
Qed.

(** ** Connecting *)

Section connecting.
Context (P : St → Prop) (HA : admits P).

Lemma fetchStatus_nas ctx host st w :
  ns_idle st w → live ctx = true → P st →
  ∃ w' st', fetchStatus ctx host w = Ret (Ok info, w') ∧ ns_idle st' w' ∧ P st'.
Proof.
  intros Hw Hl Hc. destruct (ns_connect ctx (dial_addr host) st w Hw Hl) as (c&q0&w1&E1&W1).
  destruct (harmless_request P CmdGetStatus [] _ ctx c st q0 w1 (ad_status _ HA)) as (h&rp&w2&st2&E2&->&W2&Hc2); [by cbv|done..|].
  exists (mc_close c w2), st2. split; [|split; [by eapply ns_close|done]].
  unfold fetchStatus, Dial. erewrite try_bind_ok by exact E1. eapply finally_ret; [|done]. unfold GetStatus.
  erewrite try_bind_ok by (by erewrite try_bind_ok by exact E2).
  unfold lift. cbn [rp_Payload]. by rewrite (ad_info _ HA).
Qed.

Lemma OpenSession_nas ctx c st q0 w :
  ready c st q0 w → live ctx = true → P st →
  ∃ w' st', OpenSession c ctx w = Ret (Ok tt, w') ∧ ready c st' q w' ∧ P st'.
Proof.
  intros W0 Hl Hc.
  destruct (harmless_request P CmdOpenSession _ _ ctx c st q0 w (ad_session _ HA)) as (h&rp&w3&st3&E3&Hq&W3&Hc3); [by cbv|done..|].
  exists (mc_set_quantum c q (mc_tickle c w3)), st3. split; [|split; [|done]].
  - unfold OpenSession. erewrite try_bind_ok by exact E3. erewrite M_bind_ret by done. erewrite M_bind_ret by done.
    erewrite M_bind_ret by (unfold lift; cbn [rp_Payload]; by rewrite Hq). done.
  - eapply ns_quantum. by apply ns_tickle.
Qed.

(** A guest's [Login]. *)
Lemma Login_nas ctx c st q0 w :
  ready c st q0 w → live ctx = true → P st →
  ∃ w' st', @Login W (on c) _ _ ctx info (t_username t) (t_password t) NewSession w = Ret ((MkSession version, Ok tt), w') ∧
    ready c st' q0 w' ∧ P st'.
Proof.
  intros W0 Hl Hc.
  destruct (harmless_command P _ _ ctx c st q0 _ (ad_login _ HA) W0 Hl Hc) as (code&rp4&w4&st4&E4&->&W4&Hc4).
  exists w4, st4. split; [|done].
  unfold Login. rewrite (ad_version _ HA), (ad_guest _ HA). cbn zeta.
  rewrite bool_decide_eq_true_2 by done.
  rewrite bool_decide_eq_false_2 by (rewrite offered_set; pose proof (ad_uam _ HA); set_solver).
  erewrite M_bind_ret; [reflexivity|]. unfold loginGuest, login. by erewrite try_bind_ok by exact E4.
Qed.

Lemma connect_nas ctx st w :
  ns_idle st w → live ctx = true → P st →
  ∃ c w' st', connect ctx t w = Ret (Ok c, w') ∧ ready c st' q w' ∧ P st'.
Proof.
  intros Hw Hl Hc. destruct (fetchStatus_nas ctx (t_host t) st w Hw Hl Hc) as (w1&st1&E1&W1&Hc1).
  destruct (ns_connect ctx (dial_addr (t_host t)) st1 w1 W1 Hl) as (c&q0&w2&E2&W2).
  destruct (OpenSession_nas ctx c st1 q0 w2 W2 Hl Hc1) as (w3&st3&E3&W3&Hc3).
  destruct (Login_nas ctx c st3 q w3 W3 Hl Hc3) as (w4&st4&E4&W4&Hc4).
  exists c, w4, st4. split; [|done].
  unfold connect. erewrite try_bind_ok by exact E1. unfold Dial. erewrite try_bind_ok by exact E2.
  rewrite (M_bind_ret _ _ _ _ _ E3). cbn beta iota. by rewrite (M_bind_ret _ _ _ _ _ E4).
Qed.

(** ** A volume *)

Context (attr volid : Z).

Definition vol : Volume := MkVolume (u16 volid) (t_volume t) (u16 attr).

(** The volume can be opened. *)
Definition opens_volume : Prop :=
  harmless P CmdCommand (open_vol_request (t_volume t)) (λ code rp, code = 0 ∧ ∃ tail, rp = open_vol_payload 0x21 attr volid tail).

Context (HV : opens_volume).

Lemma OpenVolume_nas ctx c st q0 w :
  ready c st q0 w → live ctx = true → P st →
  ∃ w' st', @OpenVolume W (on c) ctx (t_volume t) w = Ret (Ok vol, w') ∧ ready c st' q0 w' ∧ P st'.
Proof.
  intros W0 Hl Hc.
  destruct (harmless_command P _ _ ctx c st q0 w HV W0 Hl Hc) as (code&rp&w2&st2&E2&[-> (tail&->)]&W2&Hc2).
  exists w2, st2. split; [|done]. unfold OpenVolume, query. erewrite try_bind_ok by (by erewrite try_bind_ok by exact E2).
  destruct (parse_open_vol_at (t_volume t) 0x21 attr volid tail) as (rd&Er); [done|].
  unfold reading. by erewrite M_bind_ret by (unfold lift; by rewrite Er).
Qed.

(** The [Dialer] of a mount. *)
Lemma mount_dial_nas ctx st w :
  ns_idle st w → live ctx = true → P st →
  ∃ c w' st', mount_dial t ctx w = Ret (Ok (MkLink c vol), w') ∧ ready c st' q w' ∧ P st'.
Proof.
  intros Hw Hl Hc. destruct (connect_nas ctx st w Hw Hl Hc) as (c&w1&st1&E1&W1&Hc1).
  destruct (OpenVolume_nas ctx c st1 q w1 W1 Hl Hc1) as (w2&st2&E2&W2&Hc2).
  exists c, w2, st2. split; [|done]. unfold mount_dial. erewrite try_bind_ok by exact E1.
  by rewrite (M_bind_ret _ _ _ _ _ E2).
Qed.

End connecting.
End sign_on.
