(* ===== verification/Net.v ===== *)
(** * A network of DSI connections (src/internal/dsi/conn.go, as the commands use it)

    The [Machine] of the commands made of the connection machines of Conn.v: all
    connections that have been dialled, one server behind them, and what is
    going to happen to them.  Every request is a run of the steps of its
    connection: keepalive tickles and frames of the server may come first; then
    it is answered, or it fails: with the connection (a read or a write fails, or
    the server closes the session, under the request or between two), without it
    (the request's time is up, a reply may still come later), or by a write whose
    failure the read loop has not noticed, after which the connection looks alive
    and every later write on it fails.  Requests on one connection come one after
    another here; Linear.v is about those that overlap. *)

From S2P Require Import Prelude Header Conn ConnSafety ConnLive Transport Session Errgroup Fork Ops Login Manager Path Bridge Serve Url Command.

Open Scope go_scope.

(** ** What happens on a connection *)

(** Frames that a server sends on its own account. *)
Inductive noise : Type :=
| NTickle (id : Z)
| NAttention (id flags : Z).

Definition noise_frame (n : noise) : Header * bytes :=
  match n with
  | NTickle id => (MkHeader flagRequest CmdTickle (u16 id) 0 0 0, [])
  | NAttention id flags => (MkHeader flagRequest CmdAttention (u16 id) 0 2 0, be_bytes 2 flags)
  end.

(** How a request fails.  With its connection: the write fails after [n] bytes
    and the read loop notices; a read fails while it waits; the server closes
    the session; or a read has failed before it is made.  Without: the write
    fails and the read loop does not notice, so that the connection still looks
    alive; or its context is done first, and the reply, if the server executes
    it at all, finds nobody. *)
Inductive loss : Type :=
| LostWrite (e : error) (n : nat)
| LostRead (executed : bool) (e : error)
| LostClose (executed : bool)
| LostIdle (e : error)
| TornWrite (e : error) (n : nat)
| Expired (executed : bool) (e : error).

(** The server executes it, at the latest before anything that the client sends
    later. *)
Definition executed (how : loss) : bool :=
  match how with LostRead x _ | LostClose x | Expired x _ => x | _ => false end.

(** The read loop notices: [IsAlive] is false once the request has failed. *)
Definition noticed (how : loss) : bool :=
  match how with TornWrite _ _ | Expired _ _ => false | _ => true end.

(** Before a request: ticks of the [tickleLoop], if it runs, and frames of the
    server.  Then the request is answered, or fails. *)
Record event : Type := MkEvent {
  ev_ticks : nat;
  ev_noise : list noise;
  ev_lost : option loss;
}.
Definition no_event : event := MkEvent 0 [] None.

(** On a socket on which a write has failed the next tick fails too, and ends
    the loop. *)
Definition tick_actions (n : nat) (s : Sys) : list action :=
  if bool_decide (s_tickles s = 0%nat) then [] else
  if s_wfail s then replicate (Nat.min n 1) (ATickle false) else replicate n (ATickle true).

Definition idle_actions (ev : event) (s : Sys) : list action :=
  tick_actions (ev_ticks ev) s ++
  concat ((λ n, [ANet (frame (noise_frame n).1 (noise_frame n).2); AFrame]) <$> ev_noise ev).

(** And so does every request that gets as far as its write. *)
Definition fate (s : Sys) (how : option loss) : option loss :=
  if s_wfail s then
    match how with
    | Some (LostWrite _ _) | Some (LostIdle _) | Some (TornWrite _ _) => how
    | Some (LostRead _ e) => Some (LostWrite e 0)
    | Some (LostClose _) => Some (LostWrite EEOF 0)
    | Some (Expired _ e) => Some (TornWrite e 0)
    | None => Some (TornWrite ENetClosed 0)
    end
  else how.

Definition close_session : bytes := frame (bare_header CmdCloseSession 0) [].

(** The steps of goroutine [k] and of the read loop when a request fails; the
    goroutine notices the closed [done], its write fails, or its context is
    done. *)
Definition lost_actions (k : nat) (cmd off : Z) (payload : bytes) (how : loss) : list action :=
  match how with
  | LostWrite e n => [ACall k cmd off payload; ASendErr k e n; AUnreg k; AReadErr e]
  | LostRead _ e => [ACall k cmd off payload; ASend k; AReadErr e; ADone k; AUnreg k]
  | LostClose _ => [ACall k cmd off payload; ASend k; ANet close_session; AFrame; ADone k; AUnreg k]
  | LostIdle e => [AReadErr e; ACall k cmd off payload]
  | TornWrite e n => [ACall k cmd off payload; ASendErr k e n; AUnreg k]
  | Expired _ e => [ACall k cmd off payload; ASend k; ACtx k e; AUnreg k]
  end.

(** A late reply reaches the read loop, if that still reads. *)
Definition late_reply (how : loss) (reply : bytes) : list action :=
  match how with Expired _ _ => [ANet reply; AFrame] | _ => [] end.

(** ** Connections *)

(** The client's end of a connection: its system state, a number that no
    goroutine has had yet, and what is to come. *)
Record endpoint : Type := MkEndpoint {
  ep_sys : Sys;
  ep_next : nat;
  ep_events : list event;
}.

Definition set_sys (s : Sys) (ep : endpoint) : endpoint := MkEndpoint s (ep_next ep) (ep_events ep).

(** What goroutine [k] has returned from [request]. *)
Definition returned (k : nat) (s : Sys) : option (result Reply) :=
  match s_callers s !! k with
  | Some (PDone _ r) => Some r
  | Some (PRefused e) => Some (Err e)
  | _ => None
  end.

Section endpoint.
Context {St : Type} (serve : server St).

(** One request by a new goroutine, to its end. *)
Definition ep_request (ctx : Ctx) (cmd off : Z) (payload : bytes) (ep : endpoint) (st : St)
  : option (result Reply * endpoint * St) :=
  let k := ep_next ep in
  let ev := default no_event (head (ep_events ep)) in
  let rest := tail (ep_events ep) in
  if IsAlive (s_conn (ep_sys ep)) then
    s ← run (idle_actions ev (ep_sys ep)) (ep_sys ep);
    match fate s (ev_lost ev) with
    | None =>
      '(r, w) ← conn_run serve ctx cmd off payload (MkConnWorld s k st);
      Some (r, MkEndpoint (cw_sys w) (cw_next w) rest, cw_server w)
    | Some how =>
      s ← run (lost_actions k cmd off payload how) s;
      r ← returned k s;
      '(s, st) ← (if executed how then
                    '(reply, st) ← answer serve s st;
                    s ← run (late_reply how reply) s; Some (s, st)
                  else Some (s, st));
      Some (r, MkEndpoint s (S k) rest, st)
    end
  else
    s ← run [ACall k cmd off payload] (ep_sys ep);
    r ← returned k s;
    Some (r, MkEndpoint s (S k) rest, st).

End endpoint.

(** [Close]; its message is sent unless the socket has been closed or a write on
    it has failed. *)
Definition ep_close (ep : endpoint) : endpoint :=
  set_sys (default (ep_sys ep) (exec (AClose (negb (s_ncClosed (ep_sys ep) || s_wfail (ep_sys ep)))) (ep_sys ep))) ep.

Definition ep_set_quantum (q : Z) (ep : endpoint) : endpoint :=
  set_sys (set_conn (set_ServerQuantum q (s_conn (ep_sys ep))) (ep_sys ep)) ep.

(** [go c.tickleLoop(TickleInterval)]. *)
Definition ep_tickle (ep : endpoint) : endpoint :=
  set_sys (default (ep_sys ep) (exec ATickleStart (ep_sys ep))) ep.

(** ** The network *)

(** The server, all connections so far (numbered from 0), the fate of the next
    dials (then they succeed), and the connections on which [Close] has not
    been called. *)
Record DsiNet (St : Type) : Type := MkNet {
  nt_server : St;
  nt_conns : list endpoint;
  nt_dials : list (result (list event));
  nt_open : gset nat;
}.
Arguments MkNet {St}.
Arguments nt_server {St}.
Arguments nt_conns {St}.
Arguments nt_dials {St}.
Arguments nt_open {St}.

Section net.
Context {St : Type} (serve : server St).

Definition on_conn (c : nat) (f : endpoint → endpoint) (w : DsiNet St) : DsiNet St :=
  MkNet (nt_server w) (alter f c (nt_conns w)) (nt_dials w) (nt_open w).

(** A request on a connection that was never dialled dereferences nil. *)
Definition dsi_transport (c : nat) : Transport (DsiNet St) := {|
  t_request ctx cmd off payload w :=
    match nt_conns w !! c with
    | None => Panics
    | Some ep =>
      match ep_request serve ctx cmd off payload ep (nt_server w) with
      | None => NoFuel
      | Some (r, ep, st) => Ret (r, MkNet st (<[c := ep]> (nt_conns w)) (nt_dials w) (nt_open w))
      end
    end;
  t_quantum w := match nt_conns w !! c with Some ep => ServerQuantum (s_conn (ep_sys ep)) | None => 0 end;
|}.

Definition dsi_connect (ctx : Ctx) (addr : bytes) : M (DsiNet St) (result nat) := λ w,
  match default (Ok []) (head (nt_dials w)) with
  | Err e => Ret (Err e, MkNet (nt_server w) (nt_conns w) (tail (nt_dials w)) (nt_open w))
  | Ok events =>
    let c := length (nt_conns w) in
    Ret (Ok c, MkNet (nt_server w) (nt_conns w ++ [MkEndpoint init_sys 0 events]) (tail (nt_dials w)) ({[ c ]} ∪ nt_open w))
  end.

Definition dsi_machine : Machine (DsiNet St) := {|
  mc_transport := dsi_transport;
  mc_connect := dsi_connect;
  mc_close c w := MkNet (nt_server w) (alter ep_close c (nt_conns w)) (nt_dials w) (nt_open w ∖ {[ c ]});
  mc_alive c w := match nt_conns w !! c with Some ep => IsAlive (s_conn (ep_sys ep)) | None => false end;
  mc_set_quantum c q := on_conn c (ep_set_quantum q);
  mc_tickle c := on_conn c ep_tickle;
|}.

(** The random source, for the examples. *)
Definition dsi_entropy : Entropy (DsiNet St) := {| rand_Read n w := Ret (Ok (replicate (Z.to_nat n) x00), w) |}.

End net.
