(* ===== verification/NetSpec.v ===== *)
(** * The network of DSI connections: what it guarantees

    A request on a connection that is alive is answered by the server's state
    transformer or fails with the connection, whatever tickles and frames of
    the server come in between; the commands' interfaces to the network hold. *)

From S2P Require Import Prelude Header Result Wire Entry ServerInfo Conn ConnSafety ConnLive Transport Session SessionSpec Errgroup Fork ForkSpec Ops OpsSpec Login Manager ManagerSpec Path Bridge Serve Url Keeps Command Tracked CommandSpec SignOn Net.

Open Scope go_scope.

(** ** What no step changes *)

Lemma sys_fail_quantum e s : ServerQuantum (s_conn (sys_fail e s)) = ServerQuantum (s_conn s).
Proof.
  unfold sys_fail, fail, mbind, M_bind, get, put. destruct (closeErr (s_conn s)); [done|]. by destruct (done (s_conn s)).
Qed.

Lemma sys_fail_wfail e s : s_wfail (sys_fail e s) = s_wfail s.
Proof. unfold sys_fail. by destruct (fail _ _) as [[[] c]| |]. Qed.

(** The writes of the step, if any, succeed. *)
Definition writes_well (a : action) : Prop :=
  match a with ASendErr _ _ _ | ATickle false | AClose false => False | _ => True end.

Lemma register_quantum k c r c' : register k c = Ret (r, c') → ServerQuantum c' = ServerQuantum c.
Proof.
  unfold register, mbind, M_bind, get, put. destruct (closeErr c); [by intros [= _ <-]|].
  destruct (free_id _ _ _); [by intros [= _ <-]|done].
Qed.

Lemma exec_keeps a s s' : exec a s = Some s' →
  ServerQuantum (s_conn s') = ServerQuantum (s_conn s) ∧ (writes_well a → s_wfail s' = s_wfail s).
Proof.
  destruct a; cbn; repeat case_match; try done; intros; simplify_eq;
    repeat (cbn; rewrite ?sys_fail_quantum, ?sys_fail_wfail); try done;
    try (split; [by eapply register_quantum|done]).
  1: unfold dispatch; repeat case_match; cbn; by rewrite ?sys_fail_quantum, ?sys_fail_wfail.
  all: by match goal with E : sys_newID _ = _ |- _ => injection E as <- <- end.
Qed.

Lemma run_keeps l s s' : run l s = Some s' →
  ServerQuantum (s_conn s') = ServerQuantum (s_conn s) ∧ (Forall writes_well l → s_wfail s' = s_wfail s).
Proof.
  revert s. induction l as [|a l IH]; cbn; intros s E; [by simplify_eq|].
  destruct (exec a s) as [s1|] eqn:Ea; [|done]. cbn in E.
  destruct (exec_keeps _ _ _ Ea) as [Q1 W1], (IH _ E) as [Q2 W2]. split; [congruence|].
  intros [Ha Hl]%Forall_cons. rewrite W2 by done. by apply W1.
Qed.

Lemma conn_run_keeps {St} (serve : server St) ctx cmd off payload w r w' :
  conn_run serve ctx cmd off payload w = Some (r, w') →
  ServerQuantum (s_conn (cw_sys w')) = ServerQuantum (s_conn (cw_sys w)) ∧ s_wfail (cw_sys w') = s_wfail (cw_sys w).
Proof.
  unfold conn_run. intros (s1&E1&E)%bind_Some. apply bind_Some in E as ([reply st]&_&(s2&E2&E)%bind_Some).
  destruct (run_keeps _ _ _ E1) as [Q1 W1], (run_keeps _ _ _ E2) as [Q2 W2].
  assert (cw_sys w' = s2) as -> by (destruct (s_callers s2 !! _) as [[]|]; by simplify_eq).
  split; [congruence|]. rewrite W2, W1; [done|by repeat constructor|]. destruct (live ctx); by repeat constructor.
Qed.

(** ** Between requests *)

(** Same goroutines, nothing in flight. *)
Definition calm (s s' : Sys) : Prop := quiet s' ∧ s_callers s' = s_callers s.

Lemma quiet_exec a s s' :
  quiet s → exec a s = Some s' → s_loop s' = LRead → s_in s' = [] → closeErr (s_conn s') = None →
  pending (s_conn s') = ∅ → quiet s'.
Proof. intros [Hinv _] E ????. split; [|done]. eapply conn_inv_step; [exact Hinv|by exists a]. Qed.

(** The client's own keepalive. *)
Lemma calm_tick s : quiet s → s_tickles s ≠ 0%nat →
  ∃ s', exec (ATickle true) s = Some s' ∧ calm s s' ∧ s_tickles s' = s_tickles s.
Proof.
  intros Hq Ht. pose proof Hq as (_&Hl&Hi&Hc&Hp). destruct (s_tickles s) as [|n] eqn:Et; [done|].
  assert (exec (ATickle true) s = Some (send_ok (bare_header CmdTickle (next_id s)) []
    (set_conn (set_nextID (next_id s) (s_conn s)) s))) as E by (unfold exec; by rewrite Et).
  eexists. split; [exact E|]. split; [|done]. split; [by eapply quiet_exec|done].
Qed.

Lemma calm_ticks n s : quiet s → s_tickles s ≠ 0%nat →
  ∃ s', run (replicate n (ATickle true)) s = Some s' ∧ calm s s'.
Proof.
  revert s. induction n as [|n IH]; intros s Hq Ht; [by exists s|].
  destruct (calm_tick s Hq Ht) as (s1&E1&(Hq1&C1)&T1).
  destruct (IH s1 Hq1) as (s2&E2&(Hq2&C2)); [by rewrite T1|].
  exists s2. split; [cbn [replicate]; by rewrite (run_cons _ _ _ _ E1)|]. split; [done|]. by rewrite C2.
Qed.

(** The read loop takes a frame that has arrived whole. *)
Lemma run_arrived h p s : s_loop s = LRead → s_in s = [] → frame_ok (h, p) →
  run [ANet (frame h p); AFrame] s = Some (dispatch h p (consume (h, p) [] (arrive (frame h p) s))).
Proof.
  intros Hl Hi Hok. pose proof (read_frame_frame h p [] Hok) as Hrf. rewrite app_nil_r in Hrf.
  assert (exec (ANet (frame h p)) s = Some (arrive (frame h p) s)) as E by done. rewrite (run_cons _ _ _ _ E).
  assert (s_loop (arrive (frame h p) s) = LRead) as El by done.
  assert (s_in (arrive (frame h p) s) = frame h p) as Ei by (cbn; by rewrite Hi).
  cbn [run]. unfold exec. by rewrite El, Ei, Hrf.
Qed.

(** A frame of the server that ends nothing: no session, and no request. *)
Lemma calm_frame h p s : quiet s → frame_ok (h, p) → Flags h = flagReply ∨ Command h ≠ CmdCloseSession →
  ∃ s', run [ANet (frame h p); AFrame] s = Some s' ∧ calm s s'.
Proof.
  intros Hq Hok Hcmd. pose proof Hq as (Hinv&Hl&Hi&Hc&Hp).
  assert (run [ANet (frame h p); AFrame] s = Some (consume (h, p) [] (arrive (frame h p) s))) as E.
  { rewrite run_arrived by done. unfold dispatch. case_bool_decide as Hf; [by cbn; rewrite Hp, lookup_empty|].
    destruct Hcmd as [?|?]; [done|]. by rewrite bool_decide_eq_false_2. }
  eexists. split; [exact E|]. split; [|done]. split; [by eapply conn_inv_rtc, run_rtc|]. by split_and!.
Qed.

Lemma noise_frame_ok n : frame_ok (noise_frame n).
Proof.
  destruct n as [id|id fl]; (split; [|cbn; by rewrite ?len_be_bytes]); pose proof (wrap_range 16 id);
    unfold header_ok; cbn; unfold CmdTickle, CmdAttention, flagRequest; lia.
Qed.

Lemma calm_noise l s : quiet s →
  ∃ s', run (concat ((λ n, [ANet (frame (noise_frame n).1 (noise_frame n).2); AFrame]) <$> l)) s = Some s' ∧ calm s s'.
Proof.
  revert s. induction l as [|n l IH]; intros s Hq; [by exists s|].
  destruct (calm_frame (noise_frame n).1 (noise_frame n).2 s Hq) as (s1&E1&(Hq1&C1)).
  { pose proof (noise_frame_ok n) as Hok. by destruct (noise_frame n). }
  { right. by destruct n. }
  destruct (IH s1 Hq1) as (s2&E2&(Hq2&C2)).
  exists s2. split; [rewrite fmap_cons; cbn [concat]; by erewrite run_app by exact E1|]. split; [done|]. by rewrite C2.
Qed.

(** A tick whose write fails ends the loop. *)
Lemma calm_tick_err s : quiet s → s_tickles s ≠ 0%nat → ∃ s', exec (ATickle false) s = Some s' ∧ calm s s'.
Proof.
  intros Hq Ht. pose proof Hq as (_&Hl&Hi&Hc&Hp). destruct (s_tickles s) as [|n] eqn:Et; [done|].
  assert (exec (ATickle false) s = Some (set_tickles n (send_err (bare_header CmdTickle (next_id s)) [] 0
    (set_conn (set_nextID (next_id s) (s_conn s)) s)))) as E by (unfold exec; by rewrite Et).
  eexists. split; [exact E|]. split; [by eapply quiet_exec|done].
Qed.

Lemma calm_tick_actions n s : quiet s → ∃ s', run (tick_actions n s) s = Some s' ∧ calm s s' ∧ (s_wfail s = false → s_wfail s' = false).
Proof.
  intros Hq. unfold tick_actions. case_bool_decide as Ht; [by exists s|]. destruct (s_wfail s) eqn:Ew.
  - destruct n as [|n]; [by exists s|]. cbn [Nat.min replicate].
    replace (Nat.min n 0) with 0%nat by lia. destruct (calm_tick_err s Hq Ht) as (s'&E&Hc).
    exists s'. split; [by rewrite (run_cons _ _ _ _ E)|]. by split.
  - destruct (calm_ticks n s Hq Ht) as (s'&E&Hc). exists s'. split; [done|]. split; [done|]. intros _.
    destruct (run_keeps _ _ _ E) as [_ ->]; [done|]. by apply Forall_replicate.
Qed.

Lemma calm_idle ev s : quiet s → ∃ s', run (idle_actions ev s) s = Some s' ∧ calm s s' ∧ (s_wfail s = false → s_wfail s' = false).
Proof.
  intros Hq. unfold idle_actions. destruct (calm_tick_actions (ev_ticks ev) s Hq) as (s1&E1&(Hq1&C1)&W1).
  destruct (calm_noise (ev_noise ev) s1 Hq1) as (s2&E2&(Hq2&C2)).
  exists s2. split; [by erewrite run_app by exact E1|]. split; [split; [done|by rewrite C2]|].
  intros Hw. destruct (run_keeps _ _ _ E2) as [_ ->]; [by apply W1|].
  apply Forall_concat, Forall_fmap, Forall_true. intros n. by repeat constructor.
Qed.

(** ** A connection that is lost *)

Lemma sys_fail_alive e s : closeErr (s_conn s) = None → done (s_conn s) = false →
  sys_fail e s = set_conn (MkConn (nextID (s_conn s)) (pending (s_conn s)) (Some e) true (ServerQuantum (s_conn s))) s.
Proof. intros Hc Hd. unfold sys_fail, fail, mbind, M_bind, get. by rewrite Hc, Hd. Qed.

Lemma quiet_done s : quiet s → done (s_conn s) = false.
Proof.
  intros ([[[Hd _] _ _] _ _ _ _ _]&_&_&Hc&_). apply not_true_iff_false. intros [e He]%Hd. by rewrite Hc in He.
Qed.

Lemma exec_unreg_ret s k id r : s_callers s !! k = Some (PRet id r) →
  exec (AUnreg k) s = Some (set_caller k (PDone id r) (set_conn (unregister id (s_conn s)) s)).
Proof. intros E. unfold exec. by rewrite E. Qed.

(** A goroutine in the select of a dead connection. *)
Lemma run_dead_wait s k id e :
  s_callers s !! k = Some (PWait id) → done (s_conn s) = true → closeErr (s_conn s) = Some e →
  ∃ s', run [ADone k; AUnreg k] s = Some s' ∧ s_callers s' = <[k := PDone id (Err e)]> (s_callers s) ∧
    closeErr (s_conn s') = Some e ∧ s_sent s' = s_sent s.
Proof.
  intros Hk Hd He. set (s1 := set_caller k (PRet id (Err e)) s).
  assert (exec (ADone k) s = Some s1) as E1 by (unfold exec; by rewrite Hk, Hd, He).
  rewrite (run_cons _ _ _ _ E1).
  assert (s_callers s1 !! k = Some (PRet id (Err e))) as Hk1 by apply lookup_insert_eq.
  rewrite (run_cons _ _ _ _ (exec_unreg_ret _ _ _ _ Hk1)). eexists. split; [done|]. cbn. by rewrite insert_insert_eq.
Qed.

Lemma close_session_frame : frame_ok (bare_header CmdCloseSession 0, []).
Proof. split; [|done]. unfold header_ok; cbn. unfold flagRequest, CmdCloseSession. lia. Qed.

(** What a failed request leaves: goroutine [k] has returned the error, the
    connection is dead or, when nothing was noticed, calm, and a request that was
    executed is the last frame that was sent. *)
Record lost_to (s : Sys) (k : nat) (cmd off : Z) (payload : bytes) (how : loss) (s' : Sys) (e : error) : Prop := {
  lt_returned : returned k s' = Some (Err e);
  lt_callers : ∃ p, s_callers s' = <[k := p]> (s_callers s);
  lt_noticed : noticed how = true → IsAlive (s_conn s') = false;
  lt_quiet : noticed how = false → quiet s';
  lt_sent : executed how = true → last (s_sent s') = Some (request_header cmd (next_id s) off payload, payload);
}.

Lemma returned_done k id e cs s : s_callers s = <[k := PDone id (Err e)]> cs → returned k s = Some (Err e).
Proof. intros E. unfold returned. by rewrite E, lookup_insert_eq. Qed.

(** A goroutine in the select of a connection that has just died. *)
Lemma lost_waiting s k cmd off payload how s2 l id e :
  noticed how = true → run (ACall k cmd off payload :: ASend k :: l) s = Some s2 →
  s_callers s2 = <[k := PWait id]> (s_callers s) → done (s_conn s2) = true → closeErr (s_conn s2) = Some e →
  last (s_sent s2) = Some (request_header cmd (next_id s) off payload, payload) →
  ∃ s' e, run (ACall k cmd off payload :: ASend k :: l ++ [ADone k; AUnreg k]) s = Some s' ∧ lost_to s k cmd off payload how s' e.
Proof.
  intros Hn E C Hd He Hs. destruct (run_dead_wait s2 k id e) as (s'&E'&C'&He'&Hs'); [by rewrite C, lookup_insert_eq|done..|].
  exists s', e. split.
  - change (ACall k cmd off payload :: ASend k :: l ++ [ADone k; AUnreg k])
      with ((ACall k cmd off payload :: ASend k :: l) ++ [ADone k; AUnreg k]).
    by rewrite (run_app _ _ _ _ E).
  - rewrite C, insert_insert_eq in C'. split.
    + by eapply returned_done.
    + by eexists.
    + intros _. unfold IsAlive. by rewrite He'.
    + by rewrite Hn.
    + by rewrite Hs'.
Qed.

(** A goroutine that leaves a connection that goes on. *)
Lemma lost_leaving s k cmd off payload how s1 s2 e :
  quiet s → noticed how = false → rtc step s s1 → s_callers s1 = <[k := PRet (next_id s) (Err e)]> (s_callers s) →
  s_loop s1 = s_loop s → s_in s1 = s_in s → closeErr (s_conn s1) = closeErr (s_conn s) → pending (s_conn s1) = {[next_id s := k]} →
  (executed how = true → last (s_sent s1) = Some (request_header cmd (next_id s) off payload, payload)) →
  exec (AUnreg k) s1 = Some s2 → lost_to s k cmd off payload how s2 e.
Proof.
  intros (Hinv&Hl&Hi&Hc&_) Hn Hr C El Ei Ec Ep Hs E.
  rewrite (exec_unreg_ret s1 k (next_id s) (Err e)) in E by (by rewrite C, lookup_insert_eq). injection E as <-.
  assert (s_callers (set_caller k (PDone (next_id s) (Err e)) (set_conn (unregister (next_id s) (s_conn s1)) s1))
    = <[k := PDone (next_id s) (Err e)]> (s_callers s)) as C' by (cbn; by rewrite C, insert_insert_eq).
  split; [by eapply returned_done|by eexists|by rewrite Hn| |exact Hs]. intros _. split.
  - eapply conn_inv_rtc; [exact Hinv|]. eapply rtc_r; [exact Hr|]. exists (AUnreg k). by apply exec_unreg_ret; rewrite C, lookup_insert_eq.
  - cbn. rewrite El, Ei, Ec, Ep. split_and!; try done. apply delete_singleton_eq.
Qed.

(** Every way for a request to fail. *)
Section lost.
Context (s : Sys) (k : nat) (cmd off : Z) (payload : bytes) (Hq : quiet s) (Hk : s_callers s !! k = None).

Let id : Z := next_id s.
Let h : Header := request_header cmd id off payload.

(** Registered; sent; about to return after a failed write, or in vain. *)
Let s1 : Sys := set_caller k (PSend id h payload)
  (set_chan k [] (set_conn (set_pending {[id := k]} (set_nextID id (s_conn s))) s)).
Let s2 : Sys := set_caller k (PWait id) (send_ok h payload s1).
Let unsent e n : Sys := set_caller k (PRet id (Err e)) (send_err h payload n s1).
Let leaving e : Sys := set_caller k (PRet id (Err e)) s2.

Lemma lost_call : exec (ACall k cmd off payload) s = Some s1.
Proof. by apply exec_call_quiet. Qed.

Lemma lost_send : exec (ASend k) s1 = Some s2.
Proof. unfold exec. by assert (s_callers s1 !! k = Some (PSend id h payload)) as -> by apply lookup_insert_eq. Qed.

Lemma lost_senderr e n : exec (ASendErr k e n) s1 = Some (unsent e n).
Proof. unfold exec. by assert (s_callers s1 !! k = Some (PSend id h payload)) as -> by apply lookup_insert_eq. Qed.

Lemma lost_ctx e : exec (ACtx k e) s2 = Some (leaving e).
Proof. unfold exec. by assert (s_callers s2 !! k = Some (PWait id)) as -> by apply lookup_insert_eq. Qed.

Lemma lost_write e n : ∃ s' e', run (lost_actions k cmd off payload (LostWrite e n)) s = Some s' ∧
  lost_to s k cmd off payload (LostWrite e n) s' e'.
Proof.
  pose proof Hq as (_&Hl&_&Hc&_). pose proof (quiet_done s Hq) as Hd.
  set (s4 := set_caller k (PDone id (Err e)) (set_conn (unregister id (s_conn (unsent e n))) (unsent e n))).
  cbn [lost_actions]. rewrite (run_cons _ _ _ _ lost_call), (run_cons _ _ _ _ (lost_senderr e n)).
  rewrite (run_cons _ _ _ s4) by apply exec_unreg_ret, lookup_insert_eq.
  exists (set_loop LExit (sys_fail e s4)), e. cbn [run].
  assert (exec (AReadErr e) s4 = Some (set_loop LExit (sys_fail e s4))) as ->
    by (unfold exec; assert (s_loop s4 = LRead) as -> by exact Hl; done).
  split; [done|]. rewrite sys_fail_alive by done. split; try done.
  - apply (returned_done k id e (s_callers s)). cbn. by rewrite !insert_insert_eq.
  - eexists. cbn. by rewrite !insert_insert_eq.
Qed.

(** The read loop ends while the goroutine waits. *)
Lemma lost_reader how l s3 e : noticed how = true → run l s2 = Some (set_loop LExit s3) →
  s_callers s3 = s_callers s2 → done (s_conn s3) = true → closeErr (s_conn s3) = Some e → s_sent s3 = s_sent s2 →
  ∃ s' e', run (ACall k cmd off payload :: ASend k :: l ++ [ADone k; AUnreg k]) s = Some s' ∧ lost_to s k cmd off payload how s' e'.
Proof.
  intros Hn E C Hd He Hs. apply (lost_waiting s k cmd off payload how (set_loop LExit s3) l id e); try done.
  - by rewrite (run_cons _ _ _ _ lost_call), (run_cons _ _ _ _ lost_send).
  - cbn. rewrite C. cbn. by rewrite insert_insert_eq.
  - cbn. rewrite Hs. cbn. by rewrite last_snoc.
Qed.

Lemma lost_read x e : ∃ s' e', run (lost_actions k cmd off payload (LostRead x e)) s = Some s' ∧
  lost_to s k cmd off payload (LostRead x e) s' e'.
Proof.
  pose proof Hq as (_&Hl&_&Hc&_). pose proof (quiet_done s Hq) as Hd.
  apply (lost_reader (LostRead x e) [AReadErr e] (sys_fail e s2) e); rewrite ?sys_fail_alive by done; try done.
  cbn [run]. unfold exec. assert (s_loop s2 = LRead) as -> by exact Hl. by rewrite sys_fail_alive.
Qed.

Lemma lost_close x : ∃ s' e', run (lost_actions k cmd off payload (LostClose x)) s = Some s' ∧
  lost_to s k cmd off payload (LostClose x) s' e'.
Proof.
  pose proof Hq as (_&Hl&Hi&Hc&_). pose proof (quiet_done s Hq) as Hd.
  set (e := EErrorf "dsi: server closed the session" []).
  set (s3 := consume (bare_header CmdCloseSession 0, []) [] (arrive close_session s2)).
  apply (lost_reader (LostClose x) [ANet close_session; AFrame] (close_nc (sys_fail e s3)) e);
    rewrite ?sys_fail_alive by done; try done.
  unfold close_session. rewrite run_arrived by (done || exact close_session_frame). unfold dispatch. cbn [Flags Command bare_header].
  rewrite bool_decide_eq_false_2 by done. rewrite bool_decide_eq_true_2 by done. by rewrite sys_fail_alive.
Qed.

Lemma lost_idle e : ∃ s' e', run (lost_actions k cmd off payload (LostIdle e)) s = Some s' ∧
  lost_to s k cmd off payload (LostIdle e) s' e'.
Proof.
  pose proof Hq as (_&Hl&Hi&Hc&_). pose proof (quiet_done s Hq) as Hd. set (s3 := set_loop LExit (sys_fail e s)).
  assert (exec (AReadErr e) s = Some s3) as E4 by (unfold exec; by rewrite Hl).
  cbn [lost_actions]. rewrite (run_cons _ _ _ _ E4). exists (set_caller k (PRefused e) (set_chan k [] s3)), e. cbn [run].
  assert (s_callers s3 = s_callers s ∧ closeErr (s_conn s3) = Some e) as [C3 He3] by (unfold s3; by rewrite sys_fail_alive).
  assert (exec (ACall k cmd off payload) s3 = Some (set_caller k (PRefused e) (set_chan k [] s3))) as ->.
  { unfold exec. rewrite C3, Hk. unfold register, mbind, M_bind, get. by rewrite He3. }
  split; [done|]. split; try done.
  - unfold returned. cbn. by rewrite lookup_insert_eq.
  - exists (PRefused e). by rewrite <- C3.
  - intros _. unfold IsAlive. by apply bool_decide_eq_false; cbn -[s3]; rewrite He3.
Qed.

Lemma lost_torn e n : ∃ s' e', run (lost_actions k cmd off payload (TornWrite e n)) s = Some s' ∧
  lost_to s k cmd off payload (TornWrite e n) s' e'.
Proof.
  cbn [lost_actions]. rewrite (run_cons _ _ _ _ lost_call), (run_cons _ _ _ _ (lost_senderr e n)). cbn [run].
  assert (s_callers (unsent e n) !! k = Some (PRet id (Err e))) as Hu by apply lookup_insert_eq.
  rewrite (exec_unreg_ret _ _ _ _ Hu). do 2 eexists. split; [done|].
  apply (lost_leaving s k cmd off payload _ (unsent e n) _ e); try done.
  - eapply rtc_l; [eexists; exact lost_call|]. apply rtc_once. eexists; apply lost_senderr.
  - cbn. by rewrite !insert_insert_eq.
  - by apply exec_unreg_ret.
Qed.

Lemma lost_expired x e : ∃ s' e', run (lost_actions k cmd off payload (Expired x e)) s = Some s' ∧
  lost_to s k cmd off payload (Expired x e) s' e'.
Proof.
  cbn [lost_actions]. rewrite (run_cons _ _ _ _ lost_call), (run_cons _ _ _ _ lost_send), (run_cons _ _ _ _ (lost_ctx e)). cbn [run].
  assert (s_callers (leaving e) !! k = Some (PRet id (Err e))) as Hu by apply lookup_insert_eq.
  rewrite (exec_unreg_ret _ _ _ _ Hu). do 2 eexists. split; [done|].
  apply (lost_leaving s k cmd off payload _ (leaving e) _ e); try done.
  - eapply rtc_l; [eexists; exact lost_call|]. eapply rtc_l; [eexists; exact lost_send|]. apply rtc_once. eexists; apply lost_ctx.
  - cbn. by rewrite !insert_insert_eq.
  - intros _. cbn. by rewrite last_snoc.
  - by apply exec_unreg_ret.
Qed.

Lemma lost_spec how : ∃ s' e, run (lost_actions k cmd off payload how) s = Some s' ∧ lost_to s k cmd off payload how s' e.
Proof.
  destruct how; [apply lost_write|apply lost_read|apply lost_close|apply lost_idle|apply lost_torn|apply lost_expired].
Qed.

End lost.

(** ** One connection *)

Definition unused (ep : endpoint) : Prop := ∀ k, (ep_next ep ≤ k)%nat → s_callers (ep_sys ep) !! k = None.

(** Alive with nothing in flight, on a socket that can be written; dead; in any
    state between requests. *)
Definition live_ep (ep : endpoint) : Prop := quiet (ep_sys ep) ∧ s_wfail (ep_sys ep) = false ∧ unused ep.
Definition dead_ep (ep : endpoint) : Prop := IsAlive (s_conn (ep_sys ep)) = false ∧ unused ep.
Definition sound_ep (ep : endpoint) : Prop := (quiet (ep_sys ep) ∨ IsAlive (s_conn (ep_sys ep)) = false) ∧ unused ep.

(** Nothing will be lost; whatever is lost, the read loop notices. *)
Definition safe (events : list event) : Prop := Forall (λ ev, ev_lost ev = None) events.
Definition heeded (events : list event) : Prop := Forall (λ ev, ∀ how, ev_lost ev = Some how → noticed how = true) events.

Lemma safe_heeded events : safe events → heeded events.
Proof. intros Hs. eapply Forall_impl; [exact Hs|]. by intros ev ->. Qed.

Lemma heeded_head events how : heeded events → ev_lost (default no_event (head events)) = Some how → noticed how = true.
Proof. by intros [|ev evs Hev _]; [|apply Hev]. Qed.

Lemma quiet_alive s : quiet s → IsAlive (s_conn s) = true.
Proof. intros (_&_&_&Hc&_). unfold IsAlive. by rewrite Hc. Qed.

Lemma live_ep_sound ep : live_ep ep → sound_ep ep.
Proof. intros (?&_&?). split; [by left|done]. Qed.

Lemma unused_next s ep cs k p evs :
  unused ep → s_callers s = <[k := p]> cs → cs = s_callers (ep_sys ep) → k = ep_next ep →
  unused (MkEndpoint s (S k) evs).
Proof. intros Hu Es -> -> k' Hk'. cbn in *. rewrite Es, lookup_insert_ne by lia. apply Hu. lia. Qed.

Section endpoint.
Context {St : Type} (serve : server St) (Hfit : fits_frames serve).

(** The quantum of a connection does not change by requests. *)
Lemma ep_request_quantum ctx cmd off payload ep st r ep' st' :
  ep_request serve ctx cmd off payload ep st = Some (r, ep', st') →
  ServerQuantum (s_conn (ep_sys ep')) = ServerQuantum (s_conn (ep_sys ep)).
Proof.
  unfold ep_request. cbv zeta. destruct (IsAlive _).
  - intros (s1&E1&E)%bind_Some. apply run_keeps in E1 as [Q1 _]. destruct (fate _ _) as [how|].
    + apply bind_Some in E as (s2&E2&E). apply run_keeps in E2 as [Q2 _]. apply bind_Some in E as (r1&_&E).
      apply bind_Some in E as ([s3 st3]&E3&[= _ <- _]). cbn. destruct (executed how); [|injection E3 as <- _; congruence].
      apply bind_Some in E3 as ([reply st4]&_&E3). apply bind_Some in E3 as (s4&E4&[= <- _]). apply run_keeps in E4 as [Q4 _]. congruence.
    + apply bind_Some in E as ([r1 w1]&E2&[= _ <- _]). apply conn_run_keeps in E2 as [Q2 _]. cbn in *. congruence.
  - intros (s1&E1&E)%bind_Some. apply run_keeps in E1 as [Q1 _]. apply bind_Some in E as (r1&_&[= _ <- _]). exact Q1.
Qed.

(** The server's reply to the last frame that was sent. *)
Lemma answer_last s st k cmd off payload code rp st' :
  quiet s → last (s_sent k) = Some (request_header cmd (next_id s) off payload, payload) →
  0 ≤ cmd < 2 ^ 8 → serve cmd off payload st = (code, rp, st') →
  ∃ rh, answer serve k st = Some (frame rh rp, st') ∧ frame_ok (rh, rp) ∧ Flags rh = flagReply.
Proof.
  intros Hq Hs Hcmd E. unfold answer. rewrite Hs. cbn [Command ErrCode request_header]. rewrite E.
  eexists. split; [reflexivity|]. split; [|done]. destruct (Hfit _ _ _ _ _ _ _ E) as [Hcode Hrp].
  assert (0 ≤ next_id s < 2 ^ 16) by by apply wrap_range. split; [|done]. pose proof (len_nonneg rp).
  change maxPayload with 16777216 in Hrp. unfold header_ok, flagReply, request_header. cbn. lia.
Qed.

(** A request that fails. *)
Lemma ep_lost_spec ep s1 cmd off payload how st code rp st' :
  calm (ep_sys ep) s1 → unused ep → 0 ≤ cmd < 2 ^ 8 → serve cmd off payload st = (code, rp, st') →
  ∃ s2 e s3, run (lost_actions (ep_next ep) cmd off payload how) s1 = Some s2 ∧ returned (ep_next ep) s2 = Some (Err e) ∧
    (if executed how then
       '(reply, st0) ← answer serve s2 st; s ← run (late_reply how reply) s2; Some (s, st0)
     else Some (s2, st)) = Some (s3, if executed how then st' else st) ∧
    (noticed how = true → dead_ep (MkEndpoint s3 (S (ep_next ep)) (tail (ep_events ep)))) ∧
    sound_ep (MkEndpoint s3 (S (ep_next ep)) (tail (ep_events ep))).
Proof.
  intros [Hq1 C1] Hu Hcmd E.
  destruct (lost_spec s1 (ep_next ep) cmd off payload Hq1 ltac:(rewrite C1; by apply Hu) how) as (s2&e&E2&[Hr [p Hp] Hn Hqt Hs]).
  exists s2, e.
  assert (∃ s3, (if executed how then '(reply, st0) ← answer serve s2 st; s ← run (late_reply how reply) s2; Some (s, st0)
      else Some (s2, st)) = Some (s3, if executed how then st' else st) ∧ s_callers s3 = s_callers s2 ∧
      (noticed how = true → IsAlive (s_conn s3) = false) ∧ (noticed how = false → quiet s3)) as (s3&E3&C3&Hn3&Hq3).
  { destruct (executed how) eqn:Ex; [|by exists s2].
    destruct (answer_last s1 st s2 cmd off payload code rp st' Hq1 (Hs eq_refl) Hcmd E) as (rh&Ea&Hok&Hfl).
    rewrite Ea. cbn [mbind option_bind]. destruct how as [e0 n|x e0|x|e0|e0 n|x e0]; cbn [late_reply]; try by exists s2.
    destruct (calm_frame rh rp s2 (Hqt eq_refl) Hok (or_introl Hfl)) as (s3&E3&(Hq3&C3)). rewrite E3. by exists s3. }
  exists s3. split; [done|]. split; [done|]. split; [done|].
  assert (unused (MkEndpoint s3 (S (ep_next ep)) (tail (ep_events ep)))) as Hu3
    by (eapply unused_next; [exact Hu|by rewrite C3, Hp|exact C1|done]).
  split; [by split; [apply Hn3|]|]. split; [|done]. destruct (noticed how); [right|left]; auto.
Qed.

(** A request on a live connection is answered, unless it is lost. *)
Lemma ep_request_live ctx cmd off payload ep st code rp st' :
  live_ep ep → heeded (ep_events ep) → live ctx = true → 0 ≤ cmd < 2 ^ 8 → serve cmd off payload st = (code, rp, st') →
  ∃ r ep' st1, ep_request serve ctx cmd off payload ep st = Some (r, ep', st1) ∧ ep_events ep' = tail (ep_events ep) ∧
    ((∃ h, r = Ok (MkReply h rp) ∧ ErrCode h = code ∧ live_ep ep' ∧ st1 = st') ∨
     (∃ e how, r = Err e ∧ ev_lost (default no_event (head (ep_events ep))) = Some how ∧ dead_ep ep' ∧
        st1 = if executed how then st' else st)).
Proof.
  intros (Hq&Hw&Hu) Hev Hl Hcmd E. pose proof (heeded_head (ep_events ep)) as Hno.
  unfold ep_request. cbv zeta. rewrite (quiet_alive _ Hq). set (ev := default no_event (head (ep_events ep))) in *.
  destruct (calm_idle ev _ Hq) as (s1&E1&Hc1&W1). rewrite E1. cbn [mbind option_bind].
  unfold fate. rewrite (W1 Hw). destruct (ev_lost ev) as [how|].
  - destruct (ep_lost_spec ep s1 cmd off payload how st code rp st' Hc1 Hu Hcmd E) as (s2&e&s3&E2&E3&E4&Hd&_).
    rewrite E2. cbn [mbind option_bind]. rewrite E3. cbn [mbind option_bind]. rewrite E4. cbn [mbind option_bind].
    do 3 eexists. split; [reflexivity|]. split; [done|]. right. exists e, how. split_and!; try done. by apply Hd, Hno.
  - destruct Hc1 as [Hq1 C1].
    destruct (conn_run_spec serve ctx cmd off payload (MkConnWorld s1 (ep_next ep) st) code rp st' Hfit) as (w'&h&E2&Eh&[Hq2 Hu2]&Es&_);
      [split; [done|cbn; intros k Hk; rewrite C1; by apply Hu]|done..|].
    rewrite E2. cbn [mbind option_bind]. do 3 eexists. split; [reflexivity|]. split; [done|]. left.
    exists h. split; [done|]. split; [done|]. split; [|done]. split; [done|]. split; [|done]. cbn [ep_sys].
    destruct (conn_run_keeps _ _ _ _ _ _ _ _ E2) as [_ ->]. by apply W1.
Qed.

(** With a cancelled context it is executed, but nobody waits for the reply. *)
Lemma conn_run_cancelled ctx cmd off payload w code rp st' :
  conn_ready w → live ctx = false → 0 ≤ cmd < 2 ^ 8 → serve cmd off payload (cw_server w) = (code, rp, st') →
  ∃ w', conn_run serve ctx cmd off payload w = Some (Err ECanceled, w') ∧ conn_ready w' ∧ cw_server w' = st'.
Proof.
  intros [Hq Hn] Hl Hcmd E. unfold conn_run. rewrite Hl. set (k := cw_next w) in *. set (s := cw_sys w) in *.
  destruct (lost_spec s k cmd off payload Hq (Hn k (le_n k)) (Expired true ECanceled)) as (s2&e&E2&[Hr [p Hp] _ Hq2 Hs]).
  cbn [lost_actions] in E2. change [ACall k cmd off payload; ASend k; ACtx k ECanceled; AUnreg k]
    with ([ACall k cmd off payload; ASend k] ++ [ACtx k ECanceled; AUnreg k]) in E2.
  destruct (run_split _ _ _ _ E2) as (s1&E1&E12). rewrite E1. cbn [mbind option_bind].
  destruct (answer_last s (cw_server w) s1 cmd off payload code rp st' Hq) as (rh&Ea&Hok&Hfl); [|done..|].
  { by eapply run_sent; [exact Hq|apply Hn|]. }
  rewrite Ea. cbn [mbind option_bind].
  destruct (calm_frame rh rp s2 (Hq2 eq_refl) Hok (or_introl Hfl)) as (s3&E3&(Hq3&C3)).
  change [ACtx k ECanceled; AUnreg k; ANet (frame rh rp); AFrame] with ([ACtx k ECanceled; AUnreg k] ++ [ANet (frame rh rp); AFrame]).
  rewrite (run_app _ _ _ _ E12), E3. cbn [mbind option_bind]. rewrite C3.
  assert (s_callers s2 !! k = Some (PDone (next_id s) (Err ECanceled))) as ->.
  { revert E12. cbn [run]. intros (sa&Ea1&E12)%bind_Some. apply bind_Some in E12 as (sb&Eb&[= <-]).
    assert (s_callers s1 !! k = Some (PWait (next_id s))) as Hk1.
    { revert E1. rewrite (run_cons _ _ _ _ (lost_call s k cmd off payload Hq (Hn k (le_n k)))).
      rewrite (run_cons _ _ _ _ (lost_send s k cmd off payload)). intros [= <-]. apply lookup_insert_eq. }
    unfold exec in Ea1. rewrite Hk1 in Ea1. injection Ea1 as <-.
    rewrite (exec_unreg_ret _ k (next_id s) (Err ECanceled)) in Eb by apply lookup_insert_eq. injection Eb as <-. apply lookup_insert_eq. }
  eexists. split; [reflexivity|]. split; [|done]. split; [done|]. cbn. intros k' Hk'. rewrite C3, Hp, lookup_insert_ne by lia.
  apply Hn. unfold k in *. lia.
Qed.

(** A request on a dead one fails. *)
Lemma ep_request_dead ctx cmd off payload ep st :
  dead_ep ep → ∃ e ep', ep_request serve ctx cmd off payload ep st = Some (Err e, ep', st) ∧ dead_ep ep'.
Proof.
  intros [Ha Hu]. unfold ep_request. cbv zeta. rewrite Ha. unfold IsAlive in Ha. apply bool_decide_eq_false in Ha.
  destruct (closeErr (s_conn (ep_sys ep))) as [e|] eqn:Ec; [|done].
  assert (run [ACall (ep_next ep) cmd off payload] (ep_sys ep)
    = Some (set_caller (ep_next ep) (PRefused e) (set_chan (ep_next ep) [] (ep_sys ep)))) as ->.
  { cbn [run]. unfold exec. rewrite (Hu (ep_next ep)) by done. unfold register, mbind, M_bind, get. by rewrite Ec. }
  cbn [mbind option_bind]. unfold returned. cbn [s_callers set_caller]. rewrite lookup_insert_eq. cbn [mbind option_bind].
  do 2 eexists. split; [reflexivity|]. split; [cbn; unfold IsAlive; rewrite Ec; by apply bool_decide_eq_false|].
  by eapply unused_next.
Qed.

(** Whatever happens, a request is answered rightly or fails. *)
Lemma ep_request_sound ctx cmd off payload ep st code rp st' :
  sound_ep ep → 0 ≤ cmd < 2 ^ 8 → serve cmd off payload st = (code, rp, st') →
  ∃ r ep' st1, ep_request serve ctx cmd off payload ep st = Some (r, ep', st1) ∧ sound_ep ep' ∧
    ((∃ h, r = Ok (MkReply h rp) ∧ ErrCode h = code ∧ st1 = st') ∨ (∃ e, r = Err e ∧ (st1 = st ∨ st1 = st'))).
Proof.
  intros [[Hq|Ha] Hu] Hcmd E; [|destruct (ep_request_dead ctx cmd off payload ep st (conj Ha Hu)) as (e&ep'&->&[Ha' Hu']);
    do 3 eexists; split; [reflexivity|]; split; [split; [by right|done]|]; right; exists e; split; [done|by left]].
  unfold ep_request. cbv zeta. rewrite (quiet_alive _ Hq). set (ev := default no_event (head (ep_events ep))) in *.
  destruct (calm_idle ev _ Hq) as (s1&E1&Hc1&_). rewrite E1. cbn [mbind option_bind].
  destruct (fate s1 (ev_lost ev)) as [how|].
  - destruct (ep_lost_spec ep s1 cmd off payload how st code rp st' Hc1 Hu Hcmd E) as (s2&e&s3&E2&E3&E4&_&Hs).
    rewrite E2. cbn [mbind option_bind]. rewrite E3. cbn [mbind option_bind]. rewrite E4. cbn [mbind option_bind].
    do 3 eexists. split; [reflexivity|]. split; [done|]. right. exists e. split; [done|]. destruct (executed how); [by right|by left].
  - destruct Hc1 as [Hq1 C1]. assert (conn_ready (MkConnWorld s1 (ep_next ep) st)) as Hr
      by (split; [done|cbn; intros k Hk; rewrite C1; by apply Hu]).
    destruct (live ctx) eqn:Hl.
    + destruct (conn_run_spec serve ctx cmd off payload _ code rp st' Hfit Hr Hl Hcmd E) as (w'&h&E2&Eh&[Hq2 Hu2]&Es&_).
      rewrite E2. cbn [mbind option_bind]. do 3 eexists. split; [reflexivity|]. split; [by split; [left|]|]. left. by exists h.
    + destruct (conn_run_cancelled ctx cmd off payload _ code rp st' Hr Hl Hcmd E) as (w'&E2&[Hq2 Hu2]&Es).
      rewrite E2. cbn [mbind option_bind]. do 3 eexists. split; [reflexivity|]. split; [by split; [left|]|]. right. exists ECanceled. by split; [|right].
Qed.

End endpoint.

Lemma live_ep_tickle ep : live_ep ep → live_ep (ep_tickle ep).
Proof.
  intros (Hq&Hw&Hu). unfold ep_tickle. cbn [exec default]. split; [|split; [exact Hw|exact Hu]].
  pose proof Hq as (_&?&?&?&?). by apply (quiet_exec ATickleStart _ _ Hq).
Qed.

(** ** The network *)

Definition good_dial (d : result (list event)) : Prop := match d with Ok evs => safe evs | Err _ => False end.
Definition good_dials {St} (w : DsiNet St) : Prop := Forall good_dial (nt_dials w).

(** Connection [c] is in the state [P]. *)
Definition conn_is {St} (P : endpoint → Prop) (c : nat) (w : DsiNet St) : Prop := ∃ ep, nt_conns w !! c = Some ep ∧ P ep.
Definition steady_ep (ep : endpoint) : Prop := live_ep ep ∧ safe (ep_events ep).

(** The assignment to [ServerQuantum]. *)
Lemma quiet_quantum q s : quiet s → quiet (set_conn (set_ServerQuantum q (s_conn s)) s).
Proof. intros ([[Hd Hn Hp] Hpe [Hr1 Hr2 Hr3] [Hs1 Hs2 Hs3] Hse Hch]&?&?&?&?). split; [|done]. by split. Qed.

Lemma live_ep_quantum q ep : live_ep ep → live_ep (ep_set_quantum q ep).
Proof. intros (Hq&Hw&Hu). split; [by apply quiet_quantum|done]. Qed.

Section net.
Context {St : Type} (serve : server St) (Hfit : fits_frames serve).

Abbreviation net := (DsiNet St).

(** What [Served] and [Nas] ask for, on connections numbered from [b]. *)
Definition up (b c : nat) (w : net) : Prop := (b ≤ c)%nat ∧ good_dials w ∧ conn_is steady_ep c w.

Definition may (c : nat) (w : net) : Prop := good_dials w ∧ conn_is (λ ep, live_ep ep ∧ heeded (ep_events ep)) c w.
Definition down (c : nat) (w : net) : Prop := good_dials w ∧ conn_is dead_ep c w.

Lemma conn_is_insert (P : endpoint → Prop) c ep (w : net) (st : St) :
  is_Some (nt_conns w !! c) → P ep → conn_is P c (MkNet st (<[c := ep]> (nt_conns w)) (nt_dials w) (nt_open w)).
Proof. intros Hc HP. exists ep. split; [|done]. cbn. apply list_lookup_insert_eq. by apply lookup_lt_is_Some. Qed.

Lemma conn_is_alter (P Q : endpoint → Prop) c f (w : net) :
  conn_is P c w → (∀ ep, P ep → Q (f ep)) → conn_is Q c (on_conn c f w).
Proof. intros (ep&Hc&HP) HQ. exists (f ep). split; [|by apply HQ]. cbn. by rewrite list_lookup_alter_eq, Hc. Qed.

Lemma dsi_request_up b c ctx cmd off payload w code rp st :
  up b c w → live ctx = true → 0 ≤ cmd < 2 ^ 8 → serve cmd off payload (nt_server w) = (code, rp, st) →
  ∃ w' h, @t_request net (dsi_transport serve c) ctx cmd off payload w = Ret (Ok (MkReply h rp), w') ∧
    ErrCode h = code ∧ up b c w' ∧ nt_server w' = st ∧
    @t_quantum net (dsi_transport serve c) w' = @t_quantum net (dsi_transport serve c) w.
Proof.
  intros (Hb&Hd&ep&Hc&Hep&Hsafe) Hl Hcmd E. cbn. rewrite Hc.
  destruct (ep_request_live serve Hfit ctx cmd off payload ep _ code rp st Hep (safe_heeded _ Hsafe) Hl Hcmd E) as (r&ep'&st1&Er&Ev&[Hok|Hlost]).
  - pose proof (ep_request_quantum serve _ _ _ _ _ _ _ _ _ Er) as Eq.
    destruct Hok as (h&->&Eh&Hep'&->). rewrite Er. do 2 eexists. split; [reflexivity|]. split; [done|].
    split; [|split; [done|cbn; rewrite list_lookup_insert_eq by (by eapply lookup_lt_Some); exact Eq]].
    split; [done|]. split; [done|]. apply conn_is_insert; [by eexists|]. split; [done|]. unfold safe. rewrite Ev.
    destruct Hsafe; [constructor|done].
  - destruct Hlost as (e&how&_&Hlost&_). by destruct Hsafe as [|ev evs Hev _]; cbn in Hlost; [|congruence].
Qed.

Definition dsi_served (b c : nat) : @Served net St (dsi_transport serve c) serve.
Proof.
  refine (@Build_Served net St (dsi_transport serve c) serve nt_server (up b c) _).
  intros ctx cmd off payload w code rp st Hr Hl Hc E. by apply (dsi_request_up b c).
Defined.

(** The commands' network, for connections from [b] on. *)
Definition dsi_nas (b : nat) : @Nas net St (dsi_machine serve) serve.
Proof.
  refine (@Build_Nas net St (dsi_machine serve) serve (dsi_served b)
    (λ st w, nt_server w = st ∧ (b ≤ length (nt_conns w))%nat ∧ good_dials w) _ _ _ _).
  - intros ctx addr st w (Es&Hb&Hd) Hl.
    assert (∃ evs, default (Ok []) (head (nt_dials w)) = Ok evs ∧ safe evs ∧ Forall good_dial (tail (nt_dials w))) as (evs&Ed&Hev&Ht).
    { unfold good_dials in Hd. destruct Hd as [|d ds Hd Hds]; [by exists []; repeat constructor|].
      destruct d as [evs|e]; [|done]. by exists evs. }
    cbn. unfold dsi_connect. rewrite Ed. do 3 eexists. split; [reflexivity|]. split; [|split; [exact Es|reflexivity]].
    split; [exact Hb|]. split; [exact Ht|]. exists (MkEndpoint init_sys 0 evs). cbn. rewrite list_lookup_middle by done.
    split; [done|]. split; [|done]. split; [exact quiet_init|]. split; [done|]. intros k _. apply lookup_empty.
  - intros c st q w ((Hb&Hd&ep&Hc&_)&Es&_). split; [exact Es|]. split; [|exact Hd]. cbn. rewrite length_alter.
    apply lookup_lt_Some in Hc. lia.
  - intros c st q q' w ((Hb&Hd&Hep)&Es&_). split; [|split; [exact Es|]].
    + split; [done|]. split; [done|]. eapply conn_is_alter; [exact Hep|]. intros ep [H1 H2].
      split; [by apply live_ep_quantum|done].
    + destruct Hep as (ep&Hc&_). cbn. by rewrite list_lookup_alter_eq, Hc.
  - intros c st q w ((Hb&Hd&Hep)&Es&Eq). split; [|split; [exact Es|]].
    + split; [done|]. split; [done|]. eapply conn_is_alter; [exact Hep|]. intros ep [H1 H2].
      split; [by apply live_ep_tickle|done].
    + destruct Hep as (ep&Hc&_). rewrite <- Eq. cbn. rewrite list_lookup_alter_eq, Hc. done.
Defined.

(** Dialling opens the connections that [Close] closes. *)
Definition dsi_tracked : @Tracked net (dsi_machine serve) dsi_entropy.
Proof.
  clear Hfit. refine (@Build_Tracked net (dsi_machine serve) dsi_entropy
    (λ w, filter (λ c, (c < length (nt_conns w))%nat) (nt_open w)) _ _ _ _ _ _).
  - intros c ctx cmd off payload w r w'. cbn. destruct (nt_conns w !! c); [|done].
    destruct (ep_request _ _ _ _ _ _ _) as [[[r1 ep] st]|]; [|done]. intros [= _ <-]. cbn. by rewrite length_insert.
  - by intros m n r n' [= _ ->].
  - intros c q w. cbn. by rewrite length_alter.
  - intros c w. cbn. by rewrite length_alter.
  - intros c w. cbn. rewrite length_alter. set_solver.
  - intros ctx addr w r w'. cbn. unfold dsi_connect. destruct (default _ _) as [evs|e]; intros [= <- <-]; [|done].
    cbn. rewrite length_app. cbn [length]. split.
    + intros [Hlt _]%elem_of_filter. lia.
    + apply set_eq. intros x. rewrite !elem_of_filter, !elem_of_union, elem_of_singleton, elem_of_filter.
      split; [|intros [->|[? ?]]; (split; [lia|tauto])]. intros [Hx [->|Ho]]; [by left|].
      destruct (decide (x = length (nt_conns w))) as [->|]; [by left|right]. split; [lia|done].
Defined.

(** What a request on a connection that may be lost does. *)
Lemma dsi_request_may c ctx cmd off payload w code rp st' :
  may c w → live ctx = true → 0 ≤ cmd < 2 ^ 8 → serve cmd off payload (nt_server w) = (code, rp, st') →
  ∃ r w', @t_request net (dsi_transport serve c) ctx cmd off payload w = Ret (r, w') ∧
    ((∃ h, r = Ok (MkReply h rp) ∧ ErrCode h = code ∧ may c w' ∧ nt_server w' = st' ∧
        @t_quantum net (dsi_transport serve c) w' = @t_quantum net (dsi_transport serve c) w) ∨
     (∃ e, r = Err e ∧ down c w' ∧ (nt_server w' = nt_server w ∨ nt_server w' = st'))).
Proof.
  intros (Hd&ep&Hc&Hep&Hev) Hl Hcmd E. cbn. rewrite Hc.
  destruct (ep_request_live serve Hfit ctx cmd off payload ep _ code rp st' Hep Hev Hl Hcmd E)
    as (r&ep'&st1&Er&Ev&Hcase). pose proof (ep_request_quantum serve _ _ _ _ _ _ _ _ _ Er) as Eq.
  destruct Hcase as [(h&->&Eh&Hep'&->)|(e&how&->&_&Hep'&->)]; rewrite Er; do 2 eexists; (split; [reflexivity|]).
  - left. exists h. split; [done|]. split; [done|]. split; [split; [done|]|split; [done|]].
    { apply conn_is_insert; [done|]. split; [done|]. rewrite Ev. unfold heeded in *. by destruct Hev; [constructor|]. }
    cbn. rewrite list_lookup_insert_eq by (by eapply lookup_lt_Some). exact Eq.
  - right. exists e. split; [done|]. split; [|cbn; destruct (executed how); tauto]. split; [done|]. by apply conn_is_insert.
Qed.

Lemma dsi_request_down c ctx cmd off payload w :
  down c w → ∃ e w', @t_request net (dsi_transport serve c) ctx cmd off payload w = Ret (Err e, w') ∧ down c w' ∧
    nt_server w' = nt_server w.
Proof.
  intros (Hd&ep&Hc&Hep). cbn. rewrite Hc.
  destruct (ep_request_dead serve ctx cmd off payload ep (nt_server w) Hep) as (e&ep'&Er&Hep'). rewrite Er.
  do 2 eexists. split; [reflexivity|]. split; [|done]. split; [done|]. by apply conn_is_insert.
Qed.

End net.
