(* ===== verification/Linear.v ===== *)
(** * Pipelining is linearizable

    The connection machine of Conn.v with a server at the other end that
    executes the requests it has received in any order, one at a time, and
    writes the replies in any order, with frames of its own in between; the
    network delivers them in pieces of any size.  However the goroutines
    inside [request] interleave, what each of them gets back is what the server
    would have answered had the requests been made one after the other. *)

From S2P Require Import Prelude Header Conn ConnSafety ConnLive Transport Session Errgroup Fork Ops Login Manager Path Bridge Serve Url Command Net.
From S2P Require Import NetSpec.

Open Scope go_scope.
#[local] Set Warnings "-clear-no-such-hyp".

#[global] Instance frame_ok_dec f : Decision (frame_ok f).
Proof. unfold frame_ok, header_ok. apply _. Defined.

(** ** The client and its server *)

(** A request that the server has executed: which of the frames sent it was,
    what it asked, and the reply. *)
Record entry : Type := MkEntry {
  le_idx : nat;
  le_cmd : Z;
  le_id : Z;
  le_off : Z;
  le_payload : bytes;
  le_code : Z;
  le_rp : bytes;
}.

Definition reply_of (e : entry) : Header * bytes :=
  (MkHeader flagReply (le_cmd e) (le_id e) (le_code e) (len (le_rp e)) 0, le_rp e).

(** [y_log]: what the server has executed, in order; [y_out]: the frames that it
    has written.  [y_calls] records the arguments of every [request], and
    [y_ids] counts the ids that may have been given out. *)
Record Pair (St : Type) : Type := MkPair {
  y_sys : Sys;
  y_srv : St;
  y_log : list entry;
  y_out : list (Header * bytes);
  y_calls : gmap nat (Z * Z * bytes);
  y_ids : nat;
}.
Arguments MkPair {St}.
Arguments y_sys {St}.
Arguments y_srv {St}.
Arguments y_log {St}.
Arguments y_out {St}.
Arguments y_calls {St}.
Arguments y_ids {St}.

Inductive move : Type :=
| MClient (a : action)  (* a step of the client *)
| MExec (i : nat)       (* the server executes the [i]th frame that was sent *)
| MReply (i : nat)      (* it writes the reply to its [i]th request *)
| MOwn (f : Header * bytes)  (* it writes a frame of its own, not a reply *)
| MNet (b : bytes).     (* bytes that it has written arrive *)

Definition allocates (a : action) : bool :=
  match a with ACall _ _ _ _ | ATickle _ | AClose _ => true | _ => false end.

(** The arguments of a call; [cmd] is a byte. *)
Definition record_call (a : action) (calls : gmap nat (Z * Z * bytes)) : gmap nat (Z * Z * bytes) :=
  match a with ACall k cmd off payload => <[k := (cmd, off, payload)]> calls | _ => calls end.

Definition typed_call (a : action) : bool :=
  match a with ACall _ cmd _ _ => bool_decide (0 ≤ cmd < 2 ^ 8) | _ => true end.

(** Tickles and the end of a session are not executed. *)
Definition is_request (h : Header) : bool := negb (bool_decide (Command h = CmdTickle ∨ Command h = CmdCloseSession)).

Section pair.
Context {St : Type} (serve : server St).

Definition mexecute (m : move) (y : Pair St) : option (Pair St) :=
  let '(MkPair s srv log out calls ids) := y in
  match m with
  | MClient (ANet _) => None
  | MClient a =>
    if typed_call a then
      s' ← exec a s; Some (MkPair s' srv log out (record_call a calls) (if allocates a then S ids else ids))
    else None
  | MExec i =>
    '(h, payload) ← s_sent s !! i;
    if is_request h && bool_decide (i ∉ le_idx <$> log) then
      let '(code, rp, srv') := serve (Command h) (ErrCode h) payload srv in
      Some (MkPair s srv' (log ++ [MkEntry i (Command h) (RequestID h) (ErrCode h) payload code rp]) out calls ids)
    else None
  | MReply i => e ← log !! i; Some (MkPair s srv log (out ++ [reply_of e]) calls ids)
  | MOwn f =>
    if bool_decide (Flags f.1 ≠ flagReply ∧ frame_ok f) then Some (MkPair s srv log (out ++ [f]) calls ids) else None
  | MNet b =>
    if bool_decide (s_input s ++ b `prefix_of` frames out) then
      s' ← exec (ANet b) s; Some (MkPair s' srv log out calls ids)
    else None
  end.

(** Steps of the client and the server, in any order. *)
Definition pstep (y y' : Pair St) : Prop := ∃ m, mexecute m y = Some y'.
Definition init_pair (srv : St) : Pair St := MkPair init_sys srv [] [] ∅ 0.

(** The log explains the server: executed one after the other from [st], the
    requests have these replies and end in [st']. *)
Fixpoint explains (st : St) (log : list entry) (st' : St) : Prop :=
  match log with
  | [] => st' = st
  | e :: log' => ∃ st1, serve (le_cmd e) (le_off e) (le_payload e) st = (le_code e, le_rp e, st1) ∧ explains st1 log' st'
  end.

Lemma explains_snoc st log e st1 st2 :
  explains st log st1 → serve (le_cmd e) (le_off e) (le_payload e) st1 = (le_code e, le_rp e, st2) →
  explains st (log ++ [e]) st2.
Proof.
  revert st. induction log as [|x log IH]; cbn; intros st; [intros -> E; by exists st2|].
  intros (sx&Ex&Hx) E. exists sx. split; [done|]. by apply IH.
Qed.

End pair.

(** ** Ids are used once, as long as they last *)

(** Of callers [cs] with the arguments [calls] and the frames [sent], when ids
    up to [n] have been given out. *)
Record id_inv (n : Z) (cs : gmap nat caller) (sent : list (Header * bytes)) (calls : gmap nat (Z * Z * bytes)) : Prop := {
  ii_ids k p id : cs !! k = Some p → ident p = Some id → 0 < id ≤ n;
  ii_inj k1 k2 p1 p2 id : cs !! k1 = Some p1 → cs !! k2 = Some p2 → ident p1 = Some id → ident p2 = Some id → k1 = k2;
  ii_sent h x : (h, x) ∈ sent → 0 < RequestID h ≤ n;
  ii_once : NoDup ((λ f, RequestID f.1) <$> sent);
  ii_own k p id : cs !! k = Some p → ident p = Some id → ∃ cmd off x, calls !! k = Some (cmd, off, x) ∧
    (∀ h x', (h, x') ∈ sent → RequestID h = id → h = request_header cmd id off x ∧ x' = x) ∧
    (∀ h x', p = PSend id h x' → h = request_header cmd id off x ∧ x' = x);
  ii_from h x : (h, x) ∈ sent → is_request h = true → ∃ k p, cs !! k = Some p ∧ ident p = Some (RequestID h);
  ii_unsent k id h x : cs !! k = Some (PSend id h x) → ∀ h' x', (h', x') ∈ sent → RequestID h' ≠ id;
}.

Lemma ident_move (cs : gmap nat caller) k (p p' : caller) i :
  cs !! k = Some p → ident p' = ident p →
  (∃ k0 q, cs !! k0 = Some q ∧ ident q = Some i) → ∃ k0 q, <[k := p']> cs !! k0 = Some q ∧ ident q = Some i.
Proof.
  intros Hk Hi (k0&q&Hq&E). destruct (decide (k = k0)) as [->|Hne].
  - exists k0, p'. rewrite lookup_insert_eq. split; [done|]. congruence.
  - exists k0, q. by rewrite lookup_insert_ne.
Qed.

Lemma ident_new (cs : gmap nat caller) k (p : caller) i :
  cs !! k = None → (∃ k0 q, cs !! k0 = Some q ∧ ident q = Some i) → ∃ k0 q, <[k := p]> cs !! k0 = Some q ∧ ident q = Some i.
Proof. intros Hk (k0&q&Hq&E). exists k0, q. rewrite lookup_insert_ne by congruence. done. Qed.

Lemma id_inv_move n cs sent calls k p p' :
  id_inv n cs sent calls → cs !! k = Some p → ident p' = ident p → (∀ id h x, p' ≠ PSend id h x) →
  id_inv n (<[k := p']> cs) sent calls.
Proof.
  intros [] Hk Hi Hns. split; try done.
  - intros k' q id [[<- <-]|[_ E]]%lookup_insert_Some ?; [|by eauto]. by apply (ii_ids0 k p); [|rewrite <- Hi].
  - intros k1 k2 p1 p2 id [[<- <-]|[_ E1]]%lookup_insert_Some [[<- <-]|[_ E2]]%lookup_insert_Some; rewrite ?Hi; eauto.
  - intros k' q id [[<- <-]|[_ E]]%lookup_insert_Some; [rewrite Hi; intros Hid|by eauto].
    destruct (ii_own0 k p id Hk Hid) as (cmd&off&x&?&?&?).
    exists cmd, off, x. split; [done|]. split; [done|]. by intros h x' []%Hns.
  - eauto using ident_move.
  - intros k' id h x [[<- ->]|[_ E]]%lookup_insert_Some; [by destruct (Hns id h x)|by eauto].
Qed.

(** A goroutine that [register] refuses. *)
Lemma id_inv_refused n cs sent calls k e a :
  id_inv n cs sent calls → cs !! k = None → id_inv n (<[k := PRefused e]> cs) sent (<[k := a]> calls).
Proof.
  intros [] Hk. split; try done.
  - intros k' q id [[<- <-]|[_ E]]%lookup_insert_Some; [done|eauto].
  - intros k1 k2 p1 p2 id [[<- <-]|[_ E1]]%lookup_insert_Some [[<- <-]|[_ E2]]%lookup_insert_Some; try done; eauto.
  - intros k' q id [[<- <-]|[Hne E]]%lookup_insert_Some; [done|]. rewrite lookup_insert_ne by done. eauto.
  - eauto using ident_new.
  - intros k' id h x [[<- ?]|[_ E]]%lookup_insert_Some; [done|by eauto].
Qed.

(** A new one, under the next id. *)
Lemma id_inv_new n cs sent calls k cmd off x :
  id_inv n cs sent calls → cs !! k = None → 0 ≤ n →
  id_inv (n + 1) (<[k := PSend (n + 1) (request_header cmd (n + 1) off x) x]> cs) sent (<[k := (cmd, off, x)]> calls).
Proof.
  intros [] Hk Hn. split.
  - intros k' q id [[<- <-]|[_ E]]%lookup_insert_Some Hid; [cbn in Hid; simplify_eq; lia|].
    specialize (ii_ids0 _ _ _ E Hid). lia.
  - intros k1 k2 p1 p2 id [[<- <-]|[_ E1]]%lookup_insert_Some [[<- <-]|[_ E2]]%lookup_insert_Some; cbn; intros H1 H2;
      simplify_eq; try done; eauto; exfalso;
      match goal with E : cs !! _ = Some ?p, H : ident ?p = Some _ |- _ => specialize (ii_ids0 _ _ _ E H) end; lia.
  - intros h y Hin. specialize (ii_sent0 h y Hin). lia.
  - done.
  - intros k' q id [[<- <-]|[Hne E]]%lookup_insert_Some Hid.
    + cbn in Hid. simplify_eq. exists cmd, off, x. rewrite lookup_insert_eq. split_and!; [done| |by intros h x' [= -> ->]].
      intros h x' Hin Hr. specialize (ii_sent0 h x' Hin). lia.
    + rewrite lookup_insert_ne by done. eauto.
  - eauto using ident_new.
  - intros k' id h y [[<- [= <- <- <-]]|[_ E]]%lookup_insert_Some; [|by eauto].
    intros h' x' Hin. specialize (ii_sent0 h' x' Hin). lia.
Qed.

(** [send] by a goroutine. *)
Lemma id_inv_send n cs sent calls k id h x :
  id_inv n cs sent calls → cs !! k = Some (PSend id h x) →
  id_inv n (<[k := PWait id]> cs) (sent ++ [(h, x)]) calls.
Proof.
  intros HI Hk. pose proof (id_inv_move _ _ _ _ k _ (PWait id) HI Hk eq_refl ltac:(done)) as [].
  pose proof (ii_unsent _ _ _ _ HI _ _ _ _ Hk) as Hun.
  destruct (ii_own _ _ _ _ HI _ _ _ Hk eq_refl) as (cmd&off&x0&Hc&_&Hh). destruct (Hh h x eq_refl) as [-> ->].
  pose proof (ii_ids _ _ _ _ HI _ _ _ Hk eq_refl) as Hid.
  split; try done.
  - intros h' x' [Hin|[= -> ->]%list_elem_of_singleton]%elem_of_app; [eauto|exact Hid].
  - rewrite fmap_app. apply NoDup_app. split; [done|]. split; [|by apply NoDup_singleton].
    intros i ((h'&x')&->&Hin)%list_elem_of_fmap Hi%list_elem_of_singleton. by apply (Hun h' x').
  - intros k' q id' E Hi. destruct (ii_own0 k' q id' E Hi) as (cmd'&off'&x'&Hc'&H1&H2).
    exists cmd', off', x'. split_and!; [done| |done].
    intros h' y [Hin|[= -> ->]%list_elem_of_singleton]%elem_of_app Hr; [by apply H1|].
    cbn in Hr. subst id'. assert (k' = k) as -> by (eapply (ii_inj0 k' k); [exact E|apply lookup_insert_eq|exact Hi|done]).
    by simplify_eq.
  - intros h' x' [Hin|[= -> ->]%list_elem_of_singleton]%elem_of_app Hr; [by eapply ii_from0|].
    exists k, (PWait id). rewrite lookup_insert_eq. done.
  - intros k' id' h' x' [[<- ?]|[Hne E]]%lookup_insert_Some; [done|].
    intros h1 x1 [Hin|[= -> ->]%list_elem_of_singleton]%elem_of_app.
    + by apply (ii_unsent _ _ _ _ HI _ _ _ _ E h1 x1).
    + cbn. intros ->. apply Hne. by eapply (ii_inj _ _ _ _ HI k k').
Qed.

(** A frame without a goroutine, under the next id: sent, or not. *)
Lemma id_inv_grow n m cs sent calls : id_inv n cs sent calls → n ≤ m → id_inv m cs sent calls.
Proof.
  intros [] Hm. split; try done.
  - intros k p id E Hi. specialize (ii_ids0 _ _ _ E Hi). lia.
  - intros h x Hin. specialize (ii_sent0 _ _ Hin). lia.
Qed.

Lemma id_inv_bare n cs sent calls cmd :
  id_inv n cs sent calls → 0 ≤ n → is_request (bare_header cmd (n + 1)) = false → id_inv (n + 1) cs (sent ++ [(bare_header cmd (n + 1), [])]) calls.
Proof.
  intros HI Hn Hcmd. pose proof (id_inv_grow n (n + 1) _ _ _ HI ltac:(lia)) as []. split; try done.
  - intros h x [Hin|[= -> ->]%list_elem_of_singleton]%elem_of_app; [eauto|cbn; lia].
  - rewrite fmap_app. apply NoDup_app. split; [done|]. split; [|by apply NoDup_singleton].
    intros i ((h'&x')&->&Hin)%list_elem_of_fmap Hi%list_elem_of_singleton.
    pose proof (ii_sent _ _ _ _ HI _ _ Hin). cbn in Hi. lia.
  - intros k p id E Hi. destruct (ii_own0 k p id E Hi) as (cmd'&off'&x'&Hc'&H1&H2).
    exists cmd', off', x'. split_and!; [done| |done].
    intros h y [Hin|[= -> ->]%list_elem_of_singleton]%elem_of_app Hr; [by apply H1|].
    pose proof (ii_ids _ _ _ _ HI _ _ _ E Hi). cbn in Hr. lia.
  - intros h x [Hin|[= -> ->]%list_elem_of_singleton]%elem_of_app Hr; [by eapply ii_from0|]. by rewrite Hcmd in Hr.
  - intros k id h x E h' x' [Hin|[= -> ->]%list_elem_of_singleton]%elem_of_app; [by eapply ii_unsent0|].
    pose proof (ii_ids _ _ _ _ HI _ _ _ E eq_refl). cbn. lia.
Qed.

(** [register] takes the next id. *)
Lemma register_next k s calls id c :
  pend_inv s → id_inv (nextID (s_conn s)) (s_callers s) (s_sent s) calls →
  0 ≤ nextID (s_conn s) → nextID (s_conn s) + 1 < 2 ^ 16 →
  register k (s_conn s) = Ret (Ok id, c) → id = nextID (s_conn s) + 1.
Proof.
  intros [Hp _] HI H0 Hn. unfold register, mbind, M_bind, get. destruct (closeErr (s_conn s)); [done|].
  change id_fuel with (S (Z.to_nat (2 ^ 16 - 1))). cbn [free_id]. rewrite wrap_small by lia.
  destruct (pending (s_conn s) !! (nextID (s_conn s) + 1)) as [k'|] eqn:E; [exfalso|by intros [= <- <-]].
  apply Hp in E as (p&Hk&Hh). assert (ident p = Some (nextID (s_conn s) + 1)) as Hi by (by destruct p).
  pose proof (ii_ids _ _ _ _ HI _ _ _ Hk Hi). lia.
Qed.

(** A step of the client. *)
Lemma id_inv_step a s s' calls :
  conn_inv s → id_inv (nextID (s_conn s)) (s_callers s) (s_sent s) calls →
  (allocates a = true → nextID (s_conn s) + 1 < 2 ^ 16) → exec a s = Some s' →
  id_inv (nextID (s_conn s')) (s_callers s') (s_sent s') (record_call a calls) ∧
  nextID (s_conn s') ≤ nextID (s_conn s) + (if allocates a then 1 else 0).
Proof.
  intros [[Hd [Hn0 _] _] Hp _ _ _ _] HI Hn H. destruct (allocates a) eqn:Ha.
  - specialize (Hn eq_refl). assert (u16 (nextID (s_conn s) + 1) = nextID (s_conn s) + 1) as Hu by (apply wrap_small; lia).
    destruct a; try done; cbn [exec] in H; rewrite ?sys_newID_eq, ?Hu in H; repeat case_match; simplify_eq; try fail_cases;
      cbn in *; rewrite ?Hu; repeat match goal with E : nextID _ = _ |- _ => rewrite E end;
      (split; [|lia || idtac]); try (by apply id_inv_bare); try (by apply (id_inv_grow _ _ _ _ _ HI); lia).
    all: try (by apply id_inv_refused).
    all: match goal with R : register _ _ = Ret (Ok _, _) |- _ =>
      pose proof (register_next _ _ _ _ _ Hp HI Hn0 Hn R); apply register_Ok in R as (?&?&?&->); subst end; cbn; [by apply id_inv_new || lia].
  - clear Hn. exec_cases H; try done; try fail_cases; cbn in *; repeat match goal with E : nextID _ = _ |- _ => rewrite E end;
      (split; [|lia]); first [done | by eapply id_inv_send | by eapply id_inv_move].
Qed.

Lemma sent_step a s s' : exec a s = Some s' → s_sent s `prefix_of` s_sent s'.
Proof.
  intros H. exec_cases H; unfold sys_fail; repeat case_match; cbn; try done; by apply prefix_app_r.
Qed.

Lemma input_step a s s' : exec a s = Some s' → (∀ b, a ≠ ANet b) → s_input s' = s_input s.
Proof. intros H Ha. exec_cases H; unfold sys_fail; repeat case_match; cbn; try done; by destruct (Ha b). Qed.

(** ** Frames that have arrived have been written *)

Lemma frames_prefix fs out rest :
  Forall frame_ok fs → Forall frame_ok out → frames fs ++ rest `prefix_of` frames out → fs `prefix_of` out.
Proof.
  intros Hfs. revert out. induction Hfs as [|[h p] fs Hf _ IH]; intros out Hout [tl Htl]; [apply prefix_nil|].
  destruct Hout as [|[h' p'] out Hf' Hout]; rewrite !frames_cons, <- !app_assoc in Htl.
  - exfalso. apply (f_equal len) in Htl. rewrite len_app, len_frame in Htl.
    pose proof (len_nonneg p). pose proof (len_nonneg (frames fs ++ rest ++ tl)).
    change (len (frames [])) with 0 in Htl. unfold HeaderSize in Htl. lia.
  - pose proof (read_frame_frame h' p' (frames out) Hf') as E. rewrite Htl, read_frame_frame in E by done.
    simplify_eq. apply prefix_cons, (IH out Hout). exists tl. by rewrite <- app_assoc.
Qed.

(** ** The invariant of the pair *)

Definition executes (sent : list (Header * bytes)) (e : entry) : Prop :=
  ∃ h, sent !! le_idx e = Some (h, le_payload e) ∧ is_request h = true ∧
    Command h = le_cmd e ∧ RequestID h = le_id e ∧ ErrCode h = le_off e.

Lemma executes_mono sent sent' e : executes sent e → sent `prefix_of` sent' → executes sent' e.
Proof. intros (h&Hs&?) Hp. exists h. split; [by eapply prefix_lookup_Some|done]. Qed.

Section pair.
Context {St : Type} (serve : server St) (Hfit : fits_frames serve) (st : St).

Record pair_inv (y : Pair St) : Prop := {
  pi_conn : conn_inv (y_sys y);
  pi_next : nextID (s_conn (y_sys y)) ≤ Z.of_nat (y_ids y);
  pi_ids : id_inv (nextID (s_conn (y_sys y))) (s_callers (y_sys y)) (s_sent (y_sys y)) (y_calls y);
  pi_typed k cmd off x : y_calls y !! k = Some (cmd, off, x) → 0 ≤ cmd < 2 ^ 8;
  pi_log : Forall (executes (s_sent (y_sys y))) (y_log y);
  pi_fit : Forall (λ e, 0 ≤ le_code e < 2 ^ 32 ∧ len (le_rp e) ≤ maxPayload) (y_log y);
  pi_once : NoDup (le_idx <$> y_log y);
  pi_explains : explains serve st (y_log y) (y_srv y);
  pi_ok : Forall frame_ok (y_out y);
  pi_reply : Forall (λ f, Flags f.1 = flagReply → ∃ e, e ∈ y_log y ∧ f = reply_of e) (y_out y);
  pi_input : s_input (y_sys y) `prefix_of` frames (y_out y);
}.

Lemma pair_inv_init : pair_inv (init_pair st).
Proof.
  clear Hfit. split; cbn; try done; try (by constructor); [exact conn_inv_init|].
  split; cbn; try set_solver. by constructor.
Qed.

(** An entry is a call of a goroutine. *)
Lemma entry_call y e : pair_inv y → executes (s_sent (y_sys y)) e →
  ∃ k p, s_callers (y_sys y) !! k = Some p ∧ ident p = Some (le_id e) ∧
    y_calls y !! k = Some (le_cmd e, le_off e, le_payload e).
Proof.
  intros HI (h&Hs&Hr&Hc&Hi&Ho). assert ((h, le_payload e) ∈ s_sent (y_sys y)) as Hin by (by eapply list_elem_of_lookup_2).
  destruct (ii_from _ _ _ _ (pi_ids _ HI) _ _ Hin Hr) as (k&p&Hk&Hp).
  destruct (ii_own _ _ _ _ (pi_ids _ HI) _ _ _ Hk Hp) as (cmd&off&x&Hcall&Hown&_).
  destruct (Hown _ _ Hin eq_refl) as [Hh ->]. exists k, p. split; [done|]. split; [by rewrite <- Hi|].
  rewrite Hcall, <- Hc, <- Ho, Hh. done.
Qed.

Lemma reply_frame_ok y e : pair_inv y → e ∈ y_log y → frame_ok (reply_of e).
Proof.
  intros HI He. pose proof (proj1 (Forall_forall _ _) (pi_log _ HI) e He) as Hx.
  destruct (proj1 (Forall_forall _ _) (pi_fit _ HI) e He) as [Hcode Hlen].
  destruct (entry_call y e HI Hx) as (k&p&Hk&Hp&Hcall). pose proof (pi_typed _ HI _ _ _ _ Hcall) as Hcmd.
  pose proof (ii_ids _ _ _ _ (pi_ids _ HI) _ _ _ Hk Hp) as Hid. pose proof (ai_next _ (ci_alive _ (pi_conn _ HI))) as Hn.
  pose proof (len_nonneg (le_rp e)). assert (maxPayload < 2 ^ 32) by done.
  split; [|done]. unfold header_ok, reply_of; cbn. assert (0 ≤ flagReply < 2 ^ 8) by done. lia.
Qed.

(** A client step, whatever arrives with it. *)
Lemma pair_inv_client a y s' :
  pair_inv y → (allocates a = true → Z.of_nat (y_ids y) + 1 < 2 ^ 16) → typed_call a = true →
  exec a (y_sys y) = Some s' → s_input s' `prefix_of` frames (y_out y) →
  pair_inv (MkPair s' (y_srv y) (y_log y) (y_out y) (record_call a (y_calls y)) (if allocates a then S (y_ids y) else y_ids y)).
Proof.
  intros HI Hn Ht E Hin. destruct HI as [Hconn Hnext Hids Htyped Hlog Hf Honce Hex Hok Hrep _].
  destruct (id_inv_step a (y_sys y) s' (y_calls y) Hconn Hids) as [Hids' Hnext']; [|done|].
  { intros Ha. specialize (Hn Ha). lia. }
  split; cbn; try done.
  - eapply conn_inv_step; [exact Hconn|by exists a].
  - destruct (allocates a); lia.
  - destruct a; cbn; try exact Htyped. intros k' c o z [[<- [= <- <- <-]]|[_ Hk]]%lookup_insert_Some; [|by eapply Htyped].
    by apply bool_decide_eq_true in Ht.
  - eapply Forall_impl; [exact Hlog|]. intros e He. eapply executes_mono; [exact He|by eapply sent_step].
Qed.

Lemma pair_inv_step m y y' :
  pair_inv y → Z.of_nat (y_ids y') < 2 ^ 16 → mexecute serve m y = Some y' → pair_inv y'.
Proof.
  intros HI Hn E. destruct y as [s srv log out calls ids]. destruct m as [a|i|i|f|b]; cbn [mexecute] in E.
  - assert (∀ b, a ≠ ANet b) as Ha by (by intros b ->).
    assert (∃ s', exec a s = Some s' ∧ typed_call a = true ∧
      y' = MkPair s' srv log out (record_call a calls) (if allocates a then S ids else ids)) as (s'&Es&Ht&->).
    { destruct a; try done; destruct (typed_call _) eqn:Ht; try done; apply bind_Some in E as (s'&Es&[= <-]); by exists s'. }
    apply (pair_inv_client a _ s' HI); try done; cbn in *.
    + intros Hal. rewrite Hal in Hn. lia.
    + rewrite (input_step _ _ _ Es Ha). apply (pi_input _ HI).
  - apply bind_Some in E as ([h payload]&Hs&E). destruct (is_request h) eqn:Hr; [|done]. cbn [andb] in E.
    case_bool_decide as Hi; [|done]. destruct (serve _ _ _ _) as [[code rp] srv'] eqn:Es. injection E as <-.
    destruct (Hfit _ _ _ _ _ _ _ Es) as [Hcode Hrp].
    destruct HI as [Hconn Hnext Hids Htyped Hlog Hf Honce Hex Hok Hrep Hin]. cbn in *. split; cbn; try done.
    + apply Forall_app. split; [done|]. apply Forall_singleton. by exists h.
    + apply Forall_app. split; [done|]. by apply Forall_singleton.
    + rewrite fmap_app. apply NoDup_app. split; [done|]. split; [|by apply NoDup_singleton].
      intros x Hx ->%list_elem_of_singleton. done.
    + by eapply explains_snoc.
    + eapply Forall_impl; [exact Hrep|]. cbn. intros f Hx Hfl. destruct (Hx Hfl) as (e&He&->). exists e. set_solver.
  - apply bind_Some in E as (e&He%list_elem_of_lookup_2&[= <-]). pose proof (reply_frame_ok _ e HI He) as Hoke.
    destruct HI as [Hconn Hnext Hids Htyped Hlog Hf Honce Hex Hok Hrep Hin]. cbn in *. split; cbn; try done.
    + apply Forall_app. split; [done|]. by apply Forall_singleton.
    + apply Forall_app. split; [done|]. apply Forall_singleton. by exists e.
    + destruct (reply_of e). rewrite frames_snoc. by apply prefix_app_r.
  - case_bool_decide as Hf0; [|done]. destruct Hf0 as [Hfl Hof]. injection E as <-.
    destruct HI as [Hconn Hnext Hids Htyped Hlog Hf Honce Hex Hok Hrep Hin]. cbn in *. split; cbn; try done.
    + apply Forall_app. split; [done|]. by apply Forall_singleton.
    + apply Forall_app. split; [done|]. by apply Forall_singleton.
    + destruct f. rewrite frames_snoc. by apply prefix_app_r.
  - case_bool_decide as Hb; [|done]. apply bind_Some in E as (s'&Es&[= <-]).
    apply (pair_inv_client (ANet b) _ s' HI); try done. by injection Es as <-.
Qed.

(** Nothing of the past changes. *)
Definition extends (y y' : Pair St) : Prop :=
  (y_ids y ≤ y_ids y')%nat ∧ y_log y `prefix_of` y_log y' ∧ rtc step (y_sys y) (y_sys y').

Lemma extends_step y y' : pstep serve y y' → extends y y'.
Proof.
  intros [m E]. destruct y as [s srv log out calls ids]. destruct m as [a|i|i|f|b]; cbn [mexecute] in E.
  - assert (∃ s', exec a s = Some s' ∧ y' = MkPair s' srv log out (record_call a calls) (if allocates a then S ids else ids))
      as (s'&Es&->).
    { destruct a; try done; destruct (typed_call _); try done; apply bind_Some in E as (s'&Es&[= <-]); by exists s'. }
    split; [cbn; destruct (allocates a); lia|]. split; [done|]. apply rtc_once. by exists a.
  - apply bind_Some in E as ([h payload]&_&E). destruct (_ && _); [|done]. destruct (serve _ _ _ _) as [[code rp] srv'].
    injection E as <-. split; [done|]. split; [by apply prefix_app_r|apply rtc_refl].
  - apply bind_Some in E as (e&_&[= <-]). split; [done|]. split; [done|apply rtc_refl].
  - case_bool_decide; [|done]. injection E as <-. split; [done|]. split; [done|apply rtc_refl].
  - case_bool_decide; [|done]. apply bind_Some in E as (s'&Es&[= <-]). split; [done|]. split; [done|].
    apply rtc_once. by exists (ANet b).
Qed.

Lemma extends_rtc y y' : rtc (pstep serve) y y' → extends y y'.
Proof.
  induction 1 as [y|y y1 y' H _ (I1&L1&R1)]; [split; [done|]; split; [done|apply rtc_refl]|].
  destruct (extends_step _ _ H) as (I0&L0&R0). split; [lia|]. split; [by etrans|by etrans].
Qed.

Lemma pair_inv_rtc y y' : rtc (pstep serve) y y' → Z.of_nat (y_ids y') < 2 ^ 16 → pair_inv y → pair_inv y'.
Proof.
  induction 1 as [y|y y1 y' [m H] Hr IH]; [done|]. intros Hn HI. apply IH; [done|].
  eapply pair_inv_step; [exact HI| |exact H]. pose proof (extends_rtc _ _ Hr) as [??]. lia.
Qed.

(** ** What the log says about the goroutines *)

(** The call of goroutine [k] has taken effect as the [i]th request: it asked
    what [k] called with, and a reply that [k] has is the reply to it. *)
Definition took_effect (y : Pair St) (k i : nat) : Prop :=
  ∃ e p, y_log y !! i = Some e ∧ s_callers (y_sys y) !! k = Some p ∧ ident p = Some (le_id e) ∧
    y_calls y !! k = Some (le_cmd e, le_off e, le_payload e) ∧
    (∀ r, taken p = Some r → ErrCode (rp_Header r) = le_code e ∧ rp_Payload r = le_rp e).

(** Two entries with the same id are the same. *)
Lemma entry_unique y i j e e' :
  pair_inv y → y_log y !! i = Some e → y_log y !! j = Some e' → le_id e = le_id e' → i = j.
Proof.
  intros HI Hi Hj He. pose proof (proj1 (Forall_lookup _ _) (pi_log _ HI)) as Hlog.
  destruct (Hlog _ _ Hi) as (h&Hs&_&_&Hh&_), (Hlog _ _ Hj) as (h'&Hs'&_&_&Hh'&_).
  assert (le_idx e = le_idx e') as Hidx.
  { eapply (NoDup_lookup _ _ _ (RequestID h) (ii_once _ _ _ _ (pi_ids _ HI))); rewrite list_lookup_fmap; [by rewrite Hs|].
    rewrite Hs'. cbn. congruence. }
  eapply (NoDup_lookup _ _ _ (le_idx e) (pi_once _ HI)); rewrite list_lookup_fmap; [by rewrite Hi|]. rewrite Hj. cbn. congruence.
Qed.

(** A reply that a goroutine has is the reply to an entry. *)
Lemma taken_entry y k p r : pair_inv y → s_callers (y_sys y) !! k = Some p → taken p = Some r →
  ∃ i e, y_log y !! i = Some e ∧ ident p = Some (le_id e) ∧ ErrCode (rp_Header r) = le_code e ∧ rp_Payload r = le_rp e.
Proof.
  intros HI Hk Ht. destruct (ri_taken _ (ci_route _ (pi_conn _ HI)) _ _ _ Hk Ht) as (p'&id&Hk'&Hid&Hfl&Hr&Hin). simplify_eq.
  assert (s_frames (y_sys y) `prefix_of` y_out y) as Hpre.
  { destruct (ci_stream _ (pi_conn _ HI)) as [Hsi Hso _]. eapply frames_prefix; [exact Hso|exact (pi_ok _ HI)|].
    rewrite <- Hsi. exact (pi_input _ HI). }
  destruct (proj1 (Forall_forall _ _) (pi_reply _ HI) (rp_Header r, rp_Payload r)) as (e&He&Ee); [|exact Hfl|].
  { destruct Hpre as [tl ->]. apply elem_of_app. by left. }
  apply list_elem_of_lookup in He as [i Hi]. injection Ee as E1 E2. exists i, e. rewrite E1, E2 in *. by split_and!.
Qed.

Lemma took_effect_entry y i e : pair_inv y → y_log y !! i = Some e → ∃ k, took_effect y k i.
Proof.
  intros HI Hi. destruct (entry_call y e HI) as (k&p&Hk&Hp&Hc); [by eapply (proj1 (Forall_lookup _ _) (pi_log _ HI))|].
  exists k, e, p. split_and!; try done. intros r Ht.
  destruct (taken_entry y k p r HI Hk Ht) as (j&e'&Hj&Hp'&Hcode&Hrp).
  assert (i = j) as -> by (apply (entry_unique y i j e e' HI Hi Hj); congruence). by simplify_eq.
Qed.

Lemma took_effect_inj y k i k' j : pair_inv y → took_effect y k i → took_effect y k' j → k = k' ↔ i = j.
Proof.
  intros HI (e&p&Hi&Hk&Hp&_) (e'&p'&Hj&Hk'&Hp'&_). split.
  - intros ->. simplify_eq. apply (entry_unique y i j e e' HI Hi Hj). congruence.
  - intros ->. simplify_eq. by eapply (ii_inj _ _ _ _ (pi_ids _ HI) k k').
Qed.

End pair.

(** Goroutines keep their ids. *)
Lemma ident_step k p s s' : step s s' → s_callers s !! k = Some p →
  ∃ p', s_callers s' !! k = Some p' ∧ ident p' = ident p.
Proof.
  intros [a H] Hk. exec_cases H; unfold sys_fail; repeat case_match; cbn; eauto;
    match goal with |- context [<[?j := _]> _] => destruct (decide (j = k)) as [->|Hne] end;
    rewrite ?lookup_insert_eq, ?lookup_insert_ne by done; simplify_eq; eauto.
Qed.

Lemma ident_rtc k p s s' : rtc step s s' → s_callers s !! k = Some p →
  ∃ p', s_callers s' !! k = Some p' ∧ ident p' = ident p.
Proof.
  intros Hr. revert p. induction Hr as [s|s s1 s' H _ IH]; intros p Hk; [by exists p|].
  destruct (ident_step k p _ _ H Hk) as (p1&Hk1&<-). by apply IH.
Qed.

(** ** Properties *)

(** A server that hands out numbered tickets, whatever it is asked. *)
Definition ticket : server Z := λ _ _ _ n, (n mod 2 ^ 32, be_bytes 2 n, n + 1).

Lemma ticket_fits : fits_frames ticket.
Proof. intros cmd off x n code rp n' [= <- <- _]. split; [by apply Z.mod_pos_bound|]. by rewrite len_be_bytes. Qed.

Fixpoint moves {St} (serve : server St) (l : list move) (y : Pair St) : option (Pair St) :=
  match l with [] => Some y | m :: l' => y' ← mexecute serve m y; moves serve l' y' end.

Lemma moves_rtc {St} (serve : server St) l y y' : moves serve l y = Some y' → rtc (pstep serve) y y'.
Proof.
  revert y. induction l as [|m l IH]; cbn; intros y E; [by simplify_eq|].
  apply bind_Some in E as (y1&E1&E). eapply rtc_l; [by exists m|by apply IH].
Qed.

(** C2: pipelining is linearizable: let any number of goroutines be inside
    [request], with keepalives, cancellations, failures and [Close] in between,
    and let the server execute the requests that it has received in any order,
    answer them in any order, more than once or not at all, and send frames of
    its own, delivered in pieces of any size.  Then, as long as fewer than 2^16
    ids have been given out, the log of executions explains every reply: run one
    after the other, its requests take the server from its first state to its
    current one; each of them is the call of exactly one goroutine, and no
    goroutine has two; a goroutine that has a reply is among them, and the reply
    is the one of its own request; and a call made later comes later. *)
Theorem pipelining_linearizable {St} (serve : server St) st y y' :
  fits_frames serve → rtc (pstep serve) (init_pair st) y → rtc (pstep serve) y y' → Z.of_nat (y_ids y') < 2 ^ 16 →
  explains serve st (y_log y') (y_srv y') ∧
  (∀ i, (i < length (y_log y'))%nat → ∃ k, took_effect y' k i) ∧
  (∀ k i k' j, took_effect y' k i → took_effect y' k' j → k = k' ↔ i = j) ∧
  (∀ k p r, s_callers (y_sys y') !! k = Some p → taken p = Some r → ∃ i, took_effect y' k i) ∧
  y_log y `prefix_of` y_log y' ∧
  (∀ k i k' j, took_effect y k i → s_callers (y_sys y) !! k' = None → took_effect y' k' j → (i < j)%nat).
Proof.
  intros Hfit Hy Hy' Hn. pose proof (extends_rtc serve _ _ Hy') as (Hids&Hlog&Hsys).
  assert (pair_inv serve st y) as HI by (eapply (pair_inv_rtc serve Hfit st); [exact Hy|lia|apply pair_inv_init]).
  assert (pair_inv serve st y') as HI' by (by eapply (pair_inv_rtc serve Hfit st)). split_and!; try done.
  - by apply (pi_explains _ _ _ HI').
  - intros i [e He]%lookup_lt_is_Some. by eapply took_effect_entry.
  - intros. by eapply took_effect_inj.
  - intros k p r Hk Ht. destruct (taken_entry serve st y' k p r HI' Hk Ht) as (i&e&Hi&Hp&_).
    destruct (took_effect_entry serve st y' i e HI' Hi) as (k'&e'&p'&Hi'&Hk'&Hp'&H'). exists i, e', p'. simplify_eq.
    assert (k' = k) as -> by (eapply (ii_inj _ _ _ _ (pi_ids _ _ _ HI') k' k); done). by simplify_eq.
  - intros k i k' j (e&p&Hi&_) Hk' Hj. destruct (decide (i < j)%nat) as [|Hij]; [done|exfalso].
    assert (is_Some (y_log y !! j)) as [e2 Hj2] by (apply lookup_lt_is_Some; apply lookup_lt_Some in Hi; lia).
    destruct (took_effect_entry serve st y j e2 HI Hj2) as (k2&e2'&p2&Hj2'&Hk2&Hp2&_). simplify_eq.
    destruct (ident_rtc _ _ _ _ Hsys Hk2) as (p2'&Hk2'&Hp2'). destruct Hj as (e3&p3&Hj3&Hk3&Hp3&_).
    assert (e3 = e2) as -> by (eapply prefix_lookup_Some in Hj2; [|exact Hlog]; congruence).
    assert (k' = k2) as -> by (eapply (ii_inj _ _ _ _ (pi_ids _ _ _ HI') k' k2); try done; congruence). congruence.
Qed.

(** Goroutine 1 overtakes goroutine 0; 2 calls when both have returned. *)
Definition overtaking : list move :=
  [MClient (ACall 0 CmdCommand 0 (str "a")); MClient (ACall 1 CmdCommand 0 (str "b")); MClient (ASend 0); MClient (ASend 1);
   MExec 1; MExec 0; MOwn (noise_frame (NTickle 9)); MReply 1; MReply 0;
   MNet (frames [noise_frame (NTickle 9); (MkHeader flagReply CmdCommand 1 1 2 0, be_bytes 2 1); (MkHeader flagReply CmdCommand 2 0 2 0, be_bytes 2 0)]);
   MClient AFrame; MClient AFrame; MClient ADeliver; MClient AFrame; MClient ADeliver;
   MClient (ARecv 0); MClient (AUnreg 0); MClient (ARecv 1); MClient (AUnreg 1)].
Definition after_two : Pair Z := default (init_pair 0) (moves ticket overtaking (init_pair 0)).
Definition after_three : Pair Z :=
  default (init_pair 0) (moves ticket [MClient (ACall 2 CmdCommand 0 (str "c")); MClient (ASend 2); MExec 2] after_two).

Lemma pipelining_linearizable_witness :
  ∃ e, y_log after_three !! 1%nat = Some e ∧ le_payload e = str "a" ∧ le_rp e = be_bytes 2 1 ∧
    explains ticket 0 (y_log after_three) 3 ∧ ∃ i, took_effect after_three 0 i.
Proof.
  eexists. split; [vm_compute; reflexivity|]. split; [reflexivity|]. split; [reflexivity|].
  destruct (pipelining_linearizable ticket 0 after_two after_three ticket_fits) as (H1&_&_&H4&_).
  - apply (moves_rtc _ overtaking). vm_compute. reflexivity.
  - apply (moves_rtc _ [MClient (ACall 2 CmdCommand 0 (str "c")); MClient (ASend 2); MExec 2]). vm_compute. reflexivity.
  - vm_compute. reflexivity.
  - split; [exact H1|]. eapply (H4 0%nat); vm_compute; reflexivity.
Defined.

(** ** Goroutines that have all been answered

    This is what lets a group of concurrent requests be taken for the same
    requests one after the other, in some order (Errgroup.v). *)

Lemma choose_list {A} (P : nat → A → Prop) n : (∀ i, (i < n)%nat → ∃ a, P i a) → ∃ l, length l = n ∧ ∀ i a, l !! i = Some a → P i a.
Proof.
  induction n as [|n IH]; intros H; [by exists []|].
  destruct IH as (l&Hl&HP); [intros i Hi; apply H; lia|]. destruct (H n ltac:(lia)) as [a Ha].
  exists (l ++ [a]). split; [rewrite length_app; cbn; lia|].
  intros i b [Hb|[Hi Hb]]%lookup_app_Some; [by apply HP|]. apply list_lookup_singleton_Some in Hb as [Hi' ->].
  by replace i with n by lia.
Qed.

(** When every goroutine that has called has its reply, the log is a sequential
    run of their requests, in an order in which each of them occurs once. *)
Theorem concurrent_is_sequential {St} (serve : server St) st y ks :
  fits_frames serve → rtc (pstep serve) (init_pair st) y → Z.of_nat (y_ids y) < 2 ^ 16 →
  NoDup ks → (∀ k, k ∈ ks ↔ is_Some (s_callers (y_sys y) !! k)) →
  (∀ k p, s_callers (y_sys y) !! k = Some p → is_Some (taken p)) →
  ∃ order, order ≡ₚ ks ∧ explains serve st (y_log y) (y_srv y) ∧
    Forall2 (λ k e, y_calls y !! k = Some (le_cmd e, le_off e, le_payload e) ∧
      ∃ p r, s_callers (y_sys y) !! k = Some p ∧ taken p = Some r ∧ ErrCode (rp_Header r) = le_code e ∧ rp_Payload r = le_rp e)
      order (y_log y).
Proof.
  intros Hfit Hy Hn Hnd Hks Hall.
  assert (pair_inv serve st y) as HI by (eapply (pair_inv_rtc serve Hfit st); [exact Hy|done|apply pair_inv_init]).
  destruct (choose_list (λ i k, took_effect y k i) (length (y_log y))) as (order&Hlen&Ho).
  { intros i [e He]%lookup_lt_is_Some. by eapply took_effect_entry. }
  exists order. split; [|split; [by apply (pi_explains _ _ _ HI)|]].
  - apply NoDup_Permutation; [|done|].
    + apply NoDup_alt. intros i j k Hi Hj. by apply (took_effect_inj serve st y k i k j HI); [apply Ho|apply Ho|].
    + intros k. rewrite Hks. split.
      * intros [i Hi]%list_elem_of_lookup. destruct (Ho i k Hi) as (e&p&_&Hk&_). by exists p.
      * intros [p Hk]. destruct (Hall k p Hk) as [r Ht]. destruct (taken_entry serve st y k p r HI Hk Ht) as (i&e&Hi&Hp&_).
        assert (is_Some (order !! i)) as [k' Hk'] by (apply lookup_lt_is_Some; rewrite Hlen; by eapply lookup_lt_Some).
        destruct (Ho i k' Hk') as (e'&p'&Hi'&Hc'&Hp'&_). simplify_eq.
        assert (k = k') as -> by (eapply (ii_inj _ _ _ _ (pi_ids _ _ _ HI)); done). by eapply list_elem_of_lookup_2.
  - apply Forall2_same_length_lookup. split; [exact Hlen|]. intros i k e Hi He.
    destruct (Ho i k Hi) as (e'&p&He'&Hk&_&Hc&Hr). simplify_eq. split; [done|].
    destruct (Hall k p Hk) as [r Ht]. exists p, r. by destruct (Hr r Ht).
Qed.

(** ** When the ids run out *)

(** What keepalives leave behind, when the next ids are [id] and [ids]. *)
Definition ticked (id : Z) (ids : nat) (out : bytes) (sent : list (Header * bytes)) (y : Pair Z) : Pair Z :=
  let s := y_sys y in
  MkPair (MkSys (set_nextID id (s_conn s)) (s_callers s) (s_chans s) (s_loop s) (s_in s)
      (s_out s ++ out) (s_wfail s) (s_ncClosed s) (s_panic s) (s_frames s) (s_input s) (s_sent s ++ sent) (s_tickles s))
    (y_srv y) (y_log y) (y_out y) (y_calls y) ids.

Lemma moves_ticks n y : 0 ≤ nextID (s_conn (y_sys y)) < 2 ^ 16 → s_tickles (y_sys y) ≠ 0%nat →
  ∃ out sent, moves ticket (replicate n (MClient (ATickle true))) y
    = Some (ticked (u16 (nextID (s_conn (y_sys y)) + Z.of_nat n)) (y_ids y + n) out sent y).
Proof.
  revert y. induction n as [|n IH]; intros y Hn Ht.
  - exists [], []. destruct y as [[[] ? ? ? ? ? ? ? ? ? ? ? ?] ? ? ? ? ids]. unfold ticked. cbn in *.
    by rewrite Z.add_0_r, wrap_small, !app_nil_r, Nat.add_0_r.
  - set (h := bare_header CmdTickle (u16 (nextID (s_conn (y_sys y)) + 1))).
    assert (mexecute ticket (MClient (ATickle true)) y = Some (ticked (u16 (nextID (s_conn (y_sys y)) + 1)) (y_ids y + 1) (frame h []) [(h, [])] y)) as E.
    { destruct y as [s ? ? ? ? ids]. unfold ticked. cbn [mexecute typed_call exec allocates y_sys y_ids].
      destruct (s_tickles s) as [|k] eqn:E; [done|].
      rewrite sys_newID_eq. unfold send_ok. cbn. by rewrite E, Nat.add_1_r. }
    destruct (IH (ticked (u16 (nextID (s_conn (y_sys y)) + 1)) (y_ids y + 1) (frame h []) [(h, [])] y)) as (out&sent&Eq); [by apply wrap_range|done|].
    exists (frame h [] ++ out), ((h, []) :: sent). cbn [replicate moves]. rewrite E. cbn [mbind option_bind]. rewrite Eq.
    unfold ticked. cbn. rewrite <- !app_assoc. unfold wrap. rewrite Zplus_mod_idemp_l.
    replace (y_ids y + S n)%nat with (y_ids y + 1 + n)%nat by lia.
    by replace (nextID (s_conn (y_sys y)) + Z.of_nat (S n)) with (nextID (s_conn (y_sys y)) + 1 + Z.of_nat n) by lia.
Qed.

(** Goroutine 0 gives up and goes; its request is still with the server. *)
Definition gives_up : list move :=
  [MClient ATickleStart; MClient (ACall 0 CmdCommand 0 (str "a")); MClient (ASend 0); MClient (ACtx 0 ECanceled); MClient (AUnreg 0)].

(** Goroutine 1 calls, and the server answers goroutine 0. *)
Definition late_reply : list move :=
  [MClient (ACall 1 CmdCommand 0 (str "b")); MClient (ASend 1); MExec 0; MReply 0;
   MNet (frame (MkHeader flagReply CmdCommand 1 0 2 0) (be_bytes 2 0)); MClient AFrame; MClient ADeliver;
   MClient (ARecv 1); MClient (AUnreg 1)].

(** C37: the bound on the ids is needed: there is a run in which a goroutine
    gives up on a request that the server has not executed yet, the keepalives
    use up the other ids, another goroutine is given the same id again, because
    it is not pending, and gets the reply to the first one's request, although
    the server has never executed its own. *)
Theorem late_reply_misrouted :
  ∃ y r e, rtc (pstep ticket) (init_pair 0) y ∧ Z.of_nat (y_ids y) = 2 ^ 16 + 1 ∧
    s_callers (y_sys y) !! 1%nat = Some (PDone 1 (Ok r)) ∧ y_calls y !! 1%nat = Some (CmdCommand, 0, str "b") ∧
    y_log y = [e] ∧ le_payload e = str "a" ∧ ErrCode (rp_Header r) = le_code e ∧ rp_Payload r = le_rp e.
Proof.
  assert (∃ y0, moves ticket gives_up (init_pair 0) = Some y0 ∧ s_tickles (y_sys y0) = 1%nat ∧ nextID (s_conn (y_sys y0)) = 1 ∧
    y_ids y0 = 1%nat) as (y0&E0&Ht&Hn&Hi) by (eexists; split; [vm_compute; reflexivity|done]).
  destruct (moves_ticks (Z.to_nat 65535) y0) as (out&sent&E1); [by rewrite Hn|by rewrite Ht|].
  rewrite Hn, Z2Nat.id in E1 by lia. change (u16 (1 + 65535)) with 0 in E1.
  assert (∃ y2 r e, moves ticket late_reply (ticked 0 (y_ids y0 + Z.to_nat 65535) out sent y0) = Some y2 ∧
    y_ids y2 = S (y_ids y0 + Z.to_nat 65535) ∧
    s_callers (y_sys y2) !! 1%nat = Some (PDone 1 (Ok r)) ∧ y_calls y2 !! 1%nat = Some (CmdCommand, 0, str "b") ∧
    y_log y2 = [e] ∧ le_payload e = str "a" ∧ ErrCode (rp_Header r) = le_code e ∧ rp_Payload r = le_rp e)
    as (y2&r&e&E2&Hids&Hrest).
  { clear E1. generalize (y_ids y0 + Z.to_nat 65535)%nat. intros n. vm_compute in E0. injection E0 as <-. do 3 eexists. split; [vm_compute; reflexivity|]. by split_and!. }
  exists y2, r, e. split; [|split; [|done]].
  - etrans; [by eapply moves_rtc|]. etrans; [by eapply moves_rtc|]. by eapply moves_rtc.
  - rewrite Hids, Hi. lia.
Qed.
