(* ===== verification/EndToEnd.v ===== *)
(** * From the command line to the server and back

    All components together: a guest's "goafp put" of a local file followed by a
    "goafp cat" of the same URL, over connections to one server: two
    connections for each command, sessions, logins, volumes, forks and the
    concurrent transfers. *)

From S2P Require Import Prelude Header Result Wire Entry ServerInfo Conn Transport Session SessionSpec Errgroup Fork ForkSpec Ops OpsSpec Login Manager ManagerSpec Path Bridge Serve Url Keeps Command Tracked ServeSpec CommandSpec SignOn.

Open Scope go_scope.

Section nas.
Context {W L St : Type} `{Machine W} {serve : server St} `{!Nas W St serve} `{Local L}.
Context `{Entropy W} `{Cast5} `{Norm} `{ErrgroupLaw} `{NetIP}.

Abbreviation on c := (mc_transport c).
Abbreviation ready c st q w := (@at_state W St (mc_transport c) serve (ns_served c) st q w).

(** The server admits guests and keeps the file at [path] of a volume.
    [Closed st]: no fork is open; [Open id st]: the file's is. *)
Context (t : target) (block : bytes) (info : ServerInfo) (version : bytes) (q attr volid : Z).
Context (Closed : St → Prop) (Open : Z → St → Prop) (content : St → bytes).

Abbreviation harmless := (harmless (serve := serve)).
Abbreviation vol := (vol t attr volid).

(** No fork is open, and the file holds [d]. *)
Definition kept (d : bytes) (st : St) : Prop := Closed st ∧ content st = d.

Record nas_laws : Prop := {
  nl_admits d : admits (serve := serve) t block info version q (kept d);
  nl_names : t_volume t ≠ [] ∧ t_path t ≠ [];
  nl_volume d : opens_volume (serve := serve) t (kept d) attr volid;
  nl_create st : Closed st → ∃ rp st',
    serve CmdCommand 0 (create_file_request vol RootDirID (t_path t) true) st = (0, rp, st') ∧
    Closed st' ∧ content st' = [];
  nl_open mode st : Closed st → mode = 1 ∨ mode = 3 → ∃ bm id tail st',
    serve CmdCommand 0 (open_fork_request vol RootDirID (t_path t) mode) st
      = (0, open_fork_payload bm id (len (content st)) tail, st') ∧
    0 ≤ id < 2 ^ 16 ∧ Open id st' ∧ content st' = content st;
  nl_write f : takes_writes (serve := serve) f q (Open (f_ID f)) content;
  nl_read f st : f_chunkSize f = readChunkSize → Open (f_ID f) st → serves_fork (serve := serve) f (content st) st;
  nl_close f st : Open (f_ID f) st → ∃ code rp st',
    serve CmdCommand 0 (close_fork_request f) st = (code, rp, st') ∧ Closed st' ∧ content st' = content st;
  nl_close_volume d : harmless (kept d) CmdCommand ([] |> w_u8 cmdCloseVol |> w_u8 0 |> w_u16 (v_ID vol)) (λ _ _, True);
  nl_logout d : harmless (kept d) CmdCommand logout_request (λ _ _, True);
}.

Context (LW : nas_laws).

(** A session: [fn] runs on a ready connection, and what it leaves is logged out
    and closed. *)
Lemma with_session_nas (fn : nat → M (W * L) (result unit)) d st w l :
  ns_idle st w → kept d st →
  ∃ c w1 st1, ready c st1 q w1 ∧ kept d st1 ∧
    ∀ r w2 l2 st2 d2, fn c (w1, l) = Ret (r, (w2, l2)) → ready c st2 q w2 → kept d2 st2 →
      ∃ w3 st3, with_session t fn (w, l) = Ret (r, (w3, l2)) ∧ ns_idle st3 w3 ∧ kept d2 st3.
Proof.
  intros Hw Hc.
  destruct (connect_nas t block info version q (kept d) (nl_admits LW d) command_ctx st w Hw eq_refl Hc) as (c&w1&st1&E1&W1&Hc1).
  exists c, w1, st1. split; [done|]. split; [done|]. intros r w2 l2 st2 d2 E2 W2 Hc2.
  destruct (harmless_command _ _ _ command_ctx c st2 q w2 (nl_logout LW d2) W2 eq_refl Hc2) as (code&rp&w3&st3&E3&_&W3&Hc3).
  exists (mc_close c w3), st3. split; [|split; [by eapply ns_close|done]].
  unfold with_session. erewrite try_bind_ok by (apply zoom1_ret; exact E1).
  eapply finally_ret; [eapply finally_ret; [exact E2|]|by apply zoom1_ret].
  apply zoom1_ret. unfold Logout, invoke. by erewrite try_bind_ok by exact E3.
Qed.

Lemma with_open_volume_nas (fn : nat → Volume → M (W * L) (result unit)) d st w l :
  ns_idle st w → kept d st →
  ∃ c w1 st1, ready c st1 q w1 ∧ kept d st1 ∧
    ∀ r w2 l2 st2 d2, fn c vol (w1, l) = Ret (r, (w2, l2)) → ready c st2 q w2 → kept d2 st2 →
      ∃ w3 st3, with_open_volume t fn (w, l) = Ret (r, (w3, l2)) ∧ ns_idle st3 w3 ∧ kept d2 st3.
Proof.
  intros Hw Hc.
  destruct (with_session_nas (λ conn, v ←? net (@OpenVolume W (on conn) command_ctx (t_volume t));
      finally (net (@Volume_Close W (on conn) v command_ctx)) (fn conn v)) d st w l Hw Hc) as (c&w1&st1&W1&Hc1&Hrest).
  destruct (OpenVolume_nas t (kept d) attr volid (nl_volume LW d) command_ctx c st1 q w1 W1 eq_refl Hc1)
    as (w2&st2&E2&W2&Hc2).
  exists c, w2, st2. split; [done|]. split; [done|]. intros r w3 l3 st3 d3 E3 W3 Hc3.
  destruct (harmless_command _ _ _ command_ctx c st3 q w3 (nl_close_volume LW d3) W3 eq_refl Hc3)
    as (code&rp4&w4&st4&E4&_&W4&Hc4).
  apply (Hrest r w4 l3 st4 d3); [|done|done].
  erewrite try_bind_ok by (apply zoom1_ret; exact E2).
  eapply finally_ret; [exact E3|]. apply zoom1_ret. unfold Volume_Close, invoke. by erewrite try_bind_ok by exact E4.
Qed.

(** ** The two commands *)

Context (fuel : nat) (out : L → bytes).

(** The terminal takes everything, and nothing but [lc_stdout] writes to it. *)
Record local_laws : Prop := {
  ll_stdout : accepts lc_stdout out;
  ll_stderr b l : ∃ e l', lc_stderr b l = Ret (e, l') ∧ out l' = out l;
  ll_close fd l : ∃ e l', lc_close fd l = Ret (e, l') ∧ out l' = out l;
}.

Context (LL : local_laws).

(** Opening the file, running [body] on the fork, closing it. *)
Lemma open_fork_nas {A} mode c st w l (body : Fork → M (W * L) (result A)) :
  ready c st q w → Closed st → len (content st) < 2 ^ 64 → mode = 1 ∨ mode = 3 →
  ∃ f w1 st1, fork_ok f ∧ f_chunkSize f = readChunkSize ∧ f_maxParallel f = maxConcurrentReads ∧
    ready c st1 q w1 ∧ Open (f_ID f) st1 ∧ content st1 = content st ∧
    ∀ r w2 l2 st2, body f (w1, l) = Ret (r, (w2, l2)) → ready c st2 q w2 → Open (f_ID f) st2 →
      ∃ w3 st3, (fork ←? net (@openFork W (on c) _ vol command_ctx RootDirID (t_path t) mode);
                 finally (net (@Fork_Close W (on c) fork command_ctx)) (body fork)) (w, l) = Ret (r, (w3, l2)) ∧
        ready c st3 q w3 ∧ Closed st3 ∧ content st3 = content st2.
Proof.
  intros W0 Hc Hlen Hmode. destruct (nl_open LW mode st Hc Hmode) as (bm&id&tail&st1&E1&Hid&Ho1&C1).
  destruct (@openFork_at W St (on c) serve (ns_served c) _ vol RootDirID (t_path t) q command_ctx mode w st bm id
    (len (content st)) tail st1 W0 eq_refl Hid) as (w1&Q1&W1); [split; [apply len_nonneg|done]|done|].
  set (f := MkFork vol id (len (content st)) readChunkSize maxConcurrentReads) in *.
  exists f, w1, st1. do 6 (split; [done|]). intros r w2 l2 st2 Eb W2 Ho2.
  destruct (nl_close LW f st2 Ho2) as (code&rp&st3&E3&Hc3&C3).
  destruct (@invoke_served W St (on c) serve (ns_served c) command_ctx (str "close fork") _ w2 st2 q _ _ _ W2 eq_refl E3)
    as (w3&Q3&W3).
  exists w3, st3. split; [|done]. erewrite try_bind_ok by (apply zoom1_ret; exact Q1).
  eapply finally_ret; [exact Eb|]. apply zoom1_ret. exact Q3.
Qed.

Lemma eprint_nas b (w : W) l : ∃ l', eprint b (w, l) = Ret (tt, (w, l')) ∧ out l' = out l.
Proof.
  destruct (ll_stderr LL b l) as (e&l'&E&Eo). exists l'. split; [|done]. unfold eprint, local.
  by erewrite M_bind_ret by (by apply zoom2_ret).
Qed.

(** A transfer within the bounds of 63-bit offsets and the fuel. *)
Definition fits (data : bytes) : Prop :=
  len data + readChunkSize * maxConcurrentReads < 2 ^ 63 ∧ len data < Z.of_nat fuel.

Lemma put_fork_nas src data c f st w l :
  src = MkSource data EEOF → fits data → fork_ok f → f_chunkSize f = readChunkSize → f_maxParallel f = maxConcurrentReads →
  ready c st q w → Open (f_ID f) st → content st = [] →
  ∃ w' l' st', put_fork fuel t src c f (w, l) = Ret (Ok tt, (w', l')) ∧ ready c st' q w' ∧ Open (f_ID f) st' ∧
    content st' = data ∧ out l' = out l.
Proof.
  intros -> [Hb Hfu] Hf Hcs Hmp W0 Ho C0. pose proof (len_nonneg data).
  assert (0 ≤ readChunkSize * maxConcurrentReads) by done.
  destruct (@readFrom_spec W St (on c) serve (ns_served c) _ _ f q (Open (f_ID f)) content Hf (nl_write LW f)
    fuel command_ctx [] data EEOF w) as (w1&E1&st1&W1&Ho1&C1); [done|by exists st|rewrite Hcs, Hmp; done|lia|done|].
  rewrite splice_empty in C1. destruct (eprint_nas (wrote (t_path t) (len data)) w1 l) as (l'&E2&Eo).
  exists w1, l', st1. split_and!; try done. unfold put_fork.
  assert (copy_from fuel c f (MkSource data EEOF) (w, l) = Ret ((len data, None), (w1, l))) as Ec
    by (unfold copy_from, ReadFromContext; by rewrite E1).
  rewrite (M_bind_ret _ _ _ _ _ Ec). by rewrite (M_bind_ret _ _ _ _ _ E2).
Qed.

Lemma put_file_nas src data c st w l :
  src = MkSource data EEOF → fits data → ready c st q w → Closed st →
  ∃ w' l' st', put_file fuel t src c vol (w, l) = Ret (Ok tt, (w', l')) ∧ ready c st' q w' ∧ Closed st' ∧
    content st' = data ∧ out l' = out l.
Proof.
  intros Hsrc Hfit W0 Hc. destruct (nl_create LW st Hc) as (rp&st1&E1&Hc1&C1).
  destruct (@invoke_ok W St (on c) serve (ns_served c) q command_ctx (str "create " ++ t_path t) _ w st rp st1 W0 eq_refl E1)
    as (w1&Q1&W1).
  destruct (open_fork_nas (Z.lor forkRead forkWrite) c st1 w1 l (put_fork fuel t src c) W1 Hc1) as (f&w2&st2&Hf&Hcs&Hmp&W2&Ho2&C2&Hrest);
    [by rewrite C1|by right|].
  destruct (put_fork_nas src data c f st2 w2 l) as (w3&l3&st3&E3&W3&Ho3&C3&Eo3); try done; [congruence|].
  destruct (Hrest _ _ _ _ E3 W3 Ho3) as (w4&st4&E4&W4&Hc4&C4).
  exists w4, l3, st4. split; [|split_and!; try done; congruence].
  unfold put_file. erewrite try_bind_ok by (apply zoom1_ret; exact Q1). exact E4.
Qed.

Lemma runPut_nas raw name st w l fd data l1 :
  parseTarget raw = Ok t → ns_idle st w → Closed st →
  lc_open name l = Ret (Ok (fd, MkSource data EEOF), l1) → out l1 = out l → fits data →
  ∃ w' l' st', runPut fuel [name; raw] (w, l) = Ret (Ok tt, (w', l')) ∧ ns_idle st' w' ∧ Closed st' ∧
    content st' = data ∧ out l' = out l.
Proof.
  intros Et Hw Hc Eo Eol Hfit. destruct (nl_names LW) as [Hv Hp].
  destruct (with_open_volume_nas (put_file fuel t (MkSource data EEOF)) (content st) st w l1 Hw) as (c&w1&st1&W1&[Hc1 C1]&Hrest); [by split|].
  destruct (put_file_nas (MkSource data EEOF) data c st1 w1 l1 eq_refl Hfit W1 Hc1) as (w2&l2&st2&E2&W2&Hc2&C2&Eo2).
  destruct (Hrest _ _ _ _ data E2 W2) as (w3&st3&E3&W3&Hc3&C3); [by split|].
  destruct (ll_close LL fd l2) as (e&l4&Ecl&Eo4).
  exists w3, l4, st3. split; [|split_and!; try done; congruence].
  unfold runPut. rewrite Et. erewrite try_bind_ok by done. rewrite bool_decide_eq_false_2 by tauto.
  erewrite try_bind_ok by (apply zoom2_ret; exact Eo). cbn beta iota.
  eapply finally_ret; [exact E3|]. by apply zoom2_ret.
Qed.

Lemma runCat_nas raw st w l :
  parseTarget raw = Ok t → ns_idle st w → Closed st → fits (content st) → len (content st) < 2 ^ 64 →
  ∃ w' l' st', runCat fuel raw (w, l) = Ret (Ok tt, (w', l')) ∧ ns_idle st' w' ∧ Closed st' ∧
    content st' = content st ∧ out l' = out l ++ content st.
Proof.
  intros Et Hw Hc [Hb Hfu] Hlen. destruct (nl_names LW) as [Hv Hp].
  set (fn := λ (conn : nat) (v : Volume),
    fork ←? net (@OpenFork W (on conn) _ v command_ctx RootDirID (t_path t));
    finally (net (@Fork_Close W (on conn) fork command_ctx)) (cat_fork (L := L) fuel conn fork)).
  destruct (with_open_volume_nas fn (content st) st w l Hw) as (c&w1&st1&W1&[Hc1 C1]&Hrest); [by split|].
  destruct (open_fork_nas forkRead c st1 w1 l (cat_fork fuel c) W1 Hc1) as (f&w2&st2&Hf&Hcs&Hmp&W2&Ho2&C2&Hclose);
    [by rewrite C1|by left|].
  rewrite <- C1, <- C2 in Hb, Hfu |- *.
  destruct (@writeTo_spec W St (on c) serve (ns_served c) _ _ f (content st2) st2 q Hf (nl_read LW f st2 Hcs Ho2)
    L lc_stdout out fuel command_ctx w2 l (ll_stdout LL) W2 eq_refl) as (w3&l3&E3&W3&Eo3);
    [by rewrite Hcs, Hmp|done|].
  destruct (Hclose (Ok tt) w3 l3 st2) as (w4&st4&E4&W4&Hc4&C4); [|done|done|].
  { unfold cat_fork, copy_to. by rewrite (M_bind_ret _ _ _ _ _ E3). }
  destruct (Hrest _ _ _ _ (content st4) E4 W4) as (w5&st5&E5&W5&Hc5&C5); [by split|].
  exists w5, l3, st5. split; [|split_and!; try done; congruence].
  unfold runCat, withFork. rewrite Et. erewrite try_bind_ok by done. rewrite bool_decide_eq_false_2 by tauto.
  exact E5.
Qed.

End nas.

(** ** The network of the examples is one that works *)

(** Connections are numbered upwards. *)
Definition numbered {St} (n : mnet St) : Prop := ∀ c, c ∈ mn_open n → (c < mn_next n)%nat.

Definition mnet_served {St} (serve : server St) (c : nat) :
  @Served (mnet St) St (mnet_transport serve c) serve.
Proof.
  refine (@Build_Served (mnet St) St (mnet_transport serve c) serve mn_server (λ n, c ∈ mn_open n ∧ numbered n) _).
  intros ctx cmd off payload n code rp st [Hc Hn] Hl _ E. cbn.
  rewrite bool_decide_eq_true_2 by done. rewrite Hl, E. cbn. by repeat eexists.
Defined.

Definition mnet_nas {St} (serve : server St) : @Nas (mnet St) St (mnet_machine serve) serve.
Proof.
  refine (@Build_Nas (mnet St) St (mnet_machine serve) serve (mnet_served serve)
    (λ st n, mn_server n = st ∧ numbered n) _ _ _ _).
  - intros ctx addr st n [Es Hn] _. cbn.
    rewrite bool_decide_eq_false_2 by (intros Hc%Hn; lia).
    do 3 eexists. split; [reflexivity|]. split; [|split; [exact Es|reflexivity]]. split; cbn; [set_solver|].
    intros c. cbn. rewrite elem_of_union, elem_of_singleton. intros [->|Hc%Hn]; lia.
  - intros c st q n ([Hc Hn]&Es&_). split; [exact Es|]. intros c'. cbn. rewrite elem_of_difference.
    intros [Hc'%Hn _]. exact Hc'.
  - intros c st q q' n ([Hc Hn]&Es&_). split; [by split|]. split; [exact Es|]. cbn. by rewrite lookup_insert_eq.
  - done.
Defined.

Definition nas_target : target := MkTarget (str "nas") [] [] (str "Data") (str "old.txt").
Definition nas_info : ServerInfo :=
  match ParseServerInfo nas_block with Ret (Ok i) => i | _ => MkServerInfo [] [] [] [] 0 end.

Lemma nas_server_file cmd off payload d :
  head payload = Some (byte_of_Z cmdReadExt) ∨ head payload = Some (byte_of_Z cmdWriteExt) →
  cmd ≠ CmdGetStatus → cmd ≠ CmdOpenSession → nas_server cmd off payload d = file_server cmd off payload d.
Proof.
  intros Hh H1 H2. unfold nas_server. rewrite (bool_decide_eq_false_2 _ H1), (bool_decide_eq_false_2 _ H2).
  by destruct Hh as [-> | ->].
Qed.

(** Signing on changes nothing. *)
Lemma nas_server_admits P : admits (serve := nas_server) nas_target nas_block nas_info (str "AFP3.4") 0x10000 P.
Proof.
  split.
  - done.
  - intros st HP. by do 3 eexists.
  - by vm_compute.
  - by vm_compute.
  - apply (bool_decide_unpack _). by vm_compute.
  - intros st HP. do 3 eexists. split; [reflexivity|]. split; [|done]. intros q0. by vm_compute.
  - intros st HP. by do 3 eexists.
Qed.

Lemma nas_server_volume P : opens_volume (serve := nas_server) nas_target P 0 7.
Proof. intros st HP. do 3 eexists. split; [reflexivity|]. split; [|done]. split; [done|]. by eexists. Qed.

Lemma nas_server_laws :
  nas_laws (serve := nas_server) nas_target nas_block nas_info (str "AFP3.4") 0x10000 0 7 (λ _, True) (λ _ _, True) id.
Proof.
  split.
  - intros d. apply nas_server_admits.
  - done.
  - intros d. apply nas_server_volume.
  - intros st _. by do 2 eexists.
  - intros mode st _ Hm. exists kFPExtDataForkLenBit, 5, [], st. by split; [destruct Hm as [-> | ->]|].
  - intros f offset data st _ Ho Hn Hb Hq.
    destruct (file_server_takes f 0x10000 offset data st I Ho Hn Hb Hq) as (rp&st'&E&_&Ec).
    exists rp, st'. split; [|done]. by rewrite nas_server_file; [|right|..].
  - intros f st _ _ offset count Ho Hn Hb. destruct (file_server_serves f st offset count Ho Hn Hb) as (code&E&HE).
    exists code. split; [|done]. by rewrite nas_server_file; [|left|..].
  - intros f st _. by do 3 eexists.
  - intros d st HP. by do 3 eexists.
  - intros d st HP. by do 3 eexists.
Qed.

Lemma loc_local_laws : @local_laws loc loc_local lo_out.
Proof.
  split.
  - intros b l. by eexists.
  - intros b l. by do 2 eexists.
  - intros fd l. by do 2 eexists.
Qed.

(** ** Properties *)

(** What one command uploads another one prints: for every guest URL that
    names a file, every local file whose size is within the bounds of 63-bit
    offsets, and every server that admits guests, stores what is written and
    returns what it stores, "goafp put" exits with 0, prints nothing on the
    standard output and leaves the server's file equal to the local one, and a
    later "goafp cat" of the same URL exits with 0 and appends exactly the
    content of the local file to the standard output. Both leave the server
    with no fork open and all connections closed. *)
Theorem put_cat_roundtrip {W L St : Type} `{Machine W} {serve : server St} `{!Nas W St serve} `{Local L}
    `{Entropy W} `{Cast5} `{Norm} `{ErrgroupLaw} `{NetIP}
    (nfs : TCPAddr → Z → session L) fuel
    t block info version q attr volid Closed Open content (out : L → bytes) raw name fd data st w l l1 :
  nas_laws (serve := serve) t block info version q attr volid Closed Open content → local_laws out →
  parseTarget raw = Ok t → ns_idle st w → Closed st →
  lc_open name l = Ret (Ok (fd, MkSource data EEOF), l1) → out l1 = out l → fits fuel data → len data < 2 ^ 64 →
  ∃ w' l' st' w'' l'' st'',
    main fuel nfs [str "put"; name; raw] (w, l) = Ret (0, (w', l')) ∧
    ns_idle st' w' ∧ Closed st' ∧ content st' = data ∧ out l' = out l ∧
    main fuel nfs [str "cat"; raw] (w', l') = Ret (0, (w'', l'')) ∧
    ns_idle st'' w'' ∧ Closed st'' ∧ content st'' = data ∧ out l'' = out l ++ data.
Proof.
  intros LW LL Et Hw Hc Eo Eol Hfit H64.
  destruct (runPut_nas t block info version q attr volid Closed Open content LW fuel out LL raw name st w l fd data l1)
    as (w'&l'&st'&E1&Hw'&Hc'&C1&O1); [done..|].
  destruct (runCat_nas t block info version q attr volid Closed Open content LW fuel out LL raw st' w' l')
    as (w''&l''&st''&E2&Hw''&Hc''&C2&O2); [done|done|done|by rewrite C1|by rewrite C1|].
  exists w', l', st', w'', l'', st''. split_and!; try done; try congruence.
  - exact (M_bind_ret _ _ _ _ _ E1).
  - exact (M_bind_ret _ _ _ _ _ E2).
Qed.

Lemma put_cat_roundtrip_witness :
  ∃ w' l' w'' l'',
    let net := mnet bytes in
    let go := @main net loc (mnet_machine nas_server) loc_local mnet_entropy no_ciphers plain_norm in_order no_literals
      40 (λ _ _, Finish (Ok tt)) in
    go [str "put"; str "hello.txt"; str "afp://nas/Data/old.txt"]
      (MkMnet (str "x") 3 ∅ ∅, MkLoc (str "$ ") [] (str "hello world")) = Ret (0, (w', l')) ∧
    go [str "cat"; str "afp://nas/Data/old.txt"] (w', l') = Ret (0, (w'', l'')) ∧
    mn_server w'' = str "hello world" ∧ lo_out l'' = str "$ hello world".
Proof.
  destruct (@put_cat_roundtrip (mnet bytes) loc bytes (mnet_machine nas_server) nas_server (mnet_nas nas_server)
    loc_local mnet_entropy no_ciphers plain_norm in_order in_order_law no_literals (λ _ _, Finish (Ok tt))
    40 nas_target nas_block nas_info (str "AFP3.4") 0x10000 0 7 (λ _, True) (λ _ _, True) id lo_out
    (str "afp://nas/Data/old.txt") (str "hello.txt") 1 (str "hello world") (str "x") (MkMnet (str "x") 3 ∅ ∅)
    (MkLoc (str "$ ") [] (str "hello world")) (MkLoc (str "$ ") [] (str "hello world")))
    as (w'&l'&st'&w''&l''&st''&E1&_&_&_&_&E2&[Es _]&_&Ec&Eo).
  - exact nas_server_laws.
  - exact loc_local_laws.
  - vm_compute. reflexivity.
  - split; [reflexivity|]. intros c Hc. exfalso. exact (not_elem_of_empty c Hc).
  - exact I.
  - reflexivity.
  - reflexivity.
  - split; [reflexivity|]. reflexivity.
  - reflexivity.
  - exists w', l', w'', l''. split; [exact E1|]. split; [exact E2|]. split; [rewrite Es; exact Ec|exact Eo].
Defined.
