(* ===== verification/Mount.v ===== *)
(** * A mount over connections that may be lost

    The manager of a mount reconnects by signing on again: a status query on
    one connection, then session, login and volume on another.  On a network
    whose dials succeed and whose connections may be lost ([Lossy]) that dialer
    keeps the promise ([Flaky]) that reading and writing through the bridge are
    proved against; HostileDsi.v drops both conditions. *)

From S2P Require Import Prelude Header Result Wire Entry ServerInfo Conn ConnSafety ConnLive Transport Session SessionSpec Errgroup Fork ForkSpec Ops OpsSpec Login Manager ManagerSpec Path Bridge Breaks BridgeSpec Serve Url Keeps Command Tracked CommandSpec SignOn.

Open Scope go_scope.

(** ** Networks that lose connections

    [lo_nas] is a network that works for now and for good; [lo_after c] is one
    too, which does not hand out connection [c] again.  On connection [c] in
    [lo_may] any request may be lost with it, before or after the server has
    executed it; in [lo_down] it is gone. *)
Class Lossy (W St : Type) `{Machine W} (serve : server St) : Type := {
  lo_nas : Nas W St serve;
  lo_after : nat → Nas W St serve;
  lo_after_ready c c' st q w :
    @at_state W St (mc_transport c') serve (@ns_served _ _ _ _ (lo_after c) c') st q w →
    c' ≠ c ∧ @at_state W St (mc_transport c') serve (@ns_served _ _ _ _ lo_nas c') st q w;
  lo_may : nat → St → Z → W → Prop;
  lo_down : nat → St → W → Prop;
  lo_request c st q w ctx cmd off payload code rp st' :
    lo_may c st q w → live ctx = true → 0 ≤ cmd < 2 ^ 8 → serve cmd off payload st = (code, rp, st') →
    ∃ r w', @t_request W (mc_transport c) ctx cmd off payload w = Ret (r, w') ∧
      ((∃ h, r = Ok (MkReply h rp) ∧ ErrCode h = code ∧ lo_may c st' q w') ∨
       (∃ e, r = Err e ∧ (lo_down c st w' ∨ lo_down c st' w')));
  lo_quantum c st q w : lo_may c st q w → @t_quantum W (mc_transport c) w = q;
  lo_dead c st w ctx cmd off payload :
    lo_down c st w → ∃ e w', @t_request W (mc_transport c) ctx cmd off payload w = Ret (Err e, w') ∧ lo_down c st w';
  lo_alive c st w : lo_down c st w → mc_alive c w = false;
  lo_retire c st q w : lo_may c st q w ∨ lo_down c st w → @ns_idle _ _ _ _ (lo_after c) st (mc_close c w);
}.

Section mount.
Context {W St : Type} `{Machine W} {serve : server St} `{!Lossy W St serve}.
Context `{Entropy W} `{Cast5} `{Norm}.
Context (t : target) (block : bytes) (info : ServerInfo) (version : bytes) (q attr volid : Z).

(** Signing on leaves the server as it is. *)
Context (HA : ∀ st, admits (serve := serve) t block info version q (.= st)).
Context (HV : ∀ st, opens_volume (serve := serve) t (.= st) attr volid).

Lemma mount_redial c st w ctx :
  lo_may c st q w ∨ lo_down c st w → live ctx = true →
  ∃ l w', mount_dial t ctx (mc_close c w) = Ret (Ok l, w') ∧ l_vol l = vol t attr volid ∧ l_conn l ≠ c ∧
    @at_state W St (mc_transport (l_conn l)) serve (@ns_served _ _ _ _ lo_nas (l_conn l)) st q w'.
Proof.
  intros Hw Hl.
  destruct (@mount_dial_nas W St _ serve (lo_after c) _ _ t block info version q (.= st) (HA st) attr volid (HV st)
    ctx st (mc_close c w)) as (c'&w'&st'&E&Hw'&->); [by eapply lo_retire|done|done|].
  apply lo_after_ready in Hw' as [Hc Hw']. exists (MkLink c' (vol t attr volid)), w'. by split_and!.
Qed.

(** The mount's dialer reconnects. *)
Definition mount_flaky : @Flaky W St (mount_network t) serve (vol t attr volid) q.
Proof.
  refine (@Build_Flaky W St (mount_network t) serve (vol t attr volid) q (@ns_served _ _ _ _ lo_nas)
    (λ c st w, lo_may c st q w) lo_down _ _ _ _ _).
  - intros *. apply lo_request.
  - intros *. apply lo_quantum.
  - intros *. apply lo_dead.
  - intros *. apply lo_alive.
  - intros c st w ctx Hw _ Hl. by apply mount_redial.
Defined.

End mount.
