(* ===== verification/Hostile.v ===== *)
(** * A mount whose connections may do anything

    Writes that fail without anybody noticing, requests that time out whether or
    not they are executed, connections that die at any moment, and dials that
    fail: [Read] and [Write] then end with the right result or with an error,
    never with wrong bytes, and the mount can go on. *)

From S2P Require Import Prelude Header Result Wire Entry Conn Transport Session SessionSpec Errgroup Fork ForkSpec Ops OpsSpec Manager ManagerSpec Path Bridge Breaks.

Open Scope go_scope.

(** ** Networks of which little is known

    [ho_on c w]: connection [c] has been dialled and signed on.  A request on it
    is answered rightly, or fails, in which case the server may or may not have
    executed it; it does not matter what state the connection is in.  A dial
    fails, or signs on another connection; it leaves the server as it is.
    [ho_later] is what the world does in the course of time. *)
Class Hostile (N St : Type) `{Network N} (serve : server St) (v : Volume) (q : Z) : Type := {
  ho_state : N → St;
  ho_on : nat → N → Prop;
  ho_later : N → N → Prop;
  ho_order :: PreOrder ho_later;
  ho_stays c w w' : ho_later w w' → ho_on c w → ho_on c w';
  ho_request c w ctx cmd off payload code rp st' :
    ho_on c w → 0 ≤ cmd < 2 ^ 8 → serve cmd off payload (ho_state w) = (code, rp, st') →
    ∃ r w', @t_request N (net_transport c) ctx cmd off payload w = Ret (r, w') ∧ ho_later w w' ∧
      ((∃ h, r = Ok (MkReply h rp) ∧ ErrCode h = code ∧ ho_state w' = st') ∨
       (∃ e, r = Err e ∧ (ho_state w' = ho_state w ∨ ho_state w' = st')));
  ho_quantum c w : ho_on c w → @t_quantum N (net_transport c) w = q;
  ho_close c w : ho_later w (net_close c w) ∧ ho_state (net_close c w) = ho_state w;
  ho_dial ctx w : ∃ r w', net_dial ctx w = Ret (r, w') ∧ ho_later w w' ∧ ho_state w' = ho_state w ∧
    ∀ l, r = Ok l → l_vol l = v ∧ ho_on (l_conn l) w';
}.

Section hostile.
Context {N St : Type} `{Network N} {serve : server St} {v : Volume} {q : Z} `{HO : !Hostile N St serve v q}.
Context `{Norm} `{ErrgroupLaw}.

Abbreviation T c := (net_transport c).

(** The connection at a moment after [w0]. *)
Definition adrift (w0 : N) (c : nat) (st : St) (w : N) : Prop := ho_state w = st ∧ ho_on c w ∧ ho_later w0 w.

#[local] Instance adrift_breakable w0 c : @Breakable N St (T c) serve q (adrift w0 c) (adrift w0 c).
Proof.
  assert (∀ st w ctx cmd off payload code rp st', adrift w0 c st w → 0 ≤ cmd < 2 ^ 8 → serve cmd off payload st = (code, rp, st') →
    ∃ r w', @t_request N (T c) ctx cmd off payload w = Ret (r, w') ∧
      ((∃ h, r = Ok (MkReply h rp) ∧ ErrCode h = code ∧ adrift w0 c st' w') ∨
       (∃ e, r = Err e ∧ (adrift w0 c st w' ∨ adrift w0 c st' w')))) as Hreq.
  { intros st w ctx cmd off payload code rp st' (<-&Hw&Hr) Hcmd E.
    destruct (ho_request c w ctx cmd off payload code rp st' Hw Hcmd E) as (r&w'&Er&Hr'&Hcase).
    assert (ho_on c w' ∧ ho_later w0 w') as [??] by (split; [by eapply ho_stays|by etrans]).
    exists r, w'. split; [exact Er|]. destruct Hcase as [(h&->&Eh&<-)|(e&->&[Es|<-])].
    - left. by exists h.
    - right. exists e. split; [done|]. by left.
    - right. exists e. split; [done|]. by right. }
  split.
  - intros st w ctx cmd off payload code rp st' Hw _. by apply Hreq.
  - intros st w ctx cmd off payload code rp st' Hw Hcmd E.
    destruct (Hreq st w ctx cmd off payload code rp st' Hw Hcmd E) as (r&w'&Er&[(h&_&_&?)|(e&_&?)]); exists r, w'; (split; [exact Er|]); tauto.
  - intros st w (_&Hw&_). by apply ho_quantum.
Qed.

(** ** The manager and the file between calls

    The volume, if there is one, is that of a signed-on connection; the file is
    closed, or open on such a volume, of this or an earlier connection. *)
Definition afloat (s : connManager * N) : Prop := ∀ l, m_vol s.1 = Some l → l_vol l = v ∧ ho_on (l_conn l) s.2.
Definition file_in (GF : Fork → Prop) (f : File) : Prop := ∀ fork l, fl_fork f = Some (fork, l) → l_vol l = v ∧ GF fork.

Lemma file_in_fits GF l f : l_vol l = v → file_in GF f → fits_link GF l f.
Proof.
  intros Hv Hf fork l0 E Ec. destruct (Hf fork l0 E) as [Hv0 Hg]. split; [|done].
  destruct l, l0; cbn in *. congruence.
Qed.

Section operation.
Context (Good : St → Prop) (GF : Fork → Prop) {A : Type} (fn : Ctx → Fork * link → A → M N (A * option error)).
Context (Inv : A → Prop) (Final : St → A → option error → Prop).
Context (R : ∀ w0 l, bears Good GF l (adrift w0 (l_conn l)) (adrift w0 (l_conn l)) fn Inv Final).

(** What an operation on the file ends in. *)
Definition ends_well (w : N) (f : File) (x : File * A * option error) (m' : connManager) (w' : N) : Prop :=
  let '((f', a'), err) := x in
  (∃ fk, f' = set_fork fk f) ∧ file_in GF f' ∧ Inv a' ∧ Good (ho_state w') ∧ afloat (m', w') ∧ ho_later w w' ∧
  (Final (ho_state w') a' err ∨ ∃ e, err = Some e).

(** One attempt, on a signed-on connection. *)
Lemma attempt_hostile ctx l w f a :
  live ctx = true → l_vol l = v → ho_on (l_conn l) w → Good (ho_state w) → file_in GF f →
  path_opens (serve := serve) (v := v) Good GF (fl_path f) (open_mode f) → Inv a →
  ∃ f' a' err w', with_fork_op fn ctx (Some l) (f, a) w = Ret (((f', a'), err), w') ∧
    (∃ fk, f' = set_fork fk f) ∧ file_in GF f' ∧ Inv a' ∧ Good (ho_state w') ∧ ho_later w w' ∧
    (Final (ho_state w') a' err ∨ ∃ e, err = Some e).
Proof.
  intros Hl Hv Hw Hg Hf Hp Ha.
  destruct (attempt_may Good GF l Hv (adrift w (l_conn l)) (adrift w (l_conn l)) fn Inv Final (ho_state w) w f a ctx (R w l) Hg)
    as (f'&a'&err&w'&E&Hf'&Ha'&Hcase); [by split_and!|done|by apply file_in_fits|done|done|].
  exists f', a', err, w'. split; [exact E|].
  assert ((∃ fk, f' = set_fork fk f) ∧ file_in GF f') as [Hs Hi].
  { destruct Hf' as [->|(fork&->&Hfork)]; [split; [exists (fl_fork f); by destruct f|done]|].
    split; [by eexists|]. intros fork0 l0 [= <- <-]. done. }
  split; [exact Hs|]. split; [exact Hi|]. split; [exact Ha'|].
  destruct Hcase as [(st'&Hg'&(<-&_&Hr)&Hfin)|(Hne&(st'&Hg'&(<-&_&Hr)))]; (split; [done|]); (split; [done|]); [by left|right].
  destruct err as [e|]; [by exists e|done].
Qed.

(** The second attempt, if the mount can dial. *)
Lemma retry_hostile base m w f a :
  live base = true → Good (ho_state w) → file_in GF f →
  path_opens (serve := serve) (v := v) Good GF (fl_path f) (open_mode f) → Inv a →
  ∃ x m' w', (r ← reconnect base (m_gen m);
              match r with
              | Err e => mret ((f, a), Some e)
              | Ok _ => '(m, _) ← get; zoom2 (with_fork_op fn (withTimeout base) (m_vol m) (f, a))
              end) (m, w) = Ret (x, (m', w')) ∧ ends_well w f x m' w'.
Proof.
  intros Hl Hg Hf Hp Ha. unfold mbind at 1, M_bind at 1. rewrite reconnect_dials.
  set (w1 := match m_conn m with Some c => net_close c w | None => w end).
  assert (ho_later w w1 ∧ ho_state w1 = ho_state w) as [Hr1 Es1]
    by (unfold w1; destruct (m_conn m); [apply ho_close|split; [apply ho_order|done]]).
  destruct (ho_dial (withTimeout base) w1) as (r&w2&->&Hr2&Es2&Hlk).
  assert (ho_later w w2) as Hr by by etrans. assert (Good (ho_state w2)) as Hg2 by congruence.
  destruct r as [l|e].
  - destruct (Hlk l eq_refl) as [Hv2 Hw2].
    destruct (attempt_hostile (withTimeout base) l w2 f a) as (f'&a'&err&w3&E&Hs&Hi&Ha'&Hg'&Hr3&Hfin); try done.
    exists ((f', a'), err), (installed (u64 (m_gen m + 1)) l), w3. split.
    + cbn beta iota. erewrite M_bind_ret by done. cbn beta iota. by apply zoom2_ret.
    + split_and!; try done; [|by etrans]. intros l' [= <-]. split; [done|]. by eapply ho_stays.
  - exists ((f, a), Some e), (MkMgr (m_gen m) None None), w2. split; [done|].
    split_and!; try done; [exists (fl_fork f); by destruct f|right; by exists e].
Qed.

Lemma do_hostile base m w f a :
  live base = true → afloat (m, w) → Good (ho_state w) → file_in GF f →
  path_opens (serve := serve) (v := v) Good GF (fl_path f) (open_mode f) → Inv a →
  ∃ x m' w', do base (with_fork_op fn) (f, a) (m, w) = Ret (x, (m', w')) ∧ ends_well w f x m' w'.
Proof.
  intros Hl Hm Hg Hf Hp Ha. unfold do. erewrite M_bind_ret by done. cbn beta iota zeta.
  destruct (m_vol m) as [l|] eqn:Ev; [|by apply retry_hostile].
  destruct (Hm l Ev) as [Hv Hw].
  destruct (attempt_hostile (withTimeout base) l w f a) as (f1&a1&err&w1&E&(fk1&Ef1)&Hi&Ha1&Hg1&Hr1&Hfin); try done.
  erewrite M_bind_ret by (by apply zoom2_ret). cbn beta iota. erewrite M_bind_ret by done. cbn beta iota.
  match goal with |- context [if ?c then _ else _] => destruct c end.
  - exists ((f1, a1), err), m, w1. split; [done|]. split_and!; try done; [by eexists|].
    intros l' El. destruct (Hm l' El). split; [done|]. by eapply ho_stays.
  - destruct (retry_hostile base m w1 f1 a1) as (x&m'&w'&E2&Hx); try done; [by rewrite Ef1|].
    exists x, m', w'. split; [exact E2|]. destruct x as [[f' a'] err']. destruct Hx as ((fk&Ef')&Hx).
    split; [exists fk; by rewrite Ef', Ef1|]. destruct Hx as (?&?&?&?&?&?). split_and!; try done. by etrans.
Qed.

End operation.

(** ** [Read] and [Write] *)

(** The same file, as far as it can be opened again. *)
Definition same_file (f f' : File) : Prop := fl_path f' = fl_path f ∧ fl_writable f' = fl_writable f.

(** Right bytes, or an error; in any case the bytes that are reported are right. *)
Lemma File_Read_hostile Good d base m w f p :
  live base = true → afloat (m, w) → Good (ho_state w) → file_in (good_fork (serve := serve) Good d) f →
  path_served (serve := serve) (v := v) Good d (fl_path f) (open_mode f) → 0 ≤ fl_cursor f → fl_cursor f + len p < 2 ^ 63 →
  ∃ f' b n err m' w', File_Read base f p (m, w) = Ret ((f', (b, n, err)), (m', w')) ∧
    read_progress d (fl_cursor f) p (b, n) ∧ (read_result d (fl_cursor f) p (b, n) err ∨ ∃ e, err = Some e) ∧
    fl_cursor f' = fl_cursor f + n ∧ same_file f f' ∧ file_in (good_fork (serve := serve) Good d) f' ∧
    Good (ho_state w') ∧ afloat (m', w') ∧ ho_later w w'.
Proof.
  intros Hl Hm Hg Hf Hp Hoff Hb.
  destruct (do_hostile Good (good_fork (serve := serve) Good d) (read_op (fl_cursor f)) (read_progress d (fl_cursor f) p)
    (λ _ a err, read_result d (fl_cursor f) p a err)
    (λ w0 l, read_bears (serve := serve) (q := q) l (adrift w0 (l_conn l)) (adrift w0 (l_conn l)) Good d (fl_cursor f) p Hoff Hb)
    base m w f (p, 0) Hl Hm Hg Hf Hp) as ([[f1 [b n]] err]&m'&w'&E&(fk&->)&Hi&Hpr&Hg'&Hm'&Hr&Hfin).
  { split; [by left|by left]. }
  assert (0 ≤ n ∧ fl_cursor f + n < 2 ^ 63) as [Hn1 Hn2].
  { pose proof (len_sub_le d (fl_cursor f) (fl_cursor f + len p)). pose proof (len_nonneg p).
    pose proof (len_nonneg (sub d (fl_cursor f) (fl_cursor f + len p))).
    destruct Hpr as [_ [Hz|[= _ ->]]]; [cbn in Hz; subst n|]; lia. }
  exists (set_cursor (fl_cursor f + n) (set_fork fk f)), b, n, err, m', w'. split.
  - unfold File_Read, withFork. erewrite M_bind_ret by exact E. cbn beta iota. cbn [set_fork fl_cursor].
    by rewrite swrap_small by lia.
  - by split_and!.
Qed.

(** All written, or an error, with only pieces of [p] put in at their places. *)
Lemma File_Write_hostile good content base m w f p :
  live base = true → afloat (m, w) → good (ho_state w) → file_in (write_fork (serve := serve) (q := q) good content) f →
  path_writes (serve := serve) (v := v) (q := q) good content (fl_path f) (open_mode f) →
  0 ≤ fl_cursor f → fl_cursor f + len p < 2 ^ 63 →
  let d := content (ho_state w) in
  ∃ f' n err m' w', File_Write base f p (m, w) = Ret ((f', (n, err)), (m', w')) ∧
    (n = len p ∧ err = None ∧ content (ho_state w') = written d p (fl_cursor f) ∨
     (∃ e, err = Some e) ∧ halfway good content d p (fl_cursor f) (ho_state w')) ∧
    fl_cursor f' = i64 (fl_cursor f + n) ∧ same_file f f' ∧ file_in (write_fork (serve := serve) (q := q) good content) f' ∧
    good (ho_state w') ∧ afloat (m', w') ∧ ho_later w w'.
Proof.
  intros Hl Hm Hg Hf Hp Hoff Hb d.
  destruct (do_hostile (halfway good content d p (fl_cursor f)) (write_fork (serve := serve) (q := q) good content)
    (write_op p (fl_cursor f)) (λ _, True) (λ st a err, a = len p ∧ err = None ∧ content st = written d p (fl_cursor f))
    (λ w0 l, write_bears (serve := serve) (q := q) l (adrift w0 (l_conn l)) (adrift w0 (l_conn l)) good content d p (fl_cursor f) Hoff Hb)
    base m w f 0) as ([[f1 n] err]&m'&w'&E&(fk&->)&Hi&_&Hg'&Hm'&Hr&Hfin); try done.
  { split; [done|]. by exists []. }
  { by apply path_writes_opens. }
  set (f1 := set_cursor (i64 (fl_cursor f + n)) (set_fork fk f)).
  exists (if bool_decide (fl_size f < fl_cursor f1) then set_size (fl_cursor f1) f1 else f1), n, err, m', w'. split.
  - unfold File_Write, withFork. by erewrite M_bind_ret by exact E.
  - split_and!; try (by case_bool_decide); try done; [|by apply Hg'].
    destruct Hfin as [(?&?&?)|?]; [by left|by right].
Qed.

(** Mounting. *)
Lemma New_hostile base w : ∃ r w', New base w = Ret (r, w') ∧ ho_later w w' ∧ ho_state w' = ho_state w ∧
  ∀ m, r = Ok m → afloat (m, w').
Proof.
  destruct (ho_dial (withTimeout base) w) as (r&w'&E&Hr&Es&Hl). unfold New, newConnManager, try_bind.
  rewrite (M_bind_ret _ _ _ _ _ E). destruct r as [l|e]; do 2 eexists; (split; [reflexivity|]); (split; [done|]); (split; [done|]); [|done].
  intros m [= <-] l' [= <-]. by apply Hl.
Qed.

End hostile.
