(* ===== verification/HostileDsi.v ===== *)
(** * DSI connections are such a network

    Whatever happens on its connections ([event]) and to its dials, the network of
    Net.v keeps the promise of Hostile.v: requests are answered rightly or
    fail, and signing on again ends with another connection or an error. *)

From S2P Require Import Prelude Header Result Wire Entry ServerInfo Conn ConnSafety ConnLive Transport Session SessionSpec Errgroup Fork ForkSpec Ops OpsSpec Login LoginSpec Manager ManagerSpec Path Bridge Breaks Serve Url Keeps Command Tracked CommandSpec SignOn Net NetSpec Hostile.

Open Scope go_scope.

Lemma exec_close ok s : ∃ s1, exec (AClose ok) s = Some (sys_fail ENetClosed s1) ∧ s_callers s1 = s_callers s ∧
  closeErr (s_conn s1) = closeErr (s_conn s) ∧ done (s_conn s1) = done (s_conn s).
Proof. eexists. split; [reflexivity|]. by destruct ok. Qed.

Lemma sys_fail_callers e s : s_callers (sys_fail e s) = s_callers s.
Proof. unfold sys_fail. by destruct (fail _ _) as [[[] c]| |]. Qed.

Lemma sound_ep_close ep : sound_ep ep → sound_ep (ep_close ep).
Proof.
  intros [Hs Hu]. unfold ep_close. destruct (exec_close (negb (s_ncClosed (ep_sys ep) || s_wfail (ep_sys ep))) (ep_sys ep)) as (s1&->&Ecs&Ec&Ed).
  cbn [default id]. split; [right|].
  - cbn [set_sys ep_sys]. destruct Hs as [Hq|Ha].
    + rewrite sys_fail_alive; [done| |]; [rewrite Ec; apply Hq|rewrite Ed; by apply quiet_done].
    + unfold IsAlive in *. apply bool_decide_eq_false in Ha. apply bool_decide_eq_false.
      unfold sys_fail, fail, mbind, M_bind, get, put. rewrite Ec. destruct (closeErr (s_conn (ep_sys ep))) eqn:E; [|done].
      cbn. congruence.
  - intros k Hk. cbn [set_sys ep_sys]. rewrite sys_fail_callers, Ecs. by apply Hu.
Qed.

Lemma ep_close_quantum ep : ServerQuantum (s_conn (ep_sys (ep_close ep))) = ServerQuantum (s_conn (ep_sys ep)).
Proof. unfold ep_close. destruct (exec _ _) as [s|] eqn:E; [|done]. by destruct (exec_keeps _ _ _ E). Qed.

Lemma sound_ep_quantum q ep : sound_ep ep → sound_ep (ep_set_quantum q ep).
Proof. intros [[Hq|Ha] Hu]; (split; [|exact Hu]); [left; by apply quiet_quantum|by right]. Qed.

Lemma sound_ep_tickle ep : sound_ep ep → sound_ep (ep_tickle ep).
Proof.
  intros [[Hq|Ha] Hu]; (split; [|exact Hu]); [left|by right].
  pose proof Hq as (_&?&?&?&?). by apply (quiet_exec ATickleStart _ _ Hq).
Qed.

Section net.
Context {St : Type} (serve : server St) (Hfit : fits_frames serve).

Abbreviation net := (DsiNet St).
Abbreviation on c := (@dsi_transport St serve c).

(** Connection [c] has been dialled, and its quantum is [q]. *)
Definition signed (q : Z) (c : nat) (w : net) : Prop := conn_is (λ ep, sound_ep ep ∧ ServerQuantum (s_conn (ep_sys ep)) = q) c w.
(** The manager between calls ([afloat]): its volume, if it has one, is [v] on
    such a connection.  Nothing is asked of what is to come. *)
Definition floating (v : Volume) (q : Z) (m : connManager) (w : net) : Prop :=
  ∀ l, m_vol m = Some l → l_vol l = v ∧ signed q (l_conn l) w.

Definition later (w w' : net) : Prop :=
  (length (nt_conns w) ≤ length (nt_conns w'))%nat ∧ ∀ q c, signed q c w → signed q c w'.

#[local] Instance later_order : PreOrder later.
Proof. split; [by intros w|]. intros w1 w2 w3 [L1 H1] [L2 H2]. split; [lia|]. intros q c Hc. by apply H2, H1. Qed.

Lemma request_signed q c ctx cmd off payload w code rp st' :
  signed q c w → 0 ≤ cmd < 2 ^ 8 → serve cmd off payload (nt_server w) = (code, rp, st') →
  ∃ r w', @t_request net (on c) ctx cmd off payload w = Ret (r, w') ∧ later w w' ∧
    ((∃ h, r = Ok (MkReply h rp) ∧ ErrCode h = code ∧ nt_server w' = st') ∨
     (∃ e, r = Err e ∧ (nt_server w' = nt_server w ∨ nt_server w' = st'))).
Proof.
  intros (ep&Hc&Hep&Hq) Hcmd E. cbn. rewrite Hc.
  destruct (ep_request_sound serve Hfit ctx cmd off payload ep (nt_server w) code rp st' Hep Hcmd E) as (r&ep'&st1&Er&Hep'&Hcase).
  pose proof (ep_request_quantum serve _ _ _ _ _ _ _ _ _ Er) as Eq. rewrite Er. do 2 eexists. split; [reflexivity|]. split.
  - split; [cbn; by rewrite length_insert|]. intros q' c' (ep2&Hc2&Hep2&Hq2). destruct (decide (c' = c)) as [->|Hn].
    + exists ep'. cbn. rewrite list_lookup_insert_eq by (by eapply lookup_lt_Some). simplify_eq. split; [done|]. split; [done|congruence].
    + exists ep2. cbn. by rewrite list_lookup_insert_ne.
  - destruct Hcase as [(h&->&Eh&->)|(e&->&Es)]; [left; by exists h|right; by exists e].
Qed.

Lemma close_later c w : later w (@mc_close net (dsi_machine serve) c w).
Proof.
  split; [cbn; by rewrite length_alter|]. intros q c' (ep&Hc&Hep&Hq). unfold signed, conn_is. cbn. destruct (decide (c' = c)) as [->|Hn].
  - exists (ep_close ep). rewrite list_lookup_alter_eq, Hc. split; [done|]. split; [by apply sound_ep_close|by rewrite ep_close_quantum].
  - exists ep. by rewrite list_lookup_alter_ne.
Qed.

(** ** Signing on *)

(** From [w], whose connections are those of [w0] and others, [m] returns: an
    error, or a value for which [Q] holds. *)
Definition tries {A} (w0 w : net) (m : M net (result A)) (Q : A → net → Prop) : Prop :=
  later w0 w → nt_server w = nt_server w0 →
  ∃ r w', m w = Ret (r, w') ∧ later w0 w' ∧ nt_server w' = nt_server w0 ∧ ∀ a, r = Ok a → Q a w'.

Lemma tries_ret {A} w0 w (a : A) (Q : A → net → Prop) : Q a w → tries w0 w (mret (Ok a)) Q.
Proof. intros HQ Hr Es. exists (Ok a), w. split_and!; try done. by intros a' [= <-]. Qed.

Lemma tries_bind {A B} w0 w (m : M net (result A)) (k : A → M net (result B)) (Q : A → net → Prop) (Q' : B → net → Prop) :
  tries w0 w m Q → (∀ a w', Q a w' → tries w0 w' (k a) Q') → tries w0 w (try_bind m k) Q'.
Proof.
  intros Hm Hk Hr Es. destruct (Hm Hr Es) as (r&w1&E&Hr1&Es1&HQ). destruct r as [a|e].
  - destruct (Hk a w1 (HQ a eq_refl) Hr1 Es1) as (r&w2&E2&?). exists r, w2. by erewrite try_bind_ok by exact E.
  - exists (Err e), w1. by erewrite try_bind_err by exact E.
Qed.

(** With the deferred, or the early, [Close] of a connection. *)
Lemma tries_finally {A} w0 w c (m : M net (result A)) (P : A → Prop) :
  tries w0 w m (λ a _, P a) → tries w0 w (finally (Conn_Close (H := dsi_machine serve) c) m) (λ a _, P a).
Proof.
  intros Hm Hr Es. destruct (Hm Hr Es) as (r&w1&E&Hr1&Es1&HP). exists r, (@mc_close net (dsi_machine serve) c w1).
  split; [by eapply finally_ret|]. split; [etrans; [exact Hr1|apply close_later]|]. by split.
Qed.

Lemma tries_or_close {A B} w0 w c (m : M net (result A)) (k : A → M net (result B)) (Q : A → net → Prop) (Q' : B → net → Prop) :
  tries w0 w m Q → (∀ a w', Q a w' → tries w0 w' (k a) Q') →
  tries w0 w (r ← m; match r with Err e => _ ← Conn_Close (H := dsi_machine serve) c; mret (Err e) | Ok a => k a end) Q'.
Proof.
  intros Hm Hk Hr Es. destruct (Hm Hr Es) as (r&w1&E&Hr1&Es1&HQ). rewrite (M_bind_ret _ _ _ _ _ E). destruct r as [a|e].
  - by apply Hk; [apply HQ| |].
  - exists (Err e), (@mc_close net (dsi_machine serve) c w1). split; [done|]. split; [etrans; [exact Hr1|apply close_later]|]. by split.
Qed.

(** A connection that [w0] does not have: what is done to it is no matter to the
    others. *)
Definition fresh (w0 : net) (q : Z) (c : nat) (w : net) : Prop := (length (nt_conns w0) ≤ c)%nat ∧ signed q c w.

Lemma signed_known q c w : signed q c w → (c < length (nt_conns w))%nat.
Proof. intros (ep&Hc&_). by eapply lookup_lt_Some. Qed.

Lemma later_fresh w0 w f c : later w0 w → (length (nt_conns w0) ≤ c)%nat → later w0 (on_conn c f w).
Proof.
  intros [HL Hr] Hc. split; [cbn; by rewrite length_alter|]. intros q c' Hq.
  pose proof (signed_known _ _ _ Hq). destruct (Hr q c' Hq) as (ep&Hl&Hep).
  exists ep. cbn. by rewrite list_lookup_alter_ne by lia.
Qed.

Lemma tries_dial w0 w ctx addr :
  tries w0 w (Dial (H := dsi_machine serve) ctx addr) (λ c w', fresh w0 0 c w').
Proof.
  intros [Hlen Hr] Es. unfold Dial. cbn. unfold dsi_connect.
  destruct (default (Ok []) (head (nt_dials w))) as [evs|e].
  - do 2 eexists. split; [reflexivity|]. split; [|split; [exact Es|]].
    + split; [cbn; rewrite length_app; lia|].
      intros q c Hc. destruct (Hr q c Hc) as (ep&Hl&Hep). exists ep. split; [|done]. by apply lookup_app_l_Some.
    + intros c [= <-]. split; [done|]. exists (MkEndpoint init_sys 0 evs). cbn. rewrite list_lookup_middle by done.
      split; [done|]. split; [|done]. split; [left; exact quiet_init|]. intros k _. apply lookup_empty.
  - do 2 eexists. split; [reflexivity|]. by split_and!.
Qed.

(** A request that leaves the server as it is. *)
Lemma tries_request w0 w q c ctx cmd payload (R : Z → bytes → Prop) :
  harmless (serve := serve) (.= nt_server w0) cmd payload R → 0 ≤ cmd < 2 ^ 8 → fresh w0 q c w →
  tries w0 w (@t_request net (on c) ctx cmd 0 payload) (λ r w', R (ErrCode (rp_Header r)) (rp_Payload r) ∧ fresh w0 q c w').
Proof.
  intros Hh Hcmd [Hn Hc] Hr Es. destruct (Hh (nt_server w0) eq_refl) as (code&rp&st'&E&HR&Est). rewrite <- Es in E.
  destruct (request_signed q c ctx cmd 0 payload w code rp st' Hc Hcmd E) as (r&w'&Er&Hr'&Hcase).
  exists r, w'. split; [exact Er|]. split; [by etrans|]. split; [destruct Hcase as [(?&_&_&?)|(?&_&[?|?])]; congruence|].
  intros rp' ->. destruct Hcase as [(h&[= ->]&Eh&_)|(e&?&_)]; [|done]. cbn. rewrite Eh. split; [done|]. split; [done|by apply Hr'].
Qed.

Lemma tries_command w0 w q c ctx payload (R : Z → bytes → Prop) :
  harmless (serve := serve) (.= nt_server w0) CmdCommand payload R → fresh w0 q c w →
  tries w0 w (@command net (on c) ctx payload) (λ x w', (∃ code, x.2 = i32 code ∧ R code x.1) ∧ fresh w0 q c w').
Proof.
  intros Hh Hc. eapply tries_bind; [apply (tries_request _ _ q _ _ _ _ R Hh); [by cbv|done]|].
  intros r w' [HR Hf]. apply tries_ret. split; [|done]. by eexists.
Qed.

Section sign_on.
Context `{Entropy net} `{Cast5} `{Norm}.
Context (t : target) (block : bytes) (info : ServerInfo) (version : bytes) (q attr volid : Z).
Context (HA : ∀ st, admits (serve := serve) t block info version q (.= st)).
Context (HV : ∀ st, opens_volume (serve := serve) t (.= st) attr volid).

Abbreviation vol := (vol t attr volid).

Lemma tries_fetchStatus w0 ctx host :
  tries w0 w0 (fetchStatus (H := dsi_machine serve) ctx host) (λ i w', i = info).
Proof.
  unfold fetchStatus. eapply tries_bind; [by apply tries_dial|]. intros c w1 Hc. apply (tries_finally _ _ _ _ (.= info)).
  eapply tries_bind.
  - unfold GetStatus. eapply tries_bind; [eapply tries_request; [apply (ad_status _ _ _ _ _ _ (HA (nt_server w0)))|by cbv|exact Hc]|].
    intros r w' [Hb _]. apply (tries_ret _ _ _ (λ b _, b = block)). exact Hb.
  - intros b w' ->. unfold lift. rewrite (ad_info _ _ _ _ _ _ (HA (nt_server w0))). by apply (tries_ret _ _ info).
Qed.

Lemma tries_OpenSession w0 w c ctx q0 : fresh w0 q0 c w →
  tries w0 w (OpenSession (H := dsi_machine serve) c ctx) (λ _ w', fresh w0 q c w').
Proof.
  intros Hc. unfold OpenSession.
  eapply tries_bind; [eapply tries_request; [apply (ad_session _ _ _ _ _ _ (HA (nt_server w0)))|by cbv|exact Hc]|].
  intros r w1 [Hq [Hn (ep&Hl&Hep&_)]] Hr Es. exists (Ok tt), (@mc_set_quantum net (dsi_machine serve) c q (@mc_tickle net (dsi_machine serve) c w1)).
  split; [|split; [by do 2 (apply later_fresh; [|done])|split; [exact Es|]]].
  - erewrite M_bind_ret by done. erewrite M_bind_ret by done. erewrite M_bind_ret by (unfold lift; by rewrite Hq). done.
  - intros _ _. split; [done|]. exists (ep_set_quantum q (ep_tickle ep)).
    cbn. rewrite !list_lookup_alter_eq, Hl. split; [done|]. split; [by apply sound_ep_quantum, sound_ep_tickle|done].
Qed.

Lemma tries_loginGuest w0 w c ctx q0 : fresh w0 q0 c w →
  tries w0 w (@loginGuest net (on c) ctx (MkSession version)) (λ _ w', fresh w0 q0 c w').
Proof.
  intros Hc. unfold loginGuest, login.
  eapply tries_bind; [eapply tries_command; [apply (ad_login _ _ _ _ _ _ (HA (nt_server w0)))|exact Hc]|].
  intros [rp code] w' [(code'&Ec&->) Hf]. cbn in Ec. subst code. by apply (tries_ret _ _ tt).
Qed.

Lemma Login_guest c ctx w : @Login net (on c) _ _ ctx info (t_username t) (t_password t) NewSession w
  = (r ← @loginGuest net (on c) ctx (MkSession version); mret (MkSession version, r)) w.
Proof.
  unfold Login. rewrite (ad_version _ _ _ _ _ _ (HA (nt_server w))), (ad_guest _ _ _ _ _ _ (HA (nt_server w))). cbn zeta.
  rewrite bool_decide_eq_true_2 by done.
  rewrite bool_decide_eq_false_2 by (rewrite offered_set; pose proof (ad_uam _ _ _ _ _ _ (HA (nt_server w))); set_solver). done.
Qed.

Lemma tries_connect w0 ctx : tries w0 w0 (connect (H := dsi_machine serve) ctx t) (λ c w', fresh w0 q c w').
Proof.
  unfold connect. eapply tries_bind; [apply tries_fetchStatus|]. intros i w1 ->.
  eapply tries_bind; [apply tries_dial|]. intros c w2 Hc.
  eapply tries_or_close; [by eapply tries_OpenSession|]. intros [] w3 Hc3 Hr3 Es3.
  destruct (tries_loginGuest w0 w3 c ctx q Hc3 Hr3 Es3) as (r&w4&E4&Hr4&Es4&Hc4).
  assert (@Login net (on c) _ _ ctx info (t_username t) (t_password t) NewSession w3 = Ret ((MkSession version, r), w4)) as E5
    by (rewrite Login_guest; by rewrite (M_bind_ret _ _ _ _ _ E4)).
  rewrite (M_bind_ret _ _ _ _ _ E5). destruct r as [[]|e].
  - exists (Ok c), w4. split_and!; try done. intros c' [= <-]. by apply (Hc4 tt).
  - exists (Err e), (@mc_close net (dsi_machine serve) c w4). split; [done|]. split; [etrans; [exact Hr4|apply close_later]|]. by split.
Qed.

Lemma tries_OpenVolume w0 w c ctx : fresh w0 q c w →
  tries w0 w (@OpenVolume net (on c) ctx (t_volume t)) (λ v w', v = vol ∧ fresh w0 q c w').
Proof.
  intros Hc. unfold OpenVolume, query. eapply tries_bind.
  - eapply tries_bind; [eapply tries_command; [apply HV|exact Hc]|].
    intros [rp code] w' [(code'&Ec&[-> Hrp]) Hf]. cbn in Ec. subst code.
    apply (tries_ret _ _ rp (λ rp w', (∃ tail, rp = open_vol_payload 0x21 attr volid tail) ∧ fresh w0 q c w')). by split.
  - intros rp w' [(tail&->) Hf] Hr Es. destruct (parse_open_vol_at (t_volume t) 0x21 attr volid tail) as (rd&Er); [done|].
    exists (Ok vol), w'. split; [unfold reading; by erewrite M_bind_ret by (unfold lift; by rewrite Er)|].
    split_and!; try done. by intros v [= <-].
Qed.

Lemma tries_mount_dial w ctx :
  tries w w (mount_dial (H := dsi_machine serve) t ctx) (λ l w', l_vol l = vol ∧ signed q (l_conn l) w').
Proof.
  unfold mount_dial. eapply tries_bind; [apply tries_connect|]. intros c w1 Hc.
  eapply tries_or_close; [by apply tries_OpenVolume|]. intros v w2 [-> [_ Hs]]. by apply tries_ret.
Qed.

Definition dsi_hostile : @Hostile net St (@mount_network net (dsi_machine serve) _ _ t) serve vol q.
Proof.
  refine (@Build_Hostile net St (@mount_network net (dsi_machine serve) _ _ t) serve vol q nt_server (signed q) later _ _ _ _ _ _).
  - intros c w w' [_ Hr]. apply Hr.
  - intros c w ctx cmd off payload code rp st'. apply request_signed.
  - intros c w (ep&Hc&_&Eq). cbn. by rewrite Hc.
  - intros c w. split; [apply close_later|done].
  - intros ctx w. apply (tries_mount_dial w ctx); [done|done].
Defined.

End sign_on.
End net.
