(* ===== verification/Dsi.v ===== *)
(** * The program over DSI connections

    The network of DSI connections keeps the promises that the commands and the
    mount are proved against, so their theorems hold down to the steps of the
    connections: an upload and a download by the command line, no connection
    left open, and a mount that reads and writes rightly or reports an error,
    whatever happens to its connections, and recovers when it can. *)

From S2P Require Import Prelude Header Result Wire Entry ServerInfo Conn ConnSafety ConnLive Transport Session SessionSpec Errgroup Fork ForkSpec Ops OpsSpec Login Manager ManagerSpec Path Bridge Breaks BridgeSpec Serve Url Keeps Command Tracked ServeSpec CommandSpec SignOn Net NetSpec EndToEnd Mount Hostile HostileDsi.

Open Scope go_scope.

(** ** DSI connections may be lost *)

Definition dsi_lossy {St} (serve : server St) (Hfit : fits_frames serve) : @Lossy (DsiNet St) St (dsi_machine serve) serve.
Proof.
  refine (@Build_Lossy (DsiNet St) St (dsi_machine serve) serve (dsi_nas serve Hfit 0) (λ c, dsi_nas serve Hfit (S c)) _
    (λ c st q w, nt_server w = st ∧ may c w ∧ @t_quantum (DsiNet St) (dsi_transport serve c) w = q)
    (λ c st w, nt_server w = st ∧ down c w) _ _ _ _ _).
  - intros c c' st q w ((Hb&Hr)&Es&Eq). split; [lia|]. split; [|done]. split; [lia|done].
  - intros c st q w ctx cmd off payload code rp st' (<-&Hw&<-) Hl Hcmd E.
    destruct (dsi_request_may serve Hfit c ctx cmd off payload w code rp st' Hw Hl Hcmd E)
      as (r&w'&Er&[(h&->&Eh&Hw'&Es&Eq)|(e&->&Hw'&Es)]); do 2 eexists; (split; [exact Er|]).
    + left. by exists h.
    + right. exists e. split; [done|]. destruct Es as [Es|Es]; [by left|by right].
  - by intros c st q w (_&_&?).
  - intros c st w ctx cmd off payload [<- Hw].
    destruct (dsi_request_down serve c ctx cmd off payload w Hw) as (e&w'&Er&Hw'&Es). by exists e, w'.
  - intros c st w [_ (_&ep&Hc&Ha&_)]. cbn. by rewrite Hc.
  - intros c st q w Hw. assert (nt_server w = st ∧ good_dials w ∧ ∃ ep, nt_conns w !! c = Some ep) as (Es&Hd&ep&Hc).
    { destruct Hw as [[Es [(Hd&ep&Hc&_) _]]|[Es (Hd&ep&Hc&_)]]; (split; [done|split; [done|by exists ep]]). }
    split; [exact Es|]. split; [|exact Hd]. cbn. rewrite length_alter. by apply lookup_lt_Some in Hc.
Defined.

(** From here on the environment decides [events] for connection [c]. *)
Definition foresee {St} (events : list event) (c : nat) (w : DsiNet St) : DsiNet St :=
  on_conn c (λ ep, MkEndpoint (ep_sys ep) (ep_next ep) events) w.

Lemma foresee_may {St} (serve : server St) (Hfit : fits_frames serve) events c (w : DsiNet St) st q :
  heeded events → nt_server w = st → up 0 c w → @t_quantum (DsiNet St) (dsi_transport serve c) w = q →
  @lo_may _ _ _ _ (dsi_lossy serve Hfit) c st q (foresee events c w).
Proof.
  intros Hev Es (_&Hd&Hep) Eq. split; [exact Es|]. split.
  - split; [exact Hd|]. eapply conn_is_alter; [exact Hep|]. by intros ep [Hlive _].
  - rewrite <- Eq. destruct Hep as (ep&Hc&_). cbn. by rewrite list_lookup_alter_eq, Hc.
Qed.

(** ** A server whose replies fit into frames *)

Definition capped {St} (serve : server St) : server St := λ cmd off payload st,
  let '(code, rp, st') := serve cmd off payload st in
  (u32 code, if bool_decide (len rp ≤ maxPayload) then rp else [], st').

Lemma capped_fits {St} (serve : server St) : fits_frames (capped serve).
Proof.
  intros cmd off payload st code rp st'. unfold capped. destruct (serve cmd off payload st) as [[code0 rp0] st0].
  intros [= <- <- _]. split; [by apply wrap_range|]. by case_bool_decide.
Qed.

Lemma capped_eq {St} (serve : server St) cmd off payload st code rp st' :
  serve cmd off payload st = (code, rp, st') → 0 ≤ code < 2 ^ 32 → len rp ≤ maxPayload →
  capped serve cmd off payload st = (code, rp, st').
Proof. intros E Hc Hr. unfold capped. rewrite E, wrap_small by done. by rewrite bool_decide_eq_true_2. Qed.

(** The server of the examples answers everything but a read briefly. *)
Lemma file_server_reply cmd off payload d code rp d' :
  file_server cmd off payload d = (code, rp, d') →
  0 ≤ code < 2 ^ 32 ∧ (head payload ≠ Some (byte_of_Z cmdReadExt) → len rp ≤ maxPayload).
Proof.
  unfold file_server. destruct payload as [|c payload]; [by intros [= <- <- _]|].
  case_bool_decide as Hc; [|case_bool_decide].
  - intros [= <- <- _]. split; [by case_bool_decide|]. intros Hh. exfalso. apply Hh. cbn. by rewrite <- Hc, byte_of_Z_bZ.
  - intros [= <- <- _]. split; [done|]. by rewrite len_be_bytes.
  - by intros [= <- <- _].
Qed.

Lemma nas_server_brief cmd off payload d :
  head payload ≠ Some (byte_of_Z cmdReadExt) → capped nas_server cmd off payload d = nas_server cmd off payload d.
Proof.
  intros Hh. destruct (nas_server cmd off payload d) as [[code rp] d'] eqn:E.
  assert (0 ≤ code < 2 ^ 32 ∧ len rp ≤ maxPayload) as [Hc Hr]; [|by apply (capped_eq _ _ _ _ _ _ _ _ E)].
  revert E. unfold nas_server. do 4 (case_bool_decide; [by intros [= <- <- _]|]).
  case_bool_decide; [intros [= <- <- _]; split; [done|]; unfold open_fork_payload; by rewrite !len_app, !len_be_bytes|].
  case_bool_decide; [by intros [= <- <- _]|]. intros [? ?]%file_server_reply. auto.
Qed.

Lemma capped_nas_admits P : admits (serve := capped nas_server) nas_target nas_block nas_info (str "AFP3.4") 0x10000 P.
Proof.
  pose proof (nas_server_admits P) as []. split; try done;
    intros st HP; rewrite nas_server_brief by done; eauto.
Qed.

Lemma capped_nas_volume P : opens_volume (serve := capped nas_server) nas_target P 0 7.
Proof. intros st HP. rewrite nas_server_brief by done. by apply nas_server_volume. Qed.

Lemma capped_nas_reads f st : f_chunkSize f = readChunkSize → serves_fork (serve := capped nas_server) f st st.
Proof.
  intros Hcs offset count Ho Hn Hb. destruct (file_server_serves f st offset count Ho Hn Hb) as (code&E&HE).
  exists code. split; [|exact HE]. apply capped_eq.
  - by rewrite nas_server_file; [|left|..].
  - by apply file_server_reply in E as [? _].
  - pose proof (len_sub_le st offset (offset + count) ltac:(lia)). rewrite Hcs in Hn.
    change readChunkSize with 131072 in Hn. change maxPayload with 16777216. lia.
Qed.

Lemma capped_nas_laws :
  nas_laws (serve := capped nas_server) nas_target nas_block nas_info (str "AFP3.4") 0x10000 0 7 (λ _, True) (λ _ _, True) id.
Proof.
  pose proof nas_server_laws as L. split.
  - intros d. apply capped_nas_admits.
  - done.
  - intros d. apply capped_nas_volume.
  - intros st HP. rewrite nas_server_brief by done. by apply (nl_create _ _ _ _ _ _ _ _ _ _ L).
  - intros mode st HP Hm. rewrite nas_server_brief by done. by apply (nl_open _ _ _ _ _ _ _ _ _ _ L).
  - intros f offset data st HP Ho Hn Hb Hq. rewrite nas_server_brief by done. by apply (nl_write _ _ _ _ _ _ _ _ _ _ L f).
  - intros f st Hcs _. by apply capped_nas_reads.
  - intros f st HP. rewrite nas_server_brief by done. by apply (nl_close _ _ _ _ _ _ _ _ _ _ L f).
  - intros d st HP. rewrite nas_server_brief by done. by apply (nl_close_volume _ _ _ _ _ _ _ _ _ _ L).
  - intros d st HP. rewrite nas_server_brief by done. by apply (nl_logout _ _ _ _ _ _ _ _ _ _ L).
Qed.

Lemma capped_nas_writes `{Norm} path mode :
  path_writes (serve := capped nas_server) (v := vol nas_target 0 7) (q := 0x10000) (λ d, len d < 2 ^ 63) id path mode.
Proof.
  intros d Hd. exists kFPExtDataForkLenBit, 5, (len d), [], d. pose proof (len_nonneg d).
  split; [|split; [lia|split; [lia|split; [done|split; [done|]]]]].
  - rewrite nas_server_brief; unfold open_fork_request; rewrite w_path_wire; [reflexivity|discriminate].
  - split; [by split|]. apply takes_bounded. exact (nl_write _ _ _ _ _ _ _ _ _ _ capped_nas_laws _).
Qed.

(** After a new mount, when dials succeed and losses are noticed. *)
Section recovery.
Context {St : Type} {serve : server St} `{Entropy (DsiNet St)} `{Cast5} `{Norm} `{ErrgroupLaw}.
Context (Hfit : fits_frames serve) (t : target) (block : bytes) (info : ServerInfo) (version : bytes) (q attr volid : Z).
Context (HA : ∀ st, admits (serve := serve) t block info version q (.= st)).
Context (HV : ∀ st, opens_volume (serve := serve) t (.= st) attr volid).

Abbreviation net := (@mount_network (DsiNet St) (dsi_machine serve) _ _ t).
Abbreviation v := (vol t attr volid).

Let FL : @Flaky (DsiNet St) St net serve v q :=
  @mount_flaky (DsiNet St) St (dsi_machine serve) serve (dsi_lossy serve Hfit) _ _ t block info version q attr volid HA HV.

Lemma mount_dials base w : good_dials w → live base = true →
  ∃ l w1, @New _ net base w = Ret (Ok (installed 1 l), w1) ∧ nt_server w1 = nt_server w ∧ l_vol l = v ∧
    ∀ events, heeded events → @fk_may _ _ net serve v q FL (l_conn l) (nt_server w) (foresee events (l_conn l) w1).
Proof.
  intros Hd Hb.
  destruct (@mount_dial_nas (DsiNet St) St (dsi_machine serve) serve (dsi_nas serve Hfit 0) _ _ t block info version q
    (.= nt_server w) (HA _) attr volid (HV _) (withTimeout base) (nt_server w) w) as (c&w1&st1&E&(Hup&Es&Eq)&->);
    [split; [done|]; split; [lia|done]|done|done|].
  exists (MkLink c v), w1. split; [unfold New, newConnManager; by erewrite try_bind_ok by exact E|].
  split; [exact Es|]. split; [done|]. intros events Hev. exact (foresee_may serve Hfit events c w1 _ _ Hev Es Hup Eq).
Qed.

Lemma mount_reads base l w1 st events f p (Good : St → Prop) d :
  @fk_may _ _ net serve v q FL (l_conn l) st (foresee events (l_conn l) w1) → l_vol l = v → live base = true →
  0 ≤ fl_cursor f → fl_cursor f + len p < 2 ^ 63 → Good st → file_on (serve := serve) Good d l f →
  path_served (serve := serve) (v := v) Good d (fl_path f) (open_mode f) →
  let x := sub d (fl_cursor f) (fl_cursor f + len p) in
  ∃ f' err l' m' w2,
    @File_Read _ net _ _ base f p (installed 1 l, foresee events (l_conn l) w1) = Ret ((f', (x ++ drop (length x) p, len x, err)), (m', w2)) ∧
    (err = None ∧ len x = len p ∨ err = Some EEOF ∧ len d ≤ fl_cursor f + len p ∧ 0 < len p) ∧
    fl_cursor f' = fl_cursor f + len x ∧ file_on (serve := serve) Good d l' f' ∧
    (l' = l ∧ m' = installed 1 l ∨ m' = installed 2 l').
Proof.
  intros Hmay Hv Hb Hoff Hbound Hg Hf Hp x.
  destruct (@File_Read_survives (DsiNet St) St net serve v q FL _ _ _
    Good d base l st (foresee events (l_conn l) w1) 1 f p) as (f'&err&l'&m'&w2&E2&He&Hcur&_&Hf'&Hm); try done.
  exists f', err, l', m', w2. by split_and!.
Qed.

Lemma mount_writes base l w1 st events f p (good : St → Prop) (content : St → bytes) :
  @fk_may _ _ net serve v q FL (l_conn l) st (foresee events (l_conn l) w1) → l_vol l = v → live base = true →
  0 ≤ fl_cursor f → fl_cursor f + len p < 2 ^ 63 → good st → opened_on (write_fork (serve := serve) (q := q) good content) l f →
  path_writes (serve := serve) (v := v) (q := q) good content (fl_path f) (open_mode f) →
  ∃ f' l' m' w2,
    @File_Write _ net _ _ base f p (installed 1 l, foresee events (l_conn l) w1) = Ret ((f', (len p, None)), (m', w2)) ∧ good (nt_server w2) ∧
    content (nt_server w2) = (if bool_decide (len p = 0) then content st else splice (content st) (fl_cursor f) p) ∧
    fl_cursor f' = fl_cursor f + len p ∧ opened_on (write_fork (serve := serve) (q := q) good content) l' f' ∧
    (l' = l ∧ m' = installed 1 l ∨ m' = installed 2 l').
Proof.
  intros Hmay Hv Hb Hoff Hbound Hg Hf Hp.
  destruct (@File_Write_survives (DsiNet St) St net serve v q FL _ _ _
    good content base l st (foresee events (l_conn l) w1) 1 f p) as (f'&l'&m'&w2&st2&E2&Hg2&Ec&Hcur&_&Hf'&Hm); try done.
  assert (nt_server w2 = st2) as <- by (destruct Hm as [(_&_&[Hs _])|(_&_&_&Hs&_)]; exact Hs).
  exists f', l', m', w2. split_and!; try done. destruct Hm as [(?&?&_)|(?&_)]; [by left|by right].
Qed.

End recovery.

(** ** Properties *)

(** C12: an upload and a download, down to the frames on the wire: over DSI
    connections that are not lost, whatever keepalive tickles of the client and
    tickles and attention messages of the server come between the requests,
    "goafp put" of a local file into a guest volume and a later "goafp cat" of
    the same URL both exit with 0, the server's file is the local one, and the
    second command has printed exactly its content; each command dials twice,
    and every request is registered, framed, answered, delivered and released
    on its connection. *)
Theorem put_cat_dsi {L St : Type} {serve : server St} `{Local L} `{Entropy (DsiNet St)} `{Cast5} `{Norm} `{ErrgroupLaw} `{NetIP}
    (nfs : TCPAddr → Z → session L) fuel
    t block info version q attr volid Closed Open content (out : L → bytes) raw name fd data w l l1 :
  let go := @main (DsiNet St) L (dsi_machine serve) _ _ _ _ _ _ fuel nfs in
  fits_frames serve → nas_laws (serve := serve) t block info version q attr volid Closed Open content → local_laws out →
  parseTarget raw = Ok t → good_dials w → Closed (nt_server w) →
  lc_open name l = Ret (Ok (fd, MkSource data EEOF), l1) → out l1 = out l → fits fuel data → len data < 2 ^ 64 →
  ∃ w' l' w'' l'',
    go [str "put"; name; raw] (w, l) = Ret (0, (w', l')) ∧ content (nt_server w') = data ∧ out l' = out l ∧
    go [str "cat"; raw] (w', l') = Ret (0, (w'', l'')) ∧ content (nt_server w'') = data ∧ out l'' = out l ++ data ∧
    Closed (nt_server w'') ∧ good_dials w''.
Proof.
  intros go Hfit LW LL Et Hd Hc Eo Eol Hf H64.
  destruct (@put_cat_roundtrip (DsiNet St) L St (dsi_machine serve) serve (dsi_nas serve Hfit 0) _ _ _ _ _ _ _ nfs fuel
    t block info version q attr volid Closed Open content out raw name fd data (nt_server w) w l l1)
    as (w'&l'&st'&w''&l''&st''&E1&[<- _]&_&C1&O1&E2&[<- [_ Hd2]]&Hc2&C2&O2); [done..| | |done|done|done|done|].
  - split; [done|]. split; [lia|done].
  - done.
  - exists w', l', w'', l''. by split_and!.
Qed.

(** And every command, a mount included, closes the connections that it has
    dialled. *)
Corollary commands_close_dsi {L St : Type} (serve : server St) `{Local L} `{Cast5} `{Norm} `{ErrgroupLaw} `{NetIP}
    (nfs : TCPAddr → Z → session L) fuel args w l code w' l' :
  set_Forall (λ c, (c < length (nt_conns w))%nat) (nt_open w) →
  @main (DsiNet St) L (dsi_machine serve) _ dsi_entropy _ _ _ _ fuel nfs args (w, l) = Ret (code, (w', l')) →
  filter (λ c, (c < length (nt_conns w'))%nat) (nt_open w') = nt_open w.
Proof.
  intros Hw E. pose proof (@keeps_main (DsiNet St) L _ _ (dsi_tracked serve) _ _ _ _ _ _ fuel nfs args _ _ _ E) as Ho.
  cbn in Ho. rewrite Ho. apply set_eq. intros c. rewrite elem_of_filter. split; [tauto|]. intros Hc. split; [by apply Hw|done].
Qed.

Definition busy : list event :=
  [MkEvent 2 [NTickle 7; NAttention 9 0x8000] None; MkEvent 0 [NTickle 8] None; MkEvent 1 [] None].

Lemma put_cat_dsi_witness :
  ∃ w' l' w'' l'',
    let go := @main (DsiNet bytes) loc (dsi_machine (capped nas_server)) loc_local dsi_entropy no_ciphers plain_norm in_order no_literals
      40 (λ _ _, Finish (Ok tt)) in
    go [str "put"; str "hello.txt"; str "afp://nas/Data/old.txt"]
      (MkNet (str "x") [] [Ok busy; Ok busy; Ok []; Ok busy] ∅, MkLoc (str "$ ") [] (str "hello world")) = Ret (0, (w', l')) ∧
    go [str "cat"; str "afp://nas/Data/old.txt"] (w', l') = Ret (0, (w'', l'')) ∧
    nt_server w'' = str "hello world" ∧ lo_out l'' = str "$ hello world".
Proof.
  destruct (@put_cat_dsi loc bytes (capped nas_server) loc_local dsi_entropy no_ciphers plain_norm in_order in_order_law
    no_literals (λ _ _, Finish (Ok tt)) 40 nas_target nas_block nas_info (str "AFP3.4") 0x10000 0 7 (λ _, True) (λ _ _, True) id lo_out
    (str "afp://nas/Data/old.txt") (str "hello.txt") 1 (str "hello world")
    (MkNet (str "x") [] [Ok busy; Ok busy; Ok []; Ok busy] ∅)
    (MkLoc (str "$ ") [] (str "hello world")) (MkLoc (str "$ ") [] (str "hello world")))
    as (w'&l'&w''&l''&E1&_&_&E2&Ec&Eo&_).
  - apply capped_fits.
  - exact capped_nas_laws.
  - exact loc_local_laws.
  - vm_compute. reflexivity.
  - repeat constructor.
  - exact I.
  - reflexivity.
  - reflexivity.
  - split; reflexivity.
  - reflexivity.
  - exists w', l', w'', l''. split; [exact E1|]. split; [exact E2|]. split; [exact Ec|exact Eo].
Defined.

(** C13: a mount outlives its connections.  On DSI connections to a server that
    admits guests and serves the volume, calls being made one at a time:
    - whatever happens, mounting returns a link or an error;
    - on a mount, whatever has happened and whatever happens from now on (writes
      that fail with or without the read loop noticing, requests that time out
      executed or not, connections that die under a request or between two, the
      server closing sessions, dials that fail at any point of the sign-on), a
      [Read] of a file returns exactly the bytes of the file at the cursor, or an
      error, and then reports only right bytes, if any; a [Write] reports all its
      bytes and has put exactly them in at the cursor, or returns an error, and
      then some pieces of them are in at their places and nothing else has
      changed; afterwards mount and file are ready for the next call;
    - and they succeed after a new mount when dials succeed and the connection is
      lost only in ways that the read loop notices (a failing write or read, or a
      closed session, at any request, before or after the server has executed it,
      with tickles and attention messages in between): the call reconnects
      through the whole sign-on when it has to, and the file is open on the link
      that is then installed. *)
Theorem mount_survives_dsi {St : Type} {serve : server St} `{Entropy (DsiNet St)} `{Cast5} `{Norm} `{ErrgroupLaw}
    t block info version q attr volid base :
  let net := @mount_network (DsiNet St) (dsi_machine serve) _ _ t in
  let v := vol t attr volid in
  fits_frames serve →
  (∀ st, admits (serve := serve) t block info version q (.= st)) →
  (∀ st, opens_volume (serve := serve) t (.= st) attr volid) →
  live base = true →
  (∀ w, ∃ r w1, @New _ net base w = Ret (r, w1) ∧ nt_server w1 = nt_server w ∧ ∀ m, r = Ok m → floating v q m w1) ∧
  (∀ m w f p, floating v q m w → 0 ≤ fl_cursor f → fl_cursor f + len p < 2 ^ 63 →
    (∀ (Good : St → Prop) d, Good (nt_server w) → file_in (v := v) (good_fork (serve := serve) Good d) f →
      path_served (serve := serve) (v := v) Good d (fl_path f) (open_mode f) →
      ∃ f' b n err m' w', @File_Read _ net _ _ base f p (m, w) = Ret ((f', (b, n, err)), (m', w')) ∧
        read_progress d (fl_cursor f) p (b, n) ∧ (read_result d (fl_cursor f) p (b, n) err ∨ ∃ e, err = Some e) ∧
        fl_cursor f' = fl_cursor f + n ∧ same_file f f' ∧ file_in (v := v) (good_fork (serve := serve) Good d) f' ∧
        Good (nt_server w') ∧ floating v q m' w') ∧
    (∀ (good : St → Prop) (content : St → bytes), good (nt_server w) →
      file_in (v := v) (write_fork (serve := serve) (q := q) good content) f →
      path_writes (serve := serve) (v := v) (q := q) good content (fl_path f) (open_mode f) →
      let d := content (nt_server w) in
      ∃ f' n err m' w', @File_Write _ net _ _ base f p (m, w) = Ret ((f', (n, err)), (m', w')) ∧
        (n = len p ∧ err = None ∧ content (nt_server w') = written d p (fl_cursor f) ∨
         (∃ e, err = Some e) ∧ halfway good content d p (fl_cursor f) (nt_server w')) ∧
        fl_cursor f' = i64 (fl_cursor f + n) ∧ same_file f f' ∧
        file_in (v := v) (write_fork (serve := serve) (q := q) good content) f' ∧
        good (nt_server w') ∧ floating v q m' w')) ∧
  (∀ w, good_dials w → ∃ l w1, @New _ net base w = Ret (Ok (installed 1 l), w1) ∧ nt_server w1 = nt_server w ∧
    ∀ events f p, heeded events → 0 ≤ fl_cursor f → fl_cursor f + len p < 2 ^ 63 →
      let s := (installed 1 l, foresee events (l_conn l) w1) in
      (∀ (Good : St → Prop) d, Good (nt_server w) → file_on (serve := serve) Good d l f →
        path_served (serve := serve) (v := v) Good d (fl_path f) (open_mode f) →
        let x := sub d (fl_cursor f) (fl_cursor f + len p) in
        ∃ f' err l' m' w2,
          @File_Read _ net _ _ base f p s = Ret ((f', (x ++ drop (length x) p, len x, err)), (m', w2)) ∧
          (err = None ∧ len x = len p ∨ err = Some EEOF ∧ len d ≤ fl_cursor f + len p ∧ 0 < len p) ∧
          fl_cursor f' = fl_cursor f + len x ∧ file_on (serve := serve) Good d l' f' ∧
          (l' = l ∧ m' = installed 1 l ∨ m' = installed 2 l')) ∧
      (∀ (good : St → Prop) (content : St → bytes), good (nt_server w) →
        opened_on (write_fork (serve := serve) (q := q) good content) l f →
        path_writes (serve := serve) (v := v) (q := q) good content (fl_path f) (open_mode f) →
        ∃ f' l' m' w2,
          @File_Write _ net _ _ base f p s = Ret ((f', (len p, None)), (m', w2)) ∧ good (nt_server w2) ∧
          content (nt_server w2) = (if bool_decide (len p = 0) then content (nt_server w)
                                    else splice (content (nt_server w)) (fl_cursor f) p) ∧
          fl_cursor f' = fl_cursor f + len p ∧ opened_on (write_fork (serve := serve) (q := q) good content) l' f' ∧
          (l' = l ∧ m' = installed 1 l ∨ m' = installed 2 l'))).
Proof.
  intros net v Hfit HA HV Hb. pose (HO := dsi_hostile serve Hfit t block info version q attr volid HA HV).
  split; [|split].
  - intros w. destruct (@New_hostile _ St net serve v q HO base w) as (r&w'&E&_&Es&Hm). exists r, w'. by split_and!.
  - intros m w f p Hm Hoff Hbound. split.
    + intros Good d Hg Hf Hp.
      destruct (@File_Read_hostile _ St net serve v q HO _ _ _ Good d base m w f p Hb Hm Hg Hf Hp Hoff Hbound)
        as (f'&b&n&err&m'&w'&E&?&?&?&?&?&?&?&_). exists f', b, n, err, m', w'. by split_and!.
    + intros good content Hg Hf Hp.
      destruct (@File_Write_hostile _ St net serve v q HO _ _ _ good content base m w f p Hb Hm Hg Hf Hp Hoff Hbound)
        as (f'&n&err&m'&w'&E&?&?&?&?&?&?&_). exists f', n, err, m', w'. by split_and!.
  - intros w Hd. destruct (mount_dials Hfit t block info version q attr volid HA HV base w Hd Hb) as (l&w1&E&Es&Hv&Hmay).
    exists l, w1. split; [exact E|]. split; [exact Es|]. intros events f p Hev Hoff Hbound. specialize (Hmay events Hev). split.
    + intros Good d Hg Hf Hp. by eapply (mount_reads Hfit t block info version q attr volid HA HV).
    + intros good content Hg Hf Hp. by eapply (mount_writes Hfit t block info version q attr volid HA HV).
Qed.

(** The mount's connection answers the open, then ticks twice, and is lost by a
    failing read after the server has answered; the retry signs on again. *)
Definition doomed : list event := [no_event; MkEvent 2 [NTickle 3] (Some (LostRead true EEOF))].

(** It signs on, answers the open, and then a write fails that nobody notices. *)
Definition torn : list event := [no_event; no_event; no_event; no_event; MkEvent 1 [] (Some (TornWrite EEOF 3))].

Definition nas_file : File := MkFile (str "/old.txt") (str "old.txt") true None 3 11.

Lemma nas_file_served `{Norm} :
  path_served (serve := capped nas_server) (v := vol nas_target 0 7) (.= str "hello world") (str "hello world")
    (str "old.txt") (Z.lor forkRead forkWrite).
Proof.
  intros st ->. exists kFPExtDataForkLenBit, 5, 11, [], (str "hello world").
  split; [|split; [lia|split; [lia|split; [reflexivity|]]]].
  { rewrite nas_server_brief; [reflexivity|]. unfold open_fork_request. rewrite w_path_wire. discriminate. }
  split; [split; reflexivity|]. intros st ->. apply capped_nas_reads. reflexivity.
Qed.

Lemma mount_survives_dsi_witness :
  let net := @mount_network (DsiNet bytes) (dsi_machine (capped nas_server)) dsi_entropy no_ciphers nas_target in
  (∃ m w1 f' b n err m' w2, @New _ net Background (MkNet (str "hello world") [] [Ok busy; Ok torn] ∅) = Ret (Ok m, w1) ∧
    @File_Read _ net plain_norm last_first Background nas_file (str "..........") (m, w1) = Ret ((f', (b, n, err)), (m', w2)) ∧
    (n = 0 ∨ (b, n) = (str "lo world..", 8)) ∧ fl_cursor f' = 3 + n) ∧
  ∃ l w1, @New _ net Background (MkNet (str "hello world") [] [Ok busy; Ok busy; Ok busy] ∅) = Ret (Ok (installed 1 l), w1) ∧
    (∃ f' err m' w2, @File_Read _ net plain_norm last_first Background nas_file (str "..........") (installed 1 l, foresee doomed (l_conn l) w1)
      = Ret ((f', (str "lo world..", 8, err)), (m', w2)) ∧ fl_cursor f' = 11) ∧
    (∃ f' m' w2, @File_Write _ net plain_norm last_first Background nas_file (str "LO W") (installed 1 l, foresee doomed (l_conn l) w1)
      = Ret ((f', (4, None)), (m', w2)) ∧ nt_server w2 = str "helLO World").
Proof.
  intros net.
  destruct (@mount_survives_dsi bytes (capped nas_server) dsi_entropy no_ciphers plain_norm last_first last_first_law
    nas_target nas_block nas_info (str "AFP3.4") 0x10000 0 7 Background) as (HNew&HAny&HGood).
  - apply capped_fits.
  - intros st. apply capped_nas_admits.
  - intros st. apply capped_nas_volume.
  - reflexivity.
  - split.
    + destruct (HNew (MkNet (str "hello world") [] [Ok busy; Ok torn] ∅)) as (r&w1&E&Es&Hm).
      destruct r as [m|e]; [|exfalso; vm_compute in E; discriminate E].
      destruct (HAny m w1 nas_file (str "..........") (Hm m eq_refl)) as [HRead _]; [vm_compute; congruence|reflexivity|].
      destruct (HRead (.= str "hello world") (str "hello world") Es) as (f'&b&n&err&m'&w2&E2&[_ Hn]&_&Ec&_).
      * by intros fork l.
      * apply nas_file_served.
      * exists m, w1, f', b, n, err, m', w2. split; [exact E|]. split; [exact E2|]. split; [|exact Ec].
        destruct Hn as [Hn|Hn]; [left; exact Hn|right; exact Hn].
    + destruct (HGood (MkNet (str "hello world") [] [Ok busy; Ok busy; Ok busy] ∅)) as (l&w1&E&_&HR); [repeat constructor|].
      exists l, w1. split; [exact E|].
      assert (heeded doomed) as Hh by (repeat constructor; intros how; [discriminate|intros [= <-]; reflexivity]).
      split.
      * destruct (HR doomed nas_file (str "..........") Hh) as [HRead _]; [vm_compute; congruence|reflexivity|].
        destruct (HRead (.= str "hello world") (str "hello world")) as (f'&err&l'&m'&w2&E2&_&Ec&_);
          [reflexivity|left; reflexivity|apply nas_file_served|].
        exists f', err, m', w2. split; [exact E2|exact Ec].
      * destruct (HR doomed nas_file (str "LO W") Hh) as [_ HWrite]; [vm_compute; congruence|reflexivity|].
        destruct (HWrite (λ d, len d < 2 ^ 63) id) as (f'&l'&m'&w2&E2&_&Ec&_);
          [reflexivity|left; reflexivity|apply capped_nas_writes|].
        exists f', m', w2. split; [exact E2|exact Ec].
Defined.

(** What a read on a mount whose second connection has the events [evs], and
    whose later dials have the fates [dials], comes to: the bytes, their number and the error;
    the generation and the connection of the mount; which connections are alive. *)
Definition mount_read (evs : list event) (dials : list (result (list event))) : option (bytes * Z * option error * Z * option nat * list bool) :=
  let net := @mount_network (DsiNet bytes) (dsi_machine (capped nas_server)) dsi_entropy no_ciphers nas_target in
  match @New _ net Background (MkNet (str "hello world") [] (Ok busy :: Ok evs :: dials) ∅) with
  | Ret (Ok m, w) =>
    match @File_Read _ net plain_norm last_first Background nas_file (str "..........") (m, w) with
    | Ret ((_, x), (m', w')) => Some (x, m_gen m', m_conn m', (λ ep, IsAlive (s_conn (ep_sys ep))) <$> nt_conns w')
    | _ => None
    end
  | _ => None
  end.

(** A noticed loss: the second generation, on the fourth connection.  A failed
    redial, a write that failed unnoticed, and a request that timed out after
    it was executed: errors, the connection still in place in the latter two. *)
Example mount_reconnects :
  mount_read ([no_event; no_event; no_event] ++ doomed) [Ok busy; Ok busy]
  = Some (str "lo world..", 8, Some EEOF, 2, Some 3%nat, [false; false; false; true]).
Proof. vm_compute. reflexivity. Qed.

Example mount_gives_up :
  mount_read ([no_event; no_event; no_event] ++ doomed) [Err EEOF] = Some (str "..........", 0, Some EEOF, 1, None, [false; false]) ∧
  mount_read torn [] = Some (str "..........", 0, Some EEOF, 1, Some 1%nat, [false; true]) ∧
  mount_read [no_event; no_event; no_event; no_event; MkEvent 0 [] (Some (Expired true ECanceled))] []
  = Some (str "..........", 0, Some ECanceled, 1, Some 1%nat, [false; true]).
Proof. split_and!; vm_compute; reflexivity. Qed.
