(* ===== verification/Tame.v ===== *)
(** * Programs that never panic

    [tame I Q m]: started where [I] holds, [m] does not panic; the state moves on
    along [R], and the result satisfies [Q].  When the requests on a connection
    are tame, whatever they return, so are the operations of package afp on it:
    no reply of a server can crash them.  [ReadLink] and the streams are left
    out: they trust the lengths that the server sends (ForkSpec.v). *)

From S2P Require Import Prelude Header Result Wire Entry Conn Transport Session Errgroup Fork ForkSpec Ops.

Open Scope go_scope.

(** ** The predicate *)

Section tame.
Context {S : Type} (R : S → S → Prop) `{!PreOrder R}.

Definition tame {A} (I : S → Prop) (Q : S → A → Prop) (m : M S A) : Prop :=
  ∀ s, I s → match m s with Ret (a, s') => R s s' ∧ Q s' a | Panics => False | NoFuel => True end.

(** [I] keeps holding along [R]. *)
Definition stable (I : S → Prop) : Prop := ∀ s s', R s s' → I s → I s'.

Lemma tame_ret {A} I (Q : S → A → Prop) a : (∀ s, I s → Q s a) → tame I Q (mret a).
Proof. intros HQ s Hs. split; [reflexivity|by apply HQ]. Qed.

Lemma tame_mono {A} (I J : S → Prop) (Q Q' : S → A → Prop) m :
  tame J Q m → (∀ s, I s → J s) → (∀ s a, Q s a → Q' s a) → tame I Q' m.
Proof.
  intros Hm HI HQ s Hs. specialize (Hm s (HI s Hs)). destruct (m s) as [[a s']| |]; [|done..].
  destruct Hm as [Hr Ha]. split; [done|by apply HQ].
Qed.

Lemma tame_bind {A B} I (Q : S → A → Prop) (Q' : S → B → Prop) m k :
  stable I → tame I Q m → (∀ a, tame (λ s, I s ∧ Q s a) Q' (k a)) → tame I Q' (m ≫= k).
Proof.
  intros HI Hm Hk s Hs. specialize (Hm s Hs). unfold mbind, M_bind. destruct (m s) as [[a s1]| |]; [|done..].
  destruct Hm as [Hr Ha]. specialize (Hk a s1 (conj (HI _ _ Hr Hs) Ha)). destruct (k a s1) as [[b s2]| |]; [|done..].
  destruct Hk as [Hr2 Hb]. split; [by etrans|done].
Qed.

Lemma tame_lift {A} I (P : A → Prop) (m : outcome A) : (∃ a, m = Ret a ∧ P a) → tame I (λ _, P) (lift m).
Proof. intros (a&->&Ha) s Hs. by split. Qed.

Lemma tame_get I : stable I → tame I (λ s _, I s) get.
Proof. intros HI s Hs. by split. Qed.

Lemma tame_modify I f : (∀ s, R s (f s)) → tame I (λ _ _, True) (modify f).
Proof. intros Hf s Hs. split; [apply Hf|done]. Qed.

(** Values only. *)
Abbreviation fine I := (tame I (λ _ _, True)).

Lemma fine_ret {A} I (a : A) : fine I (mret a).
Proof. by apply tame_ret. Qed.

Lemma fine_bind {A B} I (m : M S A) (k : A → M S B) : stable I → fine I m → (∀ a, fine I (k a)) → fine I (m ≫= k).
Proof. intros HI Hm Hk. eapply tame_bind; [done|exact Hm|]. intros a. eapply tame_mono; [apply Hk|tauto|done]. Qed.

Lemma fine_try {A B} I (m : M S (result A)) (k : A → M S (result B)) :
  stable I → fine I m → (∀ a, fine I (k a)) → fine I (try_bind m k).
Proof. intros HI Hm Hk. unfold try_bind. apply fine_bind; [done..|]. intros [a|e]; [apply Hk|apply fine_ret]. Qed.

Lemma fine_lift {A} I (m : outcome A) : (∃ a, m = Ret a) → fine I (lift m).
Proof. intros [a ->] s Hs. by split. Qed.

Lemma fine_get I : fine I get.
Proof. by intros s Hs. Qed.

(** With something known of the value in between. *)
Lemma tame_try {A B} I (P : A → Prop) (Q : S → result B → Prop) (m : M S (result A)) (k : A → M S (result B)) :
  stable I → tame I (λ _ r, ∀ a, r = Ok a → P a) m → (∀ a, P a → tame I Q (k a)) → (∀ s e, Q s (Err e)) → tame I Q (try_bind m k).
Proof.
  intros HI Hm Hk He. unfold try_bind. eapply tame_bind; [done|exact Hm|]. intros [a|e].
  - intros s [Hs Ha]. by apply (Hk a (Ha a eq_refl)).
  - by apply tame_ret.
Qed.

Lemma fine_reading {A} I payload (P : A → Prop) (m : M reader A) : rsafe P m → tame I (λ _, P) (reading payload m).
Proof.
  intros Hm s Hs. destruct (rsafe_run P m payload Hm) as (a&r&E&_&_&Ha). unfold reading, lift, mbind, M_bind. by rewrite E.
Qed.

End tame.

(** Splits a program at its binds and branches. *)
Ltac fine_step :=
  match goal with
  | |- tame _ _ _ (try_bind _ _) => apply fine_try; [typeclasses eauto|assumption| |intros ?]
  | |- tame _ _ _ (_ ≫= _) => apply fine_bind; [typeclasses eauto|assumption| |intros ?]
  | |- tame _ _ _ (let '(_, _) := ?x in _) => destruct x
  | |- tame _ _ _ (match ?x with _ => _ end) => destruct x
  | |- tame _ _ _ (if ?x then _ else _) => destruct x
  | |- tame _ _ _ (mret _) => apply fine_ret; typeclasses eauto
  | |- tame _ _ _ get => apply fine_get; typeclasses eauto
  | |- _ => progress cbv zeta
  end.
Ltac solve_fine := repeat first [solve [eauto 2 with fine nocore] | fine_step].

Create HintDb fine discriminated.

(** ** The operations of package afp *)

Section operations.
Context {W : Type} `{Transport W} (R : W → W → Prop) `{!PreOrder R} (I : W → Prop) (HI : stable R I).
Abbreviation fine := (tame R I (λ _ _, True)).
Context (Hreq : ∀ ctx cmd off payload, fine (t_request ctx cmd off payload)).
Context `{Norm}.
#[local] Hint Resolve Hreq : fine.

Lemma fine_command ctx payload : fine (command ctx payload).
Proof. unfold command. solve_fine. Qed.
Lemma fine_commandWrite ctx off payload : fine (commandWrite ctx off payload).
Proof. unfold commandWrite. solve_fine. Qed.
#[local] Hint Resolve fine_command fine_commandWrite : fine.

Lemma fine_invoke ctx op payload : fine (invoke ctx op payload).
Proof. unfold invoke. solve_fine. Qed.
Lemma fine_query ctx op payload : fine (query ctx op payload).
Proof. unfold query. solve_fine. Qed.
#[local] Hint Resolve fine_invoke fine_query : fine.

Lemma fine_parse {A} payload (m : M reader A) : rsafe (λ _, True) m → fine (reading payload m).
Proof. intros Hm. eapply tame_mono; [by apply (fine_reading R I payload _ m Hm)|done..]. Qed.

Lemma fine_OpenVolume ctx name : fine (OpenVolume ctx name).
Proof. unfold OpenVolume. fine_step; [solve_fine|]. apply fine_parse, rsafe_parse_open_vol. Qed.

Lemma fine_ReadDir fuel v ctx dirID path : fine (ReadDir fuel v ctx dirID path).
Proof.
  unfold ReadDir. generalize 1, (@nil DirEntry).
  induction fuel as [|fuel IH]; intros start all; cbn [ReadDir_loop]; [done|].
  fine_step; [solve_fine|]. fine_step. fine_step; [solve_fine|]. fine_step; [solve_fine|].
  fine_step; [apply fine_lift; [done|apply parseEnumerateReply_total]|]. solve_fine.
Qed.

Lemma fine_Stat v ctx dirID path : fine (Stat v ctx dirID path).
Proof. unfold Stat. fine_step; [solve_fine|]. apply fine_lift; [done|apply parse_stat_total]. Qed.

Lemma rsafe_parse_statfs : rsafe (λ _, True) parse_statfs.
Proof. unfold parse_statfs. repeat rsafe_step. Qed.

Lemma fine_StatFS v ctx : fine (StatFS v ctx).
Proof. unfold StatFS. fine_step; [solve_fine|]. apply fine_parse, rsafe_parse_statfs. Qed.

(** A fork as [openFork] returns it. *)
Lemma rsafe_parse_open_fork v : rsafe (λ r, ∀ f, r = Ok f → fork_ok f) (parse_open_fork v).
Proof.
  unfold parse_open_fork. do 3 (eapply rsafe_bind; [eauto with rsafe|intros ? _]).
  unfold r_check. eapply rsafe_bind; [eauto with rsafe|]. intros r _. apply rsafe_ret.
  destruct (rerr r); [done|]. by intros f [= <-].
Qed.

Lemma tame_openFork v ctx dirID path mode : tame R I (λ _ r, ∀ f, r = Ok f → fork_ok f) (openFork v ctx dirID path mode).
Proof.
  unfold openFork. apply tame_try with (P := λ _, True); [done|done| | |done].
  - eapply tame_mono; [apply fine_query|done..].
  - intros payload _. apply fine_reading; [done|apply rsafe_parse_open_fork].
Qed.

(** Groups, in every order; the slots satisfy [P]. *)
Context `{ErrgroupLaw}.

Definition tame_task {B} (P : B → Prop) (t : task (W * list B)) : Prop :=
  ∀ ctx w sl, I w → Forall P sl →
    match t ctx (w, sl) with Ret (_, (w', sl')) => R w w' ∧ Forall P sl' | Panics => False | NoFuel => True end.

Lemma tame_run_tasks {B} (P : B → Prop) ctx (ts : list (task (W * list B))) err :
  Forall (tame_task P) ts → ∀ w sl, I w → Forall P sl →
    match run_tasks ctx ts err (w, sl) with Ret (_, (w', sl')) => R w w' ∧ Forall P sl' | Panics => False | NoFuel => True end.
Proof.
  intros Ht. revert err. induction Ht as [|t ts Ht _ IH]; intros err w sl Hw Hsl; cbn [run_tasks]; [by split|].
  unfold mbind, M_bind. set (ctx' := WithCancel _ _). specialize (Ht ctx' w sl Hw Hsl).
  destruct (t ctx' (w, sl)) as [[e [w1 sl1]]| |]; [|done..]. destruct Ht as [Hr Hsl1].
  specialize (IH (match err with Some _ => err | None => e end) w1 sl1 (HI _ _ Hr Hw) Hsl1).
  destruct (run_tasks _ _ _ _) as [[e2 [w2 sl2]]| |]; [|done..]. destruct IH as [Hr2 ?]. split; [by etrans|done].
Qed.

(** What a task puts into its slot. *)
Definition tame_piece {B} (P : B → Prop) (m : Ctx → M W (option B * option error)) : Prop :=
  ∀ ctx, tame R I (λ _ x, ∀ b, x.1 = Some b → P b) (m ctx).

Lemma slot_task_tame {B} (P : B → Prop) i (m : Ctx → M W (option B * option error)) :
  tame_piece P m → tame_task P (slot_task i m).
Proof.
  intros Hm ctx w sl Hw Hsl. specialize (Hm ctx w Hw).
  unfold slot_task, zoom1, zoom2, modify, mbind, M_bind. cbn [fst snd].
  destruct (m ctx w) as [[[b e] w']| |]; [|done..]. destruct Hm as [Hr Hb]. cbn. split; [done|].
  destruct b as [b|]; [|done]. apply Forall_insert; [done|by apply Hb].
Qed.

Lemma tame_group {B} (P : B → Prop) ctx limit (ms : list (Ctx → M W (option B * option error))) slots :
  0 < limit → Forall (tame_piece P) ms → Forall P slots →
  tame R I (λ _ x, Forall P x.2) (group ctx limit ms slots).
Proof.
  intros Hl Hms Hsl w Hw. unfold group.
  destruct (eg_law _ ctx limit (slot_tasks ms) (w, slots) Hl) as (ts&Hp&->).
  assert (Forall (tame_task P) ts) as Ht.
  { rewrite Hp. apply Forall_forall. intros t (i&Hi)%list_elem_of_lookup.
    unfold slot_tasks in Hi. rewrite list_lookup_imap in Hi. destruct (ms !! i) as [m|] eqn:Em; [|done].
    injection Hi as <-. apply slot_task_tame. exact (Forall_lookup_1 _ _ _ _ Hms Em). }
  pose proof (tame_run_tasks P ctx ts None Ht w slots Hw Hsl) as Hrun.
  by destruct (run_tasks _ _ _ _) as [[e' [w1 sl1]]| |].
Qed.

(** ** Reading and writing at an offset *)

Lemma copy_at_total p start data : 0 ≤ start ≤ len p → ∃ n p', copy_at p start data = Ret (n, p') ∧ len p' = len p.
Proof.
  intros Hs. unfold copy_at. rewrite slice_ok by lia. cbn. do 2 eexists. split; [reflexivity|].
  pose proof (len_nonneg data). rewrite len_sub by lia. unfold len in *.
  rewrite !length_app, !length_take, length_drop. lia.
Qed.

(** A chunk that starts inside a buffer of [n] bytes. *)
Definition chunk_in (n : Z) (c : chunk) : Prop := 0 ≤ c_start c ≤ n.

Lemma reassemble_total p n cs : Forall (chunk_in (len p)) cs → ∃ x, reassemble p n cs = Ret x.
Proof.
  intros Hcs. remember (len p) as k eqn:Hk. revert p n Hk.
  induction Hcs as [|c cs Hc _ IH]; intros p n Hk; cbn [reassemble]; [by eexists|].
  destruct (copy_at_total p (c_start c) (c_data c)) as (j&p'&->&Hp'); [by rewrite <- Hk|]. cbn.
  destruct (c_short c); [by eexists|]. apply IH. lia.
Qed.

Lemma tame_pieces n size : 0 ≤ n → 0 < size → tame R I (λ _ ps, tiles size 0 n ps) (lift (pieces n size)).
Proof. intros Hn Hs. apply tame_lift; [done|]. destruct (pieces_tiles n size Hn Hs) as (ps&?&?). by exists ps. Qed.

Lemma fine_bind_post {A B} (P : A → Prop) (m : M W A) (k : A → M W B) :
  tame R I (λ _, P) m → (∀ a, P a → fine (k a)) → fine (m ≫= k).
Proof. intros Hm Hk. eapply tame_bind; [done|done|exact Hm|]. intros a s [Hs Ha]. by apply Hk. Qed.

Lemma fine_ReadAt f ctx p off : fork_ok f → fine (ReadAt f ctx p off).
Proof.
  intros [Hc Hm]. unfold ReadAt. fine_step; [by apply fine_ret|].
  eapply fine_bind_post; [by apply tame_pieces; [apply len_nonneg|]|]. intros ps Hps%tiles_inside.
  eapply fine_bind_post; [apply (tame_group (chunk_in (len p))); [done| |]|].
  - apply Forall_fmap, (Forall_impl _ _ _ Hps). intros [start want] (?&?&?) ctx'. cbn in *. unfold read_task, readChunk.
    eapply tame_bind; [done|done|apply (fine_try R I); [done|apply fine_command|]|].
    + intros [payload code]. solve_fine.
    + intros [[data eof]|e]; apply tame_ret; try done. intros s _ b [= <-]. unfold chunk_in. cbn. lia.
  - apply Forall_fmap, (Forall_impl _ _ _ Hps). intros [start want] (?&?&?). unfold chunk_in. cbn in *. lia.
  - intros [err chunks] Hch. destruct err; [by apply fine_ret|]. apply fine_lift; [done|by apply reassemble_total].
Qed.

Lemma writeChunkSize_positive f : tame R I (λ _ n, 0 < n) (writeChunkSize f).
Proof.
  unfold writeChunkSize, serverQuantum. intros w Hw. cbn. split; [reflexivity|]. repeat case_bool_decide; lia.
Qed.

Lemma fine_WriteAt f ctx p off : fork_ok f → fine (WriteAt f ctx p off).
Proof.
  intros [Hc Hm]. unfold WriteAt. fine_step; [by apply fine_ret|].
  eapply fine_bind_post; [apply writeChunkSize_positive|]. intros size Hsize.
  eapply fine_bind_post; [by apply tame_pieces; [apply len_nonneg|]|]. intros ps Hps%tiles_inside.
  fine_step; [|solve_fine].
  eapply tame_mono; [apply (tame_group (λ _, True)); [done| |]|done|done].
  - apply Forall_fmap, (Forall_impl _ _ _ Hps). intros [start want] (?&?&?) ctx'. cbn in *. unfold write_task. cbn [fst snd].
    rewrite slice_ok by lia. eapply tame_mono; [|done|by intros ??? b _].
    fine_step; [by apply fine_lift; [|eexists]|]. unfold writeChunk. solve_fine.
  - apply Forall_true. done.
Qed.

Lemma fine_Symlink v ctx dirID link target : fine (Symlink v ctx dirID link target).
Proof.
  unfold Symlink, CreateFile, setFinderInfo, Fork_Close. fine_step; [solve_fine|].
  apply tame_try with (P := fork_ok); [done|done|apply tame_openFork| |done]. intros f Hf.
  fine_step; [by apply fine_WriteAt|]. solve_fine.
Qed.

End operations.
