(* ===== verification/Sturdy.v ===== *)
(** * A mount that does not crash

    On a network where requests on dialled connections, and dialling, never
    panic whatever the server replies ([Sturdy]), no call of the NFS library
    panics but [Readlink].  DSI connections are such a network, with any server
    behind them, for mounts that sign on as a guest. *)

From S2P Require Import Prelude Header Result Wire Entry ServerInfo Conn ConnSafety ConnLive Transport Session SessionSpec Errgroup Fork ForkSpec Ops OpsSpec Login LoginSpec LoginSafety Manager ManagerSpec Path Bridge Serve Url Keeps Command Tracked ServeSpec CommandSpec SignOn Net EndToEnd Tame.

Open Scope go_scope.

(** ** Networks

    [st_grows] is what the world does in the course of time, and keeps the
    connections that are known. *)
Class Sturdy (N : Type) `{Network N} `{Entropy N} : Type := {
  st_grows : N → N → Prop;
  st_order :: PreOrder st_grows;
  st_known : nat → N → Prop;
  st_stable c : stable st_grows (st_known c);
  st_request c ctx cmd off payload :
    tame st_grows (st_known c) (λ _ _, True) (@t_request N (net_transport c) ctx cmd off payload);
  st_dial ctx : tame st_grows (λ _, True) (λ w r, ∀ l, r = Ok l → st_known (l_conn l) w) (net_dial ctx);
  st_close c w : st_grows w (net_close c w);
  st_rand n : tame st_grows (λ _, True) (λ _ _, True) (rand_Read n);
}.

Lemma stable_and {S} (R : S → S → Prop) I J : stable R I → stable R J → stable R (λ s, I s ∧ J s).
Proof. intros HI HJ s s' Hr [? ?]. split; [by eapply HI|by eapply HJ]. Qed.

Lemma stable_const {S} (R : S → S → Prop) (P : Prop) : stable R (λ _, P).
Proof. by intros s s' _. Qed.

Section mount.
Context {N : Type} `{Sturdy N} `{Norm} `{ErrgroupLaw} (base : Ctx).

(** ** The manager *)

(** The link that it has installed is known. *)
Definition mgr_known (s : connManager * N) : Prop := ∀ l, m_vol s.1 = Some l → st_known (l_conn l) s.2.

Definition mgr_grows (s s' : connManager * N) : Prop := st_grows s.2 s'.2 ∧ (mgr_known s → mgr_known s').

#[local] Instance mgr_grows_order : PreOrder mgr_grows.
Proof. split; [by intros s|]. intros s1 s2 s3 [??] [??]. split; [by etrans|tauto]. Qed.

Lemma mgr_known_grows m w w' : st_grows w w' → mgr_known (m, w) → mgr_known (m, w').
Proof. intros Hr Hm l E. eapply st_stable; [exact Hr|by apply Hm]. Qed.

(** An operation that is tame on a known link; [P] is what holds of its variables. *)
Definition tame_op {A} (P : N → A → Prop) (fn : operation (N := N) A) : Prop :=
  ∀ ctx l a, tame st_grows (λ w, st_known (l_conn l) w ∧ P w a) (λ w x, P w x.1) (fn ctx (Some l) a).

(** A program of the mount, from [P] to [Q]. *)
Definition calm {A} (P : N → Prop) (Q : N → A → Prop) (m : M (connManager * N) A) : Prop :=
  tame mgr_grows (λ s, mgr_known s ∧ P s.2) (λ s, Q s.2) m.

Lemma tame_run {S A} (R : S → S → Prop) I (Q : S → A → Prop) (m : M S A) s : tame R I Q m → I s →
  (∃ a s', m s = Ret (a, s') ∧ R s s' ∧ Q s' a) ∨ m s = NoFuel.
Proof. intros Hm Hs. specialize (Hm s Hs). destruct (m s) as [[a s']| |]; [left|done|by right]. by exists a, s'. Qed.

Lemma calm_retry {A} (P : N → A → Prop) (fn : operation A) m a w :
  tame_op P fn → (∀ a, stable st_grows (λ w, P w a)) → P w a →
  match (r ← reconnect base (m_gen m);
         match r with
         | Err e => mret (a, Some e)
         | Ok _ => '(m, _) ← get; zoom2 (fn (withTimeout base) (m_vol m) a)
         end) (m, w) with
  | Ret (x, (m', w')) => st_grows w w' ∧ mgr_known (m', w') ∧ P w' x.1
  | Panics => False
  | NoFuel => True
  end.
Proof.
  intros Hfn HP Ha. unfold mbind at 1, M_bind at 1. rewrite reconnect_dials.
  set (w1 := match m_conn m with Some c => net_close c w | None => w end).
  assert (st_grows w w1) as Hr1 by (unfold w1; destruct (m_conn m); [apply st_close|reflexivity]).
  destruct (tame_run _ _ _ _ w1 (st_dial (withTimeout base)) I) as [(r&w2&->&Hr2&Hl)| ->]; [|done].
  assert (P w2 a) as Ha2 by (do 2 (eapply HP; [eassumption|]); exact Ha).
  destruct r as [l|e]; cbn -[st_grows].
  - unfold mbind, M_bind, get, zoom2. cbn.
    destruct (tame_run _ _ _ _ w2 (Hfn (withTimeout base) l a) (conj (Hl l eq_refl) Ha2)) as [(x&w3&->&Hr3&Hx)| ->]; [|done].
    split; [by do 2 (etrans; [eassumption|])|]. split; [|done]. intros l' [= <-]. eapply st_stable; [exact Hr3|by apply Hl].
  - split; [by etrans|]. split; [by intros l|done].
Qed.

Lemma calm_do {A} (P : N → A → Prop) (fn : operation A) a :
  tame_op P fn → (∀ a, stable st_grows (λ w, P w a)) → calm (λ w, P w a) (λ w x, P w x.1) (do base fn a).
Proof.
  intros Hfn HP [m w] [Hm Ha]. unfold do. erewrite M_bind_ret by done. cbn beta iota zeta.
  destruct (m_vol m) as [l|] eqn:Ev.
  - destruct (tame_run _ _ _ _ w (Hfn (withTimeout base) l a) (conj (Hm l Ev) Ha)) as [([a1 e]&w1&E&Hr&Ha1)|E].
    + erewrite M_bind_ret by (by apply zoom2_ret). cbn beta iota. erewrite M_bind_ret by done. cbn beta iota.
      match goal with |- context [if ?c then _ else _] => destruct c end.
      * cbn. split; [|done]. split; [done|]. intros _. by eapply mgr_known_grows.
      * pose proof (calm_retry P fn m a1 w1 Hfn HP Ha1) as Hr1.
        match type of Hr1 with match ?o with _ => _ end => destruct o as [[x [m' w']]| |] end; [|done..]. destruct Hr1 as (Hr1&Hm'&Hx).
        split; [|done]. split; [by etrans|done].
    + unfold mbind, M_bind, zoom2. cbn. by rewrite E.
  - pose proof (calm_retry P fn m a w Hfn HP Ha) as Hr1.
    match type of Hr1 with match ?o with _ => _ end => destruct o as [[x [m' w']]| |] end; [|done..]. destruct Hr1 as (Hr1&Hm'&Hx). split; [|done]. by split.
Qed.

Lemma calm_ret {A} (P : N → Prop) (Q : N → A → Prop) a : (∀ w, P w → Q w a) → calm P Q (mret a).
Proof. intros HQ [m w] [Hm Hw]. split; [reflexivity|by apply HQ]. Qed.

Lemma calm_mono {A} (P P' : N → Prop) (Q Q' : N → A → Prop) m :
  calm P' Q m → (∀ w, P w → P' w) → (∀ w a, Q w a → Q' w a) → calm P Q' m.
Proof. intros Hm HP HQ. eapply tame_mono; [exact Hm|intros s [??]; split; [done|by apply HP]|intros s a; apply HQ]. Qed.

Lemma calm_bind {A B} (P : N → Prop) (Q : N → A → Prop) (Q' : N → B → Prop) m k :
  calm P Q m → (∀ a, calm (λ w, Q w a) Q' (k a)) → calm P Q' (m ≫= k).
Proof.
  intros Hm Hk s Hs. unfold mbind, M_bind. specialize (Hm s Hs). destruct (m s) as [[a s1]| |]; [|done..].
  destruct Hm as [[Hr Hg] Ha]. specialize (Hk a s1 (conj (Hg (proj1 Hs)) Ha)). destruct (k a s1) as [[b s2]| |]; [|done..].
  destruct Hk as [[Hr2 Hg2] Hb]. split; [|done]. split; [by etrans|tauto].
Qed.

(** Nothing to know. *)
Abbreviation fine := (calm (λ _, True) (λ _ _, True)).
Abbreviation fine_on c := (tame st_grows (st_known c) (λ _ _, True)).

Lemma calm_any {A} P (m : M (connManager * N) A) : fine m → calm P (λ _ _, True) m.
Proof. intros Hm. by eapply calm_mono. Qed.

Lemma fine_then {A B} (m : M (connManager * N) A) (k : A → M (connManager * N) B) : fine m → (∀ a, fine (k a)) → fine (m ≫= k).
Proof. intros Hm Hk. by eapply calm_bind. Qed.

Lemma fine_map {A B} (m : M (connManager * N) A) (k : A → B) : fine m → fine (m ≫= λ a, mret (k a)).
Proof. intros Hm. apply fine_then; [done|]. intros a. by apply calm_ret. Qed.

Lemma fine_do {A} (fn : operation (N := N) A) a : (∀ ctx l a, fine_on (l_conn l) (fn ctx (Some l) a)) → fine (do base fn a).
Proof.
  intros Hfn. eapply calm_mono; [apply (calm_do (λ _ _, True))|done|done].
  - intros ctx l b. eapply tame_mono; [apply Hfn|tauto|done].
  - intros b. apply stable_const.
Qed.

(** ** Operations on a connection *)

Abbreviation on c := (net_transport c).

Lemma fine_on_invoke c ctx op p : fine_on c (@invoke N (on c) ctx op p).
Proof. apply (fine_invoke _ _ (st_stable c)). apply st_request. Qed.
Lemma fine_on_ret {A} c (a : A) : fine_on c (mret a).
Proof. apply tame_ret; [apply st_order|done]. Qed.
Lemma fine_on_bind {A B} c (m : M N A) (k : A → M N B) : fine_on c m → (∀ a, fine_on c (k a)) → fine_on c (m ≫= k).
Proof. intros Hm Hk. apply fine_bind; [apply st_order|apply st_stable|done..]. Qed.

(** Methods of the volume. *)
Lemma fine_vol_op {A} (op : Transport N → Volume → Ctx → M N (result A)) a0 :
  (∀ c v ctx, fine_on c (op (on c) v ctx)) → fine (do base (vol_op op a0) a0).
Proof.
  intros Hop. apply fine_do. intros ctx l a. cbn. apply fine_on_bind; [apply Hop|]. intros r. apply fine_on_ret.
Qed.

Lemma fine_vol_unit op : (∀ c v ctx, fine_on c (op (on c) v ctx)) → fine (vol_unit base op).
Proof. intros Hop. apply fine_then; [by apply fine_vol_op|]. intros [u err]. by apply calm_ret. Qed.

(** ** Files *)

Definition fork_known (w : N) (fk : Fork * link) : Prop := fork_ok fk.1 ∧ st_known (l_conn fk.2) w.
Definition file_known (w : N) (f : File) : Prop := ∀ fk, fl_fork f = Some fk → fork_known w fk.

Lemma file_known_stable f : stable st_grows (λ w, file_known w f).
Proof. intros w w' Hr Hf fk E. destruct (Hf fk E). split; [done|by eapply st_stable]. Qed.

Lemma file_known_fields w f g : file_known w f → fl_fork g = fl_fork f → file_known w g.
Proof. intros Hf E fk. rewrite E. apply Hf. Qed.

Lemma reopen_tame ctx l f :
  tame st_grows (λ w, st_known (l_conn l) w ∧ file_known w f)
    (λ w x, file_known w x.1 ∧ ∀ fk, x.2 = Ok fk → fork_known w fk) (reopen ctx (Some l) f).
Proof.
  unfold reopen, deref. eapply tame_bind with (Q := λ _ r, ∀ fork, r = Ok fork → fork_ok fork).
  - apply st_order.
  - apply stable_and; [apply st_stable|apply file_known_stable].
  - destruct (fl_writable f); (eapply tame_mono; [apply (tame_openFork _ _ (st_stable (l_conn l))), st_request|tauto|done]).
  - intros r. apply tame_ret; [apply st_order|]. intros w [[Hl Hf] Hr]. destruct r as [fork|e]; [|done].
    assert (fork_known w (fork, l)) as Hk by (split; [by apply Hr|done]).
    split; [by intros fk [= <-]|by intros fk [= <-]].
Qed.

Lemma File_open_tame ctx l f :
  tame st_grows (λ w, st_known (l_conn l) w ∧ file_known w f)
    (λ w x, file_known w x.1 ∧ ∀ fk, x.2 = Ok fk → fork_known w fk) (File_open ctx (Some l) f).
Proof.
  unfold File_open. destruct (fl_fork f) as [[fork l']|] eqn:Ef; [|apply reopen_tame]. case_bool_decide; [|apply reopen_tame].
  apply tame_ret; [apply st_order|]. intros w [Hl Hf]. split; [done|]. intros fk [= <-]. by apply (Hf (fork, l')).
Qed.

Lemma calm_withFork {A} (fn : Ctx → Fork * link → A → M N (A * option error)) f a :
  (∀ ctx fk a, fork_ok fk.1 → fine_on (l_conn fk.2) (fn ctx fk a)) →
  calm (λ w, file_known w f) (λ w x, file_known w x.1.1) (Bridge.withFork base fn f a).
Proof.
  intros Hfn. apply (calm_do (λ w x, file_known w x.1) (with_fork_op fn) (f, a)); [|intros [g b]; apply file_known_stable].
  intros ctx l [g b]. unfold with_fork_op. cbn [fst snd].
  eapply tame_bind; [apply st_order|apply stable_and; [apply st_stable|apply file_known_stable]|apply File_open_tame|].
  intros [g' [fk|e]]; [|apply tame_ret; [apply st_order|]; cbn; tauto]. cbn [fst snd].
  intros w (_&Hg'&Hfk). destruct (Hfk fk eq_refl) as [Hok Hkn].
  unfold mbind, M_bind. specialize (Hfn ctx fk b Hok w Hkn). destruct (fn ctx fk b w) as [[[b' err] w']| |]; [|done..].
  destruct Hfn as [Hr _]. cbn. split; [done|]. by eapply file_known_stable.
Qed.

(** A file operation: the file stays known. *)
Lemma calm_file {A B} (fn : Ctx → Fork * link → A → M N (A * option error)) f a (k : File * A * option error → File * B) :
  (∀ ctx fk a, fork_ok fk.1 → fine_on (l_conn fk.2) (fn ctx fk a)) → (∀ x, fl_fork (k x).1 = fl_fork x.1.1) →
  calm (λ w, file_known w f) (λ w y, file_known w y.1) (x ← Bridge.withFork base fn f a; mret (k x)).
Proof.
  intros Hfn Hk. eapply calm_bind; [by apply calm_withFork|]. intros x. apply calm_ret. intros w Hf.
  by eapply file_known_fields.
Qed.

Lemma fine_read_op off ctx fk a : fork_ok fk.1 → fine_on (l_conn fk.2) (read_op off ctx fk a).
Proof.
  intros Hf. unfold read_op. apply fine_on_bind; [|intros [[p n] e]; apply fine_on_ret].
  apply (fine_ReadAt _ _ (st_stable (l_conn fk.2))); [apply st_request|done|done].
Qed.

Lemma fine_write_op p off ctx fk a : fork_ok fk.1 → fine_on (l_conn fk.2) (write_op p off ctx fk a).
Proof. intros Hf. apply (fine_WriteAt _ _ (st_stable (l_conn fk.2))); [apply st_request|done|done]. Qed.

(** Methods of a file, from a known file to one. *)
Abbreviation file_calm f m := (calm (λ w, file_known w f) (λ w x, file_known w x.1) m).

Lemma calm_eta {A B} P (Q : N → B → Prop) (m : M (connManager * N) A) k k' :
  calm P Q (m ≫= k) → (∀ x, k x = k' x) → calm P Q (m ≫= k').
Proof.
  intros Hm Hk s Hs. specialize (Hm s Hs). unfold mbind, M_bind in *. destruct (m s) as [[a s1]| |]; [|done..]. by rewrite <- Hk.
Qed.

Lemma calm_File_Read f p : file_calm f (File_Read base f p).
Proof.
  eapply calm_eta; [eapply (calm_file _ _ _ (λ '((f, (p, n)), err), (set_cursor (i64 (fl_cursor f + n)) f, (p, n, err)))); [apply fine_read_op|]|].
  - by intros [[g [q n]] err].
  - by intros [[g [q n]] err].
Qed.

Lemma calm_File_ReadAt f p off : file_calm f (File_ReadAt base f p off).
Proof.
  eapply calm_eta; [eapply (calm_file _ _ _ (λ '((f, (p, n)), err), (f, (p, n, err)))); [apply fine_read_op|]|].
  - by intros [[g [q n]] err].
  - by intros [[g [q n]] err].
Qed.

Lemma calm_File_Write f p : file_calm f (File_Write base f p).
Proof.
  eapply calm_eta; [eapply (calm_file _ _ _ (λ '((f, n), err),
    let f := set_cursor (i64 (fl_cursor f + n)) f in
    (if bool_decide (fl_size f < fl_cursor f) then set_size (fl_cursor f) f else f, (n, err)))); [apply fine_write_op|]|].
  - intros [[g n] err]. cbn. by case_bool_decide.
  - by intros [[g n] err].
Qed.

Lemma calm_File_Truncate f size : file_calm f (File_Truncate base f size).
Proof.
  eapply calm_eta; [eapply (calm_file _ _ _ (λ '((f, _), err),
    match err with Some e => (f, Err (mapErr e)) | None => (set_size size f, Ok tt) end))|].
  - intros ctx fk a Hf. apply fine_on_bind; [apply fine_on_invoke|]. intros r. apply fine_on_ret.
  - by intros [[g []] [err|]].
  - by intros [[g []] [err|]].
Qed.

Lemma calm_File_Close f : file_calm f (File_Close base f).
Proof.
  unfold File_Close. destruct (fl_fork f) as [[fork l]|] eqn:Ef; [|by apply calm_ret].
  eapply calm_bind with (Q := λ _ _, True); [|intros [[] err]; apply calm_ret; intros w _; by intros fk].
  eapply calm_mono; [apply (calm_do (λ w _, st_known (l_conn l) w)); [|intros _; apply st_stable]|intros w Hf; by apply (Hf _ Ef)|done].
  intros ctx l' []. unfold close_op. case_bool_decide; [|by apply tame_ret; [apply st_order|]; cbn; tauto].
  eapply tame_bind with (Q := λ _ _, True).
  - apply st_order.
  - apply stable_and; apply st_stable.
  - eapply tame_mono; [apply fine_on_invoke|tauto|done].
  - intros r. apply tame_ret; [apply st_order|]. cbn. tauto.
Qed.

(** Files that are opened. *)
Definition opened_known (w : N) (r : result File) : Prop := ∀ f, r = Ok f → file_known w f.

Lemma open_op_tame filename flag : tame_op file_known (open_op filename flag).
Proof.
  intros ctx l f. unfold open_op. set (J := λ w, st_known (l_conn l) w ∧ file_known w f).
  assert (stable st_grows J) as HJ by (apply stable_and; [apply st_stable|apply file_known_stable]).
  eapply tame_bind with (Q := λ _ _, True); [apply st_order|done| |].
  - apply (tame_mono _ _ (st_known (l_conn l)) (λ _ _, True)); [|unfold J; tauto|done].
    destruct (has flag O_CREATE); [|apply fine_on_ret]. apply fine_on_bind; [apply fine_on_invoke|]. intros r. apply fine_on_ret.
  - intros [e|]; [apply tame_ret; [apply st_order|]; unfold J; cbn; tauto|].
    eapply tame_bind with (Q := λ w x, file_known w x.1 ∧ ∀ fk, x.2 = Ok fk → fork_known w fk); [apply st_order| | |].
    + by apply stable_and; [|apply stable_const].
    + eapply tame_mono; [apply File_open_tame|unfold J; tauto|done].
    + intros [g [[fork l']|e]]; [|apply tame_ret; [apply st_order|]; cbn; tauto]. cbv zeta.
      set (h := set_size _ g).
      destruct (has flag O_TRUNC && fl_writable h); [|apply tame_ret; [apply st_order|]; cbn; intros w (_&Hg&_); by eapply file_known_fields].
      apply (tame_mono _ _ (λ w, st_known (l_conn l') w ∧ file_known w h) (λ w x, file_known w x.1)).
      * eapply tame_bind with (Q := λ _ _, True); [apply st_order|apply stable_and; [apply st_stable|apply file_known_stable]| |].
        -- eapply tame_mono; [apply fine_on_invoke|tauto|done].
        -- intros r. apply tame_ret; [apply st_order|]. intros w [[_ Hh] _]. destruct r; [by eapply file_known_fields|done].
      * intros w (_&Hg&Hfk). cbn in Hg, Hfk. destruct (Hfk _ eq_refl). split; [done|by eapply file_known_fields].
      * done.
Qed.

Lemma calm_OpenFile P root filename flag : calm P opened_known (OpenFile base root filename flag).
Proof.
  unfold OpenFile. eapply calm_bind.
  - eapply calm_mono; [apply (calm_do file_known (open_op filename flag)); [apply open_op_tame|intros; apply file_known_stable]| |].
    + by intros w _ fk.
    + intros w x Hx. exact Hx.
  - intros [f err]. apply calm_ret. intros w Hf g. destruct err; [done|]. intros [= <-]. case_match; [by eapply file_known_fields|done].
Qed.

(** ** The filesystem *)

Lemma fine_mkdir_loop ds parts : fine (mkdir_loop base ds parts).
Proof.
  revert ds. induction parts as [|part parts IH]; intros ds; cbn [mkdir_loop]; [by apply calm_ret|].
  apply fine_then; [apply fine_vol_unit; intros; apply fine_on_invoke|]. intros [er|]; [|apply IH].
  cbv zeta. case_match; [apply IH|by apply calm_ret].
Qed.

Lemma fine_change_privs root name change : fine (change_privs base root name change).
Proof.
  unfold change_privs, supportsUnixPrivs. apply fine_then.
  - apply fine_then; [|intros [su err]; by apply calm_ret]. apply fine_do. intros ctx l a. apply fine_on_ret.
  - intros su. destruct (negb su); [by apply calm_ret|]. apply fine_then; [|intros [[] err]; by apply calm_ret].
    apply fine_do. intros ctx l a. cbn. apply fine_on_bind; [apply (fine_Stat _ _ (st_stable (l_conn l))), st_request|].
    intros [e|er]; [|apply fine_on_ret]. destruct (change _) as [[uid gid] mode].
    apply fine_on_bind; [apply fine_on_invoke|]. intros r. apply fine_on_ret.
Qed.

Lemma fine_Chtimes root name mtime : fine (Chtimes base root name mtime).
Proof.
  unfold Chtimes. apply fine_then; [|intros [[] err]; by apply calm_ret].
  apply fine_do. intros ctx l a. cbn. apply fine_on_bind; [apply fine_on_invoke|]. intros r. apply fine_on_ret.
Qed.

Lemma fine_FS_Stat root filename : fine (FS_Stat base root filename).
Proof.
  unfold FS_Stat. cbv zeta. case_bool_decide; [by apply calm_ret|].
  apply fine_then; [|intros [e err]; by apply calm_ret].
  apply fine_vol_op. intros c v ctx. apply (fine_Stat _ _ (st_stable c)), st_request.
Qed.

Lemma fine_random8 : fine random8.
Proof.
  intros [m w] [Hm _]. unfold random8. pose proof (st_rand 8 w I) as Hr. destruct (rand_Read 8 w) as [[r w']| |]; [|done..].
  destruct Hr as [Hr _]. split; [|done]. split; [done|]. intros _. by eapply mgr_known_grows.
Qed.

(** ** The handler

    Everything but [Readlink], which trusts the length that the server reports;
    a method is called on one of the [n] files that have been opened. *)
Definition allowed (n : nat) (c : fscall) : Prop :=
  match c with
  | CallReadlink _ _ => False
  | CallRead i _ | CallReadAt i _ _ | CallWrite i _ | CallSeek i _ _ | CallTruncate i _ | CallClose i => (i < n)%nat
  | _ => True
  end.

Definition served_ok (s : (connManager * N) * list File) : Prop := mgr_known s.1 ∧ Forall (file_known s.1.2) s.2.

(** The number of files after a call; a file is known by its index. *)
Definition one_more (n : nat) (r : result nat) : nat := match r with Ok i => S i | Err _ => n end.
Definition files_after (n : nat) (c : fscall) : fsresult c → nat :=
  match c with
  | CallOpenFile _ _ _ | CallCreate _ _ | CallOpen _ _ | CallTempFile _ _ _ => one_more n
  | _ => λ _, n
  end.

Definition holds_up {A} (after : A → nat) (m : M ((connManager * N) * list File) A) (s : (connManager * N) * list File) : Prop :=
  match m s with Ret (a, s') => served_ok s' ∧ length s'.2 = after a | Panics => False | NoFuel => True end.

Lemma files_grow w w' files : st_grows w w' → Forall (file_known w) files → Forall (file_known w') files.
Proof. intros Hr Hf. eapply Forall_impl; [exact Hf|]. intros f. by apply file_known_stable. Qed.

Lemma zoom1_holds_up {A} (m : M (connManager * N) A) s : fine m → served_ok s → holds_up (λ _, length s.2) (zoom1 m) s.
Proof.
  intros Hm [Hs Hf]. unfold holds_up, zoom1. specialize (Hm s.1 (conj Hs I)). destruct (m s.1) as [[a s1]| |]; [|done..].
  destruct Hm as [[Hr Hg] _]. split; [|done]. split; [by apply Hg|by eapply files_grow].
Qed.

Lemma new_file_holds_up m s : calm (λ _, True) opened_known m → served_ok s → holds_up (one_more (length s.2)) (new_file m) s.
Proof.
  destruct s as [s files]. intros Hm [Hs Hf]. unfold holds_up, new_file. specialize (Hm s (conj Hs I)).
  destruct (m s) as [[r s1]| |]; [|done..]. destruct Hm as [[Hr Hg] Ho]. destruct r as [f|e]; cbn.
  - split; [|rewrite length_app; cbn; lia]. split; [by apply Hg|]. apply Forall_app. split; [by eapply files_grow|].
    apply Forall_singleton. by apply Ho.
  - split; [|done]. split; [by apply Hg|by eapply files_grow].
Qed.

Lemma on_file_holds_up {A} i (m : File → M (connManager * N) (File * A)) s :
  (∀ f, file_calm f (m f)) → (i < length s.2)%nat → served_ok s → holds_up (λ _, length s.2) (on_file i m) s.
Proof.
  destruct s as [s files]. intros Hm Hi [Hs Hf]. unfold holds_up, on_file. cbn [fst snd] in *.
  destruct (lookup_lt_is_Some_2 files i Hi) as [f Ef]. rewrite Ef.
  specialize (Hm f s (conj Hs (Forall_lookup_1 _ _ _ _ Hf Ef))). destruct (m f s) as [[[f' a] s1]| |]; [|done..].
  destruct Hm as [[Hr Hg] Hf']. split; [|cbn; by rewrite length_insert]. split; [by apply Hg|].
  apply Forall_insert; [by eapply files_grow|exact Hf'].
Qed.

Lemma handle_holds_up fuel c s : allowed (length s.2) c → served_ok s → holds_up (files_after (length s.2) c) (handle base fuel c) s.
Proof.
  intros Hc Hs. destruct c; cbn [handle allowed files_after] in *;
    first [ apply new_file_holds_up; [|exact Hs] | apply on_file_holds_up; [intros f|exact Hc|exact Hs] | apply zoom1_holds_up; [|exact Hs] ];
    try apply calm_OpenFile; try apply fine_change_privs; try apply fine_FS_Stat; try (apply fine_map, fine_vol_unit; intros; apply fine_on_invoke).
  - unfold FSStat, statFS. apply fine_then; [|intros [info err]; by apply calm_ret].
    apply fine_vol_op. intros c v ctx. apply (fine_StatFS _ _ (st_stable c)), st_request.
  - eapply calm_bind; [apply fine_random8|]. intros [b|e]; [apply calm_OpenFile|]. apply calm_ret. by intros w _ f.
  - unfold FS_ReadDir. apply fine_then; [|intros [l err]; by apply calm_ret].
    apply fine_vol_op. intros c v ctx. apply (fine_ReadDir _ _ (st_stable c)), st_request.
  - unfold MkdirAll. cbv zeta. case_bool_decide; [by apply calm_ret|apply fine_mkdir_loop].
  - apply fine_map, fine_vol_unit. intros c v ctx. apply (fine_Symlink _ _ (st_stable c)); [apply st_request|done].
  - done.
  - apply fine_Chtimes.
  - apply calm_File_Read.
  - apply calm_File_ReadAt.
  - apply calm_File_Write.
  - by apply calm_ret.
  - apply calm_File_Truncate.
  - apply calm_File_Close.
Qed.

(** ** Sessions *)

(** A library that does not panic itself, with [n] files open or more. *)
Fixpoint polite {L} (n : nat) (t : session L) : Prop :=
  match t with
  | Finish _ => True
  | Issue c k => allowed n c ∧ ∀ x, polite (files_after n c x) (k x)
  | Wait m => ∀ l, match m l with Ret (t, _) => polite n t | Panics => False | NoFuel => True end
  end.

Lemma run_session_holds_up {L} fuel (t : session L) s l :
  served_ok s → polite (length s.2) t → run_session base fuel t (s, l) ≠ Panics.
Proof.
  revert s l. induction t as [r|c k IH|m IH] using session_induction; intros s l Hs Ht; cbn [run_session polite] in *; [done|..].
  - destruct Ht as [Hc Hk]. pose proof (handle_holds_up fuel c s Hc Hs) as Hh. unfold holds_up in Hh.
    unfold mbind, M_bind, zoom1. cbn [fst snd]. destruct (handle base fuel c s) as [[x s1]| |]; [|done..].
    destruct Hh as [Hs1 Hn]. apply IH; [done|]. rewrite Hn. apply Hk.
  - specialize (IH l). specialize (Ht l). destruct (m l) as [[t l1]| |]; [|done..]. by apply IH.
Qed.

(** From the dial on. *)
Lemma mount_holds_up {L Listener} fuel (nfs : Listener → Z → session L) a n w l :
  polite 0 (nfs a n) →
  match New base w with
  | Ret (Ok m, w) => Serve base fuel nfs a n (m, (w, l)) ≠ Panics
  | Ret (Err _, _) | NoFuel => True
  | Panics => False
  end.
Proof.
  intros Ht. unfold New, newConnManager, try_bind, mbind, M_bind.
  pose proof (st_dial (withTimeout base) w I) as Hd. destruct (net_dial _ w) as [[[lk|e] w1]| |]; [|done..]. destruct Hd as [_ Hk].
  unfold Serve. cbn. pose proof (run_session_holds_up fuel (nfs a n) ((installed 1 lk, w1), []) l) as Hr.
  destruct (run_session _ _ _ _) as [[r [[[m w2] files] l2]]| |]; [done| |done].
  exfalso. apply Hr; [|done|done]. split; [|constructor]. intros l' [= <-]. by apply Hk.
Qed.

End mount.

(** ** Signing on as a guest *)

Section sign_on.
Context {W : Type} `{Machine W} `{Entropy W} `{Cast5} (R : W → W → Prop) `{!PreOrder R} (known : nat → W → Prop).

Abbreviation on c := (mc_transport c).
Abbreviation fine_on c := (tame R (known c) (λ _ _, True)).
Abbreviation dials m := (tame R (λ _, True) (λ w r, ∀ c, r = Ok c → known c w) m).

Context (Hst : ∀ c, stable R (known c)).
Context (Hreq : ∀ c ctx cmd off payload, fine_on c (@t_request W (on c) ctx cmd off payload)).
Context (Hdial : ∀ ctx addr, dials (mc_connect ctx addr)).
Context (Hclose : ∀ c w, R w (mc_close c w)) (Htickle : ∀ c w, R w (mc_tickle c w)) (Hquantum : ∀ c q w, R w (mc_set_quantum c q w)).

Lemma dial_then {A B} (f : A → nat) (Q : W → result B → Prop) (m : M W (result A)) (k : A → M W (result B)) :
  tame R (λ _, True) (λ w r, ∀ a, r = Ok a → known (f a) w) m → (∀ a, tame R (known (f a)) Q (k a)) → (∀ w e, Q w (Err e)) →
  tame R (λ _, True) Q (try_bind m k).
Proof.
  intros Hm Hk He. unfold try_bind. eapply tame_bind; [done|apply stable_const|exact Hm|]. intros [a|e].
  - intros w [_ Ha]. exact (Hk a w (Ha a eq_refl)).
  - apply tame_ret; [done|]. intros w _. apply He.
Qed.

Lemma fine_close c : fine_on c (Conn_Close c).
Proof. unfold Conn_Close. apply tame_modify, Hclose. Qed.

Lemma fine_fetchStatus ctx host : tame R (λ _, True) (λ _ _, True) (fetchStatus ctx host).
Proof.
  unfold fetchStatus. apply (dial_then id); [apply Hdial| |done]. intros c. cbn. unfold finally, GetStatus.
  apply fine_bind; [done|apply Hst| |intros r; apply fine_bind; [done|apply Hst|apply fine_close|intros ?; by apply fine_ret]].
  apply fine_try; [done|apply Hst| |intros block; apply fine_lift; [done|apply ParseServerInfo_total]].
  apply fine_try; [done|apply Hst|apply Hreq|intros r; by apply fine_ret].
Qed.

Lemma fine_OpenSession c ctx : fine_on c (OpenSession c ctx).
Proof.
  unfold OpenSession. apply fine_try; [done|apply Hst|apply Hreq|]. intros r.
  apply fine_bind; [done|apply Hst|apply tame_modify, Htickle|]. intros _.
  apply fine_bind; [done|apply Hst|by apply fine_get|]. intros w.
  apply fine_bind; [done|apply Hst| |].
  - apply fine_lift; [done|].
    destruct (parse_options_total (S (length (rp_Payload r))) (rp_Payload r) 0 (@t_quantum W (on c) w)) as (x&q&->);
      [lia|lia|unfold len; lia|]. by eexists.
  - intros [res q]. apply fine_bind; [done|apply Hst|apply tame_modify, Hquantum|]. intros _. by apply fine_ret.
Qed.

Lemma fine_guest c ctx info password s : fine_on c (@Login W (on c) _ _ ctx info [] password s).
Proof.
  unfold Login. destruct (pickVersion _); [|by apply fine_ret]. cbv zeta.
  apply fine_bind; [done|apply Hst| |intros r; by apply fine_ret]. rewrite bool_decide_eq_true_2 by done.
  case_bool_decide; [by apply fine_ret|]. unfold loginGuest, login.
  apply fine_try; [done|apply Hst|apply (fine_command (H := on c)); [done|apply Hst|apply Hreq]|]. intros [payload code]. by apply fine_ret.
Qed.

(** The connection that a program returns is the one it was given. *)
Abbreviation hands c f m := (tame R (known c) (λ w r, ∀ b, r = Ok b → known (f b) w) m).

Lemma hands_close {B} (f : B → nat) c e : hands c f (_ ← Conn_Close c; mret (Err e)).
Proof. eapply tame_bind; [done|apply Hst|apply fine_close|]. intros u. by apply tame_ret. Qed.

Lemma hands_bind {A B} (f : B → nat) c (m : M W A) (k : A → M W (result B)) : fine_on c m → (∀ a, hands c f (k a)) → hands c f (m ≫= k).
Proof. intros Hm Hk. eapply tame_bind; [done|apply Hst|exact Hm|]. intros a. eapply tame_mono; [apply Hk|tauto|done]. Qed.

Lemma hands_ret {B} (f : B → nat) (b : B) : hands (f b) f (mret (Ok b)).
Proof. apply tame_ret; [done|]. by intros w Hw b' [= <-]. Qed.

Lemma connect_known ctx t : t_username t = [] → dials (connect ctx t).
Proof.
  intros Hu. unfold connect. rewrite Hu. unfold try_bind at 1.
  eapply tame_bind; [done|apply stable_const|apply fine_fetchStatus|]. intros [info|e]; [|by apply tame_ret].
  apply (tame_mono _ _ (λ _, True) (λ w r, ∀ c, r = Ok c → known c w)); [|done|done]. eapply (dial_then id); [apply Hdial| |done]. intros c. cbn [id].
  apply hands_bind; [apply fine_OpenSession|]. intros [[]|e]; [|apply hands_close].
  apply hands_bind; [apply fine_guest|]. intros [s [[]|e]]; [|apply hands_close]. apply (hands_ret id).
Qed.

Lemma mount_dial_known `{Norm} t ctx :
  t_username t = [] → tame R (λ _, True) (λ w r, ∀ l, r = Ok l → known (l_conn l) w) (mount_dial t ctx).
Proof.
  intros Hu. unfold mount_dial. eapply (dial_then id); [by apply connect_known| |done]. intros c. cbn [id].
  apply hands_bind; [apply (fine_OpenVolume (H := on c)); [done|apply Hst|apply Hreq]|]. intros [v|e]; [|apply hands_close].
  apply (hands_ret l_conn (MkLink c v)).
Qed.

End sign_on.

(** ** DSI connections *)

Section dsi.
Context {St : Type} (serve : server St) `{Entropy (DsiNet St)} `{Cast5}.

(** Connections are never forgotten. *)
Definition net_grows (w w' : DsiNet St) : Prop := (length (nt_conns w) ≤ length (nt_conns w'))%nat.
Definition net_known (c : nat) (w : DsiNet St) : Prop := (c < length (nt_conns w))%nat.

#[local] Instance net_grows_order : PreOrder net_grows.
Proof. unfold net_grows. split; [by intros w|]. intros w1 w2 w3. lia. Qed.

Lemma net_known_stable c : stable net_grows (net_known c).
Proof. unfold net_grows, net_known. intros w w'. lia. Qed.

Lemma dsi_request_tame c ctx cmd off payload :
  tame net_grows (net_known c) (λ _ _, True) (@t_request _ (dsi_transport serve c) ctx cmd off payload).
Proof.
  intros w Hw. cbn. destruct (lookup_lt_is_Some_2 (nt_conns w) c Hw) as [ep ->].
  destruct (ep_request _ _ _ _ _ _ _) as [[[r ep'] st]|]; [|done]. split; [|done]. unfold net_grows. cbn. by rewrite length_insert.
Qed.

Lemma dsi_connect_tame ctx addr :
  tame net_grows (λ _, True) (λ w r, ∀ c, r = Ok c → net_known c w) (@mc_connect _ (dsi_machine serve) ctx addr).
Proof.
  intros w _. cbn. unfold dsi_connect, net_grows, net_known. destruct (default _ _) as [events|e]; cbn; [|by split].
  rewrite length_app. cbn. split; [lia|]. intros c [= <-]. lia.
Qed.

Context (Hrand : ∀ n, tame net_grows (λ _, True) (λ _ _, True) (rand_Read n)).

Definition dsi_sturdy `{Norm} t : t_username t = [] → @Sturdy (DsiNet St) (@mount_network _ (dsi_machine serve) _ _ t) _.
Proof.
  intros Hu. refine (@Build_Sturdy _ (@mount_network _ (dsi_machine serve) _ _ t) _ net_grows _ net_known net_known_stable
    dsi_request_tame _ _ Hrand).
  - intros ctx. cbn. apply (@mount_dial_known _ (dsi_machine serve)); try done.
    + apply net_grows_order.
    + apply net_known_stable.
    + apply dsi_request_tame.
    + apply dsi_connect_tame.
    + intros c w. unfold net_grows. cbn. by rewrite length_alter.
    + intros c w. unfold net_grows. cbn. by rewrite length_alter.
    + intros c q w. unfold net_grows. cbn. by rewrite length_alter.
  - intros c w. unfold net_grows. cbn. by rewrite length_alter.
Defined.

End dsi.

(** ** Properties *)

(** C14: no server can crash a mount: whatever a server replies to the requests
    of the client, and whatever happens to the DSI connections (tickles,
    attention messages, failed requests, lost connections, reconnects that
    fail), mounting a volume as a guest does not panic, and no call that an NFS
    library makes on the mounted filesystem panics, in any order and with any
    arguments, if it makes its calls one at a time, calls methods of files that
    it has opened and leaves [Readlink] alone (which trusts the length that the
    server reports).  One at a time is needed: when goroutines reconnect at once
    one of them can be left with a nil volume (see the end of FsSpec.v). *)
Theorem mount_never_panics {St L Listener : Type} (serve : server St) `{Entropy (DsiNet St)} `{Cast5} `{Norm} `{ErrgroupLaw}
    t base fuel (nfs : Listener → Z → session L) a n (w : DsiNet St) (l : L) :
  let net := @mount_network (DsiNet St) (dsi_machine serve) _ _ t in
  (∀ n, tame net_grows (λ _, True) (λ _ _, True) (rand_Read n)) → t_username t = [] → polite 0 (nfs a n) →
  match @New _ net base w with
  | Ret (Ok m, w) => @Serve _ net _ _ _ base fuel _ _ nfs a n (m, (w, l)) ≠ Panics
  | Ret (Err _, _) | NoFuel => True
  | Panics => False
  end.
Proof. intros net Hrand Hu Ht. by apply (@mount_holds_up _ net _ (dsi_sturdy serve Hrand t Hu)). Qed.

(** A server that lets guests in, and then answers every request, opening a
    fork and listing a directory included, with the same words. *)
Definition gossip : bytes := str "there were sixty-four of them".
Definition rude_server : server bytes := λ cmd off payload d,
  if bool_decide (cmd = CmdCommand ∨ cmd = CmdWrite) && negb (bool_decide (head payload = Some (byte_of_Z cmdLogin) ∨ head payload = Some (byte_of_Z cmdOpenVol)))
  then (0, gossip, d) else nas_server cmd off payload d.

(** What it does to a library that creates a file, writes it, reads it and lists
    the directory. *)
Definition some_calls : session unit :=
  Issue (CallCreate [] (str "a")) (λ r, match r with
    | Ok i => Issue (CallWrite i (str "text")) (λ _,
        Issue (CallReadAt i (str "....") 0) (λ x, Issue (CallReadDir [] (str "/")) (λ r,
        Finish (match r with Ok _ => Ok tt | Err e => Err e end))))
    | Err e => Finish (Err e)
    end).

Lemma mount_never_panics_witness :
  let net := @mount_network (DsiNet bytes) (dsi_machine rude_server) dsi_entropy no_ciphers nas_target in
  polite 0 some_calls ∧
  match @New _ net Background (MkNet [] [] [] ∅) with
  | Ret (Ok m, w) => @Serve _ net plain_norm in_order dsi_entropy Background 40 unit unit (λ _ _, some_calls) tt 4096 (m, (w, tt)) ≠ Panics
  | Ret (Err _, _) | NoFuel => True
  | Panics => False
  end.
Proof.
  intros net.
  assert (polite 0 some_calls) as Ht.
  { split; [exact I|]. intros [i|e]; cbn; repeat split; auto with arith. }
  split; [exact Ht|].
  apply (@mount_never_panics bytes unit unit rude_server dsi_entropy no_ciphers plain_norm in_order in_order_law
    nas_target Background 40 (λ _ _, some_calls) tt 4096 (MkNet [] [] [] ∅) tt); [|reflexivity|exact Ht].
  intros k w _. split; [apply Nat.le_refl|exact I].
Defined.

(** It was mounted, and the calls came to an end. *)
Example rude_mount :
  let net := @mount_network (DsiNet bytes) (dsi_machine rude_server) dsi_entropy no_ciphers nas_target in
  match @New _ net Background (MkNet [] [] [] ∅) with
  | Ret (Ok m, w) =>
    match @Serve _ net plain_norm in_order dsi_entropy Background 40 unit unit (λ _ _, some_calls) tt 4096 (m, (w, tt)) with
    | Ret (Ok _, _) => 0
    | Ret (Err _, _) => 1
    | Panics => 2
    | NoFuel => 3
    end
  | Ret (Err _, _) => 4
  | _ => 5
  end = 1.
Proof. vm_compute. reflexivity. Qed.

(** [Readlink] of a link for which the server reports a size of 2^63. *)
Definition huge_server : server unit := λ cmd off payload st, (0, be_bytes 2 kFPExtDataForkLenBit ++ be_bytes 2 7 ++ be_bytes 8 (2 ^ 63), st).

Example ReadLink_huge_panics :
  @ReadLink unit (direct_transport huge_server 0) plain_norm in_order (MkVolume 1 (str "Data") 0) Background RootDirID (str "link") tt = Panics.
Proof. vm_compute. reflexivity. Qed.
