(* ===== verification/Typed.v ===== *)
(** * Entries are well-typed, and listings print their numbers exactly

    Whatever a server replies, each number of a directory entry fits the width
    of its field in Go, a date is one that a signed 32-bit count of seconds can
    name, and the columns of "goafp ls" read back as the numbers they show. *)

From S2P Require Import Prelude Header Result Wire Entry ServerInfo Conn Transport Session SessionSpec Errgroup Fork Ops Login Manager Path Bridge Serve Url Keeps Command Tracked CommandSpec.

Open Scope go_scope.

(** ** The widths of the fields *)

(** AFP dates: 2^31 seconds on both sides of the epoch 2000-01-01. *)
Definition date_typed (t : option Z) : Prop :=
  ∀ s, t = Some s → afpEpochDelta - 2 ^ 31 ≤ s < afpEpochDelta + 2 ^ 31.

Definition privs_typed (u : UnixPrivs) : Prop :=
  0 ≤ UID u < 2 ^ 32 ∧ 0 ≤ GID u < 2 ^ 32 ∧ 0 ≤ Permissions u < 2 ^ 32.

Record entry_typed (e : DirEntry) : Prop := {
  et_Size : 0 ≤ e_Size e < 2 ^ 64;
  et_NodeID : 0 ≤ e_NodeID e < 2 ^ 32;
  et_ParentDirID : 0 ≤ e_ParentDirID e < 2 ^ 32;
  et_Offspring : 0 ≤ e_Offspring e < 2 ^ 16;
  et_CreateTime : date_typed (e_CreateTime e);
  et_ModTime : date_typed (e_ModTime e);
  et_UnixPrivs : privs_typed (e_UnixPrivs e);
}.

Lemma zeroEntry_typed isDir : entry_typed (zeroEntry isDir).
Proof. by split. Qed.

Lemma afpDate_typed v : date_typed (Some (afpDate v)).
Proof.
  intros s [= <-]. pose proof (swrap_range 32 v ltac:(lia)). unfold afpDate. change afpEpochDelta with 946684800 in *.
  rewrite (swrap_small 64) by lia. lia.
Qed.

(** An assignment of a value within its bounds. *)
Ltac typed := intros; repeat match goal with H : entry_typed _ |- _ => destruct H end;
  repeat match goal with H : privs_typed _ |- _ => destruct H as (?&?&?) end;
  split; cbn in *; unfold privs_typed; cbn; split_and?; first [done | lia | apply afpDate_typed | idtac].

(** A parser of an entry's fields, and one that may stop with an error. *)
Abbreviation field_parser m := (rsafe entry_typed m).
Abbreviation field_parser_err m := (rsafe (λ p : DirEntry * option error, entry_typed p.1) m).

Lemma typed_on {A} (P : A → Prop) c m (set : A → DirEntry → DirEntry) e :
  rsafe P m → (∀ v e, P v → entry_typed e → entry_typed (set v e)) → entry_typed e → field_parser (on c m set e).
Proof.
  intros Hm Hset He. unfold on. destruct c; [|by apply rsafe_ret].
  eapply rsafe_bind; [exact Hm|]. intros v Hv. apply rsafe_ret. by apply Hset.
Qed.

Lemma typed_skip {A} (P : A → Prop) c m e : rsafe P m → entry_typed e → field_parser (@skip A c m e).
Proof. intros Hm He. by eapply typed_on; [exact Hm| |]. Qed.

Lemma typed_name_at find norm off e :
  (∀ o, ∃ r, find o = Ret r) → entry_typed e → field_parser_err (name_at find norm off e).
Proof.
  intros Hf He. unfold name_at. eapply rsafe_bind; [apply rsafe_get|]. intros r _.
  destruct (rerr r); [by apply rsafe_ret|].
  destruct (Hf off) as [[n|er] E]; rewrite E; intros r' Hr'.
  - exists (set_Name (norm n) e, None), r'. split_and!; try done. by typed.
  - by exists (e, Some er), r'.
Qed.

(** Peels one field, or one number that is not kept. *)
Ltac typed_step :=
  first
    [ by apply rsafe_ret
    | eapply rsafe_bind; [eapply typed_skip; [solve [eauto with rsafe] | done] | intros ? ?]
    | eapply rsafe_bind; [eapply typed_on; [solve [eauto with rsafe] | by typed | done] | intros ? ?]
    | eapply typed_skip; [solve [eauto with rsafe] | done]
    | eapply typed_on; [solve [eauto with rsafe] | by typed | done]
    | match goal with |- rsafe _ (if ?c then _ else _) => destruct c end ].

Lemma typed_fixed bm e : entry_typed e → field_parser (parse_fixed bm e).
Proof.
  intros He. unfold parse_fixed. do 5 typed_step. eapply typed_on; [by apply rsafe_take_32| |done].
  intros v e' _ He'. destruct (is_slnk v); [by typed|done].
Qed.

Lemma typed_middle isDir bm e : entry_typed e → field_parser (parse_middle isDir bm e).
Proof. intros He. unfold parse_middle. repeat typed_step. Qed.

Lemma typed_longname block bm e : entry_typed e → field_parser_err (parse_longname block bm e).
Proof.
  intros He. unfold parse_longname. destruct (has bm _); [|by apply rsafe_ret].
  eapply rsafe_bind; [apply rsafe_u16|]. intros off _. apply typed_name_at; [apply pascalAt_total|done].
Qed.

Lemma typed_utf8name `{Norm} block bm e : entry_typed e → field_parser_err (parse_utf8name block bm e).
Proof.
  intros He. unfold parse_utf8name. destruct (has bm _); [|by apply rsafe_ret].
  do 2 (eapply rsafe_bind; [eauto with rsafe|intros ? _]). apply typed_name_at; [|done].
  intros o. apply pascal2At_total.
Qed.

Lemma typed_tail isDir bm e : entry_typed e → field_parser (parse_tail isDir bm e).
Proof.
  intros He. unfold parse_tail. typed_step. destruct (has bm _); [|by apply rsafe_ret]. cbv zeta.
  do 4 (eapply rsafe_bind; [apply rsafe_u32|intros ? ?]). eapply rsafe_bind; [apply rsafe_get|]. intros r _.
  apply rsafe_ret. by typed.
Qed.

Lemma typed_body `{Norm} block isDir bm : field_parser_err (parse_body block isDir bm).
Proof.
  unfold parse_body. eapply rsafe_bind; [apply typed_fixed, zeroEntry_typed|]. intros e1 H1.
  eapply rsafe_bind; [by apply typed_longname|]. intros [e2 [er|]] H2; [by apply rsafe_ret|].
  eapply rsafe_bind; [by apply typed_middle|]. intros e3 H3.
  eapply rsafe_bind; [by apply typed_utf8name|]. intros [e4 [er|]] H4; [by apply rsafe_ret|].
  eapply rsafe_bind; [by apply typed_tail|]. intros e5 H5.
  eapply rsafe_bind; [apply rsafe_get|]. intros r _. by apply rsafe_ret.
Qed.

Lemma parseEntryParams_typed `{Norm} block isDir bm :
  ∃ e er, parseEntryParams block isDir bm = Ret (e, er) ∧ entry_typed e.
Proof.
  destruct (rsafe_run _ _ block (typed_body block isDir bm)) as ([e er]&r&E&_&_&He).
  exists e, er. split; [|done]. unfold parseEntryParams. by rewrite E.
Qed.

(** ** Replies *)

Definition result_all {A} (P : A → Prop) (r : result A) : Prop := match r with Ok a => P a | Err _ => True end.

Section replies.
Context `{Norm}.

Lemma typed_entries fbm dbm n i entries :
  Forall entry_typed entries → rsafe (result_all (Forall entry_typed)) (enumerate_entries fbm dbm n i entries).
Proof.
  revert i entries. induction n as [|n IH]; intros i entries He; cbn [enumerate_entries]; [by apply rsafe_ret|].
  do 4 rsafe_step. destruct (rerr _); [by apply rsafe_ret|]. case_bool_decide; [by apply rsafe_ret|].
  eapply rsafe_bind; [eapply rsafe_take; lia|]. intros block _.
  rsafe_step. destruct (rerr _); [by apply rsafe_ret|].
  eapply (rsafe_bind (λ p : DirEntry * option error, entry_typed p.1)).
  { intros r Hr. destruct (parseEntryParams_typed (default [] block) (negb (a0 =? 0)) (if negb (a0 =? 0) then dbm else fbm))
      as (e&er&E&Ht). rewrite E. by exists (e, er), r. }
  intros [e [er|]] Ht; [by apply rsafe_ret|]. apply IH. apply Forall_app. by split; [|apply Forall_singleton].
Qed.

Lemma parseEnumerateReply_typed payload :
  ∃ r, parseEnumerateReply payload = Ret r ∧ result_all (Forall entry_typed) r.
Proof.
  unfold parseEnumerateReply.
  destruct (rsafe_run (result_all (Forall entry_typed)) enumerate_reply payload) as (a&r&E&_&_&Ha).
  { unfold enumerate_reply. do 4 rsafe_step. destruct (rerr _); [by apply rsafe_ret|by apply typed_entries]. }
  exists a. by rewrite E.
Qed.

Lemma parse_stat_typed payload r : parse_stat payload = Ret r → result_all entry_typed r.
Proof.
  unfold parse_stat.
  match goal with |- (?m ≫= _) = _ → _ => destruct m as [[[[[fb db] d]|e] r']| |]; cbn [mbind outcome_bind]; [|by intros [= <-]|done..] end.
  destruct (slice _ _ _) as [block| |]; cbn [mbind outcome_bind]; [|done..].
  destruct (parseEntryParams_typed block d (if d then db else fb)) as (e&er&->&Ht). cbn [mbind outcome_bind].
  destruct er; by intros [= <-].
Qed.

End replies.

(** ** Operations, over any connection *)

Section operations.
Context {W : Type} `{Transport W} `{Norm}.

Lemma ReadDir_loop_typed fuel v ctx dirID path start all w r w' :
  Forall entry_typed all → ReadDir_loop fuel v ctx dirID path start all w = Ret (r, w') →
  result_all (Forall entry_typed) r.
Proof.
  revert start all w. induction fuel as [|fuel IH]; intros start all w Hall; cbn [ReadDir_loop]; [done|].
  unfold try_bind. intros ([[payload code]|e]&w1&_&E)%M_bind_inv; [|by injection E as <- _].
  case_bool_decide; [by injection E as <- _|].
  apply M_bind_inv in E as ([]&w2&_&E); [|by injection E as <- _].
  apply M_bind_inv in E as (es&w3&Ep&E). unfold lift in Ep.
  destruct (parseEnumerateReply_typed payload) as (r'&Er&Ht). rewrite Er in Ep. injection Ep as <- <-.
  destruct r' as [es|e]; [|by injection E as <- _].
  case_bool_decide; [by injection E as <- _|]. apply IH in E; [done|]. by apply Forall_app.
Qed.

Lemma Stat_typed v ctx dirID path w r w' :
  Stat v ctx dirID path w = Ret (r, w') → result_all entry_typed r.
Proof.
  unfold Stat, try_bind. intros ([payload|e]&w1&_&E)%M_bind_inv; [|by injection E as <- _].
  unfold lift in E. destruct (parse_stat payload) as [r'| |] eqn:Er; [|done..].
  injection E as -> _. exact (parse_stat_typed payload r Er).
Qed.

End operations.

(** ** Numerals *)

(** The number that a numeral denotes. *)
Definition number (base : Z) (s : bytes) : Z := foldl (λ n c, n * base + default 0 (unhex c)) 0 s.

Lemma unhex_digit z : 0 ≤ z < 16 → unhex (digit z) = Some z.
Proof.
  intros Hz. rewrite <- (Z2Nat.id z) by lia. assert (Z.to_nat z < 16)%nat as Hn by lia.
  generalize dependent (Z.to_nat z). intros n Hn. do 16 (destruct n as [|n]; [reflexivity|]). lia.
Qed.

Lemma digits_loop_number fuel base z acc :
  2 ≤ base ≤ 16 → 0 ≤ z < base ^ Z.of_nat fuel →
  number base (digits_loop fuel base z acc) = foldl (λ n c, n * base + default 0 (unhex c)) z acc.
Proof.
  intros Hb. unfold number. revert z acc. induction fuel as [|fuel IH]; intros z acc Hz; cbn [digits_loop].
  - by replace z with 0 by lia.
  - case_bool_decide as Hlt; cbn [foldl].
    + rewrite unhex_digit by lia. by f_equal.
    + rewrite Nat2Z.inj_succ, Z.pow_succ_r in Hz by lia.
      rewrite IH by (split; [apply Z.div_pos; lia|apply Z.div_lt_upper_bound; lia]). cbn [foldl]. f_equal.
      pose proof (Z.mod_pos_bound z base). rewrite unhex_digit by lia. cbn. pose proof (Z.div_mod z base). lia.
Qed.

Lemma digits_number base z : 2 ≤ base ≤ 16 → 0 ≤ z < 2 ^ 64 → number base (digits base z) = z.
Proof.
  intros Hb Hz. unfold digits. rewrite digits_loop_number; [done|done|]. split; [lia|].
  eapply Z.lt_le_trans; [apply Hz|]. apply Z.pow_le_mono_l. lia.
Qed.

Lemma number_pad base width s : number base (pad_left x30 width s) = number base s.
Proof.
  unfold number, pad_left. rewrite foldl_app. f_equal.
  induction (width - length s)%nat as [|n IH]; [done|]. cbn. exact IH.
Qed.

(** How long a numeral is. *)
Lemma digits_loop_length fuel base z acc n :
  2 ≤ base → 0 ≤ z < base ^ Z.of_nat n → (0 < n)%nat → (length (digits_loop fuel base z acc) ≤ n + length acc)%nat.
Proof.
  intros Hb. revert z acc n. induction fuel as [|fuel IH]; intros z acc n Hz Hn; cbn [digits_loop]; [lia|].
  case_bool_decide as Hlt; [cbn; lia|]. destruct n as [|n]; [lia|].
  rewrite Nat2Z.inj_succ, Z.pow_succ_r in Hz by lia.
  destruct n as [|n]; [change (base ^ Z.of_nat 0) with 1 in Hz; lia|].
  specialize (IH (z / base) (digit (z mod base) :: acc) (S n)). cbn [length] in IH.
  transitivity (S n + S (length acc))%nat; [|lia]. apply IH; [|lia].
  split; [apply Z.div_pos; lia|apply Z.div_lt_upper_bound; lia].
Qed.

(** ** Properties *)

(** C21: whatever a server replies, the entries of [ReadDir] and [Stat] are
    well-typed (every number within the width of its field, every date within
    2^31 seconds of the year 2000), and the line that "goafp ls" prints of such
    an entry shows exactly them: the size column is the numeral of the size or,
    for a directory, of the number of its items, and the column of privileges,
    which is there exactly when the server sent them, has the four octal digits
    of the permission bits and the numerals of the owner and the group. *)
Theorem listing_well_typed {W L : Type} `{Transport W} `{Norm} `{Local L} :
  (∀ fuel v ctx dirID path w es w', ReadDir fuel v ctx dirID path w = Ret (Ok es, w') → Forall entry_typed es) ∧
  (∀ v ctx dirID path w e w', Stat v ctx dirID path w = Ret (Ok e, w') → entry_typed e) ∧
  (∀ e, entry_typed e → ∃ perms size when,
    formatEntry e = (if e_IsDir e then str "d" else str "-") ++ perms ++ str " " ++ pad_left x20 12 size
                    ++ str "  " ++ when ++ str "  " ++ e_Name e ∧
    (if e_IsDir e then ∃ n, size = n ++ str " items" ∧ number 10 n = e_Offspring e else number 10 size = e_Size e) ∧
    (if e_HasUnix e then ∃ mode uid gid,
       perms = str " " ++ mode ++ str " " ++ pad_left x20 5 uid ++ str ":" ++ pad_right 5 gid ∧ length mode = 4%nat ∧
       number 8 mode = Permissions (e_UnixPrivs e) mod 2 ^ 12 ∧
       number 10 uid = UID (e_UnixPrivs e) ∧ number 10 gid = GID (e_UnixPrivs e)
     else perms = [])).
Proof.
  split; [|split].
  - intros fuel v ctx dirID path w es w' E. by apply (ReadDir_loop_typed _ _ _ _ _ _ _ _ _ _ (Forall_nil_2 _)) in E.
  - intros v ctx dirID path w e w' E. by apply Stat_typed in E.
  - intros e [Hs _ _ Ho _ _ (Hu&Hg&Hp)]. unfold formatEntry. do 3 eexists. split; [reflexivity|]. split.
    + destruct (e_IsDir e); [eexists; split; [done|]|]; apply digits_number; lia.
    + destruct (e_HasUnix e); [|done].
      assert (Z.land (Permissions (e_UnixPrivs e)) 0xFFF = Permissions (e_UnixPrivs e) mod 2 ^ 12) as ->
        by (by rewrite <- Z.land_ones).
      pose proof (Z.mod_pos_bound (Permissions (e_UnixPrivs e)) (2 ^ 12)).
      do 3 eexists. split; [reflexivity|]. split; [|split; [|split; apply digits_number; lia]].
      * pose proof (digits_loop_length 64 8 (Permissions (e_UnixPrivs e) mod 2 ^ 12) [] 4) as Hl.
        unfold pad_left, digits. rewrite length_app, length_replicate. cbn [length] in Hl. lia.
      * rewrite number_pad. apply digits_number; lia.
Qed.

Lemma listing_well_typed_witness :
  (∃ es w', @ReadDir unit (direct_transport (dir_server sample_volume sample_dir) 0) plain_norm
      4 sample_volume Background RootDirID (str "/docs") tt = Ret (Ok es, w') ∧ length es = 3%nat ∧ Forall entry_typed es) ∧
  ∃ perms size when,
    @formatEntry loc loc_local (set_HasUnix true (set_Permissions 33188 (set_Size 42 (zeroEntry false))))
      = str "-" ++ perms ++ str " " ++ pad_left x20 12 size ++ str "  " ++ when ++ str "  " ∧ number 10 size = 42.
Proof.
  destruct (@listing_well_typed unit loc (direct_transport (dir_server sample_volume sample_dir) 0) plain_norm loc_local)
    as (HR&_&HF).
  split.
  - destruct (@ReadDir unit (direct_transport (dir_server sample_volume sample_dir) 0) plain_norm
      4 sample_volume Background RootDirID (str "/docs") tt) as [[[es|e] w']| |] eqn:E; [|vm_compute in E; discriminate..].
    exists es, w'. split; [reflexivity|]. split; [|exact (HR _ _ _ _ _ _ _ _ E)].
    vm_compute in E. injection E as <- _. reflexivity.
  - destruct (HF (set_HasUnix true (set_Permissions 33188 (set_Size 42 (zeroEntry false))))) as (perms&size&when&E&Es&_).
    + split; cbn; repeat split; done.
    + exists perms, size, when. split; [exact E|exact Es].
Defined.
